(* ===== verification/_CoqProject ===== *)
-Q . S2P
Prelude.v
GoStrings.v
Template.v
ConfigTypes.v
CircuitBreaker.v
Http.v
Metrics.v
Middleware.v
Known.v
Router.v
Cors.v
Observability.v
F64.v
Memory.v
Retry.v
Resolve.v
Config.v
Schema.v
SchemaGen.v
Reload.v
RateLimit.v
Auth.v
Proxy.v
Mux.v
Transform.v
Effects.v
Redis.v
Concurrency.v
LeakyBucket.v
RedisClient.v
Limits.v
Pipeline.v
Serving.v
Gateway.v
Server.v
Commands.v
EndToEnd.v
