(* ===== verification/Prelude.v ===== *)
(** * Tanugate: a verification development of the API gateway

    Tanugate is an HTTP gateway.  [cmd/gateway] loads a YAML configuration,
    builds one handler from it and serves requests until a signal asks for a
    reload or a shutdown.  The handler is a global chain (recovery, request
    identifiers, logging, metrics, CORS) around a router; every route has its
    middlewares (authentication, rate limits, CORS), its transforms, its retries
    and circuit breaker, and a reverse proxy to one upstream.  The development
    follows that structure: each file models the files of the source named in
    its title, operation by operation and under the source's names.

    ** Files and the code they model

    - Prelude: 64-bit integers, durations, and lemmas and tactics used by all
    - GoStrings: the functions of package strings, strconv and sort that the
      code calls; interfaces for regexp, for map iteration and for Unicode tables
    - Template: the placeholder pattern shared by config.go and transform.go
    - ConfigTypes: the structs of internal/config
    - CircuitBreaker: internal/middleware/circuitbreaker
    - Http: headers, requests, contexts, effects, response writers, server side
      of a connection, and the writeJSON helpers of internal/middleware
    - Middleware: internal/middleware chain.go, recovery.go, requestid.go,
      responsewriter.go, logging.go
    - Known: programs compared under known request headers
    - Router: internal/router
    - Cors: internal/middleware/cors.go
    - Metrics: internal/observability/metrics.go, the vectors of the collector,
      their registration and the samples they take
    - Observability: internal/observability (metrics middleware, health handler)
    - F64: float64, math.Pow, and the interface [Arith] of arithmetics
    - Memory, RateLimit, Redis, LeakyBucket: internal/middleware/ratelimit, the
      token bucket, the middleware, and the two scripts that Redis runs
    - RedisClient: the same file's client: its options, and the scripts on a
      network that loses requests and answers
    - Concurrency: the in-memory limiter as atomic steps of concurrent calls and of
      the cleanup goroutine
    - Limits: the Limiter interface, its two implementations, and the middleware
      on top of them
    - Retry: internal/middleware/retry
    - Resolve, Config, Schema, SchemaGen, Reload: internal/config (resolve.go,
      config.go, the validation and the generation in schema.go, and the comparison
      of two configurations in config.go)
    - Auth: internal/middleware/auth
    - Proxy: internal/proxy
    - Transform: internal/middleware/transform
    - Effects: what the programs of each component cost in events of a kind, the
      lemmas with which whole handlers are bounded
    - Pipeline: internal/pipeline (registry, factories, builder)
    - Serving: what a client receives through the global chain
    - Mux: cmd/gateway/main.go, the multiplexer, with the URL paths it sees
    - Gateway: cmd/gateway/main.go, start-up, reload, signal loop, shutdown
    - Server: cmd/gateway/main.go, requests against reloads, step by step
    - Commands: cmd/gateway/main.go, the sub-commands and their flags
    - EndToEnd: the built handler in service: attempts, samples, rates

    ** How the code is modelled

    Data are records and inductive types with the fields of the structs; an
    [int] or a [time.Duration] is a [Z] whose wrap-around is written out where
    the code computes with it, a [float64] is a [spec_float] of binary64, a map
    is a [gmap].  Where the order of a Go map is observable the order is given by
    the interface [RangeOrder] or by a permutation in the statement.

    Code with effects is a program, [Http.prog]: a finite tree of events whose
    leaves return or panic.  The events are everything a handler does to its
    surroundings: the methods of the response writer and of the request's header
    map, the clock, logs and metrics, the limiter, the breaker's two critical
    sections, a round trip to an upstream, OIDC discovery and verification,
    randomness, pools and servers.  A middleware that passes a wrapped response
    writer to the next handler handles the writer events of that handler through
    the methods of the wrapper, an instance of [Http.ResponseWriter]; [catch] is
    [defer] with [recover].  [Http.run] runs a program against an environment that
    answers every event and threads a world of any type, and [Http.serve] does so
    on a connection, [Http.Conn], that implements the server's own writer.
    Theorems quantify over all environments, so that they hold whatever the
    upstreams, the clock, other requests and the libraries do; where one needs
    more of the environment it says so in a hypothesis.

    Libraries are type classes, with laws only where a theorem needs them:
    [RegexpEngine], [RangeOrder], [UnicodeTables] (GoStrings), [NetPackage],
    [UrlPackage] (Http), [ContentSniffer] (Retry), [YamlLibrary] (Resolve),
    [SchemaLibrary] (Schema), [Encoders] (RateLimit), [KeyFiles], [JwtLibrary],
    [IntrospectionDecoder] (Auth), [JsonPackage], [TimeFormat] (Transform),
    [RedisServer] (Redis), [LuaNumbers] (LeakyBucket), [PrometheusRegistry]
    (Metrics), [SchemaReflector] (SchemaGen).  Each has a concrete
    instance with which the witnesses compute.  [Arith] (F64) has two instances,
    float64 and exact rationals: the rate theorems are about the exact numbers,
    and lemmas show where rounding makes a difference.

    ** What the theorems show

    - Circuit breaker: [Execute] refines the specification of a breaker
      (consecutive failures, timeout, probes); the state stays well formed under
      every interleaving of critical sections; a breaker left alone readmits
    - Pipeline: a handler is built exactly when every reference resolves and
      every pattern compiles, and always for a configuration that loads; what is
      built is the global chain around the router, with the middlewares of each
      route in order; a request that no authenticator accepts reaches no
      upstream; every request is answered, whatever panics
    - Serving: the built handler answers an unrouted request with exactly the 404
      document, and a preflight with the policy's headers when a CORS policy is the
      outermost middleware of the route, whatever follows it
    - Gateway: reloads are all or nothing, the configuration in service is valid and
      its handler is the one built from it, and connection pools do not leak; the
      same when requests and the steps of a reload interleave (Server), of which
      the sequential loop is a schedule
    - Multiplexer: where each request goes, and that paths without percent encoding
      reach the router clean
    - Commands: when [validate] prints OK the gateway starts, given its environment
    - End to end: from start-up on, a request leads to a bounded number of upstream
      requests, no metric sample panics, and an upstream behind an IP-keyed rate
      limit sees at most its rate from one address
    - Router: the first matching route serves the request, or 404 is sent
    - Authentication: the next handler runs only with a verified identity, for
      each kind of authenticator
    - Rate limits: the number of admitted calls for the token bucket, also under
      every interleaving of calls and cleanup, and for the leaky bucket and the
      sliding window, also on an unreliable network; without evictions concurrent
      calls are linearizable; the middleware's decision on every branch
    - Retry: the first final answer is the one sent, within the attempt bound
    - Configuration: the semantic checks report nothing exactly for valid
      configurations; merging overrides is a shallow update; equal configurations
      give no change summary; the schema cache is not observable; texts of the
      schema's duration pattern decode
    - Transforms and proxy: bodies within limits and of the declared length,
      placeholders replaced in one pass, responses relayed unchanged
    - Wrappers: the wrapped writer is transparent, recovery contains panics, CORS
      headers are those of the configuration

    Several lemmas record what the code does at the edges of its contracts: a
    straggler and a panicking probe of the breaker, informational responses, a
    response that breaks off, chains of renames, skewed clocks, windows below one
    millisecond, host patterns with a port, encoded dot segments, a bucket evicted
    while in use, a repeated script, a swap in two stores.

    ** Recursion

    Loops over slices are structural.  [Template.tokens] recurses with the length
    of the text as fuel, each step consuming at least one byte.  The retry loop
    recurses on the number of attempts left.  [F64.Pow] squares at most 64 times,
    once per bit of an int64 exponent.  [Gateway.signal_loop] consumes a list of
    wake-ups, one per iteration of the code's endless loop.
    [SchemaGen.parse_groups] has the length of the text as fuel, each round
    consuming a unit.

    ** Not modelled

    - the reflection library that generates the JSON schema, and the schema, JWT,
      OIDC, YAML, JSON and regexp libraries: interfaces or events
    - sockets and the HTTP protocol below a request and its response, the answer to
      [CONNECT] and the text of redirects: the standard library's
    - the exposition of metrics: the registry's
    - protocol upgrades through the proxy: an argument of the proxy's handler
    - repeated scripts that interleave with those of other calls: a repetition
      follows its first run at once
    - the sliding window behind the middleware: its bound needs members that are
      distinct, which a counter of 64 bits gives only until it wraps, so it is stated
      for lists of calls and is no instance of [Limits.BudgetedLimiter]
    - chunked writes of upstream bodies, trailers and flush intervals: the body
      of a response is copied as one text with an optional read error
    - options that only tests use ([WithClock], [WithSleep])

    ** Plan

    Next come the response of a routed request through the chain, with the CORS
    headers of a request that is not a preflight, and repeated scripts that interleave
    with other calls. *)

From Stdlib Require Export ZArith Lia.
From stdpp Require Export prelude strings gmap list.

#[global] Set Default Proof Using "Type".

(** ** Notation scope and hint databases of the development *)

Declare Scope gateway_scope.
Delimit Scope gateway_scope with gw.

Create HintDb gateway.
Create HintDb gateway_rw.

(** ** Go's fixed-width integers

    [int], [int64] and [time.Duration] are 64-bit two's complement numbers on
    the gateway's platforms.  They are kept as [Z] with the wrap-around written
    out where the source does arithmetic on them. *)

Definition min_int64 : Z := - 2 ^ 63.
Definition max_int64 : Z := 2 ^ 63 - 1.

(** Two's complement truncation to 64 bits. *)
Definition wrap64 (z : Z) : Z := (z + 2 ^ 63) `mod` 2 ^ 64 - 2 ^ 63.

Definition int64_range (z : Z) : Prop := (min_int64 ≤ z ≤ max_int64)%Z.

(** [time.Time.Sub] saturates at the bounds of [time.Duration]. *)
Definition saturate64 (z : Z) : Z := Z.max min_int64 (Z.min max_int64 z).

Lemma wrap64_id z : int64_range z → wrap64 z = z.
Proof.
  unfold int64_range, wrap64, min_int64, max_int64. intros Hz.
  rewrite Z.mod_small; lia.
Qed.

Lemma wrap64_range z : int64_range (wrap64 z).
Proof.
  unfold int64_range, wrap64, min_int64, max_int64.
  pose proof (Z.mod_pos_bound (z + 2 ^ 63) (2 ^ 64) ltac:(lia)). lia.
Qed.

(** Below a bound that is neither extreme, saturation is invisible. *)
Lemma saturate64_ge_iff z d :
  (min_int64 < d ≤ max_int64)%Z → (d ≤ saturate64 z ↔ d ≤ z)%Z.
Proof. unfold saturate64. lia. Qed.

#[export] Hint Resolve wrap64_range : gateway.

(** ** Durations, in nanoseconds *)

Definition Millisecond : Z := 1000000.
Definition Second : Z := 1000 * Millisecond.
Definition Minute : Z := 60 * Second.

(** [Time.Unix], [Time.UnixMilli] and [Duration.Milliseconds]. *)
Definition Unix (t : Z) : Z := t / Second.
Definition UnixMilli (t : Z) : Z := t / Millisecond.
Definition Milliseconds (d : Z) : Z := Z.quot d Millisecond.

(** ** Errors

    A Go [error] value.  [ErrCircuitOpen] is the sentinel compared with
    [errors.Is]; every other error of the gateway is only ever printed, so it
    carries its message. *)

Inductive error : Type :=
  | ErrCircuitOpen
  | Errorf (msg : string).

#[export] Instance error_eq_dec : EqDecision error.
Proof. solve_decision. Defined.

(** [err.Error()]. *)
Definition error_text (e : error) : string :=
  match e with ErrCircuitOpen => "circuit breaker is open" | Errorf msg => msg end.

(** A Go pair [(value, error)] of which exactly one is meaningful. *)
Inductive result (A : Type) : Type :=
  | Ok (a : A)
  | Err (e : error).
Arguments Ok {A} a.
Arguments Err {A} e.

Definition result_bind {A B} (r : result A) (f : A → result B) : result B :=
  match r with Ok a => f a | Err e => Err e end.

Definition is_ok {A} (r : result A) : bool :=
  match r with Ok _ => true | Err _ => false end.

(** ** Tactics *)

(** Case split on the scrutinee of a match or an [if] of the goal, keeping the
    equation. *)
Ltac case_goal :=
  match goal with
  | |- context [match ?x with _ => _ end] =>
      lazymatch x with
      | context [match _ with _ => _ end] => fail
      | _ => destruct x eqn:?
      end
  end.

(** The same on a hypothesis. *)
Ltac case_hyp H :=
  match type of H with
  | context [match ?x with _ => _ end] =>
      lazymatch x with
      | context [match _ with _ => _ end] => fail
      | _ => destruct x eqn:?
      end
  end.

(** Turn boolean tests of the source into propositions. *)
Ltac bool_to_prop :=
  repeat match goal with
  | H : _ && _ = true |- _ => apply andb_true_iff in H as [? ?]
  | H : _ || _ = false |- _ => apply orb_false_iff in H as [? ?]
  | H : negb _ = true |- _ => apply negb_true_iff in H
  | H : negb _ = false |- _ => apply negb_false_iff in H
  | H : (_ <=? _)%Z = true |- _ => apply Z.leb_le in H
  | H : (_ <=? _)%Z = false |- _ => apply Z.leb_gt in H
  | H : (_ <? _)%Z = true |- _ => apply Z.ltb_lt in H
  | H : (_ <? _)%Z = false |- _ => apply Z.ltb_ge in H
  | H : (_ >=? _)%Z = true |- _ => rewrite Z.geb_leb in H; apply Z.leb_le in H
  | H : (_ >=? _)%Z = false |- _ => rewrite Z.geb_leb in H; apply Z.leb_gt in H
  | H : (_ >? _)%Z = true |- _ => rewrite Z.gtb_ltb in H; apply Z.ltb_lt in H
  | H : (_ >? _)%Z = false |- _ => rewrite Z.gtb_ltb in H; apply Z.ltb_ge in H
  | H : (_ =? _)%Z = true |- _ => apply Z.eqb_eq in H
  | H : (_ =? _)%Z = false |- _ => apply Z.eqb_neq in H
  | H : bool_decide _ = true |- _ => apply bool_decide_eq_true in H
  | H : bool_decide _ = false |- _ => apply bool_decide_eq_false in H
  end.

(** ** Lists *)

Lemma filter_all {A} (P : A → Prop) `{!∀ x, Decision (P x)} (l : list A) :
  Forall P l → filter P l = l.
Proof.
  induction 1 as [|x l Hx Hl IH]; [done|].
  rewrite filter_cons_True by done. by rewrite IH.
Qed.

Lemma Forall2_elem_l {A B} (P : A → B → Prop) l k x :
  Forall2 P l k → x ∈ l → ∃ y, y ∈ k ∧ P x y.
Proof. induction 1; set_solver. Qed.

Lemma Forall2_elem_r {A B} (P : A → B → Prop) l k y :
  Forall2 P l k → y ∈ k → ∃ x, x ∈ l ∧ P x y.
Proof. induction 1; set_solver. Qed.
