(* ===== verification/GoStrings.v ===== *)
(** * Go's [strings] package and number formatting

    The functions of the standard library that the gateway applies to strings.
    A Go string is a byte sequence, here a [string] of [ascii].  Separators are
    single bytes wherever the source uses a one-byte separator. *)

From S2P Require Import Prelude.
From Stdlib Require Export Ascii.
From Stdlib Require String.
From stdpp Require Export pretty.

Local Open Scope nat_scope.

#[global] Arguments String.append !_ _ : simpl nomatch.

(** ** Searching *)

Fixpoint HasPrefix (s pre : string) : bool :=
  match pre, s with
  | "", _ => true
  | String a pre', String b s' => Ascii.eqb a b && HasPrefix s' pre'
  | String _ _, "" => false
  end.

(** [strings.Contains] for a one-byte substring. *)
Fixpoint ContainsByte (s : string) (c : ascii) : bool :=
  match s with
  | "" => false
  | String a s' => Ascii.eqb a c || ContainsByte s' c
  end.

(** [s[:n]] and [s[n:]]. *)
Definition slice_to (s : string) (n : nat) : string := String.substring 0 n s.
Fixpoint slice_from (s : string) (n : nat) : string :=
  match n, s with
  | O, _ => s
  | S n', String _ s' => slice_from s' n'
  | S _, "" => ""
  end.

(** [strings.TrimPrefix]. *)
Definition TrimPrefix (s pre : string) : string :=
  if HasPrefix s pre then slice_from s (String.length pre) else s.

(** [strings.Contains]. *)
Fixpoint ContainsStr (s sub : string) : bool :=
  HasPrefix s sub || match s with "" => false | String _ s' => ContainsStr s' sub end.

Definition HasSuffix (s suf : string) : bool :=
  (String.length suf <=? String.length s) &&
  String.eqb (slice_from s (String.length s - String.length suf)) suf.

(** [strings.Cut] at the first [c]: the parts before and after it. *)
Fixpoint Cut (s : string) (c : ascii) : option (string * string) :=
  match s with
  | "" => None
  | String a s' =>
      if Ascii.eqb a c then Some ("", s')
      else match Cut s' c with
           | Some (x, y) => Some (String a x, y)
           | None => None
           end
  end.

(** The parts around the last [c], where [strings.LastIndex] finds it. *)
Fixpoint CutLast (s : string) (c : ascii) : option (string * string) :=
  match s with
  | "" => None
  | String a s' =>
      match CutLast s' c with
      | Some (x, y) => Some (String a x, y)
      | None => if Ascii.eqb a c then Some ("", s') else None
      end
  end.

(** [strings.Split] at a one-byte separator. *)
Fixpoint Split (s : string) (c : ascii) : list string :=
  match s with
  | "" => [""]
  | String a s' =>
      if Ascii.eqb a c then "" :: Split s' c
      else match Split s' c with
           | [] => [String a ""]
           | w :: ws => String a w :: ws
           end
  end.

(** [strings.Join]. *)
Fixpoint Join (l : list string) (sep : string) : string :=
  match l with
  | [] => ""
  | [x] => x
  | x :: l' => x +:+ sep +:+ Join l' sep
  end.

(** [strings.ReplaceAll] for a non-empty [old], by a left-to-right scan that
    resumes after each replaced occurrence.  Every step consumes a byte, so the
    length of [s] is enough fuel. *)
Fixpoint ReplaceAll_fuel (n : nat) (s old new : string) : string :=
  match n, s with
  | S n', String a s' =>
      if HasPrefix s old
      then new +:+ ReplaceAll_fuel n' (slice_from s (String.length old)) old new
      else String a (ReplaceAll_fuel n' s' old new)
  | _, _ => s
  end.
Definition ReplaceAll (s old new : string) : string :=
  ReplaceAll_fuel (String.length s) s old new.

(** ** Case and space *)

Definition byte_of (a : ascii) : N := N_of_ascii a.

Definition is_ascii (s : string) : bool :=
  forallb (λ a, N.ltb (byte_of a) 128) (String.list_ascii_of_string s).

Definition lower_byte (a : ascii) : ascii :=
  if N.leb 65 (byte_of a) && N.leb (byte_of a) 90 then ascii_of_N (byte_of a + 32) else a.

Definition upper_byte (a : ascii) : ascii :=
  if N.leb 97 (byte_of a) && N.leb (byte_of a) 122 then ascii_of_N (byte_of a - 32) else a.

Fixpoint map_string (f : ascii → ascii) (s : string) : string :=
  match s with
  | "" => ""
  | String a s' => String (f a) (map_string f s')
  end.

Definition ascii_lower (s : string) : string := map_string lower_byte s.

(** [strings.EqualFold] against an ASCII word without [k] or [s], which no
    non-ASCII rune folds to. *)
Definition EqualFold (s t : string) : bool := String.eqb (ascii_lower s) (ascii_lower t).

(** [strings.TrimSpace]: the white space of the Latin-1 range and the Unicode
    spaces, as UTF-8 byte sequences. *)
Definition space_runes : list (list N) :=
  [[9]; [10]; [11]; [12]; [13]; [32]; [194; 133]; [194; 160]; [225; 154; 128];
   [226; 128; 128]; [226; 128; 129]; [226; 128; 130]; [226; 128; 131]; [226; 128; 132];
   [226; 128; 133]; [226; 128; 134]; [226; 128; 135]; [226; 128; 136]; [226; 128; 137];
   [226; 128; 138]; [226; 128; 168]; [226; 128; 169]; [226; 128; 175]; [226; 129; 159];
   [227; 128; 128]]%N.

(** Drop one of the given byte sequences from the front. *)
Definition strip_rune (runes : list (list N)) (l : list N) : option (list N) :=
  head (omap (λ r, if decide (take (length r) l = r) then Some (drop (length r) l) else None) runes).

Fixpoint trim_left (fuel : nat) (runes : list (list N)) (l : list N) : list N :=
  match fuel with
  | O => l
  | S n => match strip_rune runes l with Some l' => trim_left n runes l' | None => l end
  end.

Definition trim_runes (runes : list (list N)) (s : string) : string :=
  let l := byte_of <$> String.list_ascii_of_string s in
  let l := trim_left (length l) runes l in
  let l := reverse (trim_left (length l) (reverse <$> runes) (reverse l)) in
  String.string_of_list_ascii (ascii_of_N <$> l).

Definition TrimSpace : string → string := trim_runes space_runes.

(** [textproto.TrimString] and the optional white space of header tokens. *)
Definition TrimString : string → string := trim_runes [[9]; [10]; [13]; [32]]%N.
Definition trimOWS : string → string := trim_runes [[9]; [32]]%N.

(** [fmt.Sprintf("%d", n)], [strconv.Itoa], [strconv.FormatInt(n, 10)]. *)
Definition Itoa (n : Z) : string := pretty n.

(** ** JSON strings

    [encoding/json] on an ASCII string: quotes, backslashes, control characters
    and the characters that HTML escaping covers are escaped. *)
Definition hex_digit (n : N) : ascii :=
  ascii_of_N (if N.ltb n 10 then 48 + n else 87 + n).

Definition json_byte (a : ascii) : string :=
  let n := byte_of a in
  if N.eqb n 34 then String (ascii_of_N 92) (String a "")
  else if N.eqb n 92 then String a (String a "")
  else if N.eqb n 8 then "\b"
  else if N.eqb n 12 then "\f"
  else if N.eqb n 10 then "\n"
  else if N.eqb n 13 then "\r"
  else if N.eqb n 9 then "\t"
  else if N.ltb n 32 || N.eqb n 60 || N.eqb n 62 || N.eqb n 38
  then "\u00" +:+ String (hex_digit (n / 16)) (String (hex_digit (n `mod` 16)) "")
  else String a "".

Fixpoint json_escape (s : string) : string :=
  match s with
  | "" => ""
  | String a s' => json_byte a +:+ json_escape s'
  end.

Definition dquote : string := String (ascii_of_N 34) "".
Definition newline : string := String (ascii_of_N 10) "".

Definition json_string (s : string) : string := dquote +:+ json_escape s +:+ dquote.

(** [strconv.Quote], the verb [%q], on printable text. *)
Definition quote_byte (a : ascii) : string :=
  let n := byte_of a in
  if N.eqb n 34 then String (ascii_of_N 92) (String a "")
  else if N.eqb n 92 then String a (String a "")
  else if N.eqb n 7 then "\a"
  else if N.eqb n 8 then "\b"
  else if N.eqb n 12 then "\f"
  else if N.eqb n 10 then "\n"
  else if N.eqb n 13 then "\r"
  else if N.eqb n 9 then "\t"
  else if N.eqb n 11 then "\v"
  else if N.ltb n 32 || N.eqb n 127
  then "\x" +:+ String (hex_digit (n / 16)) (String (hex_digit (n `mod` 16)) "")
  else String a "".

Fixpoint quote_bytes (s : string) : string :=
  match s with "" => "" | String a s' => quote_byte a +:+ quote_bytes s' end.

Definition Quote (s : string) : string := dquote +:+ quote_bytes s +:+ dquote.

(** ** Lemmas *)

Lemma append_nil_r s : s +:+ "" = s.
Proof. induction s as [|a s IH]; [done|]. simpl. by f_equal. Qed.

Lemma append_assoc (s1 s2 s3 : string) : (s1 +:+ s2) +:+ s3 = s1 +:+ (s2 +:+ s3).
Proof. induction s1 as [|a s IH]; [done|]. simpl. by f_equal. Qed.

Lemma append_inj_l p s t : p +:+ s = p +:+ t → s = t.
Proof. induction p as [|a p IH]; simpl; [done|]. intros [= H]. auto. Qed.

Lemma length_append s1 s2 : String.length (s1 +:+ s2) = String.length s1 + String.length s2.
Proof. induction s1 as [|a s IH]; simpl; auto. Qed.

Lemma HasPrefix_spec s pre : HasPrefix s pre = true ↔ ∃ r, s = pre +:+ r.
Proof.
  revert s. induction pre as [|a pre IH]; intros s; simpl.
  - split; [by exists s|]. by destruct s.
  - destruct s as [|b s]; simpl; [split; [done|by intros [? ?]]|].
    rewrite andb_true_iff, Ascii.eqb_eq, IH.
    split; [intros [-> [r ->]]; by exists r|intros [r ?]; simplify_eq; eauto].
Qed.

Lemma slice_from_app p t : slice_from (p +:+ t) (String.length p) = t.
Proof. induction p as [|a p IH]; [by destruct t|]. exact IH. Qed.

Lemma TrimPrefix_app pre r : TrimPrefix (pre +:+ r) pre = r.
Proof.
  unfold TrimPrefix. rewrite (proj2 (HasPrefix_spec _ _)) by (by exists r). apply slice_from_app.
Qed.

Lemma slice_to_app p t : slice_to (p +:+ t) (String.length p) = p.
Proof. unfold slice_to. induction p as [|a p IH]; [by destruct t|]. simpl. by f_equal. Qed.

Lemma slice_split s n : n ≤ String.length s → s = slice_to s n +:+ slice_from s n.
Proof.
  unfold slice_to. revert n. induction s as [|a s IH]; intros [|n] Hn; simpl in *; try done; try lia.
  f_equal. apply IH. lia.
Qed.

Lemma length_slice_from s n : String.length (slice_from s n) = String.length s - n.
Proof. revert n. induction s as [|a s IH]; intros [|n]; simpl; auto. Qed.

Lemma HasSuffix_spec s suf :
  HasSuffix s suf = true ↔
  ∃ p, s = p +:+ suf ∧ slice_to s (String.length s - String.length suf) = p.
Proof.
  unfold HasSuffix. rewrite andb_true_iff, Nat.leb_le, String.eqb_eq. split.
  - intros [Hl Hs]. eexists. split; [|done]. rewrite <-Hs at 2. apply slice_split. lia.
  - intros (p & -> & _). rewrite length_append.
    replace (String.length p + String.length suf - String.length suf) with (String.length p) by lia.
    split; [lia|]. apply slice_from_app.
Qed.

Lemma slice_to_suffix p suf :
  slice_to (p +:+ suf) (String.length (p +:+ suf) - String.length suf) = p.
Proof.
  rewrite length_append.
  replace (String.length p + String.length suf - String.length suf) with (String.length p) by lia.
  apply slice_to_app.
Qed.

Lemma ContainsByte_app s t c : ContainsByte (s +:+ t) c = ContainsByte s c || ContainsByte t c.
Proof. induction s as [|a s IH]; [done|]. simpl. rewrite IH. by rewrite orb_assoc. Qed.

Lemma Cut_None s c : Cut s c = None ↔ ContainsByte s c = false.
Proof.
  induction s as [|a s IH]; [done|]. simpl. destruct (Ascii.eqb a c); [done|]. simpl.
  rewrite <-IH. by destruct (Cut s c) as [[]|].
Qed.

Lemma Cut_Some s c x y :
  Cut s c = Some (x, y) ↔ s = x +:+ String c y ∧ ContainsByte x c = false.
Proof.
  revert x. induction s as [|a s IH]; intros x; simpl.
  - split; [done|]. intros [H _]. by destruct x.
  - destruct (Ascii.eqb_spec a c) as [->|Hne].
    + split; [intros; by simplify_eq|]. intros [H Hx]. destruct x; simplify_eq/=; [done|].
      by rewrite Ascii.eqb_refl in Hx.
    + destruct (Cut s c) as [[x' y']|] eqn:E.
      * split; [intros; simplify_eq; destruct (proj1 (IH x') eq_refl) as [-> Hx]|].
        { split; [done|]. simpl. rewrite Hx. by rewrite (proj2 (Ascii.eqb_neq a c) Hne). }
        intros [H Hx]. destruct x as [|b x]; simplify_eq/=.
        bool_to_prop. assert (Some (x', y') = Some (x, y)) as ?; [|by simplify_eq].
        by apply IH.
      * split; [done|]. intros [H Hx]. destruct x as [|b x]; simplify_eq/=. bool_to_prop.
        by assert (None = Some (x, y)) by (by apply IH).
Qed.

Lemma CutLast_None s c : CutLast s c = None ↔ ContainsByte s c = false.
Proof.
  induction s as [|a s IH]; [done|]. simpl. destruct (CutLast s c) as [[]|].
  - destruct (ContainsByte s c); [by rewrite orb_true_r|]. by destruct IH as [_ IH]; specialize (IH eq_refl).
  - rewrite (proj1 IH eq_refl), orb_false_r. by destruct (Ascii.eqb a c).
Qed.

Lemma CutLast_Some s c x y :
  CutLast s c = Some (x, y) → s = x +:+ String c y ∧ ContainsByte y c = false.
Proof.
  revert x. induction s as [|a s IH]; intros x; simpl; [done|].
  destruct (CutLast s c) as [[x' y']|] eqn:E.
  - intros; simplify_eq. destruct (IH x' eq_refl) as [-> ?]. done.
  - destruct (Ascii.eqb_spec a c) as [->|]; [|done]. intros; simplify_eq.
    split; [done|]. by apply CutLast_None.
Qed.

Lemma Split_not_nil s c : Split s c ≠ [].
Proof.
  destruct s as [|a s]; simpl; [done|].
  destruct (Ascii.eqb a c); [done|]. by destruct (Split s c).
Qed.

Lemma Split_no_sep s c : Forall (λ w, ContainsByte w c = false) (Split s c).
Proof.
  induction s as [|a s IH]; simpl; [by constructor|].
  destruct (Ascii.eqb_spec a c) as [->|Hne]; [by constructor|].
  pose proof (proj2 (Ascii.eqb_neq a c) Hne) as Ha.
  destruct (Split s c) as [|v vs]; [constructor; simpl; by rewrite ?Ha|].
  apply Forall_cons in IH as [Hv Hvs]. constructor; simpl; [by rewrite Ha|done].
Qed.

Lemma Join_Split s c : Join (Split s c) (String c "") = s.
Proof.
  induction s as [|a s IH]; [done|]. simpl. pose proof (Split_not_nil s c).
  destruct (Ascii.eqb_spec a c) as [->|Hne].
  - destruct (Split s c) as [|v vs]; [done|]. simpl in *. f_equal. exact IH.
  - destruct (Split s c) as [|v [|v' vs]]; [done|..]; simpl in *; by f_equal.
Qed.

Lemma list_ascii_app s t :
  String.list_ascii_of_string (s +:+ t) =
  (String.list_ascii_of_string s ++ String.list_ascii_of_string t)%list.
Proof. induction s as [|a s IH]; simpl; [done|]. by f_equal. Qed.

Lemma is_ascii_app s t : is_ascii (s +:+ t) = is_ascii s && is_ascii t.
Proof. unfold is_ascii. by rewrite list_ascii_app, forallb_app. Qed.

Lemma length_map_string f s : String.length (map_string f s) = String.length s.
Proof. induction s as [|a s IH]; simpl; auto. Qed.

Lemma Split_app_sep s t c :
  Split (s +:+ String c t) c = (Split s c ++ Split t c)%list.
Proof.
  induction s as [|a s IH]; simpl; [by rewrite Ascii.eqb_refl|].
  destruct (Ascii.eqb a c); [by rewrite IH|]. rewrite IH.
  pose proof (Split_not_nil s c). by destruct (Split s c).
Qed.

(** A prefix without the separator is determined by the whole. *)
Lemma split_first x y x' y' c :
  ContainsByte x c = false → ContainsByte x' c = false →
  x +:+ String c y = x' +:+ String c y' → x = x' ∧ y = y'.
Proof.
  intros Hx Hx' He.
  assert (Cut (x +:+ String c y) c = Some (x, y)) as H1 by (by apply Cut_Some).
  assert (Cut (x' +:+ String c y') c = Some (x', y')) as H2 by (by apply Cut_Some).
  rewrite He, H2 in H1. by simplify_eq.
Qed.

#[export] Hint Rewrite append_nil_r append_assoc length_append : gateway_rw.

(** ** Unicode case mapping

    [strings.ToLower] maps ASCII strings byte by byte and other strings by the
    Unicode tables, which are not modelled. *)
Class UnicodeTables : Type := {
  unicode_lower : string → string;
  unicode_lower_empty s : unicode_lower s = "" → s = "";
}.

Definition ToLower `{UnicodeTables} (s : string) : string :=
  if is_ascii s then ascii_lower s else unicode_lower s.

Lemma ToLower_empty `{UnicodeTables} s : ToLower s = "" ↔ s = "".
Proof.
  unfold ToLower. split; [|by intros ->]. case_goal; [by destruct s|apply unicode_lower_empty].
Qed.

Lemma ascii_lower_empty s : ascii_lower s = "" → s = "".
Proof. by destruct s. Defined.

Definition ascii_tables : UnicodeTables := {|
  unicode_lower := ascii_lower;
  unicode_lower_empty := ascii_lower_empty;
|}.

Lemma length_slice_to s n : (n ≤ String.length s)%nat → String.length (slice_to s n) = n.
Proof.
  intros Hn. pose proof (f_equal String.length (slice_split s n Hn)) as H.
  rewrite length_append, length_slice_from in H. lia.
Qed.

(** ** Replacing *)

Lemma ReplaceAll_fuel_irrelevant old new : old ≠ "" → ∀ n m s,
  (String.length s ≤ n)%nat → (String.length s ≤ m)%nat →
  ReplaceAll_fuel n s old new = ReplaceAll_fuel m s old new.
Proof.
  intros Ho. induction n as [|n IH]; intros m s Hn Hm.
  - destruct s; simpl in *; [by destruct m | lia].
  - destruct s as [|a s], m as [|m]; simpl in *; try done; try lia.
    case_match; f_equal; apply IH; try lia;
      destruct old as [|b old]; try done; simpl; rewrite length_slice_from; lia.
Qed.

Lemma ReplaceAll_skip a s old new :
  old ≠ "" → HasPrefix (String a s) old = false →
  ReplaceAll (String a s) old new = String a (ReplaceAll s old new).
Proof. intros Ho Hp. unfold ReplaceAll. cbn [String.length ReplaceAll_fuel]. by rewrite Hp. Qed.

Lemma ReplaceAll_hit old new s :
  old ≠ "" → ReplaceAll (old +:+ s) old new = new +:+ ReplaceAll s old new.
Proof.
  intros Ho. unfold ReplaceAll. destruct old as [|a old]; [done|].
  cbn [String.append String.length ReplaceAll_fuel].
  assert (HasPrefix (String a (old +:+ s)) (String a old) = true) as ->.
  { apply HasPrefix_spec. by exists s. }
  f_equal. cbn [slice_from]. rewrite slice_from_app.
  apply ReplaceAll_fuel_irrelevant; [done | rewrite length_append; lia | done].
Qed.

(** A text without the first byte of [old] is copied. *)
Lemma ReplaceAll_literal x s c old new :
  ContainsByte x c = false →
  ReplaceAll (x +:+ s) (String c old) new = x +:+ ReplaceAll s (String c old) new.
Proof.
  induction x as [|a x IH]; [done|]. cbn [ContainsByte String.append].
  intros [Ha Hx]%orb_false_iff. rewrite ReplaceAll_skip; [by rewrite IH | done|].
  cbn. rewrite Ascii.eqb_sym in Ha. by rewrite Ha.
Qed.

(** ** Iterating over a map

    Go's [range] visits the entries of a map in an unspecified order. *)
Class RangeOrder : Type := {
  range {V : Type} : gmap string V → list (string * V);
  range_perm {V : Type} (m : gmap string V) : range m ≡ₚ map_to_list m;
}.

Lemma elem_of_range `{RangeOrder} {V} (m : gmap string V) k v :
  (k, v) ∈ range m ↔ m !! k = Some v.
Proof. by rewrite range_perm, elem_of_map_to_list. Qed.

Lemma NoDup_range `{RangeOrder} {V} (m : gmap string V) : NoDup (range m).*1.
Proof. rewrite range_perm. apply NoDup_fst_map_to_list. Qed.

Lemma list_to_map_range `{RangeOrder} {V} (m : gmap string V) : list_to_map (range m) = m.
Proof.
  rewrite <-(list_to_map_to_list m) at 2. apply list_to_map_proper; [apply NoDup_range|].
  apply range_perm.
Qed.

Definition sorted_range : RangeOrder := {|
  range V m := map_to_list m;
  range_perm V m := reflexivity _;
|}.

(** ** Regular expressions

    What the gateway uses of package [regexp].  A match lists one string per
    subexpression, the whole match first. *)
Class RegexpEngine : Type := {
  Regexp : Type;
  Compile : string → option Regexp;
  FindStringSubmatch : Regexp → string → option (list string);
  SubexpNames : Regexp → list string;
  FindStringSubmatch_length re s l :
    FindStringSubmatch re s = Some l → length l = length (SubexpNames re);
}.

Definition MatchString `{RegexpEngine} (re : Regexp) (s : string) : bool :=
  bool_decide (is_Some (FindStringSubmatch re s)).
