(* ===== verification/Template.v ===== *)
(** * Text with placeholders

    The pattern [\$\{([^}]+)\}] that the configuration loader (config.go) and the
    transforms (transform.go) share, and [ReplaceAllStringFunc] over it.  A text is
    read as a list of tokens, bytes and placeholders; replacing is rendering the
    tokens with other texts for the placeholders. *)

From S2P Require Import Prelude.
From S2P Require Import GoStrings.

(** A placeholder at the front of [s]: the name between [${] and the first
    closing brace, at least one byte long, and what follows. *)
Definition placeholder (s : string) : option (string * string) :=
  if HasPrefix s "${" then
    match Cut (slice_from s 2) "}" with
    | Some (name, rest) => if bool_decide (name = "") then None else Some (name, rest)
    | None => None
    end
  else None.

Inductive token : Type :=
  | Text (a : ascii)
  | Var (name : string).

#[export] Instance token_eq_dec : EqDecision token.
Proof. solve_decision. Defined.

(** The leftmost matches of the pattern, without overlap.  Every step consumes a
    byte, so the length of the text is enough fuel. *)
Fixpoint tokens_fuel (n : nat) (s : string) : list token :=
  match n, s with
  | S n', String a s' =>
      match placeholder s with
      | Some (name, rest) => Var name :: tokens_fuel n' rest
      | None => Text a :: tokens_fuel n' s'
      end
  | _, _ => []
  end.

Definition tokens (s : string) : list token := tokens_fuel (String.length s) s.

(** The match itself. *)
Definition match_text (name : string) : string := "${" +:+ name +:+ "}".

(** [ReplaceAllStringFunc], given the replacement for each name. *)
Fixpoint render (f : string → string) (toks : list token) : string :=
  match toks with
  | [] => ""
  | Text a :: toks' => String a (render f toks')
  | Var name :: toks' => f name +:+ render f toks'
  end.

(** ** Lemmas *)

Lemma placeholder_here name rest :
  name ≠ "" → ContainsByte name "}" = false →
  placeholder ("${" +:+ name +:+ "}" +:+ rest) = Some (name, rest).
Proof.
  intros Hn Hb. unfold placeholder.
  rewrite (proj2 (HasPrefix_spec _ _)) by (by eexists).
  assert (slice_from ("${" +:+ name +:+ "}" +:+ rest) 2 = name +:+ "}" +:+ rest) as ->
    by apply (slice_from_app "${").
  assert (Cut (name +:+ "}" +:+ rest) "}" = Some (name, rest)) as -> by (by apply Cut_Some).
  by rewrite bool_decide_false.
Qed.

Lemma placeholder_shape s name rest :
  placeholder s = Some (name, rest) →
  s = "${" +:+ name +:+ "}" +:+ rest ∧ name ≠ "" ∧ ContainsByte name "}" = false.
Proof.
  unfold placeholder. destruct (HasPrefix s "${") eqn:Hp; [|done].
  apply HasPrefix_spec in Hp as [t ->].
  assert (slice_from ("${" +:+ t) 2 = t) as -> by apply (slice_from_app "${").
  destruct (Cut t "}") as [[x y]|] eqn:Hc; [|done]. apply Cut_Some in Hc as [-> Hb].
  case_bool_decide; [done|]. by intros [= -> ->].
Qed.

Lemma placeholder_dollar a s : a ≠ "$"%char → placeholder (String a s) = None.
Proof.
  intros Ha. unfold placeholder. cbn [HasPrefix].
  by rewrite (proj2 (Ascii.eqb_neq "$" a)) by congruence.
Qed.

Lemma placeholder_shorter s name rest :
  placeholder s = Some (name, rest) → (String.length rest < String.length s)%nat.
Proof.
  intros [-> _]%placeholder_shape. rewrite !length_append. cbn. lia.
Qed.

Lemma tokens_fuel_enough n m s :
  (String.length s ≤ n)%nat → (String.length s ≤ m)%nat → tokens_fuel n s = tokens_fuel m s.
Proof.
  revert m s. induction n as [|n IH]; intros [|m] [|a s] Hn Hm; simpl in Hn, Hm; try done; try lia.
  cbn [tokens_fuel]. destruct (placeholder (String a s)) as [[name rest]|] eqn:Hp; f_equal.
  - apply placeholder_shorter in Hp. simpl in Hp. apply IH; lia.
  - apply IH; lia.
Qed.

Lemma tokens_Var s name rest : placeholder s = Some (name, rest) → tokens s = Var name :: tokens rest.
Proof.
  intros Hp. pose proof (placeholder_shorter _ _ _ Hp). unfold tokens.
  destruct s as [|a s]; [done|]. cbn [String.length tokens_fuel]. rewrite Hp. f_equal.
  apply tokens_fuel_enough; simpl in *; lia.
Qed.

Lemma tokens_Text a s : placeholder (String a s) = None → tokens (String a s) = Text a :: tokens s.
Proof. intros Hp. unfold tokens. cbn [String.length tokens_fuel]. by rewrite Hp. Qed.

(** Induction over a text by tokens. *)
Lemma tokens_ind (P : string → Prop) :
  P "" →
  (∀ s name rest, placeholder s = Some (name, rest) → P rest → P s) →
  (∀ a s, placeholder (String a s) = None → P s → P (String a s)) →
  ∀ s, P s.
Proof.
  intros H0 HV HT s. remember (String.length s) as n eqn:Hn. revert s Hn.
  induction n as [n IH] using lt_wf_ind. intros [|a s] ->; [done|].
  destruct (placeholder (String a s)) as [[name rest]|] eqn:Hp.
  - eapply HV; [done|]. apply (IH (String.length rest)); [|done]. by apply placeholder_shorter in Hp.
  - apply HT; [done|]. apply (IH (String.length s)); [simpl; lia|done].
Qed.

Lemma render_app f l1 l2 : render f (l1 ++ l2) = render f l1 +:+ render f l2.
Proof.
  induction l1 as [|[a|v] l1 IH]; simpl; [done|by rewrite IH|]. by rewrite IH, append_assoc.
Qed.

Lemma tokens_prefix pre s :
  ContainsByte pre "$" = false →
  tokens (pre +:+ s) = (Text <$> String.list_ascii_of_string pre) ++ tokens s.
Proof.
  induction pre as [|a pre IH]; [done|]. cbn [ContainsByte]. intros [Ha Hp]%orb_false_iff.
  change (String a pre +:+ s) with (String a (pre +:+ s)).
  rewrite tokens_Text by (by apply placeholder_dollar, Ascii.eqb_neq). by rewrite IH.
Qed.

Lemma render_Text f pre : render f (Text <$> String.list_ascii_of_string pre) = pre.
Proof. induction pre as [|a pre IH]; [done|]. apply (f_equal (String a)), IH. Qed.

(** Replacing at the first placeholder. *)
Lemma render_first f pre name rest :
  ContainsByte pre "$" = false → name ≠ "" → ContainsByte name "}" = false →
  render f (tokens (pre +:+ "${" +:+ name +:+ "}" +:+ rest)) =
  pre +:+ f name +:+ render f (tokens rest).
Proof.
  intros Hpre Hn Hb. rewrite tokens_prefix, render_app, render_Text by done. f_equal.
  by rewrite (tokens_Var _ name rest) by (by apply placeholder_here).
Qed.

Lemma render_verbatim s : render match_text (tokens s) = s.
Proof.
  induction s as [|s name rest Hp IH|a s Hp IH] using tokens_ind; [done| |].
  - rewrite (tokens_Var _ _ _ Hp). cbn [render]. rewrite IH.
    apply placeholder_shape in Hp as [-> _]. unfold match_text. by rewrite !append_assoc.
  - rewrite tokens_Text by done. cbn [render]. by rewrite IH.
Qed.

(** Token lists that a text can have: names are not empty and have no closing
    brace, and a dollar sign is not followed by what would make it a placeholder. *)
Definition printable (t : token) : Prop :=
  match t with
  | Text a => a ≠ "$"%char
  | Var name => name ≠ "" ∧ ContainsByte name "}" = false
  end.


(** ** Witness *)

