(* ===== verification/ConfigTypes.v ===== *)
(** * Configuration data (internal/config/config.go, resolve.go)

    The structs of the configuration, field by field.  A pointer is an [option],
    a slice a [list], a map a [gmap] keyed by [string], a [time.Duration] a
    number of nanoseconds, a [float64] a [spec_float].  Field names carry a
    prefix per struct in front of the Go name. *)

From Stdlib Require Export SpecFloat.
From S2P Require Import Prelude.

Local Open Scope Z_scope.

#[export] Instance spec_float_eq_dec : EqDecision spec_float.
Proof. solve_decision. Defined.

(** Decision procedures for the nested positions of the recursive types below. *)
Definition list_eq_dec_go {A} (dec : ∀ x y : A, {x = y} + {x ≠ y})
    : ∀ l k : list A, {l = k} + {l ≠ k} :=
  fix go l k := ltac:(decide equality).

Definition prod_eq_dec_go {A} (dec : ∀ x y : A, {x = y} + {x ≠ y})
    : ∀ p q : string * A, {p = q} + {p ≠ q} :=
  λ p q, ltac:(decide equality; apply (decide_rel (=))).

(** ** Dynamically typed values ([any]): decoded JSON and YAML *)

Inductive value : Type :=
  | VNull
  | VBool (b : bool)
  | VInt (n : Z)
  | VFloat (f : spec_float)
  | VString (s : string)
  | VArray (l : list value)
  | VObject (m : list (string * value)).

#[export] Instance value_eq_dec : EqDecision value.
Proof.
  unfold EqDecision, Decision. fix go 1. intros v1 v2.
  decide equality;
    first [ apply (list_eq_dec_go go) | apply (list_eq_dec_go (prod_eq_dec_go go))
          | apply (decide_rel (=)) ].
Defined.

(** ** YAML nodes

    The fields of [yaml.Node] that the gateway reads or writes; [nd_Meta] stands
    for the remaining ones (style, anchors, comments, position), which the
    gateway only copies.  A node of kind 0 is an absent one. *)
Inductive YamlNode : Type := mkNode {
  nd_Kind : Z;
  nd_Tag : string;
  nd_Value : string;
  nd_Content : list YamlNode;
  nd_Meta : string;
}.

(** [yaml.MappingNode], the third constant of [1 << iota]. *)
Definition MappingNode : Z := 4.

Definition zero_Node : YamlNode := mkNode 0 "" "" [] "".

#[export] Instance YamlNode_eq_dec : EqDecision YamlNode.
Proof.
  unfold EqDecision, Decision. fix go 1. intros v1 v2.
  decide equality; first [ apply (list_eq_dec_go go) | apply (decide_rel (=)) ].
Defined.

(** ** Middleware definitions and references *)

Record MiddlewareDefinition : Type := mkMiddlewareDefinition {
  md_Type : string;
  md_Config : YamlNode;
}.

Record MiddlewareRef : Type := mkMiddlewareRef {
  mr_Ref : string;
  mr_Config : YamlNode;
}.

Record RateLimitConfig : Type := mkRateLimitConfig {
  rl_Requests : Z;
  rl_Window : Z;
  rl_KeySource : string;
  rl_Algorithm : string;
}.

Record AuthMiddlewareConfig : Type := mkAuthMiddlewareConfig {
  am_Providers : list string;
}.

Record CORSConfig : Type := mkCORSConfig {
  cors_AllowedOrigins : list string;
  cors_AllowedMethods : list string;
  cors_AllowedHeaders : list string;
  cors_ExposedHeaders : list string;
  cors_AllowCredentials : bool;
  cors_MaxAge : Z;
}.

Record HeaderTransform : Type := mkHeaderTransform {
  ht_Add : gmap string string;
  ht_Remove : list string;
  ht_Rename : gmap string string;
}.

Record BodyTransform : Type := mkBodyTransform {
  bt_InjectFields : gmap string value;
  bt_StripFields : list string;
  bt_RenameKeys : gmap string string;
}.

Record DirectionTransform : Type := mkDirectionTransform {
  dt_Headers : option HeaderTransform;
  dt_Body : option BodyTransform;
}.

Record TransformConfig : Type := mkTransformConfig {
  tc_Request : option DirectionTransform;
  tc_Response : option DirectionTransform;
  tc_MaxBodySize : Z;
}.

(** The typed configuration of a resolved middleware: the pointer types that
    [decodeTypedConfig] stores in an [any]. *)
Inductive TypedConfig : Type :=
  | CfgCORS (c : CORSConfig)
  | CfgRateLimit (c : RateLimitConfig)
  | CfgAuth (c : AuthMiddlewareConfig)
  | CfgTransform (c : TransformConfig).

Record ResolvedMiddleware : Type := mkResolvedMiddleware {
  rm_Name : string;
  rm_Type : string;
  rm_Config : TypedConfig;
}.

(** ** Server, logging, rate-limit backend *)

Record ServerConfig : Type := mkServerConfig {
  srv_Host : string;
  srv_Port : Z;
  srv_ReadTimeout : Z;
  srv_WriteTimeout : Z;
  srv_IdleTimeout : Z;
  srv_ShutdownTimeout : Z;
  srv_TrustedProxies : list string;
  srv_MaxHeaderBytes : Z;
}.

Record LoggingConfig : Type := mkLoggingConfig {
  log_Level : string;
}.

Record RedisConfig : Type := mkRedisConfig {
  redis_Addr : string;
  redis_Password : string;
  redis_DB : Z;
  redis_PoolSize : Z;
  redis_MinIdleConns : Z;
  redis_DialTimeout : Z;
  redis_ReadTimeout : Z;
  redis_WriteTimeout : Z;
  redis_MaxRetries : Z;
  redis_QueryTimeout : Z;
  redis_TLSEnabled : bool;
}.

Record RateLimitGlobalConfig : Type := mkRateLimitGlobalConfig {
  rlg_Backend : string;
  rlg_Redis : option RedisConfig;
}.

(** ** Authentication providers *)

Record JWTConfig : Type := mkJWTConfig {
  jwt_Secret : string;
  jwt_PublicKeyFile : string;
  jwt_Algorithm : string;
  jwt_Issuer : string;
  jwt_Audience : string;
}.

Record APIKeyEntry : Type := mkAPIKeyEntry {
  ake_Key : string;
  ake_Name : string;
}.

Record APIKeyConfig : Type := mkAPIKeyConfig {
  ak_Header : string;
  ak_Keys : list APIKeyEntry;
}.

Record OIDCConfig : Type := mkOIDCConfig {
  oidc_IssuerURL : string;
  oidc_JWKSURL : string;
  oidc_IntrospectionURL : string;
  oidc_ClientID : string;
  oidc_ClientSecret : string;
  oidc_Audience : string;
  oidc_AllowedAlgorithms : list string;
  oidc_SkipIssuerCheck : bool;
}.

Record AuthProvider : Type := mkAuthProvider {
  ap_Type : string;
  ap_JWT : option JWTConfig;
  ap_APIKey : option APIKeyConfig;
  ap_OIDC : option OIDCConfig;
}.

(** ** Routes *)

Record MatchConfig : Type := mkMatchConfig {
  match_PathRegex : string;
  match_Methods : list string;
  match_Host : string;
  match_Headers : gmap string string;
}.

Record UpstreamConfig : Type := mkUpstreamConfig {
  up_URL : string;
  up_PathRewrite : string;
  up_Timeout : Z;
}.

Record RetryConfig : Type := mkRetryConfig {
  retry_MaxRetries : Z;
  retry_InitialDelay : Z;
  retry_Multiplier : spec_float;
  retry_RetryableStatusCodes : list Z;
}.

Record CircuitBreakerConfig : Type := mkCircuitBreakerConfig {
  cbc_FailureThreshold : Z;
  cbc_SuccessThreshold : Z;
  cbc_Timeout : Z;
}.

Record RouteConfig : Type := mkRouteConfig {
  route_Name : string;
  route_Match : MatchConfig;
  route_Upstream : UpstreamConfig;
  route_Retry : option RetryConfig;
  route_CircuitBreaker : option CircuitBreakerConfig;
  route_SkipMiddlewares : list string;
  route_Middlewares : list MiddlewareRef;
}.

Record GatewayConfig : Type := mkGatewayConfig {
  gw_Server : ServerConfig;
  gw_Logging : LoggingConfig;
  gw_RateLimit : RateLimitGlobalConfig;
  gw_AuthProviders : gmap string AuthProvider;
  gw_MiddlewareDefinitions : gmap string MiddlewareDefinition;
  gw_Middlewares : list MiddlewareRef;
  gw_Routes : list RouteConfig;
}.

(** ** Decidable equality *)

#[export] Instance MiddlewareDefinition_eq_dec : EqDecision MiddlewareDefinition.
Proof. solve_decision. Defined.
#[export] Instance MiddlewareRef_eq_dec : EqDecision MiddlewareRef.
Proof. solve_decision. Defined.
#[export] Instance RateLimitConfig_eq_dec : EqDecision RateLimitConfig.
Proof. solve_decision. Defined.
#[export] Instance CORSConfig_eq_dec : EqDecision CORSConfig.
Proof. solve_decision. Defined.
#[export] Instance ServerConfig_eq_dec : EqDecision ServerConfig.
Proof. solve_decision. Defined.
#[export] Instance LoggingConfig_eq_dec : EqDecision LoggingConfig.
Proof. solve_decision. Defined.
#[export] Instance RedisConfig_eq_dec : EqDecision RedisConfig.
Proof. solve_decision. Defined.
#[export] Instance RateLimitGlobalConfig_eq_dec : EqDecision RateLimitGlobalConfig.
Proof. solve_decision. Defined.
#[export] Instance JWTConfig_eq_dec : EqDecision JWTConfig.
Proof. solve_decision. Defined.
#[export] Instance APIKeyEntry_eq_dec : EqDecision APIKeyEntry.
Proof. solve_decision. Defined.
#[export] Instance APIKeyConfig_eq_dec : EqDecision APIKeyConfig.
Proof. solve_decision. Defined.
#[export] Instance OIDCConfig_eq_dec : EqDecision OIDCConfig.
Proof. solve_decision. Defined.
#[export] Instance AuthProvider_eq_dec : EqDecision AuthProvider.
Proof. solve_decision. Defined.
#[export] Instance MatchConfig_eq_dec : EqDecision MatchConfig.
Proof. solve_decision. Defined.
#[export] Instance UpstreamConfig_eq_dec : EqDecision UpstreamConfig.
Proof. solve_decision. Defined.
#[export] Instance RetryConfig_eq_dec : EqDecision RetryConfig.
Proof. solve_decision. Defined.
#[export] Instance CircuitBreakerConfig_eq_dec : EqDecision CircuitBreakerConfig.
Proof. solve_decision. Defined.
#[export] Instance RouteConfig_eq_dec : EqDecision RouteConfig.
Proof. solve_decision. Defined.
