(* ===== verification/CircuitBreaker.v ===== *)
(** * The circuit breaker (internal/middleware/circuitbreaker)

    [CircuitBreaker.Execute] runs a call between two critical sections: section
    A ([enter]) decides whether the call may proceed, section B ([leave])
    records its outcome.  Both run with the mutex held, so each is one atomic
    function on the breaker's state; the wrapped call runs outside the lock, so
    sections of different calls interleave.  [Execute] composes the two for a
    call that nothing overtakes; [step] is the interleaving semantics. *)

From S2P Require Import Prelude.
From S2P Require Import ConfigTypes.

Local Open Scope Z_scope.

(** ** Data *)

Inductive State : Set :=
  | StateClosed
  | StateOpen
  | StateHalfOpen.

#[export] Instance State_eq_dec : EqDecision State.
Proof. solve_decision. Defined.

(** [State.String], on the three states the package ever stores. *)
Definition State_String (s : State) : string :=
  match s with
  | StateClosed => "closed"
  | StateOpen => "open"
  | StateHalfOpen => "half_open"
  end.

(** The struct, without its mutex, clock and callback: the clock is an argument
    of the operations, and a fired callback is part of their result.  Instants
    are nanoseconds. *)
Record CircuitBreaker : Type := mkCircuitBreaker {
  cb_state : State;
  cb_failureCount : Z;
  cb_successCount : Z;
  cb_halfOpenProbing : bool;
  cb_failureThreshold : Z;
  cb_successThreshold : Z;
  cb_timeout : Z;
  cb_openedAt : Z;
  cb_routeName : string;
}.

#[export] Instance CircuitBreaker_eq_dec : EqDecision CircuitBreaker.
Proof. solve_decision. Defined.

Definition New (cfg : CircuitBreakerConfig) (routeName : string) : CircuitBreaker :=
  {| cb_state := StateClosed;
     cb_failureCount := 0;
     cb_successCount := 0;
     cb_halfOpenProbing := false;
     cb_failureThreshold := cbc_FailureThreshold cfg;
     cb_successThreshold := cbc_SuccessThreshold cfg;
     cb_timeout := cbc_Timeout cfg;
     cb_openedAt := 0;
     cb_routeName := routeName |}.

(** A call of [onStateChange]: the old and the new state. *)
Definition transition : Type := State * State.

(** ** Operations *)

(** Field updates of the struct. *)
Definition with_counts (f s : Z) (cb : CircuitBreaker) : CircuitBreaker :=
  {| cb_state := cb_state cb;
     cb_failureCount := f;
     cb_successCount := s;
     cb_halfOpenProbing := cb_halfOpenProbing cb;
     cb_failureThreshold := cb_failureThreshold cb;
     cb_successThreshold := cb_successThreshold cb;
     cb_timeout := cb_timeout cb;
     cb_openedAt := cb_openedAt cb;
     cb_routeName := cb_routeName cb |}.

Definition with_probing (b : bool) (cb : CircuitBreaker) : CircuitBreaker :=
  {| cb_state := cb_state cb;
     cb_failureCount := cb_failureCount cb;
     cb_successCount := cb_successCount cb;
     cb_halfOpenProbing := b;
     cb_failureThreshold := cb_failureThreshold cb;
     cb_successThreshold := cb_successThreshold cb;
     cb_timeout := cb_timeout cb;
     cb_openedAt := cb_openedAt cb;
     cb_routeName := cb_routeName cb |}.

(** [setState]: the new breaker, and the callback to fire when the state really
    changed.  [now] is read only when the breaker opens. *)
Definition setState (now : Z) (to : State) (cb : CircuitBreaker)
    : CircuitBreaker * option transition :=
  let from := cb_state cb in
  ({| cb_state := to;
      cb_failureCount := 0;
      cb_successCount := 0;
      cb_halfOpenProbing := false;
      cb_failureThreshold := cb_failureThreshold cb;
      cb_successThreshold := cb_successThreshold cb;
      cb_timeout := cb_timeout cb;
      cb_openedAt := (if decide (to = StateOpen) then now else cb_openedAt cb);
      cb_routeName := cb_routeName cb |},
   if decide (from = to) then None else Some (from, to)).

(** Outcome of section A: refused with [ErrCircuitOpen], or admitted, with the
    [isProbe] flag and the callback to fire before the call. *)
Inductive admission : Type :=
  | Rejected
  | Granted (isProbe : bool) (pre : option transition).

(** The probe gate, the second half of section A. *)
Definition enter_probe (cb : CircuitBreaker) (pre : option transition)
    : admission * CircuitBreaker :=
  if decide (cb_state cb = StateHalfOpen) then
    if cb_halfOpenProbing cb then (Rejected, cb)
    else (Granted true pre, with_probing true cb)
  else (Granted false pre, cb).

(** Section A of [Execute]. *)
Definition enter (now : Z) (cb : CircuitBreaker) : admission * CircuitBreaker :=
  match cb_state cb with
  | StateOpen =>
      if cb_timeout cb <=? saturate64 (now - cb_openedAt cb) then
        let '(cb', pre) := setState now StateHalfOpen cb in enter_probe cb' pre
      else (Rejected, cb)
  | _ => enter_probe cb None
  end.

(** Section B of [Execute]: [failed] says that [fn] returned an error. *)
Definition leave (now : Z) (isProbe failed : bool) (cb : CircuitBreaker)
    : CircuitBreaker * option transition :=
  let cb := if isProbe then with_probing false cb else cb in
  if failed then
    let cb := with_counts (wrap64 (cb_failureCount cb + 1)) 0 cb in
    match cb_state cb with
    | StateHalfOpen => setState now StateOpen cb
    | StateClosed =>
        if cb_failureThreshold cb <=? cb_failureCount cb
        then setState now StateOpen cb
        else (cb, None)
    | StateOpen => (cb, None)
    end
  else
    let cb := with_counts 0 (wrap64 (cb_successCount cb + 1)) cb in
    match cb_state cb with
    | StateHalfOpen =>
        if cb_successThreshold cb <=? cb_successCount cb
        then setState now StateClosed cb
        else (cb, None)
    | _ => (cb, None)
    end.

(** [Execute] when no other call runs in between: the error it returns ([None]
    for nil), the callbacks in the order they fire, and the breaker.  [r] is
    what [fn] returns; [t1] and [t2] are the clock at the two sections. *)
Definition Execute (t1 t2 : Z) (r : option error) (cb : CircuitBreaker)
    : option error * list transition * CircuitBreaker :=
  match enter t1 cb with
  | (Rejected, cb') => (Some ErrCircuitOpen, [], cb')
  | (Granted isProbe pre, cb') =>
      let '(cb'', post) := leave t2 isProbe (bool_decide (r ≠ None)) cb' in
      (r, option_list pre ++ option_list post, cb'')
  end.

(** ** Interleaving semantics *)

(** The breaker, the [isProbe] flags of the calls between their two sections,
    and the clock. *)
Record Sys : Type := mkSys {
  sys_cb : CircuitBreaker;
  sys_inflight : list bool;
  sys_clock : Z;
}.

Inductive label : Type :=
  | Tick
  | Refuse
  | Admit (isProbe : bool)
  | Finish (isProbe failed : bool)
  | Unwind (isProbe : bool).

(** [Unwind] is a call whose [fn] panics: the stack unwinds past section B. *)
Inductive step : Sys → label → Sys → Prop :=
  | step_tick cb l t d :
      0 ≤ d →
      step (mkSys cb l t) Tick (mkSys cb l (t + d))
  | step_refuse cb cb' l t :
      enter t cb = (Rejected, cb') →
      step (mkSys cb l t) Refuse (mkSys cb' l t)
  | step_admit cb cb' l t p pre :
      enter t cb = (Granted p pre, cb') →
      step (mkSys cb l t) (Admit p) (mkSys cb' (p :: l) t)
  | step_finish cb cb' l1 l2 t p f post :
      leave t p f cb = (cb', post) →
      step (mkSys cb (l1 ++ p :: l2) t) (Finish p f) (mkSys cb' (l1 ++ l2) t)
  | step_unwind cb l1 l2 t p :
      step (mkSys cb (l1 ++ p :: l2) t) (Unwind p) (mkSys cb (l1 ++ l2) t).

Definition steps : relation Sys := rtc (λ s s', ∃ l, step s l s').

Definition start (cfg : CircuitBreakerConfig) (name : string) (t : Z) : Sys :=
  mkSys (New cfg name) [] t.

(** Runs in which no wrapped call panics. *)
Definition calm_steps : relation Sys :=
  rtc (λ s s', ∃ l, step s l s' ∧ ∀ p, l ≠ Unwind p).

(** Runs that also never leave a call admitted by the closed breaker in flight
    once the breaker is no longer closed. *)
Definition no_straggler (s : Sys) : Prop :=
  cb_state (sys_cb s) ≠ StateClosed → Forall (λ p, p = true) (sys_inflight s).

Definition orderly_steps : relation Sys :=
  rtc (λ s s', ∃ l, step s l s' ∧ (∀ p, l ≠ Unwind p) ∧ no_straggler s').

(** Number of probes in flight. *)
Definition probes (s : Sys) : nat := length (filter (λ p, p = true) (sys_inflight s)).

(** ** The sequential contract *)

(** What the package documents, without counters that do not matter: closed with
    a number of consecutive failures, open since an instant, half-open with a
    number of consecutive successes. *)
Inductive Spec : Type :=
  | SClosed (failures : Z)
  | SOpen (since : Z)
  | SHalfOpen (successes : Z).

Section spec.
Context (cfg : CircuitBreakerConfig).

Definition spec_probe (k t2 : Z) (r : option error) : Spec :=
  match r with
  | Some _ => SOpen t2
  | None => if cbc_SuccessThreshold cfg <=? k + 1 then SClosed 0 else SHalfOpen (k + 1)
  end.

(** One call: the error the caller sees and the next state. *)
Definition spec_call (t1 t2 : Z) (r : option error) (s : Spec) : option error * Spec :=
  match s with
  | SClosed n =>
      (r, match r with
          | Some _ => if cbc_FailureThreshold cfg <=? n + 1 then SOpen t2 else SClosed (n + 1)
          | None => SClosed 0
          end)
  | SOpen since =>
      if t1 - since <? cbc_Timeout cfg then (Some ErrCircuitOpen, s)
      else (r, spec_probe 0 t2 r)
  | SHalfOpen k => (r, spec_probe k t2 r)
  end.

Fixpoint spec_calls (calls : list (Z * Z * option error)) (s : Spec)
    : list (option error) * Spec :=
  match calls with
  | [] => ([], s)
  | (t1, t2, r) :: rest =>
      let '(out, s') := spec_call t1 t2 r s in
      let '(outs, s'') := spec_calls rest s' in
      (out :: outs, s'')
  end.
End spec.

(** A sequence of calls of [Execute], each finished before the next starts. *)
Fixpoint Execute_all (calls : list (Z * Z * option error)) (cb : CircuitBreaker)
    : list (option error) * CircuitBreaker :=
  match calls with
  | [] => ([], cb)
  | (t1, t2, r) :: rest =>
      let '(out, _, cb') := Execute t1 t2 r cb in
      let '(outs, cb'') := Execute_all rest cb' in
      (out :: outs, cb'')
  end.

(** The breaker implements the abstract state. *)
Definition implements (cfg : CircuitBreakerConfig) (cb : CircuitBreaker) (s : Spec) : Prop :=
  cb_failureThreshold cb = cbc_FailureThreshold cfg ∧
  cb_successThreshold cb = cbc_SuccessThreshold cfg ∧
  cb_timeout cb = cbc_Timeout cfg ∧
  cb_halfOpenProbing cb = false ∧
  match s with
  | SClosed n => cb_state cb = StateClosed ∧ cb_failureCount cb = n ∧
                 0 ≤ n < cbc_FailureThreshold cfg
  | SOpen since => cb_state cb = StateOpen ∧ cb_openedAt cb = since
  | SHalfOpen k => cb_state cb = StateHalfOpen ∧ cb_successCount cb = k ∧
                   0 ≤ k < cbc_SuccessThreshold cfg
  end.

(** Thresholds and timeout as the configuration schema admits them: at least one,
    and within [int64]. *)
Definition valid_config (cfg : CircuitBreakerConfig) : Prop :=
  1 ≤ cbc_FailureThreshold cfg ≤ max_int64 ∧
  1 ≤ cbc_SuccessThreshold cfg ≤ max_int64 ∧
  0 ≤ cbc_Timeout cfg ≤ max_int64.

(** ** Lemmas *)

Ltac cb_cases :=
  unfold enter, enter_probe, leave, setState, with_counts, with_probing in *; simpl in *;
  repeat (case_goal; simpl in *; simplify_eq); bool_to_prop.

Lemma wrap64_succ n m : 0 ≤ n < m → m ≤ max_int64 → wrap64 (n + 1) = n + 1.
Proof. intros. apply wrap64_id. unfold int64_range, min_int64. lia. Qed.

Lemma enter_timeout_iff cfg cb t :
  valid_config cfg → cb_timeout cb = cbc_Timeout cfg →
  (cb_timeout cb <=? saturate64 (t - cb_openedAt cb)) = negb (t - cb_openedAt cb <? cbc_Timeout cfg).
Proof.
  intros (_ & _ & Ht) ->.
  pose proof (saturate64_ge_iff (t - cb_openedAt cb) (cbc_Timeout cfg)) as Hs.
  unfold min_int64 in Hs.
  destruct (Z.ltb_spec (t - cb_openedAt cb) (cbc_Timeout cfg)); simpl;
    [apply Z.leb_gt|apply Z.leb_le]; lia.
Qed.

(** One call of the breaker is one call of the contract. *)
Lemma Execute_implements cfg t1 t2 r cb s :
  valid_config cfg → implements cfg cb s →
  (Execute t1 t2 r cb).1.1 = (spec_call cfg t1 t2 r s).1 ∧
  implements cfg (Execute t1 t2 r cb).2 (spec_call cfg t1 t2 r s).2.
Proof.
  intros Hv (Hft & Hst & Hto & Hpr & Hs).
  pose proof (enter_timeout_iff cfg cb t1 Hv Hto) as Hen.
  destruct Hv as (Hvf & Hvs & _), cb, cfg; simpl in *.
  unfold implements, Execute, spec_call, spec_probe, enter; simpl.
  destruct s; simpl in *; destruct_and! Hs; subst; [..|rewrite Hen|]; destruct r;
    repeat (cb_cases; try rewrite (wrap64_succ _ max_int64) in * by (unfold max_int64 in *; lia));
    simpl; repeat split; auto; try lia.
Qed.

Lemma New_implements cfg name : valid_config cfg → implements cfg (New cfg name) (SClosed 0).
Proof. unfold implements, valid_config. simpl. intros; repeat split; lia. Qed.

Lemma Execute_all_implements cfg calls cb s :
  valid_config cfg → implements cfg cb s →
  (Execute_all calls cb).1 = (spec_calls cfg calls s).1 ∧
  implements cfg (Execute_all calls cb).2 (spec_calls cfg calls s).2.
Proof.
  intros Hv. revert cb s.
  induction calls as [|[[t1 t2] r] calls IH]; intros cb s Hcb; [done|].
  pose proof (Execute_implements cfg t1 t2 r cb s Hv Hcb) as [Ho Hi].
  simpl. destruct (Execute t1 t2 r cb) as [[o tr] cb'], (spec_call cfg t1 t2 r s) as [o' s'].
  simpl in *. specialize (IH _ _ Hi).
  destruct (Execute_all calls cb'), (spec_calls cfg calls s'); simpl in *.
  destruct IH. split; congruence.
Qed.

(** What every reachable state of the interleaving semantics satisfies. *)
Definition breaker_ok (cfg : CircuitBreakerConfig) (s : Sys) : Prop :=
  let cb := sys_cb s in
  cb_failureThreshold cb = cbc_FailureThreshold cfg ∧
  cb_successThreshold cb = cbc_SuccessThreshold cfg ∧
  cb_timeout cb = cbc_Timeout cfg ∧
  match cb_state cb with
  | StateClosed => cb_halfOpenProbing cb = false ∧
                   0 ≤ cb_failureCount cb < cbc_FailureThreshold cfg
  | StateOpen => cb_halfOpenProbing cb = false ∧ cb_openedAt cb ≤ sys_clock s
  | StateHalfOpen => cb_failureCount cb = 0 ∧
                     0 ≤ cb_successCount cb < cbc_SuccessThreshold cfg
  end.

(** [enter] and [leave], case by case. *)
Lemma enter_ok cfg t cb l a cb' :
  valid_config cfg → breaker_ok cfg (mkSys cb l t) → enter t cb = (a, cb') →
  ∀ l', breaker_ok cfg (mkSys cb' l' t).
Proof.
  intros Hv Hok He l'. destruct Hv as (Hf & Hs & Ht), cb, cfg; unfold breaker_ok in *; simpl in *.
  destruct_and! Hok; subst. revert He.
  destruct cb_state0; destruct_and!; subst; cb_cases; intros; simplify_eq/=;
    repeat split; auto; lia.
Qed.

Lemma leave_ok cfg t p f cb l cb' post :
  valid_config cfg → breaker_ok cfg (mkSys cb l t) → leave t p f cb = (cb', post) →
  ∀ l', breaker_ok cfg (mkSys cb' l' t).
Proof.
  intros Hv Hok He l'. destruct Hv as (Hf & Hs & Ht), cb, cfg; unfold breaker_ok in *; simpl in *.
  destruct_and! Hok; subst. revert He.
  destruct cb_state0, p, f; destruct_and!; subst;
    cb_cases; intros; simplify_eq/=;
    try rewrite (wrap64_succ _ max_int64) in * by (unfold max_int64 in *; lia);
    repeat split; auto; lia.
Qed.

Lemma step_ok cfg s l s' :
  valid_config cfg → breaker_ok cfg s → step s l s' → breaker_ok cfg s'.
Proof.
  intros Hv Hok Hstep. destruct Hstep; eauto using enter_ok, leave_ok.
  unfold breaker_ok in *; simpl in *. destruct (cb_state cb); intuition lia.
Qed.

Lemma start_ok cfg name t : valid_config cfg → breaker_ok cfg (start cfg name t).
Proof. unfold breaker_ok, valid_config. simpl. intros. repeat split; lia. Qed.

(** The probe flag is only up while some probe is in flight, as long as no call
    panics. *)
Definition probing_owned (s : Sys) : Prop :=
  cb_halfOpenProbing (sys_cb s) = true → true ∈ sys_inflight s.

Lemma enter_probing t cb a cb' :
  enter t cb = (a, cb') →
  cb_halfOpenProbing cb' = true → cb_halfOpenProbing cb = true ∨ ∃ pre, a = Granted true pre.
Proof. intros He. revert He. cb_cases; intros; simplify_eq/=; eauto. Qed.

Lemma leave_probing t p f cb cb' post :
  leave t p f cb = (cb', post) →
  cb_halfOpenProbing cb' = true → cb_halfOpenProbing cb = true ∧ p = false.
Proof.
  unfold leave, setState. destruct p, f; cb_cases; intros; simplify_eq/=; auto.
Qed.

Lemma step_probing s l s' :
  (∀ p, l ≠ Unwind p) → probing_owned s → step s l s' → probing_owned s'.
Proof.
  intros Hl Hs Hstep. unfold probing_owned in *.
  destruct Hstep as [| ? ? ? ? He | ? ? ? ? ? ? He | ? ? ? ? ? ? ? ? He |]; simpl in *; intros Hp.
  - auto.
  - destruct (enter_probing _ _ _ _ He Hp) as [?|[pre ?]]; [auto|simplify_eq].
  - destruct (enter_probing _ _ _ _ He Hp) as [?|[pre' ?]]; simplify_eq; set_solver.
  - destruct (leave_probing _ _ _ _ _ _ He Hp) as [? ->]. set_solver.
  - by destruct (Hl p).
Qed.

(** A breaker whose probe flag is up refuses every call while it is half-open. *)
Definition wedged (s : Sys) : Prop :=
  cb_state (sys_cb s) = StateHalfOpen ∧ cb_halfOpenProbing (sys_cb s) = true ∧
  sys_inflight s = [].

Lemma wedged_refuses s t : wedged s → (enter t (sys_cb s)).1 = Rejected.
Proof.
  intros (Hst & Hp & _). unfold enter, enter_probe. by rewrite Hst, decide_True, Hp.
Qed.

Lemma wedged_stable s l s' : wedged s → step s l s' → wedged s'.
Proof.
  intros Hw Hstep. destruct Hw as (Hst & Hp & Hl). destruct Hstep; simpl in *; subst;
    try (by destruct l1).
  - done.
  - revert H. unfold enter, enter_probe. rewrite Hst, decide_True, Hp by done.
    intros; simplify_eq. done.
  - revert H. unfold enter, enter_probe. rewrite Hst, decide_True, Hp by done.
    intros; simplify_eq.
Qed.

(** In orderly runs the probe flag counts the probes in flight exactly. *)
Definition inflight_exact (cb : CircuitBreaker) (l : list bool) : Prop :=
  match cb_state cb with
  | StateHalfOpen => l = if cb_halfOpenProbing cb then [true] else []
  | StateOpen => l = []
  | StateClosed => Forall (λ p, p = false) l
  end.

Lemma app_singleton_inv {A} (l1 l2 : list A) x y :
  l1 ++ x :: l2 = [y] → l1 = [] ∧ l2 = [] ∧ x = y.
Proof. destruct l1 as [|? [|]]; intros; simplify_eq/=; auto. Qed.

Lemma enter_exact t cb a cb' l :
  inflight_exact cb l → enter t cb = (a, cb') →
  inflight_exact cb' (match a with Granted p _ => p :: l | Rejected => l end).
Proof.
  destruct cb as [[] ? ? [] ? ? ? ? ?]; unfold inflight_exact; simpl; intros Hl; cb_cases;
    intros; simplify_eq/=; auto.
Qed.

Lemma all_true_false l : Forall (λ p, p = true) l → Forall (λ p, p = false) l → l = [].
Proof. destruct 1; [done|]. inversion 1; by subst. Qed.

Lemma leave_exact t p f cb cb' post l1 l2 :
  inflight_exact cb (l1 ++ p :: l2) → leave t p f cb = (cb', post) →
  (cb_state cb' ≠ StateClosed → Forall (λ p, p = true) (l1 ++ l2)) →
  inflight_exact cb' (l1 ++ l2).
Proof.
  assert (Hno : l1 ++ p :: l2 ≠ []) by (by destruct l1).
  destruct cb as [[] ? ? pr ? ? ? ? ?]; unfold inflight_exact; simpl; intros Hl.
  - assert (p = false ∧ Forall (λ p, p = false) (l1 ++ l2)) as [-> Hf].
    { rewrite Forall_app, Forall_cons in *. naive_solver. }
    destruct f; cb_cases; intros; simplify_eq/=; auto using all_true_false.
  - done.
  - destruct pr; [|done]. apply app_singleton_inv in Hl as (-> & -> & ->).
    destruct f; cb_cases; intros; simplify_eq/=; auto.
Qed.

Lemma exact_step s l s' :
  inflight_exact (sys_cb s) (sys_inflight s) → step s l s' → (∀ p, l ≠ Unwind p) →
  no_straggler s' → inflight_exact (sys_cb s') (sys_inflight s').
Proof.
  intros Hs Hstep Hl Hn. destruct Hstep as [|? ? ? ? He|? ? ? ? ? ? He|? ? ? ? ? ? ? ? He|];
    simpl in *; [done|..|by destruct (Hl p)].
  - by apply (enter_exact _ _ _ _ _ Hs) in He.
  - by apply (enter_exact _ _ _ _ _ Hs) in He.
  - by eapply leave_exact.
Qed.

Lemma exact_probes s : inflight_exact (sys_cb s) (sys_inflight s) → (probes s ≤ 1)%nat.
Proof.
  unfold inflight_exact, probes. destruct (cb_state (sys_cb s)).
  - induction 1 as [|p l -> _ IH]; simpl; [lia|]. exact IH.
  - intros ->. simpl. lia.
  - intros ->. destruct (cb_halfOpenProbing (sys_cb s)); simpl; lia.
Qed.

(** A call of [Execute] that nothing overtakes is a run of the semantics. *)
Lemma Execute_steps t r cb :
  calm_steps (mkSys cb [] t) (mkSys (Execute t t r cb).2 [] t).
Proof.
  unfold Execute. destruct (enter t cb) as [[|p pre] cb'] eqn:He; simpl.
  - apply rtc_once. exists Refuse. split; [by constructor|done].
  - destruct (leave t p (bool_decide (r ≠ None)) cb') as [cb'' post] eqn:Hl; simpl.
    eapply rtc_l; [exists (Admit p); split; [by eapply step_admit|done]|].
    apply rtc_once. exists (Finish p (bool_decide (r ≠ None))). split; [|done].
    by apply (step_finish _ _ [] [] _ _ _ post).
Qed.

Lemma calm_is_steps s s' : calm_steps s s' → steps s s'.
Proof. apply rtc_subrel. intros ? ? (l & ? & _). by exists l. Qed.

Lemma orderly_is_calm s s' : orderly_steps s s' → calm_steps s s'.
Proof. apply rtc_subrel. intros ? ? (l & ? & ? & _). by exists l. Qed.

Lemma Execute_all_steps t rs cb :
  calm_steps (mkSys cb [] t) (mkSys (Execute_all (map (λ r, (t, t, r)) rs) cb).2 [] t).
Proof.
  revert cb. induction rs as [|r rs IH]; intros cb; [done|].
  pose proof (Execute_steps t r cb) as Hr. simpl.
  destruct (Execute t t r cb) as [[o tr] cb']. simpl in *.
  specialize (IH cb'). destruct (Execute_all _ cb'). simpl in *. by etrans.
Qed.

(** Failing calls in a row open the closed breaker exactly when their number
    reaches the threshold. *)
Lemma spec_failures cfg t e (n : nat) k :
  0 ≤ k → k + Z.of_nat n = cbc_FailureThreshold cfg → (0 < n)%nat →
  (spec_calls cfg (map (λ r, (t, t, r)) (replicate n (Some e))) (SClosed k)).2 = SOpen t.
Proof.
  revert k. induction n as [|n IH]; intros k Hk Hn ?; [lia|]. simpl.
  destruct (Z.leb_spec (cbc_FailureThreshold cfg) (k + 1)).
  - assert (n = 0)%nat as -> by lia. done.
  - specialize (IH (k + 1)). destruct (spec_calls cfg _ (SClosed (k + 1))). simpl in *.
    apply IH; lia.
Qed.

Lemma opened_implements cfg name t :
  valid_config cfg →
  implements cfg
    (Execute_all (map (λ r, (t, t, r))
       (replicate (Z.to_nat (cbc_FailureThreshold cfg)) (Some (Errorf "")))) (New cfg name)).2
    (SOpen t).
Proof.
  intros Hv. pose proof Hv as (? & _).
  rewrite <-(spec_failures cfg t (Errorf "") (Z.to_nat (cbc_FailureThreshold cfg)) 0) by lia.
  apply Execute_all_implements; auto using New_implements.
Qed.

Lemma open_admits_probe cfg cb since t :
  valid_config cfg → implements cfg cb (SOpen since) → since + cbc_Timeout cfg ≤ t →
  ∃ pre cb', enter t cb = (Granted true pre, cb') ∧
             cb_state cb' = StateHalfOpen ∧ cb_halfOpenProbing cb' = true.
Proof.
  intros Hv (_ & _ & Hto & _ & Hst & Hsince) Ht.
  unfold enter. rewrite Hst, (enter_timeout_iff cfg), Hsince by done.
  destruct (Z.ltb_spec (t - since) (cbc_Timeout cfg)); [lia|]. simpl.
  unfold enter_probe; simpl. eauto.
Qed.

Lemma wedged_reachable cfg name t :
  valid_config cfg → ∃ s, steps (start cfg name t) s ∧ wedged s.
Proof.
  intros Hv. pose proof Hv as (_ & _ & ?).
  pose proof (opened_implements cfg name t Hv) as Hi.
  destruct (open_admits_probe cfg _ t (t + cbc_Timeout cfg) Hv Hi) as (pre & cb' & He & Hs & Hp);
    [lia|].
  exists (mkSys cb' [] (t + cbc_Timeout cfg)). split; [|done].
  etrans; [apply calm_is_steps, Execute_all_steps|].
  eapply rtc_l; [exists Tick; by apply (step_tick _ _ _ (cbc_Timeout cfg)); lia|].
  eapply rtc_l; [exists (Admit true); by eapply step_admit|].
  apply rtc_once. exists (Unwind true). by apply (step_unwind cb' [] []).
Qed.

(** ** Properties *)

(** C1: used by one caller at a time, [Execute] implements the documented
    three-state contract: for every sequence of calls, the errors returned and
    the final state are those of [spec_calls], whatever the clock readings. *)
Theorem Execute_refines_contract cfg name calls :
  valid_config cfg →
  (Execute_all calls (New cfg name)).1 = (spec_calls cfg calls (SClosed 0)).1 ∧
  implements cfg (Execute_all calls (New cfg name)).2 (spec_calls cfg calls (SClosed 0)).2.
Proof. intros Hv. apply Execute_all_implements; auto using New_implements. Qed.

Definition example_config : CircuitBreakerConfig := mkCircuitBreakerConfig 2 1 10.

Lemma example_config_valid : valid_config example_config.
Proof. unfold valid_config, max_int64; simpl; lia. Defined.

Lemma Execute_refines_contract_witness :
  (Execute_all [(0, 1, Some (Errorf "a")); (2, 3, Some (Errorf "b")); (5, 6, None); (13, 14, None)]
     (New example_config "r")).1
  = [Some (Errorf "a"); Some (Errorf "b"); Some ErrCircuitOpen; None].
Proof.
  rewrite (proj1 (Execute_refines_contract example_config "r" _ example_config_valid)).
  reflexivity.
Defined.

(** C4: in every interleaving of calls, failures and panics the breaker keeps its
    configuration; a closed breaker has counted fewer failures than its
    threshold, a half-open one fewer successes than its threshold, an open one
    opened in the past, and the probe flag is only ever up when half-open. *)
Theorem breaker_invariant cfg name t s :
  valid_config cfg → steps (start cfg name t) s → breaker_ok cfg s.
Proof.
  intros Hv Hs. pose proof (start_ok cfg name t Hv) as H0. revert H0.
  induction Hs as [|? ? ? [l Hstep] _ IH]; eauto using step_ok.
Qed.

Lemma breaker_invariant_witness :
  steps (start example_config "r" 0) (mkSys (New example_config "r") [false] 0) ∧
  breaker_ok example_config (mkSys (New example_config "r") [false] 0).
Proof.
  assert (Hs : steps (start example_config "r" 0) (mkSys (New example_config "r") [false] 0)).
  { apply rtc_once. exists (Admit false). by eapply (step_admit _ _ _ _ _ None). }
  split; [exact Hs|].
  exact (breaker_invariant example_config "r" 0 _ example_config_valid Hs).
Defined.

(** When no call admitted by the closed breaker is still in flight once the
    breaker has left that state, at most one probe is in flight, and the probe
    flag is up exactly while it is. *)
Theorem orderly_single_probe cfg name t s :
  orderly_steps (start cfg name t) s →
  (probes s ≤ 1)%nat ∧ inflight_exact (sys_cb s) (sys_inflight s).
Proof.
  intros Hs. enough (He : inflight_exact (sys_cb s) (sys_inflight s)) by auto using exact_probes.
  assert (H0 : inflight_exact (sys_cb (start cfg name t)) (sys_inflight (start cfg name t)))
    by constructor.
  revert H0. induction Hs as [|? ? ? (l & Hstep & Hl & Hn) _ IH]; [done|].
  intros. by eapply IH, exact_step.
Qed.

Lemma orderly_single_probe_witness :
  (probes (mkSys (New example_config "r") [false] 0) ≤ 1)%nat.
Proof.
  apply (orderly_single_probe example_config "r" 0).
  apply rtc_once. exists (Admit false). split; [by eapply (step_admit _ _ _ _ _ None)|].
  split; [done|]. by intros [].
Defined.

(** Two calls admitted while the breaker was closed are enough to get two
    probes in flight at once: the straggler's failure re-opens the half-open
    breaker and clears the flag of a probe that is still running. *)
Theorem straggler_admits_second_probe :
  ∃ s, calm_steps (start (mkCircuitBreakerConfig 1 1 10) "r" 0) s ∧
       cb_state (sys_cb s) = StateHalfOpen ∧ probes s = 2%nat.
Proof.
  eexists. split.
  - eapply rtc_l; [exists (Admit false); split; [by eapply step_admit|done]|].
    eapply rtc_l; [exists (Admit false); split; [by eapply step_admit|done]|].
    eapply rtc_l;
      [exists (Finish false true); split; [by eapply (step_finish _ _ [] [false])|done]|].
    eapply rtc_l; [exists Tick; split; [by apply (step_tick _ _ _ 10)|done]|].
    eapply rtc_l; [exists (Admit true); split; [by eapply step_admit|done]|].
    eapply rtc_l;
      [exists (Finish false true); split; [by eapply (step_finish _ _ [true] [])|done]|].
    eapply rtc_l; [exists Tick; split; [by apply (step_tick _ _ _ 10)|done]|].
    apply rtc_once. exists (Admit true); split; [by eapply step_admit|done].
  - done.
Qed.

(** C40: as long as no wrapped call panics, the breaker never locks out: in any
    reachable state without a call in flight, waiting long enough makes the next
    call admitted. *)
Theorem calm_breaker_readmits cfg name t s :
  valid_config cfg → calm_steps (start cfg name t) s → sys_inflight s = [] →
  ∃ d p pre, 0 ≤ d ∧ (enter (sys_clock s + d) (sys_cb s)).1 = Granted p pre.
Proof.
  intros Hv Hs Hl.
  assert (breaker_ok cfg s ∧ probing_owned s) as [Hok Hown].
  { clear Hl. assert (H0 : breaker_ok cfg (start cfg name t) ∧ probing_owned (start cfg name t))
      by (split; [auto using start_ok|done]).
    revert H0. induction Hs as [|? ? ? (l & Hstep & Hl) _ IH]; [done|].
    intros []. eauto using step_ok, step_probing. }
  destruct Hok as (_ & _ & Hto & Hst).
  unfold probing_owned in Hown. rewrite Hl in Hown.
  exists (Z.max 0 (cb_openedAt (sys_cb s) + cbc_Timeout cfg - sys_clock s)).
  unfold enter, enter_probe.
  destruct (cb_state (sys_cb s)) eqn:E.
  - rewrite decide_False by congruence. eexists _, _. split; [lia|done].
  - rewrite (enter_timeout_iff cfg) by done.
    match goal with |- context [negb (?a <? ?b)] => destruct (Z.ltb_spec a b) end; [lia|].
    simpl. eexists _, _. split; [lia|done].
  - rewrite decide_True by done. destruct (cb_halfOpenProbing (sys_cb s)).
    + by specialize (Hown eq_refl); apply not_elem_of_nil in Hown.
    + eexists _, _. split; [lia|done].
Qed.

Lemma calm_breaker_readmits_witness :
  ∃ d p pre, 0 ≤ d ∧ (enter (0 + d) (New example_config "r")).1 = Granted p pre.
Proof.
  apply (calm_breaker_readmits example_config "r" 0 (start example_config "r" 0)
           example_config_valid); [|reflexivity].
  apply rtc_refl.
Defined.

(** A probe whose upstream call panics locks its route out for good: under
    every configuration a state is reachable from which no later state admits a
    call, however long one waits. *)
Theorem panicking_probe_locks_out cfg name t :
  valid_config cfg →
  ∃ s, steps (start cfg name t) s ∧
       ∀ s', steps s s' → ∀ now, (enter now (sys_cb s')).1 = Rejected.
Proof.
  intros Hv. destruct (wedged_reachable cfg name t Hv) as (s & Hs & Hw).
  exists s. split; [done|]. intros s' Hs' now.
  apply wedged_refuses. clear Hs. induction Hs' as [|? ? ? [l Hl] _ IH]; eauto using wedged_stable.
Qed.

Lemma panicking_probe_locks_out_witness :
  ∃ s, steps (start example_config "r" 0) s ∧
       ∀ s', steps s s' → ∀ now, (enter now (sys_cb s')).1 = Rejected.
Proof. exact (panicking_probe_locks_out example_config "r" 0 example_config_valid). Defined.
