(* ===== verification/Http.v ===== *)
(** * HTTP handlers as programs

    Headers, requests, the effects a handler can perform and their composition.
    A handler is a finite program over [event]s; the response writer it is given
    is whatever interprets its writer events, so a middleware that passes a
    wrapped writer to the next handler interprets that handler's events through
    the wrapper's methods ([ResponseWriter], [with_writer]).  At the bottom sits
    the server's own writer, [Conn]. *)

From S2P Require Import Prelude.
From S2P Require Import GoStrings.
From S2P Require Import ConfigTypes.
From S2P Require Import CircuitBreaker.

Local Open Scope Z_scope.

(** ** Headers ([net/http.Header]) *)

Abbreviation Header := (gmap string (list string)).

(** [httpguts.ValidHeaderFieldName], byte by byte. *)
Definition valid_field_byte (a : ascii) : bool :=
  let n := byte_of a in
  (N.leb 48 n && N.leb n 57) || (N.leb 65 n && N.leb n 90) || (N.leb 97 n && N.leb n 122)
  || bool_decide (n ∈ [33; 35; 36; 37; 38; 39; 42; 43; 45; 46; 94; 95; 96; 124; 126]%N).

Fixpoint canon_bytes (upper : bool) (s : string) : string :=
  match s with
  | "" => ""
  | String a s' =>
      let a' := if upper then upper_byte a else lower_byte a in
      String a' (canon_bytes (Ascii.eqb a' "-"%char) s')
  end.

(** [textproto.CanonicalMIMEHeaderKey]. *)
Definition CanonicalHeaderKey (s : string) : string :=
  if forallb valid_field_byte (String.list_ascii_of_string s) then canon_bytes true s else s.

Definition hdr_values (h : Header) (k : string) : list string :=
  default [] (h !! CanonicalHeaderKey k).
Definition hdr_get (h : Header) (k : string) : string := default "" (head (hdr_values h k)).
Definition hdr_set (h : Header) (k v : string) : Header := <[CanonicalHeaderKey k := [v]]> h.
Definition hdr_add (h : Header) (k v : string) : Header :=
  <[CanonicalHeaderKey k := hdr_values h k ++ [v]]> h.
Definition hdr_del (h : Header) (k : string) : Header := delete (CanonicalHeaderKey k) h.

(** Evaluate the canonical form of the literal header names in the goal. *)
Ltac canonicalize :=
  repeat match goal with
  | |- context [CanonicalHeaderKey ?s] =>
      let v := eval vm_compute in (CanonicalHeaderKey s) in
      change (CanonicalHeaderKey s) with v
  end.

(** ** Context values

    The context keys of the gateway are distinct unexported types, so a context
    is a record of the values stored under them. *)

(** [router.MatchedRoute]. *)
Record MatchedRoute : Type := mkMatchedRoute {
  mt_Config : RouteConfig;
  mt_PathParams : gmap string string;
}.

(** [auth.AuthResult]; [ar_Claims] is [None] for a nil map. *)
Record AuthResult : Type := mkAuthResult {
  ar_Subject : string;
  ar_Claims : option (gmap string value);
  ar_Name : string;
  ar_Provider : string;
}.

Record Context : Type := mkContext {
  ctx_RequestID : option string;
  ctx_MatchedRoute : option MatchedRoute;
  ctx_hasRouteHolder : bool;
  ctx_AuthResult : option AuthResult;
  ctx_StartTime : option Z;
}.

Definition ctx_background : Context := mkContext None None false None None.

(** ** Requests

    The header map is not a field: [r.WithContext] copies the struct but shares
    the map, so the map is a cell that handlers read and write ([RHeader],
    [RHeaderPut]). *)

(** A request body: the bytes it yields, and the error that ends it, if any. *)
Record Body : Type := mkBody {
  body_data : string;
  body_err : option string;
}.

Record Request : Type := mkRequest {
  r_Method : string;
  r_Path : string;
  r_RawQuery : string;
  r_Host : string;
  r_RemoteAddr : string;
  r_Body : option Body;
  r_ContentLength : Z;
  r_ctx : Context;
}.

(** [r.WithContext]. *)
Definition WithContext (r : Request) (c : Context) : Request :=
  {| r_Method := r_Method r; r_Path := r_Path r; r_RawQuery := r_RawQuery r; r_Host := r_Host r;
     r_RemoteAddr := r_RemoteAddr r; r_Body := r_Body r;
     r_ContentLength := r_ContentLength r; r_ctx := c |}.

Definition with_body (r : Request) (b : option Body) (n : Z) : Request :=
  {| r_Method := r_Method r; r_Path := r_Path r; r_RawQuery := r_RawQuery r; r_Host := r_Host r;
     r_RemoteAddr := r_RemoteAddr r; r_Body := b;
     r_ContentLength := n; r_ctx := r_ctx r |}.

(** [io.ReadAll(io.LimitReader(body, n))]: at most [n] bytes, and the body's
    error only when it is reached within them. *)
Definition ReadLimited (b : Body) (n : Z) : string * option string :=
  if Z.of_nat (String.length (body_data b)) <? n then (body_data b, body_err b)
  else (slice_to (body_data b) (Z.to_nat n), None).

(** ** The network *)

(** A request the gateway makes itself; [hq_BasicAuth] is what [SetBasicAuth]
    was given. *)
Record HttpRequest : Type := mkHttpRequest {
  hq_Method : string;
  hq_URL : string;
  hq_Header : Header;
  hq_BasicAuth : option (string * string);
  hq_Body : string;
}.

(** A response: status, headers, body. *)
Record HttpResponse : Type := mkHttpResponse {
  hp_Status : Z;
  hp_Header : Header;
  hp_Body : Body;
}.

(** The forwarded request a [ReverseProxy] hands to its transport, and its
    deadline ([0] for none). *)
Record OutRequest : Type := mkOutRequest {
  oq_Method : string;
  oq_Scheme : string;
  oq_URLHost : string;
  oq_Path : string;
  oq_RawPath : string;
  oq_RawQuery : string;
  oq_Host : string;
  oq_Header : Header;
  oq_Body : option Body;
  oq_ContentLength : Z;
  oq_Timeout : Z;
}.

(** [oidc.Config]: the fields the gateway sets. *)
Record OidcVerifierConfig : Type := mkOidcVerifierConfig {
  oc_ClientID : string;
  oc_SupportedSigningAlgs : list string;
  oc_SkipClientIDCheck : bool;
  oc_SkipIssuerCheck : bool;
}.

(** Where an [oidc.IDTokenVerifier] takes its keys from: the discovery document
    of an issuer, or a fixed address. *)
Inductive KeySet : Type :=
  | DiscoveredKeys (issuer : string)
  | RemoteKeySet (url : string).

(** [oidc.IDTokenVerifier]. *)
Record IDTokenVerifier : Type := mkIDTokenVerifier {
  iv_issuer : string;
  iv_keySet : KeySet;
  iv_config : OidcVerifierConfig;
}.

(** [oidc.IDToken]; [it_Claims] is what its [Claims] method decodes. *)
Record IDToken : Type := mkIDToken {
  it_Subject : string;
  it_Claims : result (option (gmap string value));
}.

(** What [Verify] answers; [errors.As] tells the first error apart. *)
Inductive verification : Type :=
  | Verified (t : IDToken)
  | TokenExpiredError
  | VerifyError (msg : string).

(** What the gateway uses of package [net]. *)
Class NetPackage : Type := {
  IP : Type;
  IPNet : Type;
  ParseIP : string → option IP;
  To4 : IP → bool;
  IP_String : IP → string;
  ParseCIDR : string → result IPNet;
  Contains : IPNet → IP → bool;
  (** the host; [None] when the address has no port *)
  SplitHostPort : string → option string;
}.

(** [url.Parse]: scheme and host; and the text of a URL with that scheme, host,
    path and query. *)
Class UrlPackage : Type := {
  url_Parse : string → result (string * string);
  url_String : string → string → string → string → string;
}.

(** ** Effects *)

(** How a call ends: it returns a value or panics. *)
Inductive outcome (A : Type) : Type :=
  | Returned (a : A)
  | Panicked (v : string).
Arguments Returned {A} a.
Arguments Panicked {A} v.

(** A counter increment, an observation or a gauge write of the collector. *)
Inductive metric : Type :=
  | MInc (name : string) (labels : list string)
  | MObserve (name : string) (labels : list string) (v : Z)
  | MSet (name : string) (labels : list string) (v : Z).

(** A structured log record: message and attributes. *)
Inductive attr : Type :=
  | AStr (key v : string)
  | AInt (key : string) (v : Z)
  | AHeader (key : string) (h : Header)
  | AList (key : string) (vs : list string).

Inductive event : Type → Type :=
  (* the response writer in scope *)
  | WHeader : event Header
  | WHeaderPut (h : Header) : event unit
  | WWriteHeader (code : Z) : event (outcome unit)
  | WWrite (b : string) : event (Z * option error)
  | WFlush : event unit
  | WWrapped : event (option (Z * Z * bool))
  (* the request's header map *)
  | RHeader : event Header
  | RHeaderPut (h : Header) : event unit
  (* the route holder of the request context *)
  | HolderSet (mr : MatchedRoute) : event unit
  (* the environment *)
  | Now : event Z
  | CtxDone : event bool
  | SleepFor (d : Z) : event unit
  | RandBytes (n : nat) : event (list N)
  | RandFloat : event SpecFloat.spec_float
  | Emit (m : metric) : event unit
  | Log (level msg : string) (attrs : list attr) : event unit
  | LimiterAllow (key : string) (limit window : Z) (algorithm : string)
      : event (result (bool * Z * Z))
  | HealthCheck : event (result unit)
  | ReadFile (path : string) : event (result string)
  | HttpDo (q : HttpRequest) : event (result HttpResponse)
  | OidcDiscover (issuer : string) : event (result unit)
  | OidcVerify (v : IDTokenVerifier) (token : string) : event verification
  | RoundTrip (q : OutRequest) : event (list (Z * Header) * result HttpResponse)
  (* the breakers: one is allocated, and a critical section of one *)
  | NewBreaker (cb : CircuitBreaker) : event string
  | BreakerTxn {X : Type} (breaker : string)
      (f : Z → CircuitBreaker → X * CircuitBreaker) : event X
  (* the connection pools: one is allocated, its idle connections are closed *)
  | NewTransport : event nat
  | CloseIdleConnections (transport : nat) : event unit
  (* the process: the server is stopped gracefully, the Redis client closed *)
  | Shutdown (timeout : Z) : event (result unit)
  | CloseRedis : event (result unit).

(** ** Programs *)

Inductive prog (A : Type) : Type :=
  | Ret (a : A)
  | Panic (v : string)
  | Vis {X : Type} (e : event X) (k : X → prog A).
Arguments Ret {A} a.
Arguments Panic {A} v.
Arguments Vis {A X} e k.

Fixpoint prog_bind {A B} (p : prog A) (f : A → prog B) : prog B :=
  match p with
  | Ret a => f a
  | Panic v => Panic v
  | Vis e k => Vis e (λ x, prog_bind (k x) f)
  end.

#[export] Instance prog_ret : MRet prog := @Ret.
#[export] Instance prog_mbind : MBind prog := λ A B f p, prog_bind p f.

Definition emit {X} (e : event X) : prog X := Vis e Ret.

(** [defer func() { recover() }]: run [h] when the program panics. *)
Fixpoint catch {A} (p : prog A) (h : string → prog A) : prog A :=
  match p with
  | Ret a => Ret a
  | Panic v => h v
  | Vis e k => Vis e (λ x, catch (k x) h)
  end.

(** Interpret some events of a program with a local state, and pass the others
    on. *)
Definition handler (S : Type) : Type := ∀ X, event X → option (S → prog (X * S)).

Fixpoint handle {S A} (h : handler S) (p : prog A) (s : S) : prog (A * S) :=
  match p with
  | Ret a => Ret (a, s)
  | Panic v => Panic v
  | Vis e k =>
      match h _ e with
      | Some m => prog_bind (m s) (λ xs, handle h (k xs.1) xs.2)
      | None => Vis e (λ x, handle h (k x) s)
      end
  end.

(** What a handler and a middleware are. *)
Definition Handler : Type := Request → prog unit.
Definition Middleware : Type := Handler → Handler.

(** ** Response writers *)

(** The methods of an [http.ResponseWriter] with state [S], as programs over the
    writer below.  [rw_Wrapped] answers the dynamic type test for
    [*WrappedResponseWriter]. *)
Class ResponseWriter (S : Type) : Type := {
  rw_Header : S → prog (Header * S);
  rw_HeaderPut : Header → S → prog S;
  rw_WriteHeader : Z → S → prog (outcome unit * S);
  rw_Write : string → S → prog ((Z * option error) * S);
  rw_Flush : S → prog S;
  rw_Wrapped : S → option (Z * Z * bool);
}.

Definition writer_handler (S : Type) `{ResponseWriter S} : handler S :=
  λ X e,
    match e in event X return option (S → prog (X * S)) with
    | WHeader => Some rw_Header
    | WHeaderPut h => Some (λ s, s' ← rw_HeaderPut h s; mret (tt, s'))
    | WWriteHeader c => Some (rw_WriteHeader c)
    | WWrite b => Some (rw_Write b)
    | WFlush => Some (λ s, s' ← rw_Flush s; mret (tt, s'))
    | WWrapped => Some (λ s, mret (rw_Wrapped s, s))
    | _ => None
    end.

(** Serve a request on a wrapper: run the program with [s] as its writer. *)
Definition with_writer {S A} `{ResponseWriter S} (p : prog A) (s : S) : prog (A * S) :=
  handle (writer_handler S) p s.

(** ** Operations on the writer and the request in scope *)

Definition header_set (k v : string) : prog unit :=
  h ← emit WHeader; emit (WHeaderPut (hdr_set h k v)).
Definition header_add (k v : string) : prog unit :=
  h ← emit WHeader; emit (WHeaderPut (hdr_add h k v)).
Definition write_header (code : Z) : prog unit :=
  o ← emit (WWriteHeader code);
  match o with Returned _ => mret tt | Panicked v => Panic v end.
Definition write (b : string) : prog unit := _ ← emit (WWrite b); mret tt.
Definition req_header_get (k : string) : prog string :=
  h ← emit RHeader; mret (hdr_get h k).

(** Copying a header map: [w.Header().Add] for every value of every entry. *)
Fixpoint add_values (k : string) (vals : list string) : prog unit :=
  match vals with
  | [] => mret tt
  | v :: vals' => header_add k v;; add_values k vals'
  end.

Fixpoint add_headers (kvs : list (string * list string)) : prog unit :=
  match kvs with
  | [] => mret tt
  | (k, vals) :: kvs' => add_values k vals;; add_headers kvs'
  end.

(** [json.NewEncoder(w).Encode(map[string]string{"error": ..., "message": ...})]:
    the encoder sorts the keys and appends a newline. *)
Definition json_error (errCode message : string) : string :=
  "{" +:+ json_string "error" +:+ ":" +:+ json_string errCode +:+ "," +:+
  json_string "message" +:+ ":" +:+ json_string message +:+ "}" +:+ newline.

(** [writeJSON] of the retry and transform packages, and the same five lines
    wherever a handler answers with a JSON error. *)
Definition writeJSON (status : Z) (errCode message : string) : prog unit :=
  header_set "Content-Type" "application/json";;
  write_header status;;
  write (json_error errCode message).

(** ** Local cells *)

(** A request clone: its header map is a copy. *)
Definition header_cell : handler Header :=
  λ X e,
    match e in event X return option (Header → prog (X * Header)) with
    | RHeader => Some (λ h, mret (h, h))
    | RHeaderPut h' => Some (λ _, mret (tt, h'))
    | _ => None
    end.

Definition with_cloned_header {A} (p : prog A) : prog A :=
  h ← emit RHeader; x ← handle header_cell p h; mret x.1.

(** The holder created by [router.WithRouteHolder]: what the router stored. *)
Definition holder_cell : handler (option MatchedRoute) :=
  λ X e,
    match e in event X return option (option MatchedRoute → prog (X * option MatchedRoute)) with
    | HolderSet mr => Some (λ _, mret (tt, Some mr))
    | _ => None
    end.

Definition with_route_holder {A} (p : prog A) : prog (A * option MatchedRoute) :=
  handle holder_cell p None.

(** ** The server's response writer ([net/http])

    The live header map, the status line and header snapshot once sent, the body
    written so far, and the informational responses sent before it. *)
Record Conn : Type := mkConn {
  conn_header : Header;
  conn_sent : option (Z * Header);
  conn_body : string;
  conn_info : list (Z * Header);
}.

Definition new_conn : Conn := mkConn ∅ None "" [].

(** Statuses that have no body. *)
Definition bodyAllowedForStatus (code : Z) : bool :=
  negb ((100 <=? code) && (code <=? 199)) && negb (code =? 204) && negb (code =? 304).

Definition is_informational (code : Z) : bool :=
  (100 <=? code) && (code <=? 199) && negb (code =? 101).

Definition conn_WriteHeader (code : Z) (c : Conn) : outcome unit * Conn :=
  match conn_sent c with
  | Some _ => (Returned tt, c)
  | None =>
      if (code <? 100) || (code >? 999) then (Panicked "invalid WriteHeader code", c)
      else if is_informational code
      then (Returned tt, mkConn (conn_header c) None (conn_body c)
                           (conn_info c ++ [(code, conn_header c)]))
      else (Returned tt, mkConn (conn_header c) (Some (code, conn_header c)) (conn_body c)
                           (conn_info c))
  end.

(** Send the implicit 200 if nothing was sent. *)
Definition conn_commit (c : Conn) : Conn :=
  match conn_sent c with
  | Some _ => c
  | None => mkConn (conn_header c) (Some (200, conn_header c)) (conn_body c) (conn_info c)
  end.

Definition conn_Write (b : string) (c : Conn) : (Z * option error) * Conn :=
  let c := conn_commit c in
  if bool_decide (b = "") then ((0, None), c)
  else if bodyAllowedForStatus (default 200 (fst <$> conn_sent c))
  then ((Z.of_nat (String.length b), None),
        mkConn (conn_header c) (conn_sent c) (conn_body c +:+ b) (conn_info c))
  else ((0, Some (Errorf "http: request method or response status code does not allow body")), c).

#[export] Instance Conn_writer : ResponseWriter Conn := {|
  rw_Header c := mret (conn_header c, c);
  rw_HeaderPut h c := mret (mkConn h (conn_sent c) (conn_body c) (conn_info c));
  rw_WriteHeader code c := mret (conn_WriteHeader code c);
  rw_Write b c := mret (conn_Write b c);
  rw_Flush c := mret (conn_commit c);
  rw_Wrapped _ := None;
|}.

(** ** Running programs

    An environment answers events from a world of any type.  It may also end the
    program ([Panicked]), which nothing inside the program can recover. *)
Definition environment (W : Type) : Type := ∀ X, event X → W → outcome X * W.

Fixpoint run {W A} (env : environment W) (p : prog A) (w : W) : outcome A * W :=
  match p with
  | Ret a => (Returned a, w)
  | Panic v => (Panicked v, w)
  | Vis e k =>
      match env _ e w with
      | (Returned x, w') => run env (k x) w'
      | (Panicked v, w') => (Panicked v, w')
      end
  end.

(** Handling some events and running the rest is running with a larger
    environment. *)
Definition env_with {S W} (h : handler S) (env : environment W) : environment (S * W) :=
  λ X e '(s, w),
    match h X e with
    | Some m =>
        match run env (m s) w with
        | (Returned (x, s'), w') => (Returned x, (s', w'))
        | (Panicked v, w') => (Panicked v, (s, w'))
        end
    | None => let '(o, w') := env X e w in (o, (s, w'))
    end.

(** Serve a request on a fresh connection; when the handler returns, the server
    sends what is left to send. *)
Definition serve {W} (env : environment W) (p : prog unit) (w : W) : outcome Conn * W :=
  match run env (with_writer p new_conn) w with
  | (Returned (_, c), w') => (Returned (conn_commit c), w')
  | (Panicked v, w') => (Panicked v, w')
  end.

(** The response on the wire. *)
Definition conn_status (c : Conn) : Z := default 0 (fst <$> conn_sent c).
Definition conn_headers (c : Conn) : Header := default ∅ (snd <$> conn_sent c).

(** ** Reasoning principles *)

Lemma run_bind {W A B} (env : environment W) (p : prog A) (f : A → prog B) w :
  run env (prog_bind p f) w =
  match run env p w with
  | (Returned a, w') => run env (f a) w'
  | (Panicked v, w') => (Panicked v, w')
  end.
Proof.
  revert w. induction p as [a|v|X e k IH]; intros w; simpl; [done..|].
  destruct (env X e w) as [[x|v] w']; auto.
Qed.

Lemma run_mbind {W A B} (env : environment W) (p : prog A) (f : A → prog B) w :
  run env (p ≫= f) w =
  match run env p w with
  | (Returned a, w') => run env (f a) w'
  | (Panicked v, w') => (Panicked v, w')
  end.
Proof. apply run_bind. Qed.

Lemma run_emit {W X} (env : environment W) (e : event X) w :
  run env (emit e) w = env X e w.
Proof. simpl. by destruct (env X e w) as [[]]. Qed.

(** Environments that never end a program. *)
Definition no_crash {W} (env : environment W) : Prop :=
  ∀ X (e : event X) w, ∃ x w', env X e w = (Returned x, w').

Lemma run_catch {W A} (env : environment W) (p : prog A) (h : string → prog A) w :
  no_crash env →
  run env (catch p h) w =
  match run env p w with
  | (Returned a, w') => (Returned a, w')
  | (Panicked v, w') => run env (h v) w'
  end.
Proof.
  intros Hc. revert w. induction p as [a|v|X e k IH]; intros w; simpl; [done..|].
  destruct (Hc X e w) as (x & w' & ->). apply IH.
Qed.

Lemma run_handle {S W A} (h : handler S) (env : environment W) (p : prog A) s w :
  run env (handle h p s) w =
  match run (env_with h env) p (s, w) with
  | (Returned a, (s', w')) => (Returned (a, s'), w')
  | (Panicked v, (s', w')) => (Panicked v, w')
  end.
Proof.
  revert s w. induction p as [a|v|X e k IH]; intros s w; simpl; [done..|].
  destruct (h X e) as [m|]; simpl.
  - rewrite run_bind. destruct (run env (m s) w) as [[[x s']|v] w']; simpl; auto.
  - destruct (env X e w) as [[x|v] w']; auto.
Qed.

(** Every event a program can perform satisfies [Q]. *)
Fixpoint all_events {A} (Q : ∀ X, event X → Prop) (p : prog A) : Prop :=
  match p with
  | Ret _ | Panic _ => True
  | Vis e k => Q _ e ∧ ∀ x, all_events Q (k x)
  end.

Definition any_event : ∀ X, event X → Prop := λ _ _, True.

Lemma all_events_any {A} (p : prog A) : all_events any_event p.
Proof. induction p as [| |X e k IH]; simpl; [done..|]. by split. Qed.

Lemma all_events_impl {A} (Q Q' : ∀ X, event X → Prop) (p : prog A) :
  (∀ X e, Q X e → Q' X e) → all_events Q p → all_events Q' p.
Proof. intros HQ. induction p as [| |X e k IH]; simpl; [done..|]. intros []. auto. Qed.

Lemma all_events_bind {A B} Q (p : prog A) (f : A → prog B) :
  all_events Q p → (∀ a, all_events Q (f a)) → all_events Q (p ≫= f).
Proof.
  intros Hp Hf. change (all_events Q (prog_bind p f)).
  induction p as [| |X e k IH]; simpl in *; auto. destruct Hp as [? Hk]. split; auto.
Qed.

Lemma all_events_handle {S A} Q (h : handler S) (p : prog A) s :
  (∀ X (e : event X) m s, h X e = Some m → all_events Q (m s)) →
  all_events Q p → all_events Q (handle h p s).
Proof.
  intros Hh. revert s. induction p as [| |X e k IH]; intros s Hp; simpl in *; [done..|].
  destruct Hp as [? Hk]. destruct (h X e) as [m|] eqn:E; simpl; [|auto].
  apply all_events_bind; eauto.
Qed.

(** Whatever a program does, it keeps a property of the world that each of its
    events keeps. *)
Lemma run_invariant {W A} (env : environment W) Q (I : W → Prop) (p : prog A) w :
  (∀ X (e : event X) w, Q X e → I w → I (env X e w).2) →
  all_events Q p → I w → I (run env p w).2.
Proof.
  intros He. revert w. induction p as [a|v|X e k IH]; intros w Hp Hw; simpl; [done..|].
  destruct Hp as [HQ Hk]. pose proof (He X e w HQ Hw) as Hw'.
  destruct (env X e w) as [[x|v] w']; simpl in *; auto.
Qed.

(** A program run in two environments whose answers agree and whose worlds stay
    related gives the same outcome. *)
Lemma run_simulation {W1 W2 A} (env1 : environment W1) (env2 : environment W2) Q
    (R : W1 → W2 → Prop) (p : prog A) w1 w2 :
  (∀ X (e : event X) w1 w2, Q X e → R w1 w2 →
     (env1 X e w1).1 = (env2 X e w2).1 ∧ R (env1 X e w1).2 (env2 X e w2).2) →
  all_events Q p → R w1 w2 →
  (run env1 p w1).1 = (run env2 p w2).1 ∧ R (run env1 p w1).2 (run env2 p w2).2.
Proof.
  intros He. revert w1 w2. induction p as [a|v|X e k IH]; intros w1 w2 Hp Hw; simpl; [done..|].
  destruct Hp as [HQ Hk]. destruct (He X e w1 w2 HQ Hw) as [Ho Hw'].
  destruct (env1 X e w1) as [o1 w1'], (env2 X e w2) as [o2 w2']; simpl in *; subst.
  destruct o2; auto.
Qed.

(** ** How programs end

    Every value a program can return satisfies [Q] and every panic value [P],
    whatever the environment answers. *)
Fixpoint ends {A} (Q : A → Prop) (P : string → Prop) (p : prog A) : Prop :=
  match p with
  | Ret a => Q a
  | Panic v => P v
  | Vis _ k => ∀ x, ends Q P (k x)
  end.

Definition no_value : string → Prop := λ _, False.
Definition any_value : string → Prop := λ _, True.

Lemma ends_bind {A B} (Q : A → Prop) (R : B → Prop) P p f :
  ends Q P p → (∀ a, Q a → ends R P (f a)) → ends R P (p ≫= f).
Proof.
  intros Hp Hf. change (ends R P (prog_bind p f)).
  induction p as [| |X e k IH]; cbn in *; auto.
Qed.

Lemma ends_impl {A} (Q Q' : A → Prop) (P P' : string → Prop) p :
  (∀ a, Q a → Q' a) → (∀ v, P v → P' v) → ends Q P p → ends Q' P' p.
Proof. intros HQ HP. induction p as [| |X e k IH]; cbn; auto. Qed.

Lemma ends_any {A} (p : prog A) : ends (λ _, True) any_value p.
Proof. by induction p. Qed.

Lemma ends_catch {A} (Q : A → Prop) (P P' : string → Prop) p h :
  ends Q P p → (∀ v, P v → ends Q P' (h v)) → ends Q P' (catch p h).
Proof. intros Hp Hh. induction p as [| |X e k IH]; cbn in *; auto. Qed.

Lemma ends_run {W A} (env : environment W) (Q : A → Prop) p w :
  no_crash env → ends Q no_value p → ∃ a w', run env p w = (Returned a, w') ∧ Q a.
Proof.
  intros Hc. revert w. induction p as [a|v|X e k IH]; intros w Hp; [by exists a, w|done|].
  cbn. destruct (Hc X e w) as (x & w' & ->). by apply IH.
Qed.

Lemma all_events_returns {A B} Q (R : A → Prop) (p : prog A) (f : A → prog B) :
  all_events Q p → ends R any_value p → (∀ a, R a → all_events Q (f a)) → all_events Q (p ≫= f).
Proof.
  intros Hp Hr Hf. change (all_events Q (prog_bind p f)).
  induction p as [| |X e k IH]; cbn in *; auto. destruct Hp as [He Hk]. split; auto.
Qed.

Lemma all_events_catch {A} Q (p : prog A) h :
  all_events Q p → (∀ v, all_events Q (h v)) → all_events Q (catch p h).
Proof. intros Hp Hh. induction p as [| |X e k IH]; cbn in *; auto. destruct Hp. split; auto. Qed.

(** Events that a handler does not answer go to the environment below. *)
Lemma env_with_pass {S W} (h : handler S) (env : environment W) X (e : event X) s w :
  h X e = None → env_with h env X e (s, w) = let '(o, w') := env X e w in (o, (s, w')).
Proof. intros H. unfold env_with. by rewrite H. Qed.

(** The environment a handler sees on connection [c]. *)
Definition conn_env {W} (env : environment W) : environment (Conn * W) :=
  env_with (writer_handler Conn) env.

Lemma conn_env_pass {W} (env : environment W) X (e : event X) c w :
  writer_handler Conn X e = None →
  conn_env env X e (c, w) = let '(o, w') := env X e w in (o, (c, w')).
Proof. apply env_with_pass. Qed.

Lemma conn_env_no_crash {W} (env : environment W) : no_crash env → no_crash (conn_env env).
Proof.
  intros Hc X e [c w]. unfold conn_env, env_with.
  destruct e; simpl; try (eexists _, _; reflexivity);
    try (destruct (conn_WriteHeader _ _); eexists _, _; reflexivity);
    try (destruct (conn_Write _ _); eexists _, _; reflexivity);
    match goal with |- context [env ?X ?e w] => destruct (Hc X e w) as (? & ? & ->) end;
    eexists _, _; reflexivity.
Qed.

(** Serving is running against the connection. *)
Lemma serve_run {W} (env : environment W) (p : prog unit) w :
  serve env p w =
  match run (conn_env env) p (new_conn, w) with
  | (Returned _, (c, w')) => (Returned (conn_commit c), w')
  | (Panicked v, (c, w')) => (Panicked v, w')
  end.
Proof.
  unfold serve, with_writer. rewrite run_handle.
  by destruct (run (conn_env env) p (new_conn, w)) as [[[]|v] [c w']] eqn:E;
    unfold conn_env in E; rewrite E.
Qed.

(** The events of [header_set], [write_header] and [write] against a
    connection. *)
Lemma conn_header_set {W} (env : environment W) k v c w :
  run (conn_env env) (header_set k v) (c, w) =
  (Returned tt, (mkConn (hdr_set (conn_header c) k v) (conn_sent c) (conn_body c) (conn_info c), w)).
Proof. done. Qed.

(** A connection with another live header map. *)
Definition with_hdr (c : Conn) (h : Header) : Conn :=
  mkConn h (conn_sent c) (conn_body c) (conn_info c).

(** What copying the entries [kvs] makes of a header map. *)
Definition add_all (kvs : list (string * list string)) (h : Header) : Header :=
  foldl (λ h kv, foldl (λ h v, hdr_add h kv.1 v) h kv.2) h kvs.

Lemma conn_add_values {W} (env : environment W) k vals : ∀ c w,
  run (conn_env env) (add_values k vals) (c, w) =
  (Returned tt, (with_hdr c (foldl (λ h v, hdr_add h k v) (conn_header c) vals), w)).
Proof.
  induction vals as [|v vals IH]; intros c w; [by destruct c|]. cbn [add_values foldl].
  rewrite run_mbind.
  change (run (conn_env env) (header_add k v) (c, w))
    with (Returned tt, (with_hdr c (hdr_add (conn_header c) k v), w)).
  cbv beta iota. by rewrite IH.
Qed.

Lemma conn_add_headers {W} (env : environment W) kvs : ∀ c w,
  run (conn_env env) (add_headers kvs) (c, w) =
  (Returned tt, (with_hdr c (add_all kvs (conn_header c)), w)).
Proof.
  induction kvs as [|[k vals] kvs IH]; intros c w; [by destruct c|]. cbn [add_headers].
  rewrite run_mbind, conn_add_values. cbv beta iota. by rewrite IH.
Qed.

Lemma hdr_values_add h k v k' :
  hdr_values (hdr_add h k v) k' =
  hdr_values h k' ++ (if decide (CanonicalHeaderKey k = CanonicalHeaderKey k') then [v] else []).
Proof.
  unfold hdr_add, hdr_values. case_decide as E.
  - by rewrite E, lookup_insert_eq.
  - by rewrite lookup_insert_ne, app_nil_r.
Qed.

Lemma hdr_values_add_values k vals k' : ∀ h,
  hdr_values (foldl (λ h v, hdr_add h k v) h vals) k' =
  hdr_values h k' ++ (if decide (CanonicalHeaderKey k = CanonicalHeaderKey k') then vals else []).
Proof.
  induction vals as [|v vals IH]; intros h; cbn [foldl].
  - case_decide; by rewrite app_nil_r.
  - rewrite IH, hdr_values_add, <-app_assoc. by case_decide.
Qed.

(** Header maps as the server and the transport build them. *)
Definition canonical (h : Header) : Prop := ∀ k, is_Some (h !! k) → CanonicalHeaderKey k = k.

Lemma canon_bytes_valid up s :
  forallb valid_field_byte (String.list_ascii_of_string s) = true →
  forallb valid_field_byte (String.list_ascii_of_string (canon_bytes up s)) = true.
Proof.
  revert up. induction s as [|a s IH]; intros up; [done|]. cbn. rewrite !andb_true_iff.
  intros [Ha Hs]. split; [|by apply IH]. revert Ha.
  by destruct up, a as [[] [] [] [] [] [] [] []].
Qed.

Lemma canon_bytes_idem up s : canon_bytes up (canon_bytes up s) = canon_bytes up s.
Proof.
  revert up. induction s as [|a s IH]; intros up; [done|]. cbn.
  assert ((if up then upper_byte (if up then upper_byte a else lower_byte a)
           else lower_byte (if up then upper_byte a else lower_byte a)) =
          (if up then upper_byte a else lower_byte a)) as ->
    by (by destruct up, a as [[] [] [] [] [] [] [] []]).
  by rewrite IH.
Qed.

Lemma CanonicalHeaderKey_idem k : CanonicalHeaderKey (CanonicalHeaderKey k) = CanonicalHeaderKey k.
Proof.
  unfold CanonicalHeaderKey. destruct (forallb _ (String.list_ascii_of_string k)) eqn:E.
  - by rewrite canon_bytes_valid, canon_bytes_idem.
  - by rewrite E.
Qed.

Lemma canonical_empty : canonical ∅.
Proof. intros k [v Hv]. by rewrite lookup_empty in Hv. Qed.

Lemma canonical_insert h k v : canonical h → canonical (<[CanonicalHeaderKey k := v]> h).
Proof.
  intros Hh k' [v' [[<- _] | [_ Hk]]%lookup_insert_Some]; [apply CanonicalHeaderKey_idem|].
  apply Hh. by exists v'.
Qed.

Lemma canonical_del h k : canonical h → canonical (hdr_del h k).
Proof.
  intros Hh k' [v' Hv]. unfold hdr_del in Hv. apply lookup_delete_Some in Hv as [_ Hk]. apply Hh. by exists v'.
Qed.

Lemma canonical_set h k v : canonical h → canonical (hdr_set h k v).
Proof. apply canonical_insert. Qed.

Lemma canonical_add h k v : canonical h → canonical (hdr_add h k v).
Proof. apply canonical_insert. Qed.

#[export] Hint Resolve canonical_empty canonical_set canonical_add canonical_del : gateway.

Lemma hdr_values_set h k v k' :
  hdr_values (hdr_set h k v) k' =
  if decide (CanonicalHeaderKey k = CanonicalHeaderKey k') then [v] else hdr_values h k'.
Proof.
  unfold hdr_set, hdr_values. case_decide as E; [by rewrite E, lookup_insert_eq|].
  by rewrite lookup_insert_ne.
Qed.

Lemma hdr_values_del h k k' :
  hdr_values (hdr_del h k) k' =
  if decide (CanonicalHeaderKey k = CanonicalHeaderKey k') then [] else hdr_values h k'.
Proof.
  unfold hdr_del, hdr_values. case_decide as E; [by rewrite E, lookup_delete_eq|].
  by rewrite lookup_delete_ne.
Qed.

(** Copying a header map appends its values, whatever the order. *)
Lemma hdr_values_add_all `{RangeOrder} src dst k :
  canonical src → hdr_values (add_all (range src) dst) k = hdr_values dst k ++ hdr_values src k.
Proof.
  intros Hc. unfold hdr_values at 3.
  pose proof (eq_sym (list_to_map_range src)) as Hm.
  assert (Forall (λ kv, CanonicalHeaderKey kv.1 = kv.1) (range src)) as Hk.
  { apply Forall_forall. intros [k' v] Hin%elem_of_range. apply Hc. by exists v. }
  pose proof (NoDup_range src) as ND.
  rewrite Hm at 2. generalize dependent (range src). intros kvs _ Hk ND. clear Hc.
  revert dst. induction kvs as [|[k' vals] kvs IH]; intros dst.
  { cbn. by rewrite app_nil_r. }
  rewrite fmap_cons in ND. apply NoDup_cons in ND as [Hn ND]. apply Forall_cons in Hk as [Hk' Hk].
  change (add_all ((k', vals) :: kvs) dst) with (add_all kvs (foldl (λ h v, hdr_add h k' v) dst vals)).
  rewrite IH, hdr_values_add_values, <-app_assoc by done. cbn in Hk'. rewrite Hk'. f_equal.
  cbn [list_to_map foldr uncurry]. case_decide as E.
  - subst. rewrite lookup_insert_eq, not_elem_of_list_to_map_1 by done. by rewrite app_nil_r.
  - by rewrite lookup_insert_ne.
Qed.

Lemma conn_write_header {W} (env : environment W) code c w :
  conn_sent c = None → 200 ≤ code ≤ 999 →
  run (conn_env env) (write_header code) (c, w) =
  (Returned tt, (mkConn (conn_header c) (Some (code, conn_header c)) (conn_body c) (conn_info c), w)).
Proof.
  intros Hs Hcode. unfold write_header. simpl. unfold conn_WriteHeader. rewrite Hs.
  unfold is_informational.
  rewrite (proj2 (Z.ltb_ge code 100)), (proj2 (Z.leb_gt code 199)), andb_false_r by lia.
  rewrite Z.gtb_ltb, (proj2 (Z.ltb_ge 999 code)) by lia. done.
Qed.

Lemma conn_write_header_late {W} (env : environment W) code c w s :
  conn_sent c = Some s → run (conn_env env) (write_header code) (c, w) = (Returned tt, (c, w)).
Proof. intros Hs. unfold write_header. simpl. unfold conn_WriteHeader. by rewrite Hs. Qed.

Lemma conn_write {W} (env : environment W) b c w code h :
  conn_sent c = Some (code, h) → bodyAllowedForStatus code = true →
  run (conn_env env) (write b) (c, w) =
  (Returned tt, (mkConn (conn_header c) (conn_sent c) (conn_body c +:+ b) (conn_info c), w)).
Proof.
  destruct c as [hd sent body info]; simpl. intros -> Hb.
  unfold write; simpl; unfold conn_Write, conn_commit; simpl. rewrite Hb.
  destruct (bool_decide (b = "")) eqn:E; [|done].
  apply bool_decide_eq_true in E as ->. simpl. by rewrite append_nil_r.
Qed.

Lemma conn_writeJSON {W} (env : environment W) code ec msg c w :
  conn_sent c = None → 200 ≤ code ≤ 999 → bodyAllowedForStatus code = true →
  let h := hdr_set (conn_header c) "Content-Type" "application/json" in
  run (conn_env env) (writeJSON code ec msg) (c, w) =
  (Returned tt, (mkConn h (Some (code, h)) (conn_body c +:+ json_error ec msg) (conn_info c), w)).
Proof.
  intros Hs Hc Hb h. unfold writeJSON. rewrite run_mbind, conn_header_set, run_mbind.
  rewrite conn_write_header by done. cbv beta iota.
  by rewrite (conn_write env _ _ w code h).
Qed.

(** Addresses as text, networks as textual prefixes. *)
Definition text_net : NetPackage := {|
  IP := string;
  IPNet := string;
  ParseIP s := if bool_decide (s = "") || ContainsByte s "?" then None else Some s;
  To4 _ := true;
  IP_String ip := ip;
  ParseCIDR s := match Cut s "/" with Some (n, _) => Ok n | None => Err (Errorf "invalid CIDR address") end;
  Contains n ip := HasPrefix ip n;
  SplitHostPort s := fst <$> CutLast s ":";
|}.

(** Addresses of the form [scheme:host]. *)
Definition text_url : UrlPackage := {|
  url_Parse s := match Cut s ":" with Some p => Ok p | None => Err (Errorf "missing protocol scheme") end;
  url_String scheme host path query := scheme +:+ ":" +:+ host +:+ path +:+ "?" +:+ query;
|}.

(** An environment in which nothing happens: the clock stands at [now], the
    request has no headers, the random bytes are 0, 1, 2, ..., every breaker is
    fresh. *)
Definition quiet_answer (now : Z) {X} (e : event X) : X :=
  match e in event X return X with
  | WHeader => ∅
  | WHeaderPut _ => tt
  | WWriteHeader _ => Returned tt
  | WWrite b => (Z.of_nat (String.length b), None)
  | WFlush => tt
  | WWrapped => None
  | RHeader => ∅
  | RHeaderPut _ => tt
  | HolderSet _ => tt
  | Now => now
  | CtxDone => false
  | SleepFor _ => tt
  | RandBytes n => N.of_nat <$> seq 0 n
  | RandFloat => SpecFloat.S754_zero false
  | Emit _ => tt
  | Log _ _ _ => tt
  | LimiterAllow _ _ _ _ => Ok (true, 0, 0)
  | HealthCheck => Ok tt
  | ReadFile _ => Ok ""
  | HttpDo _ => Err (Errorf "connection refused")
  | OidcDiscover _ => Ok tt
  | OidcVerify _ _ => VerifyError "no keys"
  | RoundTrip _ => ([], Err (Errorf "connection refused"))
  | NewBreaker cb => cb_routeName cb
  | BreakerTxn breaker f => (f now (New (mkCircuitBreakerConfig 5 1 (30 * Second)) breaker)).1
  | NewTransport => 0%nat
  | CloseIdleConnections _ => tt
  | Shutdown _ => Ok tt
  | CloseRedis => Ok tt
  end.

Definition quiet_env : environment unit := λ X e w, (Returned (quiet_answer 0 e), w).

Lemma quiet_env_no_crash : no_crash quiet_env.
Proof. intros X e w. by eexists _, _. Defined.
