(* ===== verification/Metrics.v ===== *)
(** * The metrics collector (internal/observability/metrics.go)

    The eight metric vectors of the gateway, their registration, and which
    samples they accept.  The Prometheus registry is the interface
    [PrometheusRegistry]; a sample is an event [Emit], and a sample that fits no
    vector would make the library panic. *)

From S2P Require Import Prelude.
From S2P Require Import GoStrings.
From S2P Require Import ConfigTypes.
From S2P Require Import CircuitBreaker.
From S2P Require Import Http.

Local Open Scope Z_scope.

(** ** Metric vectors (package [prometheus]) *)

(** [DefBuckets], and the arguments of [ExponentialBuckets]. *)
Inductive buckets : Set :=
  | DefBuckets
  | ExponentialBuckets (start factor : Z) (count : nat).

Inductive kind : Set :=
  | CounterVec
  | HistogramVec (b : buckets)
  | GaugeVec.

(** The options and the label names a vector is made with. *)
Record vec : Type := mkVec {
  vec_kind : kind;
  vec_Name : string;
  vec_Help : string;
  vec_labels : list string;
}.

#[export] Instance buckets_eq_dec : EqDecision buckets.
Proof. solve_decision. Defined.
#[export] Instance kind_eq_dec : EqDecision kind.
Proof. solve_decision. Defined.
#[export] Instance vec_eq_dec : EqDecision vec.
Proof. solve_decision. Defined.

(** What the library requires of a vector: a name of letters, digits,
    underscores and colons that does not start with a digit, distinct label names
    of that form without colons and without the prefix reserved for internal use,
    and increasing buckets, whose label [le] is taken. *)
Definition name_byte (colon : bool) (a : ascii) : bool :=
  let n := N_of_ascii a in
  ((97 <=? n) && (n <=? 122) || (65 <=? n) && (n <=? 90) || (48 <=? n) && (n <=? 57) || (n =? 95) ||
   colon && (n =? 58))%N.

Definition is_name (colon : bool) (s : string) : bool :=
  match s with
  | "" => false
  | String a _ =>
      negb ((48 <=? N_of_ascii a) && (N_of_ascii a <=? 57))%N &&
      forallb (name_byte colon) (String.list_ascii_of_string s)
  end.

Definition label_name (s : string) : bool := is_name false s && negb (HasPrefix s "__").

Definition kind_ok (k : kind) (labels : list string) : bool :=
  match k with
  | CounterVec | GaugeVec => true
  | HistogramVec b =>
      bool_decide ("le" ∉ labels) &&
      match b with
      | DefBuckets => true
      | ExponentialBuckets start factor count => (0 <? start) && (1 <? factor) && negb (count =? 0)%nat
      end
  end.

Definition vec_ok (v : vec) : bool :=
  is_name true (vec_Name v) && forallb label_name (vec_labels v) &&
  bool_decide (NoDup (vec_labels v)) && kind_ok (vec_kind v) (vec_labels v).

(** A registry; a vector whose name is new to it and that is well formed can be
    registered. *)
Class PrometheusRegistry : Type := {
  Registerer : Type;
  registered : Registerer → gset string;
  Register : vec → Registerer → result Registerer;
  Register_new v reg : vec_ok v = true → vec_Name v ∉ registered reg →
    ∃ reg', Register v reg = Ok reg' ∧ registered reg' = {[vec_Name v]} ∪ registered reg;
}.

(** ** The collector *)

Record MetricsCollector : Type := mkMetricsCollector {
  RequestsTotal : vec;
  RequestDuration : vec;
  RequestSize : vec;
  ResponseSize : vec;
  CircuitBreakerState : vec;
  RateLimitRejected : vec;
  RateLimitErrors : vec;
  UpstreamErrors : vec;
}.

Definition collector : MetricsCollector := {|
  RequestsTotal :=
    mkVec CounterVec "gateway_requests_total" "Total number of HTTP requests processed."
      ["route"; "method"; "status_code"];
  RequestDuration :=
    mkVec (HistogramVec DefBuckets) "gateway_request_duration_seconds"
      "Duration of HTTP requests in seconds." ["route"; "method"];
  RequestSize :=
    mkVec (HistogramVec (ExponentialBuckets 100 10 6)) "gateway_request_size_bytes"
      "Size of HTTP request bodies in bytes." ["route"];
  ResponseSize :=
    mkVec (HistogramVec (ExponentialBuckets 100 10 6)) "gateway_response_size_bytes"
      "Size of HTTP response bodies in bytes." ["route"];
  CircuitBreakerState :=
    mkVec GaugeVec "gateway_circuit_breaker_state"
      "Current state of circuit breakers (0=closed, 1=open, 2=half-open)." ["route"; "state"];
  RateLimitRejected :=
    mkVec CounterVec "gateway_rate_limit_rejected_total"
      "Total number of requests rejected by rate limiting." ["route"; "middleware"];
  RateLimitErrors :=
    mkVec CounterVec "gateway_rate_limit_errors_total"
      "Total number of rate limiter backend errors (fail-open events)." ["route"; "middleware"];
  UpstreamErrors :=
    mkVec CounterVec "gateway_upstream_errors_total" "Total number of upstream errors."
      ["route"; "error_type"];
|}.

(** The vectors in the order of registration. *)
Definition vectors (m : MetricsCollector) : list vec :=
  [RequestsTotal m; RequestDuration m; RequestSize m; ResponseSize m; CircuitBreakerState m;
   RateLimitRejected m; RateLimitErrors m; UpstreamErrors m].

Section collector.
Context `{PR : PrometheusRegistry}.

Fixpoint MustRegister (cs : list vec) (reg : Registerer) : outcome Registerer :=
  match cs with
  | [] => Returned reg
  | c :: cs' =>
      match Register c reg with
      | Ok reg' => MustRegister cs' reg'
      | Err e => Panicked (error_text e)
      end
  end.

Definition NewMetricsCollector (reg : Registerer) : outcome (MetricsCollector * Registerer) :=
  match MustRegister (vectors collector) reg with
  | Returned reg' => Returned (collector, reg')
  | Panicked v => Panicked v
  end.
End collector.

(** ** Samples *)

(** [WithLabelValues] panics unless it is given one value per label; [Inc] is a
    method of counters, [Observe] of histograms, [Set] of gauges. *)
Definition takes (name : string) (labels : list string) (p : kind → bool) (v : vec) : bool :=
  bool_decide (vec_Name v = name) && (length (vec_labels v) =? length labels)%nat && p (vec_kind v).

Definition accepts (m : metric) : bool :=
  match m with
  | MInc name labels => existsb (takes name labels (λ k, bool_decide (k = CounterVec))) (vectors collector)
  | MObserve name labels _ =>
      existsb (takes name labels (λ k, match k with HistogramVec _ => true | _ => false end))
        (vectors collector)
  | MSet name labels _ => existsb (takes name labels (λ k, bool_decide (k = GaugeVec))) (vectors collector)
  end.

(** ** Lemmas *)

Lemma vectors_ok : forallb vec_ok (vectors collector) = true.
Proof. vm_compute. reflexivity. Qed.

Lemma vectors_distinct : NoDup (vec_Name <$> vectors collector).
Proof. apply (bool_decide_unpack _). vm_compute. exact I. Qed.

Section registration.
Context `{PR : PrometheusRegistry}.

Lemma MustRegister_new cs : ∀ reg,
  forallb vec_ok cs = true → NoDup (vec_Name <$> cs) →
  (∀ v, v ∈ cs → vec_Name v ∉ registered reg) →
  ∃ reg', MustRegister cs reg = Returned reg' ∧
    registered reg' = list_to_set (vec_Name <$> cs) ∪ registered reg.
Proof.
  induction cs as [|c cs IH]; intros reg Hok Hnd Hnew; cbn [MustRegister].
  { exists reg. split; [done|]. cbn. by rewrite union_empty_l_L. }
  apply andb_prop in Hok as [Hc Hok]. apply NoDup_cons in Hnd as [Hnin Hnd].
  destruct (Register_new c reg Hc (Hnew c (list_elem_of_here _ _))) as (reg1 & -> & Hr1).
  destruct (IH reg1 Hok Hnd) as (reg2 & -> & Hr2).
  - intros v Hv. rewrite Hr1. apply not_elem_of_union. split; [|by apply Hnew, list_elem_of_further].
    rewrite elem_of_singleton. intros E. apply Hnin. rewrite <-E. by apply list_elem_of_fmap_2.
  - exists reg2. split; [done|]. rewrite Hr2, Hr1. cbn. set_solver.
Qed.
End registration.

(** ** Properties *)

(** A registry that holds nothing of the gateway's takes the collector: no vector
    is malformed and no two share a name, so the start-up does not panic here. *)
Theorem NewMetricsCollector_registers `{PR : PrometheusRegistry} reg :
  (∀ name, name ∈ registered reg → HasPrefix name "gateway_" = false) →
  ∃ reg', NewMetricsCollector reg = Returned (collector, reg') ∧
    registered reg' = list_to_set (vec_Name <$> vectors collector) ∪ registered reg.
Proof.
  intros Hnew. unfold NewMetricsCollector.
  destruct (MustRegister_new (vectors collector) reg vectors_ok vectors_distinct) as (reg' & -> & Hr).
  - intros v Hv Hin. apply Hnew in Hin.
    assert (Forall (λ v, HasPrefix (vec_Name v) "gateway_" = true) (vectors collector)) as Hp
      by (vm_compute; repeat constructor).
    rewrite Forall_forall in Hp. by rewrite (Hp v Hv) in Hin.
  - by exists reg'.
Qed.

(** ** Witnesses *)

(** A registry that keeps names. *)
Program Definition name_registry : PrometheusRegistry := {|
  Registerer := gset string;
  registered reg := reg;
  Register v reg :=
    if bool_decide (vec_Name v ∈ reg) then Err (Errorf "duplicate metrics collector registration attempted")
    else Ok ({[vec_Name v]} ∪ reg);
|}.
Next Obligation. intros v reg _ Hn. cbn in *. rewrite bool_decide_false by done. by eexists. Qed.

Lemma NewMetricsCollector_registers_witness :
  ∃ reg', NewMetricsCollector (PR := name_registry) ({["go_goroutines"; "process_open_fds"]} : gset string)
    = Returned (collector, reg').
Proof.
  destruct (NewMetricsCollector_registers (PR := name_registry)
    ({["go_goroutines"; "process_open_fds"]} : gset string)) as (reg' & H & _).
  - intros name Hin. change (name ∈ ({["go_goroutines"; "process_open_fds"]} : gset string)) in Hin.
    apply elem_of_union in Hin as [->%elem_of_singleton| ->%elem_of_singleton]; reflexivity.
  - exists reg'. exact H.
Defined.
