(* ===== verification/Middleware.v ===== *)
(** * General middlewares (internal/middleware: chain, recovery, requestid,
      responsewriter, logging)

    Each middleware is a function from the next handler to a handler; the
    wrapped response writer is an instance of [ResponseWriter]. *)

From S2P Require Import Prelude.
From S2P Require Import GoStrings.
From S2P Require Import ConfigTypes.
From S2P Require Import Http.

Local Open Scope Z_scope.

(** ** Chain (chain.go) *)

(** The loop of [Chain], from index [i - 1] down to 0. *)
Fixpoint Chain_loop (middlewares : list Middleware) (i : nat) (final : Handler) : Handler :=
  match i with
  | O => final
  | S j =>
      match (middlewares !! j : option Middleware) with
      | Some m => Chain_loop middlewares j (m final)
      | None => final
      end
  end.

Definition Chain (middlewares : list Middleware) : Middleware :=
  λ final, Chain_loop middlewares (length middlewares) final.

(** ** Recovery (recovery.go) *)

Definition Recovery : Middleware :=
  λ next r,
    catch (next r)
      (λ v, emit (Log "ERROR" "panic recovered" [AStr "panic" v]);;
            writeJSON 500 "internal_error" "Internal server error").

(** ** Request identifiers (requestid.go) *)

Definition hex_byte (n : N) : string :=
  String (hex_digit (n / 16)) (String (hex_digit (n `mod` 16)) "").

Fixpoint hex_encode (l : list N) : string :=
  match l with
  | [] => ""
  | n :: l' => hex_byte n +:+ hex_encode l'
  end.

(** The version and variant bits of a version 4 UUID, in bytes 6 and 8. *)
Definition uuid_bits (b : list N) : list N :=
  alter (λ x, N.lor (N.land x 63) 128) 8%nat (alter (λ x, N.lor (N.land x 15) 64) 6%nat b).

Definition uuid_format (b : list N) : string :=
  Join [hex_encode (take 4 b); hex_encode (take 2 (drop 4 b)); hex_encode (take 2 (drop 6 b));
        hex_encode (take 2 (drop 8 b)); hex_encode (take 6 (drop 10 b))] "-".

Definition generateUUID : prog string :=
  b ← emit (RandBytes 16); mret (uuid_format (uuid_bits b)).

(** [context.WithValue(ctx, requestIDKey{}, id)]. *)
Definition with_request_id (c : Context) (id : string) : Context :=
  mkContext (Some id) (ctx_MatchedRoute c) (ctx_hasRouteHolder c) (ctx_AuthResult c)
    (ctx_StartTime c).

Definition RequestIDFromContext (c : Context) : string := default "" (ctx_RequestID c).

Definition RequestID : Middleware :=
  λ next r,
    id ← req_header_get "X-Request-ID";
    id ← (if bool_decide (id = "") then generateUUID else mret id);
    h ← emit RHeader;
    emit (RHeaderPut (hdr_set h "X-Request-ID" id));;
    header_set "X-Request-ID" id;;
    next (WithContext r (with_request_id (r_ctx r) id)).

(** ** The wrapped response writer (responsewriter.go) *)

Record WrappedResponseWriter : Type := mkWrapped {
  ww_statusCode : Z;
  ww_bytesWritten : Z;
  ww_wroteHeader : bool;
}.

Definition ww_new : WrappedResponseWriter := mkWrapped 0 0 false.

Definition ww_WriteHeader (code : Z) (w : WrappedResponseWriter)
    : prog (outcome unit * WrappedResponseWriter) :=
  if ww_wroteHeader w then mret (Returned tt, w)
  else o ← emit (WWriteHeader code); mret (o, mkWrapped code (ww_bytesWritten w) true).

Definition ww_Write (b : string) (w : WrappedResponseWriter)
    : prog ((Z * option error) * WrappedResponseWriter) :=
  w ← (if ww_wroteHeader w then mret w
       else '(_, w') ← ww_WriteHeader 200 w; mret w');
  ne ← emit (WWrite b);
  mret (ne, mkWrapped (ww_statusCode w) (wrap64 (ww_bytesWritten w + ne.1)) (ww_wroteHeader w)).

#[export] Instance Wrapped_writer : ResponseWriter WrappedResponseWriter := {|
  rw_Header w := h ← emit WHeader; mret (h, w);
  rw_HeaderPut h w := emit (WHeaderPut h);; mret w;
  rw_WriteHeader := ww_WriteHeader;
  rw_Write := ww_Write;
  rw_Flush w := emit WFlush;; mret w;
  rw_Wrapped w := Some (ww_statusCode w, ww_bytesWritten w, ww_wroteHeader w);
|}.

Definition StatusCode (w : WrappedResponseWriter) : Z :=
  if ww_wroteHeader w then ww_statusCode w else 200.

Definition BytesWritten (w : WrappedResponseWriter) : Z := ww_bytesWritten w.

Definition ww_of (o : option (Z * Z * bool)) : WrappedResponseWriter :=
  match o with Some (s, n, b) => mkWrapped s n b | None => ww_new end.

(** [ww := WrapResponseWriter(w)] followed by serving on [ww]: a writer that is
    already wrapped is used as it is.  The result is [p]'s and [ww] afterwards. *)
Definition WrapResponseWriter {A} (p : prog A) : prog (A * WrappedResponseWriter) :=
  o ← emit WWrapped;
  match o with
  | Some _ => a ← p; o' ← emit WWrapped; mret (a, ww_of o')
  | None => with_writer p ww_new
  end.

(** ** Logging (logging.go) *)

(** [time.Since(start).Milliseconds()]. *)
Definition since_ms (now start : Z) : Z := Z.quot (saturate64 (now - start)) Millisecond.

Definition Logging : Middleware :=
  λ next r,
    start ← emit Now;
    let requestID := RequestIDFromContext (r_ctx r) in
    '(_, ww) ← WrapResponseWriter
      (emit (Log "INFO" "request started"
         [AStr "method" (r_Method r); AStr "path" (r_Path r);
          AStr "remote_addr" (r_RemoteAddr r); AStr "request_id" requestID]);;
       h ← emit RHeader;
       emit (Log "DEBUG" "request headers" [AHeader "headers" h]);;
       next r);
    let route := match ctx_MatchedRoute (r_ctx r) with
                 | Some mr => route_Name (mt_Config mr)
                 | None => "unknown"
                 end in
    now ← emit Now;
    emit (Log "INFO" "request completed"
      [AStr "method" (r_Method r); AStr "path" (r_Path r); AInt "status" (StatusCode ww);
       AInt "latency_ms" (since_ms now start); AStr "request_id" requestID;
       AStr "route" route; AStr "remote_addr" (r_RemoteAddr r);
       AInt "response_size" (BytesWritten ww)]);;
    h ← emit WHeader;
    emit (Log "DEBUG" "response headers" [AHeader "headers" h]).

(** ** Lemmas *)

Lemma Chain_loop_take ms i final :
  (i ≤ length ms)%nat → Chain_loop ms i final = foldr (λ m h, m h) final (take i ms).
Proof.
  revert final. induction i as [|i IH]; intros final Hi; [done|]. cbn [Chain_loop].
  destruct (lookup_lt_is_Some_2 ms i) as [m Hm]; [lia|]. rewrite Hm, IH by lia.
  by rewrite (take_S_r _ _ _ Hm), foldr_app.
Qed.

Lemma Chain_foldr ms final : Chain ms final = foldr (λ m h, m h) final ms.
Proof. unfold Chain. by rewrite Chain_loop_take, take_ge by lia. Qed.

Lemma length_hex_encode l : String.length (hex_encode l) = (2 * length l)%nat.
Proof. induction l as [|n l IH]; simpl; [done|]. rewrite IH. lia. Qed.

(** The world of a handler on a connection whose request carries header map [h]. *)
Definition req_env {W} (env : environment W) : environment (Header * W) :=
  env_with header_cell env.

(** Nothing is in the body before the status line is sent. *)
Definition conn_wf (c : Conn) : Prop := conn_sent c = None → conn_body c = "".

Lemma conn_wf_run {W A} (env : environment W) (p : prog A) c w :
  conn_wf c → conn_wf (run (conn_env env) p (c, w)).2.1.
Proof.
  intros Hc. apply (run_invariant (conn_env env) any_event (λ cw, conn_wf cw.1));
    [|apply all_events_any|done].
  clear. intros X e [c w] _ Hc. unfold conn_env, env_with, conn_wf in *.
  destruct e; simpl in *; try done;
    try (by match goal with |- context [env ?X ?e w] => destruct (env X e w) end).
  - unfold conn_WriteHeader. destruct (conn_sent c) eqn:E; simpl; [by rewrite E|].
    repeat case_goal; simpl; auto.
  - unfold conn_Write, conn_commit. destruct (conn_sent c) eqn:E; simpl;
      repeat case_goal; simpl; rewrite ?E; auto; try done.
  - unfold conn_commit. destruct (conn_sent c) eqn:E; simpl; by rewrite ?E.
Qed.

(** A status that a handler may send and that ends the response head. *)
Definition final_status (code : Z) : Prop := 200 ≤ code ≤ 999.

(** Programs that send only such statuses, do not flush (a flush sends an implicit
    200 that the wrapper does not record) and do not ask for the writer's type. *)
Definition plain_event : ∀ X, event X → Prop :=
  λ X e, match e with
         | WWriteHeader c => final_status c
         | WFlush => False
         | WWrapped => False
         | _ => True
         end.

(** What the wrapper has recorded about the connection below it. *)
Definition records (ww : WrappedResponseWriter) (c : Conn) : Prop :=
  ww_bytesWritten ww = wrap64 (Z.of_nat (String.length (conn_body c))) ∧
  conn_wf c ∧
  match conn_sent c with
  | Some (code, _) => ww_wroteHeader ww = true ∧ ww_statusCode ww = code
  | None => ww_wroteHeader ww = false
  end.

Lemma wrap64_add_l a b : wrap64 (wrap64 a + b) = wrap64 (a + b).
Proof.
  unfold wrap64. f_equal.
  replace ((a + 2 ^ 63) `mod` 2 ^ 64 - 2 ^ 63 + b + 2 ^ 63) with ((a + 2 ^ 63) `mod` 2 ^ 64 + b)
    by lia.
  rewrite Z.add_mod_idemp_l by lia. f_equal. lia.
Qed.

Lemma final_conn_WriteHeader code c :
  final_status code →
  conn_WriteHeader code c =
  (Returned tt, match conn_sent c with
                | Some _ => c
                | None => mkConn (conn_header c) (Some (code, conn_header c)) (conn_body c)
                            (conn_info c)
                end).
Proof.
  intros Hc. unfold final_status in Hc. unfold conn_WriteHeader, is_informational.
  destruct (conn_sent c); [done|].
  rewrite (proj2 (Z.ltb_ge code 100)), (proj2 (Z.leb_gt code 199)), andb_false_r by lia.
  by rewrite Z.gtb_ltb, (proj2 (Z.ltb_ge 999 code)) by lia.
Qed.

(** A write commits the head and appends what it reports. *)
Lemma conn_Write_spec b c n e c' :
  conn_Write b c = ((n, e), c') →
  Z.of_nat (String.length (conn_body c')) = Z.of_nat (String.length (conn_body c)) + n ∧
  conn_sent c' = conn_sent (conn_commit c).
Proof.
  unfold conn_Write, conn_commit. intros H.
  destruct (conn_sent c) as [[code h]|] eqn:E; simpl in H;
    repeat case_hyp H; simplify_eq/=; rewrite ?E, ?length_append; (split; [lia|auto]).
Qed.

(** One event through the wrapper is the same event on the connection. *)
Lemma wrapped_event {W} (env : environment W) X (e : event X) ww c w :
  plain_event X e → records ww c →
  let r1 := env_with (writer_handler WrappedResponseWriter) (conn_env env) X e (ww, (c, w)) in
  let r2 := conn_env env X e (c, w) in
  r1.1 = r2.1 ∧ r1.2.2 = r2.2 ∧ records r1.2.1 r2.2.1.
Proof.
  intros He Hr. pose proof Hr as (Hb & Hwf & Hs).
  unfold conn_env, env_with. destruct e; simpl in *; try done;
    try (by match goal with |- context [env ?X ?e w] => destruct (env X e w) end).
  - (* WriteHeader *)
    unfold ww_WriteHeader, records, conn_wf in *.
    rewrite (final_conn_WriteHeader code) by done. destruct (conn_sent c) as [[code' h]|] eqn:E.
    + destruct Hs as [-> Hst]. simpl. rewrite E. done.
    + rewrite Hs. simpl. rewrite (final_conn_WriteHeader code), E by done. simpl.
      repeat split; auto.
  - (* Write *)
    unfold ww_Write, ww_WriteHeader.
    destruct (conn_sent c) as [[code h]|] eqn:Ec.
    + destruct Hs as [Hw Hst]. rewrite Hw. simpl.
      destruct (conn_Write b c) as [[n e] c'] eqn:E. simpl.
      apply conn_Write_spec in E as [El Es]. unfold conn_commit in Es.
      rewrite Ec in Es. repeat split; simpl.
      * by rewrite Hb, wrap64_add_l, El.
      * unfold conn_wf. by rewrite Es, Ec.
      * by rewrite Es, Ec, Hw.
    + rewrite Hs. simpl. rewrite (final_conn_WriteHeader 200), Ec by done. simpl.
      replace (conn_Write b c) with (conn_Write b (conn_commit c))
        by (unfold conn_Write, conn_commit; by rewrite Ec).
      replace (mkConn _ (Some (200, _)) _ _) with (conn_commit c)
        by (unfold conn_commit; by rewrite Ec).
      destruct (conn_Write b (conn_commit c)) as [[n e] c'] eqn:E. simpl.
      apply conn_Write_spec in E as [El Es]. unfold conn_commit in El, Es.
      rewrite Ec in El, Es. simpl in El, Es.
      repeat split; simpl; [by rewrite Hb, wrap64_add_l, El| |by rewrite Es].
      unfold conn_wf. by rewrite Es.
Qed.

(** ** Properties *)

(** [Chain] applies the middlewares from the last to the first, so the first
    one listed is outermost, and chaining a concatenation is chaining its parts. *)
Theorem Chain_outermost_first ms1 ms2 m final :
  Chain (ms1 ++ ms2) final = Chain ms1 (Chain ms2 final) ∧
  Chain (m :: ms2) final = m (Chain ms2 final) ∧
  Chain [] final = final.
Proof. by rewrite !Chain_foldr, foldr_app. Qed.

(** Serving on the wrapper and serving on the connection below it. *)
Lemma wrap_writer_run {W A} (env : environment W) (p : prog A) c w :
  all_events plain_event p → conn_sent c = None → conn_body c = "" →
  let r1 := run (conn_env env) (WrapResponseWriter p) (c, w) in
  let r2 := run (conn_env env) p (c, w) in
  r1.2 = r2.2 ∧
  match r1.1 with
  | Returned (a, ww) =>
      r2.1 = Returned a ∧
      StatusCode ww = conn_status (conn_commit r2.2.1) ∧
      BytesWritten ww = wrap64 (Z.of_nat (String.length (conn_body r2.2.1)))
  | Panicked v => r2.1 = Panicked v
  end.
Proof.
  intros Hp Hs Hb. unfold WrapResponseWriter. cbv zeta.
  rewrite run_mbind. simpl (run (conn_env env) (emit WWrapped) _). cbv beta iota.
  unfold with_writer. rewrite run_handle.
  assert (records ww_new c) as Hr by (unfold records, conn_wf; rewrite Hs, Hb; done).
  pose proof (run_simulation (env_with (writer_handler WrappedResponseWriter) (conn_env env))
    (conn_env env) plain_event (λ x y, x.2 = y ∧ records x.1 y.1) p (ww_new, (c, w)) (c, w)) as H.
  destruct H as [Ho [Hw Hrec]]; [|done..|].
  - intros X e [ww [c1 w1]] [c2 w2] He [? Hrec]. simplify_eq/=. by apply wrapped_event.
  - destruct (run (env_with _ _) p _) as [o1 [ww [c1 w1]]], (run (conn_env env) p _) as [o2 [c2 w2]].
    simplify_eq/=. destruct o2 as [a|v]; simpl; [|done].
    destruct Hrec as (Hrb & Hwf & Hrs). unfold StatusCode, conn_status, conn_commit.
    split; [done|]. split; [done|].
    destruct (conn_sent c2) as [[code h]|] eqn:E; [destruct Hrs as [-> Hst]|rewrite Hrs];
      simpl; rewrite ?E; done.
Qed.


(** What [Recovery] leaves of a connection on which the handler panicked. *)
Definition recovered (c : Conn) : Conn :=
  match conn_sent c with
  | None =>
      let h := hdr_set (conn_header c) "Content-Type" "application/json" in
      mkConn h (Some (500, h)) (conn_body c +:+ json_error "internal_error" "Internal server error")
        (conn_info c)
  | Some (code, h) =>
      mkConn (hdr_set (conn_header c) "Content-Type" "application/json") (Some (code, h))
        (if bodyAllowedForStatus code
         then conn_body c +:+ json_error "internal_error" "Internal server error"
         else conn_body c) (conn_info c)
  end.

Lemma Recovery_run {W} (env : environment W) next r c w :
  no_crash env →
  match run (conn_env env) (next r) (c, w) with
  | (Returned tt, cw) => run (conn_env env) (Recovery next r) (c, w) = (Returned tt, cw)
  | (Panicked v, (c', w')) =>
      ∃ w'', run (conn_env env) (Recovery next r) (c, w) = (Returned tt, (recovered c', w''))
  end.
Proof.
  intros Hc. unfold Recovery, recovered. rewrite run_catch by by apply conn_env_no_crash.
  destruct (run (conn_env env) (next r) (c, w)) as [[[]|v] [c' w']]; [done|].
  destruct (Hc unit (Log "ERROR" "panic recovered" [AStr "panic" v]) w') as ([] & w'' & Hlog).
  exists w''. rewrite run_mbind, run_emit. unfold conn_env, env_with at 1. simpl (writer_handler _ _ _).
  cbv iota. rewrite Hlog. fold (@conn_env W env).
  destruct (conn_sent c') as [[code h]|] eqn:Es.
  - unfold writeJSON. rewrite run_mbind, conn_header_set, run_mbind, Es.
    rewrite (conn_write_header_late _ _ _ _ (code, h)) by done. cbv beta iota.
    unfold write. rewrite run_mbind, run_emit. simpl. unfold conn_Write. simpl.
    by destruct (bodyAllowedForStatus code).
  - rewrite conn_writeJSON by (done || lia). done.
Qed.


(** The world of a handler on a connection whose request has header map [h]. *)
Definition conn_req_env {W} (env : environment W) : environment (Conn * (Header * W)) :=
  conn_env (req_env env).

(** Events that neither the connection nor the request's headers answer. *)
Lemma conn_req_env_pass {W} (env : environment W) X (e : event X) c h w :
  writer_handler Conn X e = None → header_cell X e = None →
  conn_req_env env X e (c, (h, w)) = let '(o, w') := env X e w in (o, (c, (h, w'))).
Proof.
  intros Hw Hh. unfold conn_req_env, req_env.
  rewrite conn_env_pass, env_with_pass by done. by destruct (env X e w).
Qed.

Lemma req_env_no_crash {W} (env : environment W) : no_crash env → no_crash (req_env env).
Proof.
  intros Hc X e [h w]. unfold req_env, env_with.
  destruct e; simpl; try (eexists _, _; reflexivity);
    match goal with |- context [env ?X ?e w] => destruct (Hc X e w) as (? & ? & ->) end;
    eexists _, _; reflexivity.
Qed.

(** Events that change neither the response nor the request's headers. *)
Definition read_event : ∀ X, event X → Prop :=
  λ X e, match e with
         | WHeader | WHeaderPut _ | WWriteHeader _ | WWrite _ | WFlush | WWrapped | RHeaderPut _ => False
         | _ => True
         end.

(** Programs that do not panic of their own accord. *)
Fixpoint no_panic {A} (p : prog A) : Prop :=
  match p with
  | Ret _ => True
  | Panic _ => False
  | Vis _ k => ∀ x, no_panic (k x)
  end.

(** Programs that read and return. *)
Definition reader {A} (p : prog A) : Prop := all_events read_event p ∧ no_panic p.

Lemma no_panic_bind {A B} (p : prog A) (f : A → prog B) :
  no_panic p → (∀ a, no_panic (f a)) → no_panic (p ≫= f).
Proof.
  intros Hp Hf. change (no_panic (prog_bind p f)).
  induction p as [| |X e k IH]; simpl in *; auto.
Qed.

Lemma reader_ret {A} (a : A) : reader (mret a).
Proof. done. Qed.

Lemma reader_emit {X} (e : event X) : read_event X e → reader (emit e).
Proof. intros He. split; [by split | done]. Qed.

Lemma reader_bind {A B} (p : prog A) (f : A → prog B) :
  reader p → (∀ a, reader (f a)) → reader (p ≫= f).
Proof.
  intros [Hp Hn] Hf. split.
  - apply all_events_bind; [done|]. apply Hf.
  - apply no_panic_bind; [done|]. apply Hf.
Qed.

Lemma read_event_pass {W} (env : environment W) X (e : event X) c h w :
  read_event X e → ∃ o w', conn_req_env env X e (c, (h, w)) = (o, (c, (h, w'))).
Proof.
  intros He. destruct e; try done; cbn in He;
    try (by eexists _, w);
    rewrite conn_req_env_pass by done;
    match goal with |- context [env ?X ?e w] => destruct (env X e w) as [o w'] end;
    by exists o, w'.
Qed.

Lemma reads_only_run {W A} (env : environment W) (p : prog A) c h w :
  all_events read_event p → ∃ o w', run (conn_req_env env) p (c, (h, w)) = (o, (c, (h, w'))).
Proof.
  intros Hp. pose proof (run_invariant (conn_req_env env) read_event
    (λ st, st.1 = c ∧ st.2.1 = h) p (c, (h, w))) as H.
  destruct (run (conn_req_env env) p (c, (h, w))) as [o [c' [h' w']]]. cbn in H.
  destruct H as [-> ->]; [|done..|by exists o, w'].
  intros X e [c1 [h1 w1]] He [E1 E2]. cbn in E1, E2. subst.
  destruct (read_event_pass env X e c h w1 He) as (o' & w'' & ->). done.
Qed.

Lemma no_panic_run {W A} (env : environment W) (p : prog A) w :
  no_crash env → no_panic p → ∃ a w', run env p w = (Returned a, w').
Proof.
  intros Hc. revert w. induction p as [a| |X e k IH]; intros w Hp; [by exists a, w | done|].
  cbn. destruct (Hc X e w) as (x & w' & ->). by apply IH.
Qed.

Lemma conn_req_env_no_crash {W} (env : environment W) : no_crash env → no_crash (conn_req_env env).
Proof. intros Hc. by apply conn_env_no_crash, req_env_no_crash. Qed.

(** A reader returns, on the same connection and headers. *)
Lemma reader_run {W A} (env : environment W) (p : prog A) c h w :
  no_crash env → reader p → ∃ a w', run (conn_req_env env) p (c, (h, w)) = (Returned a, (c, (h, w'))).
Proof.
  intros Hc [Hr Hn].
  destruct (no_panic_run (conn_req_env env) p (c, (h, w)) (conn_req_env_no_crash _ Hc) Hn)
    as (a & st & E).
  destruct (reads_only_run env p c h w Hr) as (o & w' & E'). rewrite E in E'. simplify_eq.
  by exists a, w'.
Qed.

#[export] Hint Resolve reader_ret reader_emit reader_bind : gateway.

(** [RequestID] keeps a client's identifier and makes one otherwise; the same
    identifier goes to the context, to the request's headers and to the
    response's headers, and the next handler sees all three. *)
Theorem RequestID_propagates {W} (env : environment W) next r c h w :
  let served id w' :=
    run (conn_req_env env) (next (WithContext r (with_request_id (r_ctx r) id)))
      (mkConn (hdr_set (conn_header c) "X-Request-ID" id) (conn_sent c) (conn_body c) (conn_info c),
       (hdr_set h "X-Request-ID" id, w')) in
  let got := run (conn_req_env env) (RequestID next r) (c, (h, w)) in
  if bool_decide (hdr_get h "X-Request-ID" = "")
  then ∀ b w', env _ (RandBytes 16) w = (Returned b, w') →
         got = served (uuid_format (uuid_bits b)) w'
  else got = served (hdr_get h "X-Request-ID") w.
Proof.
  unfold conn_req_env, conn_env. cbv zeta.
  unfold RequestID, req_header_get. rewrite run_mbind. simpl (run _ (_ ← _; _) _). cbv beta iota.
  case_bool_decide as E.
  - intros b w' Hb. unfold generateUUID. rewrite run_mbind.
    simpl (run _ (_ ← _; _) _). rewrite Hb. done.
  - done.
Qed.

(** The identifiers [RequestID] makes are version 4 UUIDs. *)
Definition is_hex_lower (a : ascii) : bool :=
  let n := byte_of a in (N.leb 48 n && N.leb n 57) || (N.leb 97 n && N.leb n 102).

Definition uuid_shape (i : nat) (a : ascii) : bool :=
  match i with
  | 8 | 13 | 18 | 23 => Ascii.eqb a "-"
  | 14 => Ascii.eqb a "4"
  | 19 => bool_decide (a ∈ ["8"; "9"; "a"; "b"]%char)
  | _ => is_hex_lower a
  end%nat.

Definition is_uuid_v4 (s : string) : bool :=
  bool_decide (String.length s = 36%nat) &&
  forallb (λ ia, uuid_shape ia.1 ia.2) (imap pair (String.list_ascii_of_string s)).

Lemma byte_hex (n : N) :
  (n < 256)%N →
  is_hex_lower (hex_digit (n / 16)) = true ∧ is_hex_lower (hex_digit (n `mod` 16)) = true.
Proof.
  intros Hn.
  assert (forallb (λ k, let n := N.of_nat k in
    is_hex_lower (hex_digit (n / 16)) && is_hex_lower (hex_digit (n `mod` 16))) (seq 0 256) = true)
    as H by (vm_compute; done).
  rewrite forallb_forall in H. specialize (H (N.to_nat n)). cbv zeta in H.
  rewrite N2Nat.id, andb_true_iff in H. apply H, in_seq. lia.
Qed.

Lemma byte_version (n : N) :
  (n < 256)%N →
  let v := N.lor (N.land n 15) 64 in
  hex_digit (v / 16) = "4"%char ∧ is_hex_lower (hex_digit (v `mod` 16)) = true.
Proof.
  intros Hn.
  assert (forallb (λ k, let v := N.lor (N.land (N.of_nat k) 15) 64 in
    Ascii.eqb (hex_digit (v / 16)) "4" && is_hex_lower (hex_digit (v `mod` 16))) (seq 0 256) = true)
    as H by (vm_compute; done).
  rewrite forallb_forall in H. specialize (H (N.to_nat n)). cbv zeta in H.
  rewrite N2Nat.id, andb_true_iff, Ascii.eqb_eq in H. apply H, in_seq. lia.
Qed.

Lemma byte_variant (n : N) :
  (n < 256)%N →
  let v := N.lor (N.land n 63) 128 in
  bool_decide (hex_digit (v / 16) ∈ ["8"; "9"; "a"; "b"]%char) = true ∧
  is_hex_lower (hex_digit (v `mod` 16)) = true.
Proof.
  intros Hn.
  assert (forallb (λ k, let v := N.lor (N.land (N.of_nat k) 63) 128 in
    bool_decide (hex_digit (v / 16) ∈ ["8"; "9"; "a"; "b"]%char) &&
    is_hex_lower (hex_digit (v `mod` 16))) (seq 0 256) = true)
    as H by (vm_compute; done).
  rewrite forallb_forall in H. specialize (H (N.to_nat n)). cbv zeta in H.
  rewrite N2Nat.id, andb_true_iff in H. apply H, in_seq. lia.
Qed.

(** From 16 random bytes [generateUUID] builds a version 4 UUID: 36
    characters, dashes at 8, 13, 18 and 23, version digit 4, variant digit 8, 9,
    a or b, lower-case hexadecimal elsewhere. *)
Theorem generateUUID_v4 b :
  length b = 16%nat → Forall (λ n, n < 256)%N b →
  is_uuid_v4 (uuid_format (uuid_bits b)) = true.
Proof.
  intros Hl Hb. do 16 (destruct b as [|? b]; [done|]). destruct b; [|done].
  repeat match goal with
         | H : Forall _ (_ :: _) |- _ => apply Forall_cons in H as [? H]
         end.
  unfold is_uuid_v4, uuid_format, uuid_bits. cbn [alter list_alter take drop Join hex_encode].
  unfold hex_byte.
  cbn [String.append String.list_ascii_of_string imap forallb uuid_shape fst snd compose].
  repeat (apply andb_true_intro; split);
    first [ reflexivity | by apply byte_hex | by apply byte_version | by apply byte_variant
          | apply Ascii.eqb_eq; by apply byte_version ].
Qed.

(** The log as a cell: the records appended to it so far. *)
Definition log_cell : handler (list (string * string * list attr)) :=
  λ X e,
    match e in event X return option (list _ → prog (X * list _)) with
    | Log level msg attrs => Some (λ l, mret (tt, l ++ [(level, msg, attrs)]))
    | _ => None
    end.

Definition log_env {W} (env : environment W) :
    environment (list (string * string * list attr) * W) := env_with log_cell env.

(** What [Logging] serves on the wrapped writer. *)
Definition logged_request (next : Handler) (r : Request) : prog unit :=
  emit (Log "INFO" "request started"
    [AStr "method" (r_Method r); AStr "path" (r_Path r);
     AStr "remote_addr" (r_RemoteAddr r);
     AStr "request_id" (RequestIDFromContext (r_ctx r))]);;
  h ← emit RHeader;
  emit (Log "DEBUG" "request headers" [AHeader "headers" h]);;
  next r.

Lemma logged_request_plain next r :
  all_events plain_event (next r) → all_events plain_event (logged_request next r).
Proof. intros H. simpl. auto. Qed.

(** The access log agrees with the wire: for a plain handler the completed
    record carries the status line and the body size that the connection saw,
    with the latency between the two clock readings. *)
Theorem Logging_reports_wire {W} (env : environment W) next r c l w t0 t1 w0 c1 l1 w1 w2 :
  all_events plain_event (next r) → conn_sent c = None → conn_body c = "" →
  env _ Now w = (Returned t0, w0) →
  run (conn_env (log_env env)) (logged_request next r) (c, (l, w0)) =
    (Returned tt, (c1, (l1, w1))) →
  env _ Now w1 = (Returned t1, w2) →
  run (conn_env (log_env env)) (Logging next r) (c, (l, w)) =
  (Returned tt,
   (c1,
    (l1 ++
     [("INFO", "request completed",
       [AStr "method" (r_Method r); AStr "path" (r_Path r);
        AInt "status" (conn_status (conn_commit c1));
        AInt "latency_ms" (since_ms t1 t0);
        AStr "request_id" (RequestIDFromContext (r_ctx r));
        AStr "route" (default "unknown" (route_Name ∘ mt_Config <$> ctx_MatchedRoute (r_ctx r)));
        AStr "remote_addr" (r_RemoteAddr r);
        AInt "response_size" (wrap64 (Z.of_nat (String.length (conn_body c1))))]);
      ("DEBUG", "response headers", [AHeader "headers" (conn_header c1)])], w2))).
Proof.
  intros Hp Hs Hb H0 H1 H2. unfold Logging. rewrite run_mbind, run_emit.
  unfold conn_env at 1, env_with at 1. simpl (writer_handler _ _ _). cbv iota.
  unfold log_env at 1, env_with at 1. simpl (log_cell _ _). cbv iota. rewrite H0.
  fold (logged_request next r).
  pose proof (wrap_writer_run (log_env env) (logged_request next r) c (l, w0)
    (logged_request_plain _ _ Hp) Hs Hb) as [Hcw Hww].
  rewrite run_mbind. rewrite H1 in Hcw, Hww.
  destruct (run _ (WrapResponseWriter _) _) as [[[[] ww]|v] cw]; simpl in Hcw, Hww; [|done].
  destruct Hww as (_ & -> & ->). subst cw.
  rewrite run_mbind, run_emit. unfold conn_env at 1, env_with at 1.
  simpl. rewrite H2. simpl. rewrite <-app_assoc. simpl.
  by destruct (ctx_MatchedRoute (r_ctx r)).
Qed.

(** Once the wrapper has sent an informational head, the connection keeps no
    status other than the implicit 200. *)
Definition muted (ww : WrappedResponseWriter) (c : Conn) : Prop :=
  ww_wroteHeader ww = true ∧ (conn_sent c = None ∨ ∃ h, conn_sent c = Some (200, h)).

Lemma muted_event {W} (env : environment W) X (e : event X) ww c w :
  muted ww c →
  let r := (env_with (writer_handler WrappedResponseWriter) (conn_env env) X e (ww, (c, w))).2 in
  muted r.1 r.2.1.
Proof.
  intros [Hw Hs]. unfold conn_env, env_with, muted in *.
  destruct e; simpl;
    try (by match goal with |- context [env ?X ?e w] => destruct (env X e w) end);
    try (by split); unfold ww_WriteHeader, ww_Write; rewrite ?Hw; simpl; try (by split).
  - destruct (conn_Write b c) as [[n e] c'] eqn:E. simpl. split; [done|].
    apply conn_Write_spec in E as [_ ->]. unfold conn_commit.
    destruct Hs as [Hs|[h Hs]]; rewrite Hs; simpl; eauto.
  - unfold conn_commit. destruct Hs as [Hs|[h Hs]]; rewrite Hs; simpl; eauto.
Qed.

Lemma muted_head {W} (env : environment W) code (p : prog unit) w w' ww c :
  is_informational code = true →
  run (env_with (writer_handler WrappedResponseWriter) (conn_env env))
    (write_header code;; p) (ww_new, (new_conn, w)) = (Returned tt, (ww, (c, w'))) →
  muted ww c.
Proof.
  intros Hi. unfold write_header. rewrite !run_mbind, run_emit. simpl.
  assert (conn_WriteHeader code new_conn =
    (Returned tt, mkConn ∅ None "" [(code, ∅)])) as ->.
  { unfold conn_WriteHeader. simpl. rewrite Hi. unfold is_informational in Hi.
    rewrite !andb_true_iff, !Z.leb_le in Hi.
    by rewrite (proj2 (Z.ltb_ge code 100)), Z.gtb_ltb, (proj2 (Z.ltb_ge 999 code)) by lia. }
  simpl. intros Hr.
  pose proof (run_invariant (env_with (writer_handler WrappedResponseWriter) (conn_env env))
    any_event (λ x, muted x.1 x.2.1) p) as H.
  specialize (H (mkWrapped code 0 true, (mkConn ∅ None "" [(code, ∅)], w))).
  rewrite Hr in H. apply H; [|apply all_events_any|by split; [|left]].
  intros X e [ww' [c' w'']] _. apply muted_event.
Qed.

(** The wrapper takes an informational head (100, or 102 to 199, such as the
    103 Early Hints a reverse proxy forwards) for the final one and drops every
    later [WriteHeader]: behind [Logging] such a response always ends with status
    200, whatever status the handler goes on to send. *)
Theorem Logging_informational_loses_status {W} (env : environment W) code (p : Handler) r w c' w' :
  is_informational code = true →
  serve env (Logging (λ r, write_header code;; p r) r) w = (Returned c', w') →
  conn_status c' = 200.
Proof.
  intros Hi. rewrite serve_run. unfold Logging. rewrite run_mbind, run_emit, conn_env_pass by done.
  destruct (env Z Now w) as [[t0|v] w1]; [|done]. rewrite run_mbind.
  unfold WrapResponseWriter. rewrite run_mbind, run_emit.
  simpl (conn_env env _ WWrapped _). cbv beta iota. unfold with_writer.
  rewrite run_handle, run_mbind, run_emit, env_with_pass, conn_env_pass by done.
  destruct (env unit (Log _ _ _) w1) as [[[]|v] w2]; [|done].
  rewrite run_mbind, run_emit, env_with_pass, conn_env_pass by done.
  destruct (env Header RHeader w2) as [[h|v] w3]; [|done].
  rewrite run_mbind, run_emit, env_with_pass, conn_env_pass by done.
  destruct (env unit (Log _ _ _) w3) as [[[]|v] w4]; [|done].
  destruct (run _ _ (ww_new, (new_conn, w4))) as [[[]|v] [ww [c1 w5]]] eqn:Er; [|done].
  apply muted_head in Er as [_ Hs]; [|done]. cbn -[StatusCode]. 
  destruct (env Z Now w5) as [[t1|v] w6]; [|done].
  unfold conn_env, env_with. cbn -[StatusCode].
  repeat match goal with
         | |- context [env ?X ?e ?w0] => destruct (env X e w0) as [[?|?] ?]; [|done]; cbn -[StatusCode]
         end.
  intros [= <- _]. unfold conn_status, conn_commit.
  by destruct Hs as [Hs|[h1 Hs]]; rewrite Hs; simpl; rewrite ?Hs.
Qed.

(** ** Witnesses *)

Definition witness_request : Request :=
  mkRequest "GET" "/" "" "example.com" "192.0.2.1:1234" None 0 ctx_background.

Definition plain_handler : Handler := λ _, write_header 404;; write "no".



Lemma generateUUID_v4_witness :
  is_uuid_v4 (uuid_format (uuid_bits (N.of_nat <$> seq 0 16))) = true ∧
  uuid_format (uuid_bits (N.of_nat <$> seq 0 16)) = "00010203-0405-4607-8809-0a0b0c0d0e0f".
Proof.
  split; [|reflexivity]. apply (generateUUID_v4 (N.of_nat <$> seq 0 16)); [reflexivity|].
  repeat constructor.
Defined.

Lemma Logging_reports_wire_witness :
  ∃ l,
    run (conn_env (log_env quiet_env)) (Logging plain_handler witness_request) (new_conn, ([], tt)) =
    (Returned tt, (mkConn ∅ (Some (404, ∅)) "no" [], (l, tt))) ∧ length l = 4%nat.
Proof.
  eexists. split.
  - apply (Logging_reports_wire quiet_env plain_handler witness_request new_conn [] tt 0 0 tt
      (mkConn ∅ (Some (404, ∅)) "no" []) (run (conn_env (log_env quiet_env))
        (logged_request plain_handler witness_request) (new_conn, ([], tt))).2.2.1 tt tt);
      [|reflexivity..].
    vm_compute; repeat split; try done; intros []; repeat split; intros; done.
  - reflexivity.
Defined.

Lemma Logging_informational_loses_status_witness :
  ∃ c' w',
    serve quiet_env (Logging (λ r, write_header 103;; plain_handler r) witness_request) tt =
      (Returned c', w') ∧ conn_status c' = 200 ∧
    (∃ c2, serve quiet_env (write_header 103;; plain_handler witness_request) tt = (Returned c2, tt) ∧
           conn_status c2 = 404).
Proof.
  eexists _, _. split; [reflexivity|]. split.
  - eapply (Logging_informational_loses_status quiet_env 103 plain_handler witness_request tt);
      reflexivity.
  - eexists. split; reflexivity.
Defined.
