(* ===== verification/Known.v ===== *)
(** * Programs under known request headers

    Two programs are compared as they run where the request's headers are known
    ([same]): branches that the headers rule out do not count.  The router's choice
    of a route and the chain around it are compared this way. *)

From S2P Require Import Prelude.
From S2P Require Import GoStrings.
From S2P Require Import ConfigTypes.
From S2P Require Import CircuitBreaker.
From S2P Require Import Http.
From S2P Require Import Middleware.

Local Open Scope Z_scope.

(** ** Definitions *)

Definition no_put : ∀ X, event X → Prop :=
  λ X e, match e with RHeaderPut _ => False | _ => True end.

(** While [I] holds, and only [RHeaderPut] ends it, the request's headers are [h]. *)
Definition knows {W} (h : Header) (env : environment W) (I : W → Prop) : Prop :=
  ∀ w, I w → env _ RHeader w = (Returned h, w) ∧ ∀ X (e : event X), no_put X e → I (env X e w).2.

Definition same (h : Header) {A} (p q : prog A) : Prop :=
  ∀ W (env : environment W) I w, knows h env I → I w → run env p w = run env q w.

(** ** Lemmas *)

Lemma same_refl h {A} (p : prog A) : same h p p.
Proof. by intros W env I w _ _. Qed.

Lemma same_bind h {A B} (p q : prog A) (f : A → prog B) : same h p q → same h (p ≫= f) (q ≫= f).
Proof. intros Hs W env I w Hk Hi. by rewrite !run_mbind, (Hs W env I w Hk Hi). Qed.

Lemma same_emit h {X A} (e : event X) (f g : X → prog A) :
  no_put X e → (∀ x, same h (f x) (g x)) → same h (emit e ≫= f) (emit e ≫= g).
Proof.
  intros He Hs W env I w Hk Hi. rewrite !run_mbind, run_emit. pose proof (proj2 (Hk w Hi) X e He) as Hi'.
  destruct (env X e w) as [[x|v] w']; [|done]. by apply (Hs x W env I w').
Qed.

(** Reading the headers. *)
Lemma same_read h {A} (f : Header → prog A) : same h (emit RHeader ≫= f) (f h).
Proof. intros W env I w Hk Hi. by rewrite run_mbind, run_emit, (proj1 (Hk w Hi)). Qed.

Lemma same_trans h {A} (p q r : prog A) : same h p q → same h q r → same h p r.
Proof. intros H1 H2 W env I w Hk Hi. by rewrite (H1 W env I w Hk Hi), (H2 W env I w Hk Hi). Qed.

(** Handlers that leave the request's headers to the environment. *)
Definition header_free {S} (hd : handler S) : Prop :=
  hd _ RHeader = None ∧ ∀ X (e : event X) m s, hd X e = Some m → all_events no_put (m s).

Lemma knows_run {W A} h (env : environment W) I (p : prog A) w :
  knows h env I → all_events no_put p → I w → I (run env p w).2.
Proof. intros Hk Hp Hi. eapply run_invariant; [|exact Hp|exact Hi]. intros X e w' He Hi'. by apply Hk. Qed.

Lemma knows_with {S W} h (hd : handler S) (env : environment W) I :
  header_free hd → knows h env I → knows h (env_with hd env) (λ sw, I sw.2).
Proof.
  intros [Hr Hm] Hk [s w] Hi. cbn in Hi. split.
  - rewrite env_with_pass by done. by rewrite (proj1 (Hk w Hi)).
  - intros X e He. unfold env_with. destruct (hd X e) as [m|] eqn:E.
    + pose proof (knows_run h env I (m s) w Hk (Hm X e m s E) Hi) as Hi'.
      by destruct (run env (m s) w) as [[[x s']|v] w'].
    + pose proof (proj2 (Hk w Hi) X e He). by destruct (env X e w).
Qed.

Lemma same_handle h {S A} (hd : handler S) (p q : prog A) s :
  header_free hd → same h p q → same h (handle hd p s) (handle hd q s).
Proof.
  intros Hf Hs W env I w Hk Hi. rewrite !run_handle.
  by rewrite (Hs _ (env_with hd env) (λ sw, I sw.2) (s, w) (knows_with h hd env I Hf Hk) Hi).
Qed.

Lemma wrapped_header_free : header_free (writer_handler WrappedResponseWriter).
Proof.
  split; [done|]. intros X e m s. destruct e; cbn; try done; intros [= <-]; cbn; try done;
    unfold ww_Write, ww_WriteHeader; by destruct (ww_wroteHeader s).
Qed.

Lemma holder_header_free : header_free holder_cell.
Proof. split; [done|]. intros X e m s. destruct e; cbn; try done. by intros [= <-]. Qed.

(** The environment of a connection knows the headers of its request. *)
Lemma conn_req_env_knows {W} (env : environment W) h :
  knows h (conn_req_env env) (λ s, s.2.1 = h).
Proof.
  intros [c [h' w]] Hh. cbn in Hh. subst h'. split; [done|]. intros X e He.
  unfold conn_req_env, conn_env, req_env, env_with.
  destruct e; cbn in *; try done;
    try (by destruct (conn_WriteHeader code c)); try (by destruct (conn_Write b c));
    by match goal with |- context [env ?X ?e w] => destruct (env X e w) as [[?|?] ?] end.
Qed.
