(* ===== verification/Router.v ===== *)
(** * The router (internal/router/router.go)

    Routes are compiled once and tried in order; the first one whose path, host,
    method and header constraints hold serves the request. *)

From S2P Require Import Prelude.
From S2P Require Import GoStrings.
From S2P Require Import ConfigTypes.
From S2P Require Import CircuitBreaker.
From S2P Require Import Http.
From S2P Require Import Middleware.
From S2P Require Import Known.

Local Open Scope Z_scope.

(** [regexp.MustCompile]. *)
Definition MustCompile `{RegexpEngine} (s : string) : outcome Regexp :=
  match Compile s with Some re => Returned re | None => Panicked "regexp: Compile" end.

Definition outcome_bind {A B} (o : outcome A) (f : A → outcome B) : outcome B :=
  match o with Returned a => f a | Panicked v => Panicked v end.

#[export] Instance outcome_ret : MRet outcome := @Returned.
#[export] Instance outcome_mbind : MBind outcome := λ A B f o, outcome_bind o f.

Section router.
Context `{RE : RegexpEngine} `{UT : UnicodeTables} `{RO : RangeOrder}.

(** ** Compiled routes *)

Record headerMatcher : Type := mkHeaderMatcher {
  hm_name : string;
  hm_regex : option Regexp;
  hm_presenceOnly : bool;
}.

Record hostMatcher : Type := mkHostMatcher {
  hostm_exact : string;
  hostm_wildcardSuffix : string;
}.

Record compiledRoute : Type := mkCompiledRoute {
  cr_name : string;
  cr_regex : Regexp;
  cr_methods : option (gset string);
  cr_host : option hostMatcher;
  cr_headers : list headerMatcher;
  cr_handler : option Handler;
  cr_config : RouteConfig;
}.

Record Router : Type := mkRouter { rt_routes : list compiledRoute }.

Definition compile_methods (ms : list string) : option (gset string) :=
  match ms with [] => None | _ => Some (list_to_set ms) end.

Definition compile_host (host : string) : option hostMatcher :=
  if bool_decide (host = "") then None
  else let h := ToLower host in
       if HasPrefix h "*." then Some (mkHostMatcher "" (slice_from h 1))
       else Some (mkHostMatcher h "").

Definition compile_header (np : string * string) : outcome headerMatcher :=
  if bool_decide (np.2 = "*") then mret (mkHeaderMatcher np.1 None true)
  else re ← MustCompile ("^(?:" +:+ np.2 +:+ ")$");
       mret (mkHeaderMatcher np.1 (Some re) false).

Fixpoint outcome_map {A B} (f : A → outcome B) (l : list A) : outcome (list B) :=
  match l with
  | [] => mret []
  | x :: l' => y ← f x; ys ← outcome_map f l'; mret (y :: ys)
  end.

Definition compile_route (handlers : gmap string Handler) (cfg : RouteConfig)
    : outcome compiledRoute :=
  re ← MustCompile (match_PathRegex (route_Match cfg));
  hdrs ← outcome_map compile_header (range (match_Headers (route_Match cfg)));
  mret {| cr_name := route_Name cfg;
          cr_regex := re;
          cr_methods := compile_methods (match_Methods (route_Match cfg));
          cr_host := compile_host (match_Host (route_Match cfg));
          cr_headers := hdrs;
          cr_handler := handlers !! route_Name cfg;
          cr_config := cfg |}.

(** [router.New]. *)
Definition New (configs : list RouteConfig) (handlers : gmap string Handler) : outcome Router :=
  routes ← outcome_map (compile_route handlers) configs; mret (mkRouter routes).

(** ** Dispatch *)

(** The host without its port, in lower case. *)
Definition request_host (host : string) : string :=
  ToLower (match CutLast host ":" with Some (h, _) => h | None => host end).

Definition host_matches (hm : hostMatcher) (host : string) : bool :=
  let reqHost := request_host host in
  if bool_decide (hostm_exact hm ≠ "") then bool_decide (reqHost = hostm_exact hm)
  else if negb (HasSuffix reqHost (hostm_wildcardSuffix hm)) then false
  else let prefix :=
         slice_to reqHost (String.length reqHost - String.length (hostm_wildcardSuffix hm)) in
       negb (bool_decide (prefix = "") || ContainsByte prefix ".").

Definition method_matches (ms : option (gset string)) (method : string) : bool :=
  match ms with
  | None => true
  | Some s => bool_decide (method ∈ s) || bool_decide (method = "OPTIONS")
  end.

Definition header_matches (h : Header) (hm : headerMatcher) : bool :=
  let val := hdr_get h (hm_name hm) in
  if hm_presenceOnly hm then bool_decide (val ≠ "")
  else match hm_regex hm with Some re => MatchString re val | None => false end.

(** The named groups of a match.  An index out of range panics. *)
Fixpoint path_params (j : nat) (names matches : list string) (params : gmap string string)
    : outcome (gmap string string) :=
  match names with
  | [] => mret params
  | name :: names' =>
      if bool_decide (j = 0%nat) || bool_decide (name = "")
      then path_params (S j) names' matches params
      else match (matches !! j : option string) with
           | Some v => path_params (S j) names' matches (<[name := v]> params)
           | None => Panicked "index out of range"
           end
  end.

(** [WithMatchedRoute]. *)
Definition WithMatchedRoute (c : Context) (mr : MatchedRoute) : Context :=
  mkContext (ctx_RequestID c) (Some mr) (ctx_hasRouteHolder c) (ctx_AuthResult c)
    (ctx_StartTime c).

(** [WithRouteHolder], with the holder itself created by [with_route_holder]. *)
Definition WithRouteHolder (c : Context) : Context :=
  mkContext (ctx_RequestID c) (ctx_MatchedRoute c) true (ctx_AuthResult c) (ctx_StartTime c).

Definition dispatch (cr : compiledRoute) (matches : list string) (r : Request) : prog unit :=
  match path_params 0 (SubexpNames (cr_regex cr)) matches ∅ with
  | Panicked v => Panic v
  | Returned params =>
      let mr := mkMatchedRoute (cr_config cr) params in
      (if ctx_hasRouteHolder (r_ctx r) then emit (HolderSet mr) else mret tt);;
      match cr_handler cr with
      | Some h => h (WithContext r (WithMatchedRoute (r_ctx r) mr))
      | None => Panic "nil pointer dereference"
      end
  end.

(** The loop of [ServeHTTP] over the routes that remain. *)
Fixpoint serve_routes (routes : list compiledRoute) (r : Request) : prog unit :=
  match routes with
  | [] => writeJSON 404 "not_found" "No route matched"
  | cr :: rest =>
      match FindStringSubmatch (cr_regex cr) (r_Path r) with
      | None => serve_routes rest r
      | Some matches =>
          if match cr_host cr with
             | Some hm => negb (host_matches hm (r_Host r))
             | None => false
             end
          then serve_routes rest r
          else if negb (method_matches (cr_methods cr) (r_Method r)) then serve_routes rest r
          else ok ← match cr_headers cr with
                    | [] => mret true
                    | hms => h ← emit RHeader; mret (forallb (header_matches h) hms)
                    end;
               if (ok : bool) then dispatch cr matches r else serve_routes rest r
      end
  end.

Definition ServeHTTP (rt : Router) : Handler := λ r, serve_routes (rt_routes rt) r.

(** ** Specification: when a configured route accepts a request *)

(** A host pattern against a host name without port, both in lower case. *)
Definition host_accepts (pattern name : string) : Prop :=
  if decide (pattern = "") then True
  else if HasPrefix pattern "*."
  then ∃ label, label ≠ "" ∧ ContainsByte label "." = false ∧
         name = label +:+ slice_from pattern 1
  else name = pattern.

Definition path_accepts (pattern path : string) : Prop :=
  ∃ re, Compile pattern = Some re ∧ MatchString re path = true.

Definition header_accepts (pattern val : string) : Prop :=
  if decide (pattern = "*") then val ≠ "" else path_accepts ("^(?:" +:+ pattern +:+ ")$") val.

Definition accepts (cfg : RouteConfig) (r : Request) (h : Header) : Prop :=
  let m := route_Match cfg in
  path_accepts (match_PathRegex m) (r_Path r) ∧
  host_accepts (ToLower (match_Host m)) (request_host (r_Host r)) ∧
  (match_Methods m = [] ∨ r_Method r ∈ match_Methods m ∨ r_Method r = "OPTIONS") ∧
  ∀ n p, match_Headers m !! n = Some p → header_accepts p (hdr_get h n).

(** ** Lemmas *)

Lemma outcome_map_spec {A B} (f : A → outcome B) l l' :
  outcome_map f l = Returned l' ↔ Forall2 (λ x y, f x = Returned y) l l'.
Proof.
  revert l'. induction l as [|x l IH]; intros l'; simpl.
  - split; [intros [= <-]; constructor|]. by inversion 1.
  - unfold mbind, outcome_mbind. destruct (f x) as [y|v] eqn:E; simpl.
    + destruct (outcome_map f l) as [ys|v] eqn:Es; simpl.
      * split; [intros [= <-]; constructor; [done|]; by apply IH|].
        inversion 1; simplify_eq. f_equal. f_equal; [congruence|].
        assert (Returned ys = Returned l'0) by (by apply IH). congruence.
      * split; [done|]. inversion 1 as [|? y' ? ys' ? Hr]; simplify_eq.
        by apply IH in Hr.
    + split; [done|]. inversion 1; congruence.
Qed.

Lemma outcome_map_total {A B} (f : A → outcome B) l :
  (∃ l', outcome_map f l = Returned l') ↔ ∀ x, x ∈ l → ∃ y, f x = Returned y.
Proof.
  split.
  - intros [l' Hl'%outcome_map_spec] x Hx.
    destruct (Forall2_elem_l _ _ _ _ Hl' Hx) as (y & _ & ?). eauto.
  - induction l as [|x l IH]; intros H; [by eexists|]. simpl.
    destruct (H x) as [y ->]; [set_solver|]. destruct IH as [l' ->]; [set_solver|].
    by eexists.
Qed.

Lemma compile_header_total n p :
  (∃ hm, compile_header (n, p) = Returned hm) ↔
  (p ≠ "*" → is_Some (Compile ("^(?:" +:+ p +:+ ")$"))).
Proof.
  unfold compile_header, MustCompile. simpl. case_bool_decide.
  - split; [done|by eexists].
  - unfold mbind, outcome_mbind. destruct (Compile _); simpl; [naive_solver|].
    split; [by intros []|]. intros H'. by destruct H'.
Qed.

Lemma host_matches_spec pattern host :
  match compile_host pattern with Some hm => host_matches hm host = true | None => True end ↔
  host_accepts (ToLower pattern) (request_host host).
Proof.
  unfold compile_host, host_accepts.
  case_bool_decide as Hp; [subst; by rewrite decide_True by done|].
  rewrite decide_False by (by rewrite ToLower_empty).
  unfold host_matches. destruct (HasPrefix (ToLower pattern) "*.") eqn:Hw; simpl.
  - set (suf := slice_from (ToLower pattern) 1). set (n := request_host host).
    destruct (HasSuffix n suf) eqn:Hs; simpl.
    + apply HasSuffix_spec in Hs as (p & Hn & Hsl). rewrite Hsl.
      rewrite negb_true_iff, orb_false_iff, bool_decide_eq_false. split.
      * intros [? ?]. by exists p.
      * intros (l & ? & ? & Hl'). assert (p = l) as ->; [|done].
        rewrite <-Hsl, Hl'. apply slice_to_suffix.
    + split; [done|]. intros (l & _ & _ & Hn).
      assert (HasSuffix n suf = true) as ?; [|congruence].
      apply HasSuffix_spec. exists l. split; [done|]. rewrite Hn. apply slice_to_suffix.
  - rewrite (bool_decide_true (ToLower pattern ≠ "")) by (by rewrite ToLower_empty).
    apply bool_decide_eq_true.
Qed.

Lemma method_matches_spec ms m :
  method_matches (compile_methods ms) m = true ↔ ms = [] ∨ m ∈ ms ∨ m = "OPTIONS".
Proof.
  unfold compile_methods. destruct ms as [|m0 ms]; simpl; [naive_solver|].
  rewrite orb_true_iff, !bool_decide_eq_true.
  change ({[m0]} ∪ list_to_set ms) with (list_to_set (C := gset string) (m0 :: ms)).
  rewrite elem_of_list_to_set. naive_solver.
Qed.

Lemma header_matches_spec n p hm h :
  compile_header (n, p) = Returned hm →
  header_matches h hm = true ↔ header_accepts p (hdr_get h n).
Proof.
  unfold compile_header, header_accepts, MustCompile, path_accepts. simpl.
  case_bool_decide as Hp.
  - intros [= <-]. unfold header_matches. simpl. rewrite decide_True by done.
    apply bool_decide_eq_true.
  - rewrite decide_False by done. destruct (Compile _) as [re|] eqn:E; [|done].
    intros [= <-]. unfold header_matches. simpl. naive_solver.
Qed.

(** What the loop decides about one route. *)
Definition route_selects (cr : compiledRoute) (r : Request) (h : Header) : bool :=
  MatchString (cr_regex cr) (r_Path r) &&
  match cr_host cr with Some hm => host_matches hm (r_Host r) | None => true end &&
  method_matches (cr_methods cr) (r_Method r) &&
  forallb (header_matches h) (cr_headers cr).

Lemma serve_routes_cons cr rest r h :
  same h (serve_routes (cr :: rest) r)
    (if route_selects cr r h
     then dispatch cr (default [] (FindStringSubmatch (cr_regex cr) (r_Path r))) r
     else serve_routes rest r).
Proof.
  unfold route_selects, MatchString. cbn [serve_routes].
  destruct (FindStringSubmatch (cr_regex cr) (r_Path r)) as [ms|]; [|apply same_refl].
  rewrite bool_decide_true by done. cbn [andb].
  destruct (cr_host cr) as [hm|]; [destruct (host_matches hm (r_Host r)); [|apply same_refl]|];
    cbn [andb negb]; (destruct (method_matches (cr_methods cr) (r_Method r)); [|apply same_refl]);
    cbn [andb negb]; (destruct (cr_headers cr) as [|hm' hms]; [apply same_refl|]);
    intros W env I w Hk Hi; rewrite run_mbind, (same_read h _ W env I w Hk Hi); cbn [run mret prog_ret];
    by destruct (forallb (header_matches h) (hm' :: hms)).
Qed.

Lemma compile_route_inv handlers cfg cr :
  compile_route handlers cfg = Returned cr →
  Compile (match_PathRegex (route_Match cfg)) = Some (cr_regex cr) ∧
  cr_methods cr = compile_methods (match_Methods (route_Match cfg)) ∧
  cr_host cr = compile_host (match_Host (route_Match cfg)) ∧
  Forall2 (λ np hm, compile_header np = Returned hm)
    (range (match_Headers (route_Match cfg))) (cr_headers cr) ∧
  cr_handler cr = handlers !! route_Name cfg ∧ cr_config cr = cfg.
Proof.
  unfold compile_route, MustCompile. destruct (Compile _) as [re|] eqn:Er; [|done].
  unfold mbind, outcome_mbind; simpl.
  destruct (outcome_map compile_header _) as [hms|v] eqn:Eh; [|done].
  simpl. intros [= <-]; simpl. repeat split; auto. by apply outcome_map_spec.
Qed.

Lemma route_selects_accepts handlers cfg cr r h :
  compile_route handlers cfg = Returned cr → route_selects cr r h = true ↔ accepts cfg r h.
Proof.
  intros (Hre & Hm & Hh & Hhd & _)%compile_route_inv.
  unfold route_selects, accepts, path_accepts. rewrite Hre, Hm, Hh.
  rewrite !andb_true_iff, method_matches_spec, <-host_matches_spec, forallb_forall.
  assert ((∀ x, In x (cr_headers cr) → header_matches h x = true) ↔
          ∀ n p, match_Headers (route_Match cfg) !! n = Some p → header_accepts p (hdr_get h n)) as ->.
  { setoid_rewrite <-list_elem_of_In. split.
    - intros H n p Hnp. apply elem_of_range in Hnp.
      destruct (Forall2_elem_l _ _ _ _ Hhd Hnp) as (hm & Hin & Hc).
      rewrite <-(header_matches_spec _ _ _ _ Hc). auto.
    - intros H hm Hin. destruct (Forall2_elem_r _ _ _ _ Hhd Hin) as ([n p] & Hnp & Hc).
      rewrite (header_matches_spec _ _ _ _ Hc). by apply H, elem_of_range. }
  destruct (compile_host (match_Host (route_Match cfg))); naive_solver.
Qed.

(** Named groups. *)

Lemma path_params_spec j names matches params :
  (length names + j ≤ length matches)%nat →
  ∃ params', path_params j names matches params = Returned params' ∧
  ∀ name v, params' !! name = Some v ↔
    (∃ k, names !! k = Some name ∧ (k + j ≠ 0)%nat ∧ name ≠ "" ∧ matches !! (k + j)%nat = Some v ∧
       ∀ k', (k < k')%nat → names !! k' ≠ Some name) ∨
    (params !! name = Some v ∧
     ∀ k, names !! k = Some name → (k + j = 0)%nat ∨ name = "").
Proof.
  revert j params. induction names as [|name names IH]; intros j params Hl.
  - exists params. split; [done|]. intros. split; [by right|]. by intros [(k & Hk & _)|[? _]].
  - simpl in Hl. cbn [path_params].
    destruct (_ || _) eqn:Hb;
      [rewrite orb_true_iff, !bool_decide_eq_true in Hb
      |rewrite orb_false_iff, !bool_decide_eq_false in Hb].
    + destruct (IH (S j) params) as (params' & He & Hspec); [lia|].
      exists params'. split; [done|]. intros n v. rewrite Hspec. clear Hspec. split.
      * intros [(k & ? & ? & ? & ? & Hlast)|[Hp Hn]].
        { left. exists (S k). simpl. rewrite <-Nat.add_succ_r. repeat split; auto.
          intros [|k'] ?; [lia|]. apply Hlast. lia. }
        right. split; [done|]. intros [|k] Hk; simpl in Hk; [naive_solver|].
        destruct (Hn _ Hk); [lia|auto].
      * intros [([|k] & Hk & Hnz & Hne & Hm & Hlast)|[Hp Hn]]; simpl in *.
        { simplify_eq. naive_solver. }
        { left. exists k. rewrite Nat.add_succ_r. repeat split; auto.
          intros k' ?. apply (Hlast (S k')). lia. }
        right. split; [done|]. intros k Hk. destruct (Hn (S k) Hk); [lia|auto].
    + destruct (lookup_lt_is_Some_2 matches j) as [v0 Hv0]; [lia|]. rewrite Hv0.
      destruct (IH (S j) (<[name:=v0]> params)) as (params' & He & Hspec); [lia|].
      exists params'. split; [done|]. intros n v. rewrite Hspec. clear Hspec. split.
      * intros [(k & ? & ? & ? & ? & Hlast)|[Hp Hn]].
        { left. exists (S k). simpl. rewrite <-Nat.add_succ_r. repeat split; auto.
          intros [|k'] ?; [lia|]. apply Hlast. lia. }
        apply lookup_insert_Some in Hp as [[<- <-]|[Hne Hp]].
        { left. exists 0%nat. simpl. repeat split; try naive_solver lia.
          intros [|k'] ? Hk; [lia|]. simpl in Hk. destruct (Hn _ Hk); naive_solver lia. }
        right. split; [done|]. intros [|k] Hk; simpl in Hk; [naive_solver|].
        destruct (Hn _ Hk); [lia|auto].
      * intros [([|k] & Hk & Hnz & Hne & Hm & Hlast)|[Hp Hn]]; simpl in *.
        { simplify_eq. right. rewrite lookup_insert_eq. split; [done|].
          intros k Hk. by destruct (Hlast (S k)); [lia|]. }
        { left. exists k. rewrite Nat.add_succ_r. repeat split; auto.
          intros k' ?. apply (Hlast (S k')). lia. }
        right. rewrite lookup_insert_ne.
        { split; [done|]. intros k Hk. destruct (Hn (S k) Hk); [lia|auto]. }
        intros ->. destruct (Hn 0%nat eq_refl); naive_solver.
Qed.

(** ** Properties *)

(** What the router records about the route that serves a request: its
    configuration and the non-empty named groups of the path, the last group of
    a repeated name. *)
Definition records_match (cfg : RouteConfig) (r : Request) (mr : MatchedRoute) : Prop :=
  mt_Config mr = cfg ∧
  ∃ re ms, Compile (match_PathRegex (route_Match cfg)) = Some re ∧
    FindStringSubmatch re (r_Path r) = Some ms ∧
    ∀ name v, mt_PathParams mr !! name = Some v ↔
      ∃ k, SubexpNames re !! k = Some name ∧ k ≠ 0%nat ∧ name ≠ "" ∧ ms !! k = Some v ∧
        ∀ k', (k < k')%nat → SubexpNames re !! k' ≠ Some name.

(** The handler of a route, with the match in the holder and the context. *)
Definition handled (handlers : gmap string Handler) (cfg : RouteConfig) (mr : MatchedRoute)
    (r : Request) : prog unit :=
  (if ctx_hasRouteHolder (r_ctx r) then emit (HolderSet mr) else mret tt);;
  match handlers !! route_Name cfg with
  | Some hd => hd (WithContext r (WithMatchedRoute (r_ctx r) mr))
  | None => Panic "nil pointer dereference"
  end.

Lemma dispatch_handled handlers cfg cr r :
  compile_route handlers cfg = Returned cr →
  MatchString (cr_regex cr) (r_Path r) = true →
  ∃ mr, records_match cfg r mr ∧
    dispatch cr (default [] (FindStringSubmatch (cr_regex cr) (r_Path r))) r =
    handled handlers cfg mr r.
Proof.
  intros (Hre & _ & _ & _ & Hh & Hcfg)%compile_route_inv [ms Hms]%bool_decide_eq_true.
  unfold dispatch, handled. rewrite Hms, Hh, Hcfg. simpl.
  destruct (path_params_spec 0 (SubexpNames (cr_regex cr)) ms ∅) as (params & -> & Hp).
  { rewrite (FindStringSubmatch_length _ _ _ Hms). lia. }
  exists (mkMatchedRoute cfg params). split; [|done].
  split; [done|]. exists (cr_regex cr), ms. split; [done|]. split; [done|]. simpl.
  intros name v. rewrite Hp. setoid_rewrite Nat.add_0_r.
  split; [intros [?|[? _]]; [done|]; by rewrite lookup_empty in *|by left].
Qed.

(** The router under known headers: the first accepting route, or the 404 answer. *)
Lemma ServeHTTP_same configs handlers rt r h :
  New configs handlers = Returned rt →
  (∀ i cfg, configs !! i = Some cfg → accepts cfg r h →
     (∀ j cfg', (j < i)%nat → configs !! j = Some cfg' → ¬ accepts cfg' r h) →
     ∃ mr, records_match cfg r mr ∧ same h (ServeHTTP rt r) (handled handlers cfg mr r)) ∧
  ((∀ cfg, cfg ∈ configs → ¬ accepts cfg r h) →
     same h (ServeHTTP rt r) (writeJSON 404 "not_found" "No route matched")).
Proof.
  unfold New, ServeHTTP. destruct (outcome_map _ configs) as [routes|v] eqn:Hr; [|done].
  intros [= <-]. cbn [rt_routes]. apply outcome_map_spec in Hr.
  induction Hr as [|cfg0 cr configs' routes' Hc Hrs IH]; [split; [by intros [|i]|intros; apply same_refl]|].
  pose proof (serve_routes_cons cr routes' r h) as Hcons.
  pose proof (route_selects_accepts _ _ _ r h Hc) as Hsel. destruct IH as [IH1 IH2]. split.
  - intros [|i] cfg Hi Hacc Hfirst; cbn in Hi.
    + simplify_eq. rewrite (proj2 Hsel Hacc) in Hcons.
      apply Hsel in Hacc. unfold route_selects in Hacc. bool_to_prop.
      destruct (dispatch_handled handlers cfg cr r) as (mr & ? & E); [done..|]. rewrite E in Hcons. eauto.
    + destruct (route_selects cr r h).
      { destruct (Hfirst 0%nat cfg0); [lia|done|tauto]. }
      destruct (IH1 i cfg Hi Hacc) as (mr & Hm & Hs);
        [intros j cfg' ? ?; apply (Hfirst (S j)); [lia|done]|].
      exists mr. split; [done|]. by eapply same_trans.
  - intros Hnone. destruct (route_selects cr r h).
    { destruct (Hnone cfg0); [set_solver|tauto]. }
    eapply same_trans; [exact Hcons|]. apply IH2. set_solver.
Qed.

(** C9: the router serves a request with the first configured route whose path
    expression, host pattern, method list and header patterns accept it; that
    route's handler runs with the match in its context (and in the holder if
    there is one), and with the JSON 404 answer when no route accepts.  The order
    in which header constraints are visited does not matter. *)
Theorem ServeHTTP_first_match {W} (env : environment W) configs handlers rt r c h w :
  New configs handlers = Returned rt →
  (∀ i cfg, configs !! i = Some cfg → accepts cfg r h →
     (∀ j cfg', (j < i)%nat → configs !! j = Some cfg' → ¬ accepts cfg' r h) →
     ∃ mr, records_match cfg r mr ∧
       run (conn_req_env env) (ServeHTTP rt r) (c, (h, w)) =
       run (conn_req_env env) (handled handlers cfg mr r) (c, (h, w))) ∧
  ((∀ cfg, cfg ∈ configs → ¬ accepts cfg r h) →
     run (conn_req_env env) (ServeHTTP rt r) (c, (h, w)) =
     run (conn_req_env env) (writeJSON 404 "not_found" "No route matched") (c, (h, w))).
Proof.
  intros Hn. destruct (ServeHTTP_same configs handlers rt r h Hn) as [H1 H2].
  pose proof (conn_req_env_knows env h) as Hk. split.
  - intros i cfg Hi Ha Hf. destruct (H1 i cfg Hi Ha Hf) as (mr & Hm & Hs). exists mr. split; [done|].
    by apply (Hs _ _ _ (c, (h, w)) Hk).
  - intros Hnone. by apply (H2 Hnone _ _ _ (c, (h, w)) Hk).
Qed.

(** Compiling the routes panics exactly when some path expression or some
    header pattern other than the bare star does not compile. *)
Theorem New_succeeds_iff configs handlers :
  (∃ rt, New configs handlers = Returned rt) ↔
  ∀ cfg, cfg ∈ configs →
    is_Some (Compile (match_PathRegex (route_Match cfg))) ∧
    ∀ n p, match_Headers (route_Match cfg) !! n = Some p → p ≠ "*" →
      is_Some (Compile ("^(?:" +:+ p +:+ ")$")).
Proof.
  transitivity (∀ cfg, cfg ∈ configs → ∃ cr, compile_route handlers cfg = Returned cr).
  - rewrite <-outcome_map_total. unfold New.
    destruct (outcome_map _ configs) as [l|v]; simpl; naive_solver.
  - apply forall_proper; intros cfg. apply Morphisms_Prop.iff_iff_iff_impl_morphism; [done|].
    unfold compile_route, MustCompile. destruct (Compile (match_PathRegex _)) as [re|];
      [|split; [by intros []|by intros [[] _]]].
    transitivity (∃ hms, outcome_map compile_header (range (match_Headers (route_Match cfg))) =
                         Returned hms).
    { unfold mbind, outcome_mbind. simpl.
      destruct (outcome_map compile_header _); simpl; naive_solver. }
    rewrite outcome_map_total. split.
    + intros H. split; [done|]. intros n p Hnp. apply (compile_header_total n p), H.
      by apply elem_of_range.
    + intros [_ H] [n p] Hnp. apply compile_header_total, (H n). by apply elem_of_range.
Qed.

(** The port is cut off before hosts are compared, so an exact host pattern
    that contains a colon (a host with a port, an IPv6 literal) is never matched
    by a request for exactly that host. *)
Theorem host_pattern_with_colon_unmatched pattern hm :
  is_ascii pattern = true → ContainsByte pattern ":" = true →
  HasPrefix (ToLower pattern) "*." = false →
  compile_host pattern = Some hm → host_matches hm pattern = false.
Proof.
  intros Ha Hc Hw Hh.
  destruct (host_matches hm pattern) eqn:E; [|done].
  pose proof (host_matches_spec pattern pattern) as Hs. rewrite Hh in Hs.
  apply Hs in E. unfold host_accepts in E. rewrite Hw in E.
  rewrite decide_False in E by (rewrite ToLower_empty; by intros ->).
  unfold request_host in E. destruct (CutLast pattern ":") as [[x y]|] eqn:Hcut.
  - apply CutLast_Some in Hcut as [-> _]. unfold ToLower in E. rewrite Ha in E.
    rewrite is_ascii_app, andb_true_iff in Ha. rewrite (proj1 Ha) in E.
    apply (f_equal String.length) in E. unfold ascii_lower in E.
    rewrite !length_map_string, length_append in E. simpl in E. lia.
  - apply CutLast_None in Hcut. congruence.
Qed.

End router.

(** ** Witnesses *)

(** An engine of literal paths: a pattern matches itself, without groups. *)
Definition literal_submatch (re s : string) : option (list string) :=
  if bool_decide (re = s) then Some [s] else None.

Lemma literal_submatch_length re s l :
  literal_submatch re s = Some l → length l = length [""].
Proof. unfold literal_submatch. case_bool_decide; naive_solver. Defined.

Definition literal_engine : RegexpEngine := {|
  Regexp := string;
  Compile s := if bool_decide (s = "") then None else Some s;
  FindStringSubmatch := literal_submatch;
  SubexpNames _ := [""];
  FindStringSubmatch_length := literal_submatch_length;
|}.

Definition witness_route (name path host : string) (methods : list string) : RouteConfig :=
  mkRouteConfig name (mkMatchConfig path methods host ∅) (mkUpstreamConfig "http://up" "" 0)
    None None [] [].

Lemma ServeHTTP_first_match_witness :
  let RE := literal_engine in let UT := ascii_tables in let RO := sorted_range in
  let configs := [witness_route "a" "/" "*.Example.com" ["GET"]; witness_route "b" "/" "" ["POST"];
                  witness_route "c" "/" "example.com" []] in
  let handlers : gmap string Handler := {["c" := λ r, write_header 204]} in
  ∃ rt mr, New configs handlers = Returned rt ∧
    run (conn_req_env quiet_env) (ServeHTTP rt witness_request) (new_conn, (∅, tt)) =
    run (conn_req_env quiet_env) (handled handlers (witness_route "c" "/" "example.com" []) mr
      witness_request) (new_conn, (∅, tt)).
Proof.
  intros RE UT RO configs handlers.
  destruct (New configs handlers) as [rt|v] eqn:E; [|vm_compute in E; done].
  destruct (proj1 (ServeHTTP_first_match quiet_env configs handlers rt witness_request new_conn ∅ tt E)
    2%nat (witness_route "c" "/" "example.com" [])) as (mr & _ & H).
  - reflexivity.
  - split; [exists "/"; split; reflexivity|]. split; [vm_compute; done|].
    split; [by left|]. intros n p Hn.
    change ((∅ : gmap string string) !! n = Some p) in Hn. by rewrite lookup_empty in Hn.
  - intros [|[|[|j]]] cfg' ?; [| |lia..]; simpl; intros [= <-].
    all: intros Hacc; eapply (route_selects_accepts handlers) in Hacc; [|reflexivity];
      vm_compute in Hacc; done.
  - exists rt, mr. split; [done|exact H].
Defined.

Lemma host_pattern_with_colon_unmatched_witness :
  let UT := ascii_tables in
  host_matches (mkHostMatcher "localhost:8080" "") "localhost:8080" = false.
Proof.
  intros UT. by apply (host_pattern_with_colon_unmatched "localhost:8080").
Defined.
