(* ===== verification/Cors.v ===== *)
(** * CORS (internal/middleware/cors.go)

    Preflight requests are answered without the upstream; the response to any
    other cross-origin request gets its CORS headers from a writer that injects
    them in front of the status line. *)

From S2P Require Import Prelude.
From S2P Require Import GoStrings.
From S2P Require Import ConfigTypes.
From S2P Require Import Http.
From S2P Require Import Middleware.

Local Open Scope Z_scope.

Definition isWildcard (origins : list string) : bool :=
  existsb (λ o, bool_decide (o = "*")) origins.

Definition isOriginAllowed (origin : string) (allowedOrigins : list string) : bool :=
  existsb (λ o, bool_decide (o = "*") || bool_decide (o = origin)) allowedOrigins.

Definition resolveAllowOrigin (origin : string) (cfg : CORSConfig) : string :=
  if negb (isOriginAllowed origin (cors_AllowedOrigins cfg)) then ""
  else if isWildcard (cors_AllowedOrigins cfg) && negb (cors_AllowCredentials cfg) then "*"
  else origin.

Definition isPreflight (r : Request) (h : Header) : bool :=
  bool_decide (r_Method r = "OPTIONS") && bool_decide (hdr_get h "Origin" ≠ "") &&
  bool_decide (hdr_get h "Access-Control-Request-Method" ≠ "").

(** [if b { h.Set(k, v) }]. *)
Definition header_set_if (b : bool) (k v : string) : prog unit :=
  if b then header_set k v else mret tt.

Definition handlePreflight (origin : string) (cfg : CORSConfig) : prog unit :=
  header_set "Vary" "Origin";;
  let allowOrigin := resolveAllowOrigin origin cfg in
  if bool_decide (allowOrigin = "") then write_header 204
  else
    header_set "Access-Control-Allow-Origin" allowOrigin;;
    header_set "Access-Control-Allow-Methods" (Join (cors_AllowedMethods cfg) ", ");;
    header_set_if (bool_decide (cors_AllowedHeaders cfg ≠ []))
      "Access-Control-Allow-Headers" (Join (cors_AllowedHeaders cfg) ", ");;
    header_set_if (cors_MaxAge cfg >? 0) "Access-Control-Max-Age" (Itoa (cors_MaxAge cfg));;
    header_set_if (cors_AllowCredentials cfg) "Access-Control-Allow-Credentials" "true";;
    write_header 204.

Definition injectCORSHeaders (origin : string) (cfg : CORSConfig) : prog unit :=
  header_set "Vary" "Origin";;
  let allowOrigin := resolveAllowOrigin origin cfg in
  if bool_decide (allowOrigin = "") then mret tt
  else
    header_set "Access-Control-Allow-Origin" allowOrigin;;
    header_set_if (cors_AllowCredentials cfg) "Access-Control-Allow-Credentials" "true";;
    header_set_if (bool_decide (cors_ExposedHeaders cfg ≠ []))
      "Access-Control-Expose-Headers" (Join (cors_ExposedHeaders cfg) ", ").

Record corsResponseWriter : Type := mkCorsWriter {
  crw_origin : string;
  crw_cfg : CORSConfig;
  crw_headersSent : bool;
}.

Definition crw_WriteHeader (code : Z) (crw : corsResponseWriter)
    : prog (outcome unit * corsResponseWriter) :=
  crw ← (if crw_headersSent crw then mret crw
         else injectCORSHeaders (crw_origin crw) (crw_cfg crw);;
              mret (mkCorsWriter (crw_origin crw) (crw_cfg crw) true));
  o ← emit (WWriteHeader code); mret (o, crw).

Definition crw_Write (b : string) (crw : corsResponseWriter)
    : prog ((Z * option error) * corsResponseWriter) :=
  crw ← (if crw_headersSent crw then mret crw
         else '(_, crw') ← crw_WriteHeader 200 crw; mret crw');
  ne ← emit (WWrite b); mret (ne, crw).

#[export] Instance Cors_writer : ResponseWriter corsResponseWriter := {|
  rw_Header crw := h ← emit WHeader; mret (h, crw);
  rw_HeaderPut h crw := emit (WHeaderPut h);; mret crw;
  rw_WriteHeader := crw_WriteHeader;
  rw_Write := crw_Write;
  rw_Flush crw := emit WFlush;; mret crw;
  rw_Wrapped _ := None;
|}.

(** The warning logged when the middleware is built. *)
Definition CORS_warning (cfg : CORSConfig) : bool :=
  isWildcard (cors_AllowedOrigins cfg) && cors_AllowCredentials cfg.

Definition CORSMiddleware (cfg : CORSConfig) : Middleware :=
  λ next r,
    origin ← req_header_get "Origin";
    if bool_decide (origin = "") then next r
    else h ← emit RHeader;
         if isPreflight r h then handlePreflight origin cfg
         else _ ← with_writer (next r) (mkCorsWriter origin cfg false); mret tt.

(** ** Specification *)

(** What the CORS headers of a response to [origin] are, given the headers [h0]
    the response has without them. *)
Definition cors_headers (cfg : CORSConfig) (origin : string) (h0 h : Header) : Prop :=
  h !! "Vary" = Some ["Origin"] ∧
  if decide (origin ∈ cors_AllowedOrigins cfg ∨ "*" ∈ cors_AllowedOrigins cfg)
  then
    h !! "Access-Control-Allow-Origin" =
      Some [if decide ("*" ∈ cors_AllowedOrigins cfg ∧ cors_AllowCredentials cfg = false)
            then "*" else origin] ∧
    h !! "Access-Control-Allow-Credentials" =
      (if cors_AllowCredentials cfg then Some ["true"]
       else h0 !! "Access-Control-Allow-Credentials") ∧
    h !! "Access-Control-Expose-Headers" =
      (if decide (cors_ExposedHeaders cfg = []) then h0 !! "Access-Control-Expose-Headers"
       else Some [Join (cors_ExposedHeaders cfg) ", "]) ∧
    ∀ k, k ∉ ["Vary"; "Access-Control-Allow-Origin"; "Access-Control-Allow-Credentials";
              "Access-Control-Expose-Headers"] → h !! k = h0 !! k
  else ∀ k, k ≠ "Vary" → h !! k = h0 !! k.

(** ** Lemmas *)

Lemma isWildcard_spec l : isWildcard l = bool_decide ("*" ∈ l).
Proof.
  apply Bool.eq_iff_eq_true. unfold isWildcard.
  rewrite existsb_exists, bool_decide_eq_true. setoid_rewrite <-list_elem_of_In.
  setoid_rewrite bool_decide_eq_true. naive_solver.
Qed.

Lemma isOriginAllowed_spec o l : isOriginAllowed o l = bool_decide (o ∈ l ∨ "*" ∈ l).
Proof.
  apply Bool.eq_iff_eq_true. unfold isOriginAllowed.
  rewrite existsb_exists, bool_decide_eq_true. setoid_rewrite <-list_elem_of_In.
  setoid_rewrite orb_true_iff. setoid_rewrite bool_decide_eq_true. naive_solver.
Qed.

Lemma resolveAllowOrigin_spec origin cfg :
  resolveAllowOrigin origin cfg =
  if decide (origin ∈ cors_AllowedOrigins cfg ∨ "*" ∈ cors_AllowedOrigins cfg)
  then if decide ("*" ∈ cors_AllowedOrigins cfg ∧ cors_AllowCredentials cfg = false)
       then "*" else origin
  else "".
Proof.
  unfold resolveAllowOrigin. rewrite isOriginAllowed_spec, isWildcard_spec.
  destruct (cors_AllowCredentials cfg); repeat case_bool_decide; repeat case_decide;
    simpl; naive_solver.
Qed.

(** Where a header update leaves the connection. *)
Definition with_header (c : Conn) (h : Header) : Conn :=
  mkConn h (conn_sent c) (conn_body c) (conn_info c).

Lemma injectCORSHeaders_spec {W} (env : environment W) origin cfg c w :
  origin ≠ "" →
  ∃ h, run (conn_env env) (injectCORSHeaders origin cfg) (c, w) = (Returned tt, (with_header c h, w)) ∧
       cors_headers cfg origin (conn_header c) h.
Proof.
  intros Ho. unfold injectCORSHeaders, cors_headers.
  rewrite resolveAllowOrigin_spec, run_mbind, conn_header_set.
  cbv beta iota zeta.
  destruct (decide (origin ∈ cors_AllowedOrigins cfg ∨ "*" ∈ cors_AllowedOrigins cfg)) as [Ha|Ha].
  2: { eexists. split; [done|].
       split; [apply lookup_insert_eq|]. intros k ?. by apply lookup_insert_ne. }
  set (v := if decide ("*" ∈ cors_AllowedOrigins cfg ∧ cors_AllowCredentials cfg = false)
            then "*" else origin).
  rewrite (bool_decide_false (v = "")) by (subst v; by case_decide).
  rewrite run_mbind, conn_header_set. cbv beta iota.
  unfold header_set_if, with_header.
  destruct (cors_AllowCredentials cfg) eqn:Hcred;
    destruct (decide (cors_ExposedHeaders cfg = [])) as [He|He];
    [rewrite (bool_decide_false (_ ≠ [])) by (by intros [])
    |rewrite (bool_decide_true (_ ≠ [])) by done
    |rewrite (bool_decide_false (_ ≠ [])) by (by intros [])
    |rewrite (bool_decide_true (_ ≠ [])) by done];
    (eexists; split; [reflexivity|]); simpl; unfold hdr_set; canonicalize;
    (split; [by rewrite ?lookup_insert_ne, lookup_insert_eq by done|]);
    (split; [by rewrite ?lookup_insert_ne, lookup_insert_eq by done|]);
    (split; [by repeat (rewrite lookup_insert_eq || rewrite lookup_insert_ne by done)|]);
    (split; [by repeat (rewrite lookup_insert_eq || rewrite lookup_insert_ne by done)|]).
  all: intros k Hk; rewrite !not_elem_of_cons in Hk;
    by rewrite !lookup_insert_ne by (intros <-; tauto).
Qed.

(** What has been sent through the CORS writer carries the CORS headers. *)
Definition cors_sent (origin : string) (cfg : CORSConfig) (crw : corsResponseWriter) (c : Conn) :
    Prop :=
  crw_origin crw = origin ∧ crw_cfg crw = cfg ∧
  match conn_sent c with
  | None => crw_headersSent crw = false
  | Some (_, h) => crw_headersSent crw = true ∧ ∃ h0, cors_headers cfg origin h0 h
  end.

Lemma crw_WriteHeader_spec {W} (env : environment W) origin cfg code crw c w :
  origin ≠ "" → final_status code → cors_sent origin cfg crw c →
  ∃ crw' c', run (conn_env env) (crw_WriteHeader code crw) (c, w) =
    (Returned (Returned tt, crw'), (c', w)) ∧
  cors_sent origin cfg crw' c' ∧ crw_headersSent crw' = true ∧ is_Some (conn_sent c').
Proof.
  intros Ho Hcode (Hor & Hcfg & Hs). unfold crw_WriteHeader. rewrite run_mbind.
  destruct (conn_sent c) as [[code' h]|] eqn:Hc.
  - destruct Hs as [Hs Hh]. rewrite Hs. simpl. rewrite final_conn_WriteHeader, Hc by done. simpl.
    eexists _, _. split; [done|]. unfold cors_sent. rewrite Hc. naive_solver.
  - rewrite Hs, run_mbind.
    destruct (injectCORSHeaders_spec env (crw_origin crw) (crw_cfg crw) c w) as (h & -> & Hh);
      [congruence|].
    simpl. rewrite final_conn_WriteHeader by done. unfold with_header. simpl. rewrite Hc.
    eexists _, _. split; [done|]. unfold cors_sent; simpl. subst. naive_solver.
Qed.

Lemma conn_Write_sent b c n e c' :
  conn_Write b c = ((n, e), c') → is_Some (conn_sent c) → conn_sent c' = conn_sent c.
Proof.
  intros H%conn_Write_spec [s Hs]. destruct H as [_ ->]. unfold conn_commit. by rewrite Hs.
Qed.

Lemma cors_event {W} (env : environment W) origin cfg X (e : event X) crw c w :
  origin ≠ "" → plain_event X e → cors_sent origin cfg crw c →
  let r := (env_with (writer_handler corsResponseWriter) (conn_env env) X e (crw, (c, w))).2 in
  cors_sent origin cfg r.1 r.2.1.
Proof.
  intros Ho He Hs. unfold env_with at 1.
  destruct e; simpl in He; try done; cbn [writer_handler rw_Header rw_HeaderPut rw_WriteHeader
    rw_Write rw_Flush rw_Wrapped Cors_writer];
    try (unfold conn_env, env_with; cbn; by repeat case_goal).
  - (* WriteHeader *)
    destruct (crw_WriteHeader_spec env origin cfg code crw c w) as (crw' & c' & -> & H & _); auto.
  - (* Write *)
    unfold crw_Write. rewrite run_mbind.
    destruct (conn_sent c) as [[code h]|] eqn:Hc.
    + pose proof Hs as (_ & _ & Hs'). rewrite Hc in Hs'. destruct Hs' as [-> _]. simpl.
      destruct (conn_Write b c) as [[n e] c'] eqn:E. simpl. unfold cors_sent.
      rewrite (conn_Write_sent _ _ _ _ _ E) by (by rewrite Hc). exact Hs.
    + pose proof Hs as (_ & _ & Hs'). rewrite Hc in Hs'. rewrite Hs', run_mbind.
      destruct (crw_WriteHeader_spec env origin cfg 200 crw c w) as (crw' & c' & -> & H & _ & Hsent);
        [done|by unfold final_status; lia|done|]. simpl.
      destruct (conn_Write b c') as [[n e] c''] eqn:E. simpl. unfold cors_sent.
      by rewrite (conn_Write_sent _ _ _ _ _ E).
Qed.

(** ** Properties *)


(** The answer to a preflight request from [origin]. *)
Definition preflight_headers (cfg : CORSConfig) (origin : string) : Header :=
  if decide (origin ∈ cors_AllowedOrigins cfg ∨ "*" ∈ cors_AllowedOrigins cfg)
  then list_to_map (
    (if cors_AllowCredentials cfg then [("Access-Control-Allow-Credentials", ["true"])] else []) ++
    (if decide (0 < cors_MaxAge cfg)
     then [("Access-Control-Max-Age", [Itoa (cors_MaxAge cfg)])] else []) ++
    (if decide (cors_AllowedHeaders cfg = []) then []
     else [("Access-Control-Allow-Headers", [Join (cors_AllowedHeaders cfg) ", "])]) ++
    [("Access-Control-Allow-Methods", [Join (cors_AllowedMethods cfg) ", "]);
     ("Access-Control-Allow-Origin",
       [if decide ("*" ∈ cors_AllowedOrigins cfg ∧ cors_AllowCredentials cfg = false)
        then "*" else origin]);
     ("Vary", ["Origin"])])
  else {["Vary" := ["Origin"]]}.

(** Inserting the entries of a list, the last first. *)
Lemma list_to_map_onto (l : list (string * list string)) (base : Header) :
  list_to_map l ∪ base = foldr (λ kv m, <[kv.1 := kv.2]> m) base l.
Proof.
  induction l as [|[k v] l IH]; [by rewrite list_to_map_nil, map_empty_union|].
  by rewrite list_to_map_cons, <-insert_union_l, IH.
Qed.

(** The answer to a preflight wherever setting a header and sending the head do what
    they do on a connection: [at_conn] is the world with the connection's state. *)
Section preflight.
Context {S : Type} (E : environment S) (at_conn : Conn → S).
Hypothesis sets : ∀ b k v c, run E (header_set_if b k v) (at_conn c) =
  (Returned tt, at_conn (mkConn (if b then hdr_set (conn_header c) k v else conn_header c)
                           (conn_sent c) (conn_body c) (conn_info c))).
Hypothesis sends : ∀ hd body info, run E (write_header 204) (at_conn (mkConn hd None body info)) =
  (Returned tt, at_conn (mkConn hd (Some (204, hd)) body info)).

Lemma handlePreflight_run cfg origin base body info :
  origin ≠ "" →
  let hd := preflight_headers cfg origin ∪ base in
  run E (handlePreflight origin cfg) (at_conn (mkConn base None body info)) =
  (Returned tt, at_conn (mkConn hd (Some (204, hd)) body info)).
Proof using sets sends.
  intros Ho hd. subst hd. unfold handlePreflight, preflight_headers. rewrite resolveAllowOrigin_spec.
  change (header_set "Vary" "Origin") with (header_set_if true "Vary" "Origin").
  rewrite run_mbind, sets. cbn [conn_header conn_sent conn_body conn_info]. cbv zeta.
  destruct (decide (origin ∈ cors_AllowedOrigins cfg ∨ "*" ∈ cors_AllowedOrigins cfg)) as [Ha|Ha].
  2: { rewrite bool_decide_true, sends by done. by rewrite <-insert_union_singleton_l. }
  set (v := if decide ("*" ∈ cors_AllowedOrigins cfg ∧ cors_AllowCredentials cfg = false)
            then "*" else origin).
  rewrite (bool_decide_false (v = "")) by (subst v; by case_decide).
  change (header_set "Access-Control-Allow-Origin" v) with (header_set_if true "Access-Control-Allow-Origin" v).
  change (header_set "Access-Control-Allow-Methods" ?m) with (header_set_if true "Access-Control-Allow-Methods" m).
  do 5 (rewrite run_mbind, sets; cbn [conn_header conn_sent conn_body conn_info]).
  rewrite sends. match goal with |- (_, at_conn (mkConn ?a _ _ _)) = (_, at_conn (mkConn ?b _ _ _)) =>
    assert (a = b) as ->; [|done] end.
  rewrite list_to_map_onto, !foldr_app. unfold hdr_set. cbn [foldr fst snd]. rewrite Z.gtb_ltb.
  assert (bool_decide (cors_AllowedHeaders cfg ≠ []) = if decide (cors_AllowedHeaders cfg = []) then false else true)
    as -> by (case_decide; by case_bool_decide).
  destruct (Z.ltb_spec 0 (cors_MaxAge cfg)), (decide (cors_AllowedHeaders cfg = [])).
  all: rewrite ?(decide_True (P := 0 < _)), ?(decide_False (P := 0 < _)) by lia.
  all: by destruct (cors_AllowCredentials cfg).
Qed.
End preflight.

(** A preflight request is answered with an empty 204 whose headers are
    those of the policy for its origin, and never reaches the next handler. *)
Theorem CORS_preflight_answer {W} (env : environment W) cfg next r h w :
  isPreflight r h = true →
  let hd := preflight_headers cfg (hdr_get h "Origin") in
  run (conn_req_env env) (CORSMiddleware cfg next r) (new_conn, (h, w)) =
  (Returned tt, (mkConn hd (Some (204, hd)) "" [], (h, w))).
Proof.
  intros Hp hd. unfold CORSMiddleware, req_header_get. rewrite run_mbind.
  change (run (conn_req_env env) (h0 ← emit RHeader; mret (hdr_get h0 "Origin")) (new_conn, (h, w)))
    with (Returned (hdr_get h "Origin"), (new_conn, (h, w))). cbv beta iota.
  pose proof Hp as Hp'. unfold isPreflight in Hp'. bool_to_prop.
  rewrite (bool_decide_false (hdr_get h "Origin" = "")) by done. rewrite run_mbind.
  change (run (conn_req_env env) (emit RHeader) (new_conn, (h, w)))
    with (Returned h, (new_conn, (h, w))). cbv beta iota. rewrite Hp. subst hd.
  rewrite <-(map_union_empty (preflight_headers _ _)).
  apply (handlePreflight_run (conn_req_env env) (λ c, (c, (h, w)))); [|done..].
  intros b k v c. by destruct b, c.
Qed.

(** ** Witnesses *)

Definition witness_cors : CORSConfig :=
  mkCORSConfig ["https://a.example"; "*"] ["GET"; "PUT"] [] ["X-Total"] true 600.

Definition witness_origin : Header := {["Origin" := ["https://a.example"]]}.


Lemma CORS_preflight_answer_witness :
  let r := mkRequest "OPTIONS" "/" "" "example.com" "192.0.2.1:1" None 0 ctx_background in
  let h := hdr_set witness_origin "Access-Control-Request-Method" "PUT" in
  let hd := preflight_headers witness_cors "https://a.example" in
  run (conn_req_env quiet_env) (CORSMiddleware witness_cors (λ _, Panic "reached") r)
    (new_conn, (h, tt)) = (Returned tt, (mkConn hd (Some (204, hd)) "" [], (h, tt))).
Proof.
  intros r h hd.
  exact (CORS_preflight_answer quiet_env witness_cors (λ _, Panic "reached") r h tt (reflexivity _)).
Defined.
