(* ===== verification/Observability.v ===== *)
(** * Metrics and health (internal/observability)

    The metrics middleware reads the matched route through the holder that the
    router fills in; the health handler reports the gateway's liveness. *)

From S2P Require Import Prelude.
From S2P Require Import GoStrings.
From S2P Require Import ConfigTypes.
From S2P Require Import Http.
From S2P Require Import Middleware.
From S2P Require Import Router.

Local Open Scope Z_scope.

(** ** Metrics (metrics.go)

    Durations are recorded in nanoseconds; the collector exports them as
    seconds. *)

Definition MetricsMiddleware : Middleware :=
  λ next r,
    start ← emit Now;
    '(_, holder, ww) ← WrapResponseWriter
      (with_route_holder (next (WithContext r (WithRouteHolder (r_ctx r)))));
    let route := match holder with
                 | Some mr => route_Name (mt_Config mr)
                 | None => "unknown"
                 end in
    now ← emit Now;
    let status := Itoa (StatusCode ww) in
    emit (Emit (MInc "gateway_requests_total" [route; r_Method r; status]));;
    emit (Emit (MObserve "gateway_request_duration_seconds" [route; r_Method r]
      (saturate64 (now - start))));;
    (if r_ContentLength r >=? 0
     then emit (Emit (MObserve "gateway_request_size_bytes" [route] (r_ContentLength r)))
     else mret tt);;
    emit (Emit (MObserve "gateway_response_size_bytes" [route] (BytesWritten ww))).

(** ** Health (health.go) *)

Record HealthResponse : Type := mkHealthResponse {
  hr_Status : string;
  hr_Timestamp : string;
  hr_Checks : option (list (string * string));
}.

(** [json.NewEncoder(w).Encode(resp)], with [checks] omitted when empty. *)
Definition encode_health (resp : HealthResponse) : string :=
  "{" +:+ json_string "status" +:+ ":" +:+ json_string (hr_Status resp) +:+ "," +:+
  json_string "timestamp" +:+ ":" +:+ json_string (hr_Timestamp resp) +:+
  match hr_Checks resp with
  | Some [(k, v)] =>
      "," +:+ json_string "checks" +:+ ":{" +:+ json_string k +:+ ":" +:+ json_string v +:+ "}"
  | _ => ""
  end +:+ "}" +:+ newline.

Section health.
(** [Time.UTC().Format(time.RFC3339)]. *)
Variable rfc3339 : Z → string.

(** [checker] says whether a health checker is configured; its call is the event
    [HealthCheck]. *)
Definition HealthHandler (cfg : GatewayConfig) (checker : bool) : Handler :=
  λ r,
    now ← emit Now;
    resp ← (if bool_decide (rlg_Backend (gw_RateLimit cfg) = "redis")
            then if checker
                 then e ← emit HealthCheck;
                      match e with
                      | Err _ => mret (mkHealthResponse "degraded" (rfc3339 now)
                                         (Some [("redis", "down")]))
                      | Ok _ => mret (mkHealthResponse "up" (rfc3339 now)
                                        (Some [("redis", "up")]))
                      end
                 else mret (mkHealthResponse "up" (rfc3339 now) (Some [("redis", "not_configured")]))
            else mret (mkHealthResponse "up" (rfc3339 now) None));
    header_set "Content-Type" "application/json";;
    write_header (if bool_decide (hr_Status resp = "degraded") then 503 else 200);;
    write (encode_health resp).
End health.

(** ** Lemmas *)

(** The metrics as a cell: the samples recorded so far. *)
Definition metric_cell : handler (list metric) :=
  λ X e,
    match e in event X return option (list metric → prog (X * list metric)) with
    | Emit m => Some (λ l, mret (tt, l ++ [m]))
    | _ => None
    end.

Definition metric_env {W} (env : environment W) : environment (list metric * W) :=
  env_with metric_cell env.

Lemma plain_holder {A} (p : prog A) :
  all_events plain_event p → all_events plain_event (with_route_holder p).
Proof.
  apply all_events_handle. intros X e m s. destruct e; simpl; try done. by intros [= <-].
Qed.

(** The samples of one request. *)
Definition request_samples (route : string) (r : Request) (status bytes duration : Z) : list metric :=
  [MInc "gateway_requests_total" [route; r_Method r; Itoa status];
   MObserve "gateway_request_duration_seconds" [route; r_Method r] duration] ++
  (if r_ContentLength r >=? 0
   then [MObserve "gateway_request_size_bytes" [route] (r_ContentLength r)] else []) ++
  [MObserve "gateway_response_size_bytes" [route] bytes].

(** ** Properties *)

(** For a plain handler that returns, the metrics middleware counts the
    request once, under the route stored in the holder (or [unknown]), its method
    and the status the client received, and records the duration, the request
    size when it is known, and the size of the body sent. *)
Theorem MetricsMiddleware_counts_request {W} (env : environment W) next r c l w t0 t1 w0 c1 l1 w1 w2
    holder :
  let p := next (WithContext r (WithRouteHolder (r_ctx r))) in
  all_events plain_event p → conn_sent c = None → conn_body c = "" →
  env _ Now w = (Returned t0, w0) →
  run (conn_env (metric_env env)) (with_route_holder p) (c, (l, w0)) =
    (Returned (tt, holder), (c1, (l1, w1))) →
  env _ Now w1 = (Returned t1, w2) →
  run (conn_env (metric_env env)) (MetricsMiddleware next r) (c, (l, w)) =
  (Returned tt,
   (c1,
    (l1 ++ request_samples (default "unknown" (route_Name ∘ mt_Config <$> holder)) r
             (conn_status (conn_commit c1))
             (wrap64 (Z.of_nat (String.length (conn_body c1))))
             (saturate64 (t1 - t0)), w2))).
Proof.
  intros p Hp Hs Hb H0 H1 H2. unfold MetricsMiddleware.
  rewrite run_mbind, run_emit, conn_env_pass by done.
  unfold metric_env at 1. rewrite env_with_pass, H0 by done.
  fold p. pose proof (wrap_writer_run (metric_env env) (with_route_holder p) c (l, w0)
    (plain_holder _ Hp) Hs Hb) as [Hcw Hww].
  rewrite run_mbind. rewrite H1 in Hcw, Hww.
  destruct (run _ (WrapResponseWriter _) _) as [[[[[] ho] ww]|v] cw]; simpl in Hcw, Hww; [|done].
  destruct Hww as ([= <-] & -> & ->). subst cw.
  rewrite run_mbind, run_emit, conn_env_pass by done.
  unfold metric_env at 1. rewrite env_with_pass, H2 by done. unfold request_samples.
  destruct (r_ContentLength r >=? 0), holder; simpl; by rewrite <-?app_assoc.
Qed.

(** [/health] answers 503 exactly when the configured backend is Redis, a
    checker exists and its check fails; it answers 200 otherwise, also when Redis
    is configured and there is no checker. *)
Theorem HealthHandler_status {W} rfc3339 (env : environment W) cfg checker r c w now w1 e w2 :
  conn_sent c = None → conn_body c = "" →
  env _ Now w = (Returned now, w1) → env _ HealthCheck w1 = (Returned e, w2) →
  let redis := bool_decide (rlg_Backend (gw_RateLimit cfg) = "redis") in
  let degraded := redis && checker && negb (is_ok e) in
  let h := hdr_set (conn_header c) "Content-Type" "application/json" in
  let resp := mkHealthResponse (if degraded then "degraded" else "up") (rfc3339 now)
    (if redis then Some [("redis", if negb checker then "not_configured"
                                   else if is_ok e then "up" else "down")] else None) in
  run (conn_env env) (HealthHandler rfc3339 cfg checker r) (c, w) =
  (Returned tt, (mkConn h (Some (if degraded then 503 else 200, h)) (encode_health resp)
                   (conn_info c), if redis && checker then w2 else w1)).
Proof.
  intros Hs Hb H0 H1. unfold HealthHandler.
  rewrite run_mbind, run_emit, conn_env_pass, H0, run_mbind by done.
  destruct c as [hd sent body info]; simpl in Hs, Hb; subst.
  destruct (bool_decide (rlg_Backend (gw_RateLimit cfg) = "redis")), checker; try done.
  rewrite run_mbind, run_emit, conn_env_pass, H1 by done. by destruct e.
Qed.

(** ** Witnesses *)

Definition routed_handler : Handler :=
  λ r, (if ctx_hasRouteHolder (r_ctx r)
        then emit (HolderSet (mkMatchedRoute (witness_route "users" "/" "" []) ∅)) else mret tt);;
       plain_handler r.

Lemma MetricsMiddleware_counts_request_witness :
  run (conn_env (metric_env quiet_env)) (MetricsMiddleware routed_handler witness_request)
    (new_conn, ([], tt)) =
  (Returned tt,
   (mkConn ∅ (Some (404, ∅)) "no" [],
    ([MInc "gateway_requests_total" ["users"; "GET"; "404"];
      MObserve "gateway_request_duration_seconds" ["users"; "GET"] 0;
      MObserve "gateway_request_size_bytes" ["users"] 0;
      MObserve "gateway_response_size_bytes" ["users"] 2], tt))).
Proof.
  apply (MetricsMiddleware_counts_request quiet_env routed_handler witness_request new_conn [] tt 0 0 tt
    (mkConn ∅ (Some (404, ∅)) "no" []) [] tt tt
    (Some (mkMatchedRoute (witness_route "users" "/" "" []) ∅))); [|reflexivity..].
  vm_compute; repeat split; try done; intros []; repeat split; intros; done.
Defined.

Definition redis_down : environment unit :=
  λ X e w,
    (Returned (match e in event X return X with
               | HealthCheck => Err (Errorf "connection refused")
               | e' => quiet_answer 0 e'
               end), w).

Definition witness_config (backend : string) : GatewayConfig :=
  mkGatewayConfig (mkServerConfig "" 8080 0 0 0 0 [] 0) (mkLoggingConfig "info")
    (mkRateLimitGlobalConfig backend None) ∅ ∅ [] [].

Lemma HealthHandler_status_witness :
  ∃ c, run (conn_env redis_down)
         (HealthHandler (λ _, "1970-01-01T00:00:00Z") (witness_config "redis") true witness_request)
         (new_conn, tt) = (Returned tt, (c, tt)) ∧ conn_status c = 503.
Proof.
  eexists. split.
  - exact (HealthHandler_status (λ _, "1970-01-01T00:00:00Z") redis_down (witness_config "redis") true
      witness_request new_conn tt 0 tt (Err (Errorf "connection refused")) tt
      (reflexivity _) (reflexivity _) (reflexivity _) (reflexivity _)).
  - reflexivity.
Defined.
