(* ===== verification/F64.v ===== *)
(** * Go's [float64]

    IEEE 754 binary64 arithmetic (no fused operations), the conversions the
    gateway uses, [math.Pow] at integral exponents, and the interface [Arith]
    with two instances: [float64] as the code computes, and the rationals as an
    ideal that theorems about rates compare it with. *)

From S2P Require Import Prelude.
From Stdlib Require Import Floats.SpecFloat QArith Qround.

Local Open Scope Z_scope.

Abbreviation float64 := spec_float.

Definition f_of_int (z : Z) : float64 := binary_normalize 53 1024 z 0 false.
Definition f_add : float64 → float64 → float64 := SFadd 53 1024.
Definition f_sub : float64 → float64 → float64 := SFsub 53 1024.
Definition f_mul : float64 → float64 → float64 := SFmul 53 1024.
Definition f_div : float64 → float64 → float64 := SFdiv 53 1024.
Definition f_lt : float64 → float64 → bool := SFltb.
Definition f_le : float64 → float64 → bool := SFleb.
Definition f_eq : float64 → float64 → bool := SFeqb.

(** The integral part of a finite number. *)
Definition f_trunc (x : float64) : Z :=
  match x with
  | S754_finite s m e =>
      let a := if 0 <=? e then Zpos m * 2 ^ e else Zpos m / 2 ^ (- e) in
      if s then - a else a
  | _ => 0
  end.

(** [int64(x)]: truncation towards zero; what does not fit (or is NaN) gives the
    value the amd64 instruction produces. *)
Definition f_to_int64 (x : float64) : Z :=
  match x with
  | S754_nan | S754_infinity _ => min_int64
  | _ => let z := f_trunc x in
         if (min_int64 <=? z) && (z <=? max_int64) then z else min_int64
  end.

(** ** [math.Pow] at a non-negative integral exponent *)

Definition f_one : float64 := f_of_int 1.
Definition f_half : float64 := f_div f_one (f_of_int 2).

(** The squaring loop: the answer is [a1 * 2^ae], the factor [x1 * 2^xe].  Each
    round halves [i]. *)
Fixpoint pow_loop (fuel : nat) (i : Z) (a1 : float64) (ae : Z) (x1 : float64) (xe : Z)
    : float64 * Z :=
  match fuel with
  | O => (a1, ae)
  | S n =>
      if i =? 0 then (a1, ae)
      else if (xe <? - 2 ^ 12) || (2 ^ 12 <? xe) then (a1, ae + xe)
      else
        let '(a1, ae) := if Z.odd i then (f_mul a1 x1, ae + xe) else (a1, ae) in
        let x1 := f_mul x1 x1 in
        let xe := Z.shiftl xe 1 in
        let '(x1, xe) := if f_lt x1 f_half then (f_add x1 x1, xe - 1) else (x1, xe) in
        pow_loop n (Z.shiftr i 1) a1 ae x1 xe
  end.

Definition Pow (x : float64) (y : Z) : float64 :=
  if (y =? 0) || f_eq x f_one then f_one
  else if y =? 1 then x
  else match x with
       | S754_nan => S754_nan
       | S754_zero s => S754_zero (s && Z.odd y)
       | S754_infinity s => S754_infinity (s && Z.odd y)
       | S754_finite _ _ _ =>
           let '(x1, xe) := SFfrexp 53 1024 x in
           let '(a1, ae) := pow_loop 64 y f_one 0 x1 xe in
           SFldexp 53 1024 a1 ae
       end.

(** ** Arithmetic interface *)

Class Arith : Type := {
  Num : Type;
  of_int : Z → Num;
  num_add : Num → Num → Num;
  num_sub : Num → Num → Num;
  num_mul : Num → Num → Num;
  num_div : Num → Num → Num;
  num_lt : Num → Num → bool;
  num_le : Num → Num → bool;
  to_int : Num → Z;
}.

(** [Duration.Seconds]. *)
Definition Seconds `{Arith} (d : Z) : Num :=
  num_add (of_int (Z.quot d Second)) (num_div (of_int (Z.rem d Second)) (of_int Second)).

Definition float_arith : Arith := {|
  Num := float64;
  of_int := f_of_int;
  num_add := f_add;
  num_sub := f_sub;
  num_mul := f_mul;
  num_div := f_div;
  num_lt := f_lt;
  num_le := f_le;
  to_int := f_to_int64;
|}.

Definition ideal_arith : Arith := {|
  Num := Q;
  of_int := inject_Z;
  num_add := Qplus;
  num_sub := Qminus;
  num_mul := Qmult;
  num_div := Qdiv;
  num_lt x y := negb (Qle_bool y x);
  num_le := Qle_bool;
  to_int := Qfloor;
|}.

(** ** Checks against known values *)

Example f_of_int_exact : f_of_int 3 = S754_finite false 6755399441055744 (-51).
Proof. reflexivity. Qed.
Example f_of_int_rounds : f_of_int (2 ^ 53 + 1) = f_of_int (2 ^ 53).
Proof. reflexivity. Qed.
Example pow_exact : Pow (f_of_int 2) 10 = f_of_int 1024.
Proof. reflexivity. Qed.
Example pow_three_halves :
  f_eq (Pow (f_div (f_of_int 3) (f_of_int 2)) 3) (f_div (f_of_int 27) (f_of_int 8)) = true.
Proof. reflexivity. Qed.
Example pow_overflow : Pow (f_of_int 10) 400 = S754_infinity false.
Proof. reflexivity. Qed.
Example trunc_neg : f_to_int64 (f_div (f_of_int (-7)) (f_of_int 2)) = -3.
Proof. reflexivity. Qed.

(** ** Lemmas on the ideal instance *)

Lemma ideal_Seconds d : (Seconds (H := ideal_arith) d == inject_Z d / inject_Z Second)%Q.
Proof.
  unfold Seconds. simpl. rewrite (Z.quot_rem' d Second) at 3.
  rewrite inject_Z_plus, inject_Z_mult. field. done.
Qed.

Lemma ideal_le x y : num_le (Arith := ideal_arith) x y = true ↔ (x <= y)%Q.
Proof. apply Qle_bool_iff. Qed.

Lemma ideal_lt x y : num_lt (Arith := ideal_arith) x y = true ↔ (x < y)%Q.
Proof.
  simpl. rewrite negb_true_iff, <-not_true_iff_false, Qle_bool_iff. split.
  - apply Qnot_le_lt.
  - apply Qlt_not_le.
Qed.
