(* ===== verification/Memory.v ===== *)
(** * The in-memory token bucket (internal/middleware/ratelimit/memory.go)

    [Allow] and [evictStale] over the arithmetic interface [Arith]: at
    [float_arith] they are the code's computation, at [ideal_arith] the same
    steps without rounding, for which the rate guarantees are proved. *)

From S2P Require Import Prelude.
From S2P Require Import F64.
From Stdlib Require Import QArith Qround Lqa.

Local Open Scope Z_scope.

Definition evictionTTL : Z := 5 * Minute.

Section limiter.
Context `{Ar : Arith}.

Record bucket : Type := mkBucket {
  b_tokens : Num;
  b_maxTokens : Num;
  b_refillRate : Num;
  b_lastRefill : Z;
  b_lastAccess : Z;
}.

(** The map of buckets by key. *)
Abbreviation MemoryLimiter := (gmap string bucket).

Definition NewMemoryLimiter : MemoryLimiter := ∅.

(** The bucket of a key seen for the first time. *)
Definition new_bucket (limit window now : Z) : bucket :=
  mkBucket (of_int limit) (of_int limit) (num_div (of_int limit) (Seconds window)) now now.

(** [LoadOrStore]. *)
Definition load_or_store (limit window now : Z) (o : option bucket) : bucket :=
  default (new_bucket limit window now) o.

(** The refill step, after the parameters were updated. *)
Definition refill (now : Z) (b : bucket) : bucket :=
  let elapsed := Seconds (saturate64 (now - b_lastRefill b)) in
  if num_lt (of_int 0) elapsed then
    let tokens := num_add (b_tokens b) (num_mul elapsed (b_refillRate b)) in
    mkBucket (if num_lt (b_maxTokens b) tokens then b_maxTokens b else tokens)
      (b_maxTokens b) (b_refillRate b) now (b_lastAccess b)
  else b.

(** The critical section of [Allow] on one bucket. *)
Definition take_token (limit window now : Z) (b : bucket) : (bool * Z * Z) * bucket :=
  let refillRate := num_div (of_int limit) (Seconds window) in
  let b := refill now (mkBucket (b_tokens b) (of_int limit) refillRate (b_lastRefill b)
                         (b_lastAccess b)) in
  let resetAt := now + window in
  if num_le (of_int 1) (b_tokens b) then
    let tokens := num_sub (b_tokens b) (of_int 1) in
    ((true, to_int tokens, resetAt),
     mkBucket tokens (b_maxTokens b) (b_refillRate b) (b_lastRefill b) now)
  else
    ((false, 0, resetAt),
     mkBucket (b_tokens b) (b_maxTokens b) (b_refillRate b) (b_lastRefill b) now).

(** [Allow]: whether the request passes, the remaining tokens and the reset
    time. *)
Definition Allow (key : string) (limit window now : Z) (ml : MemoryLimiter)
    : (bool * Z * Z) * MemoryLimiter :=
  let '(r, b) := take_token limit window now (load_or_store limit window now (ml !! key)) in
  (r, <[key := b]> ml).

Definition idle (now : Z) (b : bucket) : bool :=
  saturate64 (now - b_lastAccess b) >? evictionTTL.

Definition evictStale (now : Z) (ml : MemoryLimiter) : MemoryLimiter :=
  filter (λ kb, idle now kb.2 = false) ml.

(** ** Runs *)

(** A call with its key and clock reading, or a round of the cleanup. *)
Inductive op : Type :=
  | Call (key : string) (limit window now : Z)
  | Evict (now : Z).

Definition apply_op (o : op) (ml : MemoryLimiter) : option (bool * Z * Z) * MemoryLimiter :=
  match o with
  | Call key limit window now => let '(r, ml') := Allow key limit window now ml in (Some r, ml')
  | Evict now => (None, evictStale now ml)
  end.

(** The answers to the calls for [key]. *)
Fixpoint answers (key : string) (ops : list op) (ml : MemoryLimiter) : list (bool * Z * Z) :=
  match ops with
  | [] => []
  | o :: ops' =>
      let '(r, ml') := apply_op o ml in
      match o, r with
      | Call k _ _ _, Some a =>
          if bool_decide (k = key) then a :: answers key ops' ml' else answers key ops' ml'
      | _, _ => answers key ops' ml'
      end
  end.

Definition allowed (l : list (bool * Z * Z)) : nat := length (filter (λ a, a.1.1 = true) l).

(** The operations that concern [key]. *)
Definition concerns (key : string) (o : op) : Prop :=
  match o with Call k _ _ _ => k = key | Evict _ => True end.

#[export] Instance concerns_dec key o : Decision (concerns key o).
Proof. destruct o; simpl; apply _. Defined.

(** ** Lemmas, for any arithmetic *)

Lemma evictStale_lookup now ml key :
  evictStale now ml !! key = match ml !! key with
                             | Some b => if idle now b then None else Some b
                             | None => None
                             end.
Proof.
  unfold evictStale. destruct (ml !! key) as [b|] eqn:E.
  - destruct (idle now b) eqn:Hi.
    + apply map_lookup_filter_None. right. intros b' Hb'. simplify_eq. simpl. congruence.
    + by apply map_lookup_filter_Some.
  - apply map_lookup_filter_None. by left.
Qed.

Lemma answers_agree key ops ml1 ml2 :
  ml1 !! key = ml2 !! key → answers key ops ml1 = answers key ops ml2.
Proof.
  revert ml1 ml2. induction ops as [|o ops IH]; intros ml1 ml2 Hk; [done|].
  destruct o as [k limit window now|now]; simpl.
  - unfold Allow.
    destruct (take_token limit window now (load_or_store limit window now (ml1 !! k))) as [r1 b1] eqn:E1.
    destruct (take_token limit window now (load_or_store limit window now (ml2 !! k))) as [r2 b2] eqn:E2.
    case_bool_decide as Hkk.
    + subst k. rewrite Hk, E2 in E1. simplify_eq. f_equal. apply IH. by rewrite !lookup_insert_eq.
    + apply IH. by rewrite !lookup_insert_ne.
  - apply IH. by rewrite !evictStale_lookup, Hk.
Qed.

(** Keys do not interfere: whatever calls for other keys come in between,
    the answers for one key are those it would get alone. *)
Theorem keys_independent key ops ml :
  answers key ops ml = answers key (filter (concerns key) ops) ml.
Proof.
  revert ml. induction ops as [|o ops IH]; intros ml; [done|].
  rewrite filter_cons. case_decide as Ho.
  - destruct o as [k limit window now|now]; simpl; [|apply IH].
    destruct (Allow k limit window now ml) as [r ml']. by rewrite IH.
  - destruct o as [k limit window now|now]; simpl in *; [|done].
    unfold Allow.
    destruct (take_token limit window now (load_or_store limit window now (ml !! k))) as [r b].
    rewrite bool_decide_false by done. rewrite <-IH. apply answers_agree.
    by rewrite lookup_insert_ne.
Qed.

End limiter.

(** ** The ideal token bucket *)

Section ideal.
#[local] Existing Instance ideal_arith.
Local Open Scope Q_scope.

(** Tokens per nanosecond. *)
Definition rate (limit window : Z) : Q := inject_Z limit / inject_Z window.

Lemma Seconds_rate limit window d :
  (0 < window)%Z →
  Seconds d * (inject_Z limit / Seconds window) == inject_Z d * rate limit window.
Proof.
  intros Hw. rewrite (ideal_Seconds d), (ideal_Seconds window). unfold rate. field. split; [|done].
  change 0 with (inject_Z 0). rewrite inject_Z_injective. lia.
Qed.

Lemma Seconds_pos d : num_lt (of_int 0) (Seconds d) = true ↔ (0 < d)%Z.
Proof.
  rewrite ideal_lt, ideal_Seconds. unfold Qlt. simpl. lia.
Qed.

Lemma rate_nonneg limit window : (0 ≤ limit)%Z → (0 < window)%Z → 0 <= rate limit window.
Proof.
  intros Hl Hw. unfold rate. apply Qle_shift_div_l; [|rewrite Qmult_0_l];
    change 0 with (inject_Z 0); [rewrite <-Zlt_Qlt|rewrite <-Zle_Qle]; lia.
Qed.

(** What an admitted request costs. *)
Definition cost (passed : bool) : Q := if passed then 1 else 0.

(** Refilling adds at most what the elapsed time is worth. *)
Lemma refill_ideal limit window now (b : bucket) :
  (0 ≤ limit)%Z → (0 < window)%Z → b_maxTokens b = of_int limit →
  b_refillRate b = num_div (of_int limit) (Seconds window) → 0 <= b_tokens b →
  let b' := refill now b in
  0 <= b_tokens b' ∧
  b_tokens b' <= b_tokens b + inject_Z (b_lastRefill b' - b_lastRefill b) * rate limit window ∧
  (b_lastRefill b ≤ b_lastRefill b' ≤ Z.max (b_lastRefill b) now)%Z.
Proof.
  intros Hl Hw Hmax Hrate H0. unfold refill. rewrite Hmax, Hrate.
  pose proof (rate_nonneg limit window Hl Hw) as Hr.
  destruct (num_lt (of_int 0) (Seconds _)) eqn:E; simpl.
  2: { rewrite Z.sub_diag. change (inject_Z 0) with 0. repeat split; lra || lia. }
  apply Seconds_pos in E. set (d := saturate64 (now - b_lastRefill b)) in *.
  assert (0 ≤ d ≤ now - b_lastRefill b)%Z as [Hd0 Hd] by (unfold d, saturate64 in *; unfold min_int64, max_int64 in *; lia).
  pose proof (Seconds_rate limit window d Hw) as Hs. simpl in Hs.
  match type of Hs with ?g == _ => set (gain := g) in * end.
  assert (0 <= gain) as Hg0.
  { rewrite Hs. apply Qmult_le_0_compat; [|done]. change 0 with (inject_Z 0). by rewrite <-Zle_Qle. }
  assert (gain <= inject_Z (now - b_lastRefill b) * rate limit window) as Hg.
  { rewrite Hs. apply Qmult_le_compat_r; [|done]. by rewrite <-Zle_Qle. }
  assert (0 <= inject_Z limit) as Hlim by (change 0 with (inject_Z 0); by rewrite <-Zle_Qle).
  split; [|split; [|lia]].
  - case_match; [done|lra].
  - case_match eqn:Hc; [|lra].
    rewrite negb_true_iff, <-not_true_iff_false, Qle_bool_iff in Hc. lra.
Qed.

Lemma take_token_ideal limit window now (b : bucket) r b' :
  take_token limit window now b = (r, b') →
  (0 ≤ limit)%Z → (0 < window)%Z → 0 <= b_tokens b →
  0 <= b_tokens b' ∧
  b_tokens b' + cost r.1.1 <=
    b_tokens b + inject_Z (b_lastRefill b' - b_lastRefill b) * rate limit window ∧
  (b_lastRefill b ≤ b_lastRefill b' ≤ Z.max (b_lastRefill b) now)%Z.
Proof.
  unfold take_token. intros Ht Hl Hw H0.
  destruct (refill_ideal limit window now
    (mkBucket (b_tokens b) (of_int limit) (num_div (of_int limit) (Seconds window))
       (b_lastRefill b) (b_lastAccess b))) as (H1 & H2 & H3); try done.
  cbn [b_tokens b_lastRefill] in *.
  set (b1 := refill now _) in *. clearbody b1. simpl in *.
  destruct (Qle_bool (inject_Z 1) (b_tokens b1)) eqn:E; simplify_eq/=; (split; [|split; [|done]]);
    unfold cost; try apply Qle_bool_iff in E; change (inject_Z 1) with 1 in *; lra.
Qed.

(** What a key may still spend until time [T], if it has not been seen before
    [t0]. *)
Definition credit (limit window t0 T : Z) (o : option bucket) : Q :=
  match o with
  | Some b => b_tokens b + inject_Z (T - b_lastRefill b) * rate limit window
  | None => inject_Z limit + inject_Z (T - t0) * rate limit window
  end.

Definition bucket_ok (T : Z) (o : option bucket) : Prop :=
  match o with Some b => 0 <= b_tokens b ∧ (b_lastRefill b ≤ T)%Z | None => True end.

(** Calls for [key] use the same limit and window and read the clock between
    [t0] and [T], in any order; calls for other keys are arbitrary. *)
Definition paced (key : string) (limit window t0 T : Z) (o : op) : Prop :=
  match o with
  | Call k l w t => k = key → l = limit ∧ w = window ∧ (t0 ≤ t ≤ T)%Z
  | Evict _ => False
  end.

Lemma call_within_credit key limit window t0 T now (ml : gmap string bucket) r ml' :
  Allow key limit window now ml = (r, ml') →
  (0 ≤ limit)%Z → (0 < window)%Z → (t0 ≤ now ≤ T)%Z → bucket_ok T (ml !! key) →
  bucket_ok T (ml' !! key) ∧
  credit limit window t0 T (ml' !! key) + cost r.1.1 <= credit limit window t0 T (ml !! key).
Proof.
  unfold Allow. intros Ha Hl Hw Ht Hok.
  pose proof (rate_nonneg limit window Hl Hw) as Hr.
  destruct (take_token _ _ _ _) as [r' b'] eqn:E. simplify_eq. rewrite lookup_insert_eq.
  assert (0 <= inject_Z limit) as Hlim by (change 0 with (inject_Z 0); by rewrite <-Zle_Qle).
  apply take_token_ideal in E as (H1 & H2 & H3); [|done..|].
  2: { unfold load_or_store. destruct (ml !! key); simpl in *; tauto. }
  assert (∀ x y, (x ≤ y)%Z → inject_Z x * rate limit window <= inject_Z y * rate limit window)
    as Hmono.
  { intros x y Hxy. apply Qmult_le_compat_r; [|done]. by rewrite <-Zle_Qle. }
  unfold load_or_store in *. destruct (ml !! key) as [b|]; simpl in *.
  - destruct Hok as [? ?]. split; [split; [done|lia]|].
    replace (T - b_lastRefill b)%Z with ((T - b_lastRefill b') + (b_lastRefill b' - b_lastRefill b))%Z
      by lia.
    rewrite inject_Z_plus, Qmult_plus_distr_l. lra.
  - split; [split; [done|lia]|].
    pose proof (Hmono ((T - b_lastRefill b') + (b_lastRefill b' - now))%Z (T - t0)%Z ltac:(lia)) as Hm.
    rewrite inject_Z_plus, Qmult_plus_distr_l in Hm. lra.
Qed.

Lemma calls_within_credit key limit window t0 T ops (ml : gmap string bucket) :
  (0 ≤ limit)%Z → (0 < window)%Z → Forall (paced key limit window t0 T) ops →
  bucket_ok T (ml !! key) → (t0 ≤ T)%Z →
  inject_Z (Z.of_nat (allowed (answers key ops ml))) <= credit limit window t0 T (ml !! key).
Proof.
  intros Hl Hw Hops Hok HT. revert ml Hok. induction Hops as [|o ops Ho Hops IH]; intros ml Hok.
  - simpl. change (inject_Z (Z.of_nat (allowed []))) with 0. unfold credit.
    pose proof (rate_nonneg limit window Hl Hw).
    assert (∀ x, (0 ≤ x)%Z → 0 <= inject_Z x) as Hz
      by (intros; change 0 with (inject_Z 0); by rewrite <-Zle_Qle).
    destruct (ml !! key) as [b|]; simpl in *.
    + assert (0 <= inject_Z (T - b_lastRefill b) * rate limit window); [|lra].
      apply Qmult_le_0_compat; [apply Hz; lia|done].
    + assert (0 <= inject_Z (T - t0) * rate limit window); [|pose proof (Hz limit Hl); lra].
      apply Qmult_le_0_compat; [apply Hz; lia|done].
  - destruct o as [k l w t|]; cbn [paced answers apply_op] in *; [|done].
    destruct (Allow k l w t ml) as [r ml'] eqn:Ha. case_bool_decide as Hk.
    + destruct (Ho Hk) as (-> & -> & Ht). subst k.
      destruct (call_within_credit key limit window t0 T t ml r ml' Ha Hl Hw Ht Hok) as [Hok' Hc].
      specialize (IH ml' Hok'). unfold allowed in *. rewrite filter_cons.
      unfold cost in Hc. destruct (decide (r.1.1 = true)) as [E|E].
      * rewrite E in Hc. simpl length. rewrite Nat2Z.inj_succ, <-Z.add_1_r, inject_Z_plus.
        change (inject_Z 1) with 1. lra.
      * destruct (r.1.1); [done|]. lra.
    + assert (ml' !! key = ml !! key) as Hml.
      { unfold Allow in Ha. destruct (take_token _ _ _ _). simplify_eq. by rewrite lookup_insert_ne. }
      rewrite <-Hml. apply IH. by rewrite Hml.
Qed.

(** The token bucket enforces its rate (without rounding): a key whose
    requests all fall between [t0] and [T] passes at most
    [limit + limit * (T - t0) / window] of them, whatever the other keys do and
    in whatever order concurrent requests read the clock. *)
Theorem rate_bound key limit window t0 T ops (ml : gmap string bucket) :
  (0 ≤ limit)%Z → (0 < window)%Z → (t0 ≤ T)%Z →
  Forall (paced key limit window t0 T) ops → ml !! key = None →
  ((Z.of_nat (allowed (answers key ops ml)) - limit) * window ≤ limit * (T - t0))%Z.
Proof.
  intros Hl Hw HT Hops Hnone.
  pose proof (calls_within_credit key limit window t0 T ops ml Hl Hw Hops) as H.
  rewrite Hnone in H. specialize (H I HT). simpl in H. unfold rate in H.
  assert (0 < inject_Z window) as Hwq by (change 0 with (inject_Z 0); by rewrite <-Zlt_Qlt).
  rewrite Zle_Qle, !inject_Z_mult. unfold Z.sub at 1. rewrite inject_Z_plus, inject_Z_opp.
  set (a := inject_Z (Z.of_nat _)) in *. set (l := inject_Z limit) in *.
  set (w := inject_Z window) in *. set (d := inject_Z (T - t0)) in *.
  assert (d * (l / w) * w == d * l) as Hd by (field; lra).
  assert ((a + - l) * w <= d * (l / w) * w); [|lra].
  apply Qmult_le_compat_r; lra.
Qed.

(** *** Eviction *)

(** Buckets that answer alike: equal up to [==] in what [take_token] reads. *)
Definition bucket_equiv (b1 b2 : bucket) : Prop :=
  b_tokens b1 == b_tokens b2 ∧ b_lastRefill b1 = b_lastRefill b2.

Lemma Qle_bool_proper x y x' y' : x == x' → y == y' → Qle_bool x y = Qle_bool x' y'.
Proof. intros Hx Hy. apply Bool.eq_iff_eq_true. by rewrite !Qle_bool_iff, Hx, Hy. Qed.

Lemma refill_proper now (b1 b2 : bucket) :
  bucket_equiv b1 b2 → b_maxTokens b1 = b_maxTokens b2 → b_refillRate b1 = b_refillRate b2 →
  bucket_equiv (refill now b1) (refill now b2).
Proof.
  intros [Ht Hr] Hm Hrt. unfold refill, bucket_equiv. rewrite <-Hr, <-Hm, <-Hrt.
  destruct (num_lt (of_int 0) _); [|done]. cbn [b_tokens b_lastRefill b_lastAccess].
  cbn [num_lt num_add num_mul ideal_arith]. set (g := Qmult _ _). clearbody g.
  rewrite (Qle_bool_proper (b_tokens b1 + g) (b_maxTokens b1) (b_tokens b2 + g) (b_maxTokens b1))
    by (rewrite ?Ht; done).
  case_match; [done|]. by rewrite Ht.
Qed.

(** The parameters that [Allow] installs in a bucket before refilling it. *)
Definition with_params (limit window : Z) (b : bucket) : bucket :=
  mkBucket (b_tokens b) (of_int limit) (num_div (of_int limit) (Seconds window))
    (b_lastRefill b) (b_lastAccess b).

Lemma take_token_refilled limit window now (b1 b2 : bucket) :
  bucket_equiv (refill now (with_params limit window b1)) (refill now (with_params limit window b2)) →
  (take_token limit window now b1).1 = (take_token limit window now b2).1 ∧
  bucket_equiv (take_token limit window now b1).2 (take_token limit window now b2).2.
Proof.
  intros [Ht Hr]. unfold take_token. fold (with_params limit window b1).
  fold (with_params limit window b2).
  set (c1 := refill now (with_params limit window b1)) in *.
  set (c2 := refill now (with_params limit window b2)) in *. clearbody c1 c2.
  cbn [num_le num_sub to_int ideal_arith].
  rewrite (Qle_bool_proper _ (b_tokens c1) _ (b_tokens c2) (Qeq_refl _) Ht).
  destruct (Qle_bool _ _); cbn [fst snd]; unfold bucket_equiv;
    cbn [b_tokens b_lastRefill b_lastAccess]; rewrite ?Ht; done.
Qed.

Lemma take_token_stamps limit window now (b : bucket) :
  b_lastAccess (take_token limit window now b).2 = now ∧
  (b_lastRefill b ≤ now → b_lastRefill (take_token limit window now b).2 ≤ now)%Z.
Proof.
  unfold take_token. case_match; simpl; (split; [done|]); unfold refill; simpl; case_match; simpl; lia.
Qed.

(** A bucket left alone for a whole window is as good as new. *)
Lemma refill_full limit window now (b : bucket) :
  (0 ≤ limit)%Z → (0 < window ≤ max_int64)%Z → (window ≤ now - b_lastRefill b)%Z → 0 <= b_tokens b →
  bucket_equiv (refill now (with_params limit window b))
    (refill now (with_params limit window (new_bucket limit window now))).
Proof.
  intros Hl Hw Hi H0. unfold refill, with_params, new_bucket. cbn [b_tokens b_maxTokens b_refillRate
    b_lastRefill b_lastAccess].
  rewrite Z.sub_diag. rewrite (proj1 (not_true_iff_false (num_lt (of_int 0) (Seconds (saturate64 0)))))
    by (rewrite Seconds_pos; unfold saturate64, min_int64, max_int64; lia).
  rewrite (proj2 (Seconds_pos _)) by (unfold saturate64, min_int64, max_int64 in *; lia).
  split; [|done]. cbn [b_tokens].
  set (d := saturate64 (now - b_lastRefill b)).
  assert (window ≤ d)%Z as Hd by (unfold d, saturate64, min_int64, max_int64 in *; lia).
  pose proof (Seconds_rate limit window d ltac:(lia)) as Hs. cbn [num_lt num_add num_mul ideal_arith].
  simpl in Hs |- *. match type of Hs with ?g == _ => set (gain := g) in * end.
  assert (inject_Z limit <= gain) as Hg.
  { rewrite Hs. assert (inject_Z window * rate limit window == inject_Z limit) as <-.
    { unfold rate. field. change 0 with (inject_Z 0). rewrite inject_Z_injective. lia. }
    apply Qmult_le_compat_r; [by rewrite <-Zle_Qle|apply rate_nonneg; lia]. }
  case_match eqn:E; [done|]. rewrite negb_false_iff, Qle_bool_iff in E. lra.
Qed.

(** A limiter that evicts against one that does not, for one key at time [t]:
    the buckets agree, or the first has dropped one that has been idle for longer
    than the time to live. *)
Definition evicted_like (t : Z) (o1 o2 : option bucket) : Prop :=
  match o2 with
  | None => o1 = None
  | Some b2 =>
      0 <= b_tokens b2 ∧ (b_lastRefill b2 ≤ b_lastAccess b2 ≤ t)%Z ∧
      match o1 with
      | Some b1 => bucket_equiv b1 b2 ∧ b_lastAccess b1 = b_lastAccess b2
      | None => (evictionTTL < t - b_lastAccess b2)%Z
      end
  end.

Lemma evicted_like_call limit window t now o1 o2 :
  (0 ≤ limit)%Z → (0 < window ≤ evictionTTL)%Z → (t ≤ now)%Z → evicted_like t o1 o2 →
  let x1 := take_token limit window now (load_or_store limit window now o1) in
  let x2 := take_token limit window now (load_or_store limit window now o2) in
  x1.1 = x2.1 ∧ evicted_like now (Some x1.2) (Some x2.2).
Proof.
  intros Hl Hw Ht Hlike. cbv zeta.
  assert (Hnew : 0 <= b_tokens (load_or_store limit window now o2) ∧
    (b_lastRefill (load_or_store limit window now o2) ≤ now)%Z ∧
    bucket_equiv (refill now (with_params limit window (load_or_store limit window now o1)))
      (refill now (with_params limit window (load_or_store limit window now o2)))).
  { unfold load_or_store. destruct o2 as [b2|]; simpl in *.
    - destruct Hlike as (H0 & Hr & H1). split; [done|]. split; [lia|].
      destruct o1 as [b1|]; simpl.
      + by apply refill_proper; [destruct H1 as [[? ?] ?]; split|..].
      + destruct (refill_full limit window now b2) as [? ?]; unfold evictionTTL, Minute, Second,
          Millisecond, max_int64 in *; [lia..|done|]. split; [by symmetry|done].
    - subst o1. simpl. split; [|split; [lia|by split]].
      change 0 with (inject_Z 0). by rewrite <-Zle_Qle. }
  destruct Hnew as (H0 & Hr & Heq). apply take_token_refilled in Heq as [Hans Heq].
  split; [done|].
  set (b2 := load_or_store limit window now o2) in *.
  set (b1 := load_or_store limit window now o1) in *.
  destruct (take_token_stamps limit window now b1) as [Ha1 _].
  destruct (take_token_stamps limit window now b2) as [Ha2 Hr2].
  destruct (take_token limit window now b2) as [r2 c2] eqn:E2.
  apply take_token_ideal in E2 as (Hc & _); [|lia..|done]. cbn [fst snd evicted_like] in *.
  split; [done|]. split; [specialize (Hr2 Hr); lia|]. split; [done|congruence].
Qed.

(** The clock readings of successive operations do not decrease. *)
Definition op_time (o : op) : Z := match o with Call _ _ _ t => t | Evict t => t end.

Fixpoint clocked (t : Z) (ops : list op) : Prop :=
  match ops with
  | [] => True
  | o :: ops' => (t ≤ op_time o)%Z ∧ clocked (op_time o) ops'
  end.

Definition is_call (o : op) : Prop := match o with Call _ _ _ _ => True | Evict _ => False end.

#[export] Instance is_call_dec o : Decision (is_call o).
Proof. destruct o; simpl; apply _. Defined.

Definition steady (key : string) (limit window : Z) (o : op) : Prop :=
  match o with Call k l w _ => k = key → l = limit ∧ w = window | Evict _ => True end.

Lemma evicted_like_later t t' o1 o2 : (t ≤ t')%Z → evicted_like t o1 o2 → evicted_like t' o1 o2.
Proof.
  unfold evicted_like. destruct o2, o1; naive_solver lia.
Qed.

Lemma evicted_like_evict t now (ml1 ml2 : gmap string bucket) key :
  (t ≤ now)%Z → evicted_like t (ml1 !! key) (ml2 !! key) →
  evicted_like now (evictStale now ml1 !! key) (ml2 !! key).
Proof.
  intros Ht H%(evicted_like_later t now); [|done]. rewrite evictStale_lookup.
  destruct (ml1 !! key) as [b1|]; [|done]. destruct (idle now b1) eqn:Hi; [|done].
  destruct (ml2 !! key) as [b2|]; [|done]. destruct H as (H0 & Hr & Heq & Ha).
  split; [done|]. split; [done|]. rewrite <-Ha. unfold idle in Hi.
  rewrite Z.gtb_ltb, Z.ltb_lt in Hi. unfold saturate64, evictionTTL, Minute, Second, Millisecond,
    min_int64, max_int64 in *. lia.
Qed.

Lemma answers_evicted_like key limit window ops t (ml1 ml2 : gmap string bucket) :
  (0 ≤ limit)%Z → (0 < window ≤ evictionTTL)%Z → clocked t ops → Forall (steady key limit window) ops →
  evicted_like t (ml1 !! key) (ml2 !! key) →
  answers key ops ml1 = answers key (filter is_call ops) ml2.
Proof.
  intros Hl Hw Hc Hst. revert t ml1 ml2 Hc.
  induction Hst as [|o ops Ho Hst IH]; intros t ml1 ml2 Hc Hlike; [done|].
  destruct Hc as [Ht Hc]. rewrite filter_cons. destruct o as [k l w now|now]; simpl in *.
  - unfold Allow. case_bool_decide as Hk.
    + subst k. destruct (Ho eq_refl) as [-> ->].
      pose proof (evicted_like_call limit window t now _ _ Hl Hw Ht Hlike) as [Ha Hlike'].
      destruct (take_token limit window now (load_or_store limit window now (ml1 !! key))) as [r1 b1].
      destruct (take_token limit window now (load_or_store limit window now (ml2 !! key))) as [r2 b2].
      simpl in *. subst r2. f_equal.
      apply (IH now); [done|]. by rewrite !lookup_insert_eq.
    + destruct (take_token l w now (load_or_store l w now (ml1 !! k))) as [r1 b1].
      destruct (take_token l w now (load_or_store l w now (ml2 !! k))) as [r2 b2].
      apply (IH now); [done|]. rewrite !lookup_insert_ne by done. by eapply evicted_like_later.
  - apply (IH now); [done|]. by eapply evicted_like_evict.
Qed.

(** With a clock that does not go back and a window of at most five minutes,
    the background eviction of idle buckets is invisible (without rounding): a
    key gets the same answers as if no bucket were ever dropped. *)
Theorem eviction_unobservable key limit window ops t :
  (0 ≤ limit)%Z → (0 < window ≤ evictionTTL)%Z → clocked t ops →
  Forall (steady key limit window) ops →
  answers key ops ∅ = answers key (filter is_call ops) ∅.
Proof.
  intros Hl Hw Hc Hst. by apply (answers_evicted_like key limit window ops t).
Qed.

End ideal.

(** ** The code's arithmetic *)

(** The five-minute time to live ignores the window: at two requests per
    hour, a client that pauses for a little over five minutes is served four
    requests within six minutes (the rate bound allows two). *)
Theorem eviction_exceeds_rate :
  ∃ ops, Forall (steady "k" 2 (60 * Minute)) ops ∧ clocked 0 ops ∧
    Forall (λ o, op_time o ≤ 6 * Minute) ops ∧
    allowed (answers (Ar := float_arith) "k" ops ∅) = 4%nat ∧
    ¬ ((4 - 2) * (60 * Minute) ≤ 2 * (6 * Minute)).
Proof.
  exists [Call "k" 2 (60 * Minute) 0; Call "k" 2 (60 * Minute) 0; Call "k" 2 (60 * Minute) 0;
          Evict (evictionTTL + 1); Call "k" 2 (60 * Minute) (6 * Minute);
          Call "k" 2 (60 * Minute) (6 * Minute)].
  split; [repeat (apply Forall_cons_2; [by simpl|]); by constructor|].
  split; [vm_compute; repeat split; discriminate|].
  split; [repeat (apply Forall_cons_2; [by vm_compute|]); by constructor|].
  split; [by vm_compute|]. vm_compute. auto.
Qed.

(** Rounding can cost a request: at one request per 49 seconds, a request
    exactly one window after the previous one is refused by the code and accepted
    by the ideal bucket. *)
Theorem rounding_refuses_on_time :
  let ops := [Call "k" 1 (49 * Second) 0; Call "k" 1 (49 * Second) (49 * Second)] in
  (λ a, a.1.1) <$> answers (Ar := float_arith) "k" ops ∅ = [true; false] ∧
  (λ a, a.1.1) <$> answers (Ar := ideal_arith) "k" ops ∅ = [true; true].
Proof. by vm_compute. Qed.

(** ** Witnesses *)

Definition witness_ops : list op :=
  [Call "k" 2 Second 0; Call "other" 7 Minute 0; Call "k" 2 Second 0; Call "k" 2 Second 0;
   Call "k" 2 Second (Second / 2); Call "k" 2 Second 0].

Lemma rate_bound_witness :
  allowed (answers (Ar := ideal_arith) "k" witness_ops ∅) = 3%nat ∧
  (Z.of_nat (allowed (answers (Ar := ideal_arith) "k" witness_ops ∅)) - 2) * Second ≤
  2 * (Second - 0).
Proof.
  split; [by vm_compute|].
  apply (rate_bound "k" 2 Second 0 Second witness_ops ∅); [done..| |done].
  repeat (apply Forall_cons_2; [vm_compute; intros; repeat split; done|]). by constructor.
Defined.

Lemma eviction_unobservable_witness :
  let ops := [Call "k" 2 Minute 0; Call "k" 2 Minute Second; Evict (6 * Minute);
              Call "k" 2 Minute (7 * Minute); Call "k" 2 Minute (7 * Minute)] in
  answers (Ar := ideal_arith) "k" ops ∅ = answers (Ar := ideal_arith) "k" (filter is_call ops) ∅ ∧
  allowed (answers (Ar := ideal_arith) "k" ops ∅) = 4%nat.
Proof.
  intros ops. split; [|by vm_compute].
  apply (eviction_unobservable "k" 2 Minute ops 0); [done|done|vm_compute; repeat split; done|].
  repeat (apply Forall_cons_2; [by simpl|]). by constructor.
Defined.
