(* ===== verification/Retry.v ===== *)
(** * Retry and circuit breaking around the proxy (internal/middleware/retry)

    Each attempt runs the proxy on a recorder with a copy of the request; only
    the response that is kept reaches the client's writer. *)

From S2P Require Import Prelude.
From S2P Require Import GoStrings.
From S2P Require Import ConfigTypes.
From S2P Require Import CircuitBreaker.
From S2P Require Import Http.
From S2P Require Import Middleware.
From S2P Require Import F64.

Local Open Scope Z_scope.

Definition maxRetryBodySize : Z := Z.shiftl 10 20.

(** [http.DetectContentType]. *)
Class ContentSniffer : Type := { DetectContentType : string → string }.

(** ** The recorder ([httptest.ResponseRecorder]) *)

Record Recorder : Type := mkRecorder {
  rec_Code : Z;
  rec_HeaderMap : Header;
  rec_Body : string;
  rec_wroteHeader : bool;
}.

(** [httptest.NewRecorder]. *)
Definition NewRecorder : Recorder := mkRecorder 200 ∅ "" false.

Definition rec_WriteHeader (code : Z) (rec : Recorder) : outcome unit * Recorder :=
  if rec_wroteHeader rec then (Returned tt, rec)
  else if (code <? 100) || (code >? 999) then (Panicked "invalid WriteHeader code", rec)
  else (Returned tt, mkRecorder code (rec_HeaderMap rec) (rec_Body rec) true).

Section retry.
Context `{CS : ContentSniffer} `{RO : RangeOrder}.

(** The first write sniffs the content type and sends the implicit 200. *)
Definition rec_commit (b : string) (rec : Recorder) : Recorder :=
  if rec_wroteHeader rec then rec
  else
    let m := rec_HeaderMap rec in
    let m := if bool_decide (m !! "Content-Type" = None) &&
                bool_decide (hdr_get m "Transfer-Encoding" = "")
             then hdr_set m "Content-Type" (DetectContentType b) else m in
    (rec_WriteHeader 200 (mkRecorder (rec_Code rec) m (rec_Body rec) false)).2.

Definition rec_Write (b : string) (rec : Recorder) : (Z * option error) * Recorder :=
  let rec := rec_commit b rec in
  ((Z.of_nat (String.length b), None),
   mkRecorder (rec_Code rec) (rec_HeaderMap rec) (rec_Body rec +:+ b) (rec_wroteHeader rec)).

#[export] Instance Recorder_writer : ResponseWriter Recorder := {|
  rw_Header rec := mret (rec_HeaderMap rec, rec);
  rw_HeaderPut h rec := mret (mkRecorder (rec_Code rec) h (rec_Body rec) (rec_wroteHeader rec));
  rw_WriteHeader code rec := mret (rec_WriteHeader code rec);
  rw_Write b rec := mret (rec_Write b rec);
  rw_Flush rec := mret (if rec_wroteHeader rec then rec else (rec_WriteHeader 200 rec).2);
  rw_Wrapped _ := None;
|}.

(** Serve on a fresh recorder. *)
Definition record (p : prog unit) : prog Recorder :=
  '(_, rec) ← with_writer p NewRecorder; mret rec.

Definition copyRecorderToWriter (rec : Recorder) : prog unit :=
  add_headers (range (rec_HeaderMap rec));;
  write_header (rec_Code rec);;
  write (rec_Body rec).

(** ** The breaker around an attempt *)

(** A pointer to a breaker: the identity of its shared state, and its callback. *)
Record Breaker : Type := mkBreaker {
  br_id : string;
  br_onStateChange : transition → prog unit;
}.

Definition fire (br : Breaker) (t : option transition) : prog unit :=
  match t with Some t => br_onStateChange br t | None => mret tt end.

(** [cb.Execute(fn)]: two critical sections on the shared breaker around [fn].
    [fn] also leaves a recorder behind, as the closure does; a refused call leaves
    the fresh one. *)
Definition Execute (br : Breaker) (fn : prog (option error * Recorder))
    : prog (option error * Recorder) :=
  adm ← emit (BreakerTxn (br_id br) enter);
  match adm with
  | Rejected => mret (Some ErrCircuitOpen, NewRecorder)
  | Granted isProbe pre =>
      fire br pre;;
      '(err, rec) ← fn;
      post ← emit (BreakerTxn (br_id br) (λ now cb,
        let '(cb', post) := leave now isProbe (bool_decide (err ≠ None)) cb in (post, cb')));
      fire br post;;
      mret (err, rec)
  end.

Definition upstream_error (code : Z) : error := Errorf ("upstream returned " +:+ Itoa code).

(** The closure passed to [Execute]. *)
Definition recorded_attempt (p : prog unit) : prog (option error * Recorder) :=
  rec ← record p;
  mret (if rec_Code rec >=? 500 then Some (upstream_error (rec_Code rec)) else None, rec).

(** [cbOnlyHandler.ServeHTTP]. *)
Definition WithCircuitBreaker (br : Breaker) (proxy : Handler) : Handler :=
  λ r,
    '(err, rec) ← Execute br (recorded_attempt (proxy r));
    if bool_decide (err = Some ErrCircuitOpen)
    then writeJSON 503 "service_unavailable" "circuit breaker is open"
    else copyRecorderToWriter rec.

(** ** Retries *)

(** [backoff]: exponential, with a jitter factor drawn from [0.5, 1.5). *)
Definition backoff (cfg : RetryConfig) (attempt : Z) : prog Z :=
  let delay := f_mul (f_of_int (retry_InitialDelay cfg))
                 (Pow (retry_Multiplier cfg) (attempt - 1)) in
  u ← emit RandFloat;
  let jitter := f_add f_half u in
  mret (f_to_int64 (f_mul delay jitter)).

(** The pause before attempt number [attempt]: [false] when the client has gone
    and was answered. *)
Definition client_closed : prog bool :=
  writeJSON 499 "client_closed" "client disconnected during retry";; mret false.

Definition pause (cfg : RetryConfig) (attempt : Z) : prog bool :=
  if attempt >? 0 then
    delay ← backoff cfg attempt;
    done ← emit CtxDone;
    if (done : bool) then client_closed
    else emit (SleepFor delay);;
         done ← emit CtxDone;
         if (done : bool) then client_closed else mret true
  else mret true.

(** The clone's body: the buffered bytes. *)
Definition clone_request (bodyBytes : option string) (r : Request) : Request :=
  match bodyBytes with
  | Some b => with_body r (Some (mkBody b None)) (Z.of_nat (String.length b))
  | None => r
  end.

(** One attempt on a clone of the request: the error of [Execute], if there is a
    breaker, and the recorder. *)
Definition try_once (cb : option Breaker) (proxy : Handler) (clone : Request)
    : prog (option error * Recorder) :=
  with_cloned_header
    (match cb with
     | Some br => Execute br (recorded_attempt (proxy clone))
     | None => rec ← record (proxy clone); mret (None, rec)
     end).

Definition retryable (cfg : RetryConfig) (code : Z) : bool :=
  existsb (Z.eqb code) (retry_RetryableStatusCodes cfg).

Definition exhausted_message (maxAttempts : Z) (lastErr : option error) : string :=
  "upstream failed after " +:+ Itoa maxAttempts +:+ " attempts" +:+
  match lastErr with Some e => ": " +:+ error_text e | None => "" end.

(** The loop of [ServeHTTP] with [n] attempts left, at attempt [attempt]. *)
Fixpoint retry_loop (cfg : RetryConfig) (cb : option Breaker) (proxy : Handler) (clone : Request)
    (maxAttempts : Z) (n : nat) (attempt : Z) (lastErr : option error) : prog unit :=
  match n with
  | O => writeJSON 502 "bad_gateway" (exhausted_message maxAttempts lastErr)
  | S n' =>
      go ← pause cfg attempt;
      if negb go then mret tt
      else
        '(execErr, rec) ← try_once cb proxy clone;
        match execErr with
        | Some ErrCircuitOpen =>
            writeJSON 503 "service_unavailable" "circuit breaker is open"
        | Some e => retry_loop cfg cb proxy clone maxAttempts n' (attempt + 1) (Some e)
        | None =>
            if retryable cfg (rec_Code rec)
            then retry_loop cfg cb proxy clone maxAttempts n' (attempt + 1)
                   (Some (upstream_error (rec_Code rec)))
            else copyRecorderToWriter rec
        end
  end.

(** Buffer the body; [inr] is the early answer. *)
Definition buffer_body (r : Request) : option string + prog unit :=
  match r_Body r with
  | None => inl None
  | Some b =>
      let '(bytes, err) := ReadLimited b (maxRetryBodySize + 1) in
      if err then inr (writeJSON 502 "bad_gateway" "failed to read request body")
      else if Z.of_nat (String.length bytes) >? maxRetryBodySize
      then inr (writeJSON 413 "request_too_large" "request body exceeds 10MB retry buffer limit")
      else inl (Some bytes)
  end.

Definition Retry (cfg : RetryConfig) (cb : option Breaker) (proxy : Handler) : Handler :=
  λ r,
    match buffer_body r with
    | inr answer => answer
    | inl bodyBytes =>
        let maxAttempts := wrap64 (retry_MaxRetries cfg + 1) in
        retry_loop cfg cb proxy (clone_request bodyBytes r) maxAttempts (Z.to_nat maxAttempts) 0 None
    end.

(** ** Specification *)

(** How an attempt ends for the loop. *)
Inductive verdict : Type :=
  | Keep (rec : Recorder)
  | Again (e : error)
  | Refused.

Definition judge (cfg : RetryConfig) (execErr : option error) (rec : Recorder) : verdict :=
  match execErr with
  | Some ErrCircuitOpen => Refused
  | Some e => Again e
  | None => if retryable cfg (rec_Code rec) then Again (upstream_error (rec_Code rec)) else Keep rec
  end.

Section spec.
Context {W : Type} (env : environment W) (cfg : RetryConfig) (cb : option Breaker)
  (proxy : Handler) (clone : Request).

(** Pause and attempt number [i] take the world from [w] to [w'] with verdict
    [v]. *)
Definition attempt_ends (c : Conn) (h : Header) (i : Z) (w : W) (v : verdict) (w' : W) : Prop :=
  ∃ w1 execErr rec,
    run (conn_req_env env) (pause cfg i) (c, (h, w)) = (Returned true, (c, (h, w1))) ∧
    run (conn_req_env env) (try_once cb proxy clone) (c, (h, w1)) =
      (Returned (execErr, rec), (c, (h, w'))) ∧
    judge cfg execErr rec = v.

(** A series of attempts that all have to be repeated, and the last error. *)
Inductive failures (c : Conn) (h : Header) : Z → option error → W → list error → W → Prop :=
  | failures_nil i e w : failures c h i e w [] w
  | failures_cons i e0 e es w w1 w2 :
      attempt_ends c h i w (Again e) w1 → failures c h (i + 1) (Some e) w1 es w2 →
      failures c h i e0 w (e :: es) w2.
End spec.

Fixpoint last_error (e0 : option error) (es : list error) : option error :=
  match es with [] => e0 | e :: es' => last_error (Some e) es' end.

(** ** Lemmas *)

Lemma retry_loop_step {W} (env : environment W) cfg cb proxy clone maxA c h n i e0 w v w' :
  attempt_ends env cfg cb proxy clone c h i w v w' →
  run (conn_req_env env) (retry_loop cfg cb proxy clone maxA (S n) i e0) (c, (h, w)) =
  run (conn_req_env env)
    match v with
    | Keep rec => copyRecorderToWriter rec
    | Again e => retry_loop cfg cb proxy clone maxA n (i + 1) (Some e)
    | Refused => writeJSON 503 "service_unavailable" "circuit breaker is open"
    end (c, (h, w')).
Proof.
  intros (w1 & execErr & rec & Hp & Ht & <-). cbn [retry_loop].
  rewrite run_mbind, Hp. cbn [negb]. rewrite run_mbind, Ht. unfold judge.
  destruct execErr as [[|msg]|]; [done|done|]. by destruct (retryable cfg (rec_Code rec)).
Qed.

Lemma retry_loop_failures {W} (env : environment W) cfg cb proxy clone maxA c h n i e0 w es w' :
  failures env cfg cb proxy clone c h i e0 w es w' →
  run (conn_req_env env) (retry_loop cfg cb proxy clone maxA (length es + n) i e0) (c, (h, w)) =
  run (conn_req_env env)
    (retry_loop cfg cb proxy clone maxA n (i + Z.of_nat (length es)) (last_error e0 es)) (c, (h, w')).
Proof.
  induction 1 as [i e w|i e0 e es w w1 w2 Ha Hf IH]; [by rewrite Z.add_0_r|].
  cbn [length plus]. rewrite (retry_loop_step _ _ _ _ _ _ _ _ _ _ _ _ _ _ Ha), IH.
  cbn [last_error]. by replace (i + Z.of_nat (S (length es))) with (i + 1 + Z.of_nat (length es)) by lia.
Qed.

(** Events that leave the client's writer and the request's headers alone. *)
Definition offstage_event : ∀ X, event X → Prop :=
  λ X e, match e with
         | WHeaderPut _ | WWriteHeader _ | WWrite _ | WFlush | RHeaderPut _ => False
         | _ => True
         end.

(** Programs that do not touch the client's writer. *)
Definition unwritten_event : ∀ X, event X → Prop :=
  λ X e, match e with
         | WHeader | WHeaderPut _ | WWriteHeader _ | WWrite _ | WFlush | WWrapped => False
         | _ => True
         end.

Lemma all_events_handled {S A} (Q1 Q : ∀ X, event X → Prop) (h : handler S) (p : prog A) s :
  (∀ X (e : event X), Q1 X e → match h X e with
                               | Some m => ∀ s, all_events Q (m s)
                               | None => Q X e
                               end) →
  all_events Q1 p → all_events Q (handle h p s).
Proof.
  intros Hh. revert s. induction p as [| |X e k IH]; intros s Hp; simpl in *; [done..|].
  destruct Hp as [He Hk]. specialize (Hh X e He). destruct (h X e) as [m|]; simpl; [|auto].
  apply all_events_bind; auto.
Qed.

Lemma record_unwritten p : all_events unwritten_event (record p).
Proof.
  unfold record, with_writer. apply all_events_bind; [|by intros []].
  apply (all_events_handled any_event); [|apply all_events_any].
  intros X e _. by destruct e.
Qed.

Definition silent_breaker (br : Breaker) : Prop :=
  ∀ t, all_events unwritten_event (br_onStateChange br t).

Lemma fire_unwritten br t : silent_breaker br → all_events unwritten_event (fire br t).
Proof. intros Hs. destruct t; simpl; auto. Qed.

Lemma Execute_unwritten br fn :
  silent_breaker br → all_events unwritten_event fn → all_events unwritten_event (Execute br fn).
Proof.
  intros Hs Hf. simpl. split; [done|]. intros [|p pre]; [done|].
  apply all_events_bind; [by apply fire_unwritten|]. intros _.
  apply all_events_bind; [done|]. intros [err rec]. simpl. split; [done|]. intros post.
  apply all_events_bind; [by apply fire_unwritten|]. done.
Qed.

Definition silent (cb : option Breaker) : Prop :=
  match cb with Some br => silent_breaker br | None => True end.

Lemma try_once_offstage cb proxy clone :
  silent cb → all_events offstage_event (try_once cb proxy clone).
Proof.
  intros Hs. unfold try_once, with_cloned_header. simpl. split; [done|]. intros h.
  apply all_events_bind; [|done]. apply (all_events_handled unwritten_event).
  { intros X e He. by destruct e. }
  destruct cb as [br|].
  - apply Execute_unwritten; [done|]. apply all_events_bind; [apply record_unwritten|done].
  - apply all_events_bind; [apply record_unwritten|done].
Qed.

Lemma offstage_run {W A} (env : environment W) (p : prog A) c h w :
  all_events offstage_event p →
  ∃ w', (run (conn_req_env env) p (c, (h, w))).2 = (c, (h, w')).
Proof.
  intros Hp. unfold conn_req_env, req_env.
  pose proof (run_invariant (conn_env (env_with header_cell env)) offstage_event
    (λ x, x.1 = c ∧ x.2.1 = h) p (c, (h, w))) as H.
  destruct (run _ p _) as [o [c' [h' w']]]. simpl in *. destruct H as [-> ->]; [|done..|by exists w'].
  intros X e [c1 [h1 w1]] He [? ?]. simplify_eq/=. unfold conn_env, env_with.
  destruct e; simpl in *; try done;
    by match goal with |- context [env ?X ?e w1] => destruct (env X e w1) end.
Qed.

(** ** Properties *)


(** An attempt is invisible to the client: whatever the proxy writes, and
    however the attempt ends, the client's response and the original request's
    headers stay as they are. *)
Theorem attempt_isolated {W} (env : environment W) cb proxy clone c h w :
  silent cb →
  ∃ w', (run (conn_req_env env) (try_once cb proxy clone) (c, (h, w))).2 = (c, (h, w')).
Proof. intros Hs. by apply offstage_run, try_once_offstage. Qed.

(** With a breaker every status of 500 and above is repeated, listed as
    retryable or not; without one exactly the listed statuses are. *)
Theorem breaker_retries_every_5xx cfg rec br p {W} (env : environment W) c h w err w' :
  run (conn_req_env env)
    (match br with true => recorded_attempt p | false => rec ← record p; mret (None, rec) end)
    (c, (h, w)) = (Returned (err, rec), w') →
  (∃ e, judge cfg err rec = Again e) ↔
  retryable cfg (rec_Code rec) = true ∨ (br = true ∧ 500 ≤ rec_Code rec).
Proof.
  destruct br; unfold recorded_attempt; rewrite run_mbind;
    destruct (run _ (record p) _) as [[rec'|v] cw]; simpl; intros; simplify_eq; unfold judge.
  - destruct (rec_Code rec >=? 500) eqn:E; bool_to_prop; simpl.
    + split; [intros; right; split; [done|lia]|]. intros _. by eexists.
    + destruct (retryable cfg _); naive_solver lia.
  - destruct (retryable cfg _); naive_solver.
Qed.

End retry.

(** ** Witnesses *)

Definition no_sniffer : ContentSniffer := {| DetectContentType _ := "text/plain" |}.

(** The clock counts its readings. *)
Definition counting_env : environment Z :=
  λ X e w, match e in event X return outcome X * Z with
           | Now => (Returned w, w + 1)
           | e' => (Returned (quiet_answer w e'), w)
           end.

(** A proxy whose first answer is 503. *)
Definition flaky : Handler :=
  λ _, t ← emit Now; write_header (if t <? 1 then 503 else 200);; write "body".

Definition witness_retry : RetryConfig := mkRetryConfig 2 100 (f_of_int 2) [503].


Lemma attempt_isolated_witness :
  let CS := no_sniffer in let RO := sorted_range in
  ∃ w', (run (conn_req_env counting_env) (try_once None flaky witness_request)
           (new_conn, (∅, 0))).2 = (new_conn, (∅, w')).
Proof. intros CS RO. apply (attempt_isolated counting_env None flaky witness_request). exact I. Defined.

Lemma breaker_retries_every_5xx_witness :
  let CS := no_sniffer in
  ∃ e, judge witness_retry (Some (upstream_error 599)) (mkRecorder 599 ∅ "" true) = Again e.
Proof.
  intros CS.
  apply (breaker_retries_every_5xx witness_retry (mkRecorder 599 ∅ "" true) true (write_header 599)
    quiet_env new_conn ∅ tt (Some (upstream_error 599)) (new_conn, (∅, tt))).
  - reflexivity.
  - right. split; [done|]. vm_compute. done.
Defined.
