(* ===== verification/Resolve.v ===== *)
(** * Middleware resolution (internal/config/resolve.go)

    References to middleware definitions are looked up, their overrides merged
    into the definition's YAML mapping, and the result decoded into the typed
    configuration.  The YAML library is the interface [YamlLibrary]. *)

From S2P Require Import Prelude.
From S2P Require Import GoStrings.
From S2P Require Import ConfigTypes.

Local Open Scope Z_scope.

(** [node.Decode(&cfg)] into each configuration struct, and [yaml.Marshal]. *)
Class YamlLibrary : Type := {
  decode_cors : YamlNode → result CORSConfig;
  decode_rate_limit : YamlNode → result RateLimitConfig;
  decode_auth : YamlNode → result AuthMiddlewareConfig;
  decode_transform : YamlNode → result TransformConfig;
  yaml_Marshal : YamlNode → result string;
}.

#[export] Instance result_ret : MRet result := @Ok.
#[export] Instance result_mbind : MBind result := λ A B f r, result_bind r f.

(** [fmt.Errorf("...: %w", err)]. *)
Definition wrap_error {A} (prefix : string) (r : result A) : result A :=
  match r with Ok a => Ok a | Err e => Err (Errorf (prefix +:+ error_text e)) end.

(** ** Merging *)

(** [baseIndex]: the position of each key of a mapping's content, from [i]. *)
Fixpoint base_index (i : nat) (content : list YamlNode) (m : gmap string nat) : gmap string nat :=
  match content with
  | k :: _ :: rest => base_index (S (S i)) rest (<[nd_Value k := i]> m)
  | _ => m
  end.

(** Apply the override's pairs to the copied content. *)
Fixpoint apply_overrides (idx : gmap string nat) (override content : list YamlNode) : list YamlNode :=
  match override with
  | k :: v :: rest =>
      match idx !! nd_Value k with
      | Some i => apply_overrides idx rest (<[S i := v]> content)
      | None => apply_overrides idx rest (content ++ [k; v])
      end
  | _ => content
  end.

Definition mergeYAMLNodes (base override : YamlNode) : result YamlNode :=
  if nd_Kind base =? 0 then Ok override
  else if negb (nd_Kind base =? MappingNode)
  then Err (Errorf ("base node is not a mapping (kind=" +:+ Itoa (nd_Kind base) +:+ ")"))
  else if negb (nd_Kind override =? MappingNode)
  then Err (Errorf ("override node is not a mapping (kind=" +:+ Itoa (nd_Kind override) +:+ ")"))
  else
    let content := nd_Content base in
    Ok (mkNode MappingNode (nd_Tag base) ""
          (apply_overrides (base_index 0 content ∅) (nd_Content override) content) "").

(** ** Decoding *)

Definition applyRateLimitDefaults (cfg : RateLimitConfig) : RateLimitConfig :=
  if bool_decide (rl_Algorithm cfg = "")
  then mkRateLimitConfig (rl_Requests cfg) (rl_Window cfg) (rl_KeySource cfg) "sliding_window"
  else cfg.

Definition zero_CORS : CORSConfig := mkCORSConfig [] [] [] [] false 0.
Definition zero_RateLimit : RateLimitConfig := mkRateLimitConfig 0 0 "" "".
Definition zero_Auth : AuthMiddlewareConfig := mkAuthMiddlewareConfig [].
Definition zero_Transform : TransformConfig := mkTransformConfig None None 0.

(** Decode a node that may be absent, with the error wrapped. *)
Definition decode_or {A} (zero : A) (decode : YamlNode → result A) (what : string) (node : YamlNode)
    : result A :=
  if nd_Kind node =? 0 then Ok zero
  else match decode node with
       | Ok cfg => Ok cfg
       | Err e => Err (Errorf ("decoding " +:+ what +:+ " config: " +:+ error_text e))
       end.

Section resolve.
Context `{YL : YamlLibrary}.

Definition decodeTypedConfig (typeName : string) (node : YamlNode) : result TypedConfig :=
  if bool_decide (typeName = "cors")
  then cfg ← decode_or zero_CORS decode_cors "cors" node; mret (CfgCORS cfg)
  else if bool_decide (typeName = "rate_limit")
  then cfg ← decode_or zero_RateLimit decode_rate_limit "rate_limit" node;
       mret (CfgRateLimit (applyRateLimitDefaults cfg))
  else if bool_decide (typeName = "auth")
  then cfg ← decode_or zero_Auth decode_auth "auth" node; mret (CfgAuth cfg)
  else if bool_decide (typeName = "transform")
  then cfg ← decode_or zero_Transform decode_transform "transform" node; mret (CfgTransform cfg)
  else Err (Errorf ("unknown middleware type " +:+ Quote typeName)).

(** One iteration of the loop of [ResolveMiddlewares]. *)
Definition resolve_ref (defs : gmap string MiddlewareDefinition) (ref : MiddlewareRef)
    : result ResolvedMiddleware :=
  match defs !! mr_Ref ref with
  | None => Err (Errorf ("middleware ref " +:+ Quote (mr_Ref ref) +:+
                           ": not found in middleware_definitions"))
  | Some def =>
      cfgNode ← (if negb (nd_Kind (mr_Config ref) =? 0)
                 then wrap_error ("middleware ref " +:+ Quote (mr_Ref ref) +:+
                                  ": merging config override: ")
                        (mergeYAMLNodes (md_Config def) (mr_Config ref))
                 else mret (md_Config def));
      typedCfg ← wrap_error ("middleware ref " +:+ Quote (mr_Ref ref) +:+
                             ": decoding config for type " +:+ Quote (md_Type def) +:+ ": ")
                   (decodeTypedConfig (md_Type def) cfgNode);
      mret (mkResolvedMiddleware (mr_Ref ref) (md_Type def) typedCfg)
  end.

Fixpoint ResolveMiddlewares (refs : list MiddlewareRef) (defs : gmap string MiddlewareDefinition)
    : result (list ResolvedMiddleware) :=
  match refs with
  | [] => mret []
  | ref :: refs' =>
      rm ← resolve_ref defs ref;
      rms ← ResolveMiddlewares refs' defs;
      mret (rm :: rms)
  end.
End resolve.

(** ** Specification: mappings as lists of pairs *)

Fixpoint pairs_of (content : list YamlNode) : list (YamlNode * YamlNode) :=
  match content with
  | k :: v :: rest => (k, v) :: pairs_of rest
  | _ => []
  end.

Fixpoint flatten (ps : list (YamlNode * YamlNode)) : list YamlNode :=
  match ps with [] => [] | (k, v) :: ps' => k :: v :: flatten ps' end.

(** The value under a key: its first pair. *)
Definition yaml_lookup (key : string) (ps : list (YamlNode * YamlNode)) : option YamlNode :=
  snd <$> head (filter (λ kv, nd_Value kv.1 = key) ps).

Definition keys (ps : list (YamlNode * YamlNode)) : list string := (λ kv, nd_Value kv.1) <$> ps.

(** ** Lemmas *)

Lemma pairs_of_flatten ps : pairs_of (flatten ps) = ps.
Proof. induction ps as [|[k v] ps IH]; simpl; [done|]. by rewrite IH. Qed.

Lemma flatten_app ps qs : flatten (ps ++ qs) = (flatten ps ++ flatten qs)%list.
Proof. induction ps as [|[k v] ps IH]; simpl; [done|]. by rewrite IH. Qed.

Lemma length_flatten ps : length (flatten ps) = (2 * length ps)%nat.
Proof. induction ps as [|[k v] ps IH]; simpl; [done|]. rewrite IH. lia. Qed.

(** The index points at the keys, twice their position. *)
Lemma base_index_spec i ps m key n :
  NoDup (keys ps) →
  base_index i (flatten ps) m !! key = Some n ↔
  (∃ j, keys ps !! j = Some key ∧ n = (i + 2 * j)%nat) ∨ (key ∉ keys ps ∧ m !! key = Some n).
Proof.
  revert i m. induction ps as [|[k v] ps IH]; intros i m Hnd; simpl.
  - split; [|by intros [(j & Hj & _)|[_ ?]]]. intros ?. right. split; [set_solver|done].
  - apply NoDup_cons in Hnd as [Hk Hnd]. rewrite (IH _ _ Hnd). split.
    + intros [(j & Hj & ->)|[Hn Hm]].
      * left. exists (S j). split; [done|lia].
      * apply lookup_insert_Some in Hm as [[<- <-]|[Hne Hm]].
        { left. exists 0%nat. split; [done|lia]. }
        right. split; [|done]. rewrite not_elem_of_cons. auto.
    + intros [([|j] & Hj & ->)|[Hn Hm]]; simpl in *.
      * simplify_eq. right. split; [done|]. rewrite lookup_insert_eq. f_equal. lia.
      * left. exists j. split; [done|lia].
      * apply not_elem_of_cons in Hn as [? ?]. right. split; [done|].
        by rewrite lookup_insert_ne.
Qed.

(** Replacing the value at a key's position replaces it in its pair. *)
Lemma flatten_replace ps j k v v' :
  ps !! j = Some (k, v) → <[S (2 * j) := v']> (flatten ps) = flatten (<[j := (k, v')]> ps).
Proof.
  revert j. induction ps as [|[k0 v0] ps IH]; intros [|j] Hj; simplify_eq/=; [done|].
  replace (j + S (j + 0))%nat with (S (2 * j))%nat by lia. simpl. by rewrite <-(IH j).
Qed.

Lemma yaml_lookup_cons key k v ps :
  yaml_lookup key ((k, v) :: ps) = if decide (nd_Value k = key) then Some v else yaml_lookup key ps.
Proof. unfold yaml_lookup. rewrite filter_cons. simpl. by case_decide. Qed.

Lemma yaml_lookup_None key ps : yaml_lookup key ps = None ↔ key ∉ keys ps.
Proof.
  induction ps as [|[k v] ps IH]; simpl; [split; [set_solver|done]|].
  rewrite yaml_lookup_cons, not_elem_of_cons. case_decide; naive_solver.
Qed.

Lemma yaml_lookup_app key ps qs :
  yaml_lookup key (ps ++ qs) =
  match yaml_lookup key ps with Some v => Some v | None => yaml_lookup key qs end.
Proof.
  induction ps as [|[k v] ps IH]; simpl; [done|].
  rewrite !yaml_lookup_cons. by case_decide.
Qed.

(** The pair of a key with the override's value, if it has one. *)
Definition overridden (os : list (YamlNode * YamlNode)) (kv : YamlNode * YamlNode)
    : YamlNode * YamlNode := (kv.1, default kv.2 (yaml_lookup (nd_Value kv.1) os)).

Lemma keys_overridden os ps : keys (overridden os <$> ps) = keys ps.
Proof. unfold keys. rewrite <-list_fmap_compose. by apply list_fmap_ext. Qed.

Lemma yaml_lookup_overridden os ps key :
  yaml_lookup key (overridden os <$> ps) =
  match yaml_lookup key ps with
  | Some v => Some (default v (yaml_lookup key os))
  | None => None
  end.
Proof.
  induction ps as [|[k v] ps IH]; simpl; [done|]. unfold overridden at 1. simpl.
  rewrite !yaml_lookup_cons. case_decide; [by subst|done].
Qed.

Lemma overridden_step os ps j k v v' :
  NoDup (keys ps) → ps !! j = Some (k, v) → nd_Value k ∉ keys os →
  overridden os <$> <[j := (k, v')]> ps = overridden ((k, v') :: os) <$> ps.
Proof.
  intros Hnd Hj Hk. apply list_eq. intros i. rewrite !list_lookup_fmap.
  destruct (decide (i = j)) as [->|Hne].
  - rewrite list_lookup_insert_eq by (by eapply lookup_lt_Some). rewrite Hj. simpl.
    unfold overridden. simpl. rewrite yaml_lookup_cons, decide_True by done.
    by rewrite (proj2 (yaml_lookup_None _ _) Hk).
  - rewrite list_lookup_insert_ne by done. destruct (ps !! i) as [[k' v0]|] eqn:Hi; [|done]. simpl.
    unfold overridden. simpl. rewrite yaml_lookup_cons, decide_False; [done|].
    intros He. apply Hne. eapply NoDup_lookup; [exact Hnd|..]; unfold keys; rewrite list_lookup_fmap.
    + by rewrite Hi.
    + rewrite Hj. simpl. by rewrite He.
Qed.

Lemma apply_overrides_spec bs os : ∀ ps extra,
  NoDup (keys bs) → NoDup (keys os) → keys ps = keys bs →
  apply_overrides (base_index 0 (flatten bs) ∅) (flatten os) (flatten (ps ++ extra)) =
  flatten ((overridden os <$> ps) ++ extra ++ filter (λ kv, nd_Value kv.1 ∉ keys bs) os).
Proof.
  intros ps extra Hbs Hos. revert ps extra.
  induction os as [|[k v] os IH]; intros ps extra Hps; cbn [flatten apply_overrides].
  - rewrite filter_nil, app_nil_r. do 2 f_equal. rewrite <-(list_fmap_id ps) at 1.
    apply list_fmap_ext. by intros i [k v] _.
  - apply NoDup_cons in Hos as [Hk Hos]. simpl in Hk.
    destruct (base_index 0 (flatten bs) ∅ !! nd_Value k) as [n|] eqn:E.
    + apply base_index_spec in E as [(j & Hj & ->)|[_ E]];
        [|by rewrite lookup_empty in E|done].
      rewrite <-Hps in Hj. unfold keys in Hj. rewrite list_lookup_fmap in Hj.
      destruct (ps !! j) as [[k0 v0]|] eqn:Hpj; [|done]. simplify_eq/=.
      rewrite (flatten_replace _ j k0 v0) by (by rewrite lookup_app, Hpj).
      rewrite insert_app_l by (by eapply lookup_lt_Some). rewrite IH; [|done|].
      * rewrite filter_cons_False.
        2: { simpl. intros Hn. apply Hn. rewrite <-Hps, <-Hj. unfold keys.
             apply list_elem_of_fmap. exists (k0, v0). split; [done|]. by eapply list_elem_of_lookup_2. }
        f_equal. f_equal. rewrite (overridden_step os ps j k0 v0 v); [|by rewrite Hps|done|by rewrite Hj].
        apply list_fmap_ext. intros i [k1 v1] _. unfold overridden. simpl.
        rewrite !yaml_lookup_cons. by rewrite Hj.
      * rewrite <-Hps. unfold keys. rewrite list_fmap_insert. apply list_insert_id.
        by rewrite list_lookup_fmap, Hpj.
    + assert (nd_Value k ∉ keys bs) as Hnb.
      { intros Hin. apply list_elem_of_lookup in Hin as [j Hj].
        assert (base_index 0 (flatten bs) ∅ !! nd_Value k = Some (0 + 2 * j)%nat); [|congruence].
        apply base_index_spec; [done|]. left. eauto. }
      change [k; v] with (flatten [(k, v)]). rewrite <-flatten_app, <-app_assoc, IH by done.
      rewrite filter_cons_True by done. f_equal. rewrite <-app_assoc. f_equal.
      apply list_fmap_ext. intros i [k1 v1] Hi. unfold overridden. simpl.
      rewrite yaml_lookup_cons, decide_False; [done|]. intros He. apply Hnb. rewrite He, <-Hps.
      unfold keys. apply list_elem_of_fmap. exists (k1, v1). split; [done|].
      by eapply list_elem_of_lookup_2.
Qed.

Lemma keys_filter (l : list string) os :
  keys (filter (λ kv, nd_Value kv.1 ∉ l) os) = filter (λ k, k ∉ l) (keys os).
Proof.
  induction os as [|[k v] os IH]; [done|]. cbn [keys fmap list_fmap fst].
  rewrite !filter_cons. cbn [fst]. repeat case_decide; try done. cbn. by f_equal.
Qed.

(** ** Properties *)

(** Merging an override into a definition is a shallow update of its
    mapping: the merged mapping has no duplicate keys, every key of the override
    has the override's value, every other key keeps the definition's value, and
    the definition's keys come first, in their order. *)
Theorem mergeYAMLNodes_shallow_update base override bs os :
  nd_Kind base = MappingNode → nd_Kind override = MappingNode →
  nd_Content base = flatten bs → nd_Content override = flatten os →
  NoDup (keys bs) → NoDup (keys os) →
  ∃ rs, mergeYAMLNodes base override = Ok (mkNode MappingNode (nd_Tag base) "" (flatten rs) "") ∧
    NoDup (keys rs) ∧ keys rs = keys bs ++ filter (λ k, k ∉ keys bs) (keys os) ∧
    ∀ key, yaml_lookup key rs = match yaml_lookup key os with
                                | Some v => Some v
                                | None => yaml_lookup key bs
                                end.
Proof.
  intros Hb Ho Hbc Hoc Hbs Hos.
  exists ((overridden os <$> bs) ++ filter (λ kv, nd_Value kv.1 ∉ keys bs) os).
  assert (keys ((overridden os <$> bs) ++ filter (λ kv, nd_Value kv.1 ∉ keys bs) os) =
          keys bs ++ filter (λ k, k ∉ keys bs) (keys os)) as Hkeys.
  { unfold keys at 1. rewrite fmap_app. fold (keys (overridden os <$> bs)). rewrite keys_overridden.
    f_equal. apply keys_filter. }
  split; [|split; [|split; [done|]]].
  - unfold mergeYAMLNodes. rewrite Hb, Ho, Hbc, Hoc. simpl.
    pose proof (apply_overrides_spec bs os bs [] Hbs Hos eq_refl) as H.
    rewrite app_nil_r in H. by rewrite H.
  - rewrite Hkeys. apply NoDup_app. split; [done|]. split; [|by apply NoDup_filter].
    intros k Hk Hf. apply list_elem_of_filter in Hf as [? _]. done.
  - intros key. rewrite yaml_lookup_app, yaml_lookup_overridden.
    destruct (yaml_lookup key bs) as [v|] eqn:E; [by destruct (yaml_lookup key os)|].
    apply yaml_lookup_None in E. clear Hkeys Hos Hoc.
    induction os as [|[k v] os IH]; [done|]. rewrite filter_cons, yaml_lookup_cons. simpl.
    case_decide as Hin.
    + rewrite yaml_lookup_cons. case_decide; [done|]. apply IH.
    + rewrite decide_False by (intros <-; tauto). apply IH.
Qed.

(** Resolution succeeds exactly when every reference resolves on its own, and
    then keeps the order, one resolved middleware per reference, named after it
    and typed like its definition. *)
Theorem ResolveMiddlewares_pointwise `{YL : YamlLibrary} refs defs rms :
  ResolveMiddlewares refs defs = Ok rms ↔
  Forall2 (λ ref rm, resolve_ref defs ref = Ok rm ∧ rm_Name rm = mr_Ref ref ∧
    ∃ def, defs !! mr_Ref ref = Some def ∧ rm_Type rm = md_Type def) refs rms.
Proof.
  assert (∀ ref rm, resolve_ref defs ref = Ok rm → rm_Name rm = mr_Ref ref ∧
    ∃ def, defs !! mr_Ref ref = Some def ∧ rm_Type rm = md_Type def) as Href.
  { intros ref rm. unfold resolve_ref. destruct (defs !! mr_Ref ref) as [def|]; [|done].
    unfold mbind, result_mbind. destruct (if negb _ then _ else _) as [node|e]; simpl; [|done].
    destruct (wrap_error _ _) as [cfg|e]; simpl; [|done]. intros [= <-]. simpl. eauto. }
  revert rms. induction refs as [|ref refs IH]; intros rms; simpl.
  - split; [intros [= <-]; constructor|]. by inversion 1.
  - unfold mbind, result_mbind. destruct (resolve_ref defs ref) as [rm|e] eqn:E; simpl.
    + destruct (ResolveMiddlewares refs defs) as [rms'|e] eqn:Es; simpl.
      * split.
        { intros [= <-]. constructor; [naive_solver|]. by apply IH. }
        inversion 1 as [|? rm' ? rms'' [Hr _] Hf]; simplify_eq.
        apply IH in Hf. rewrite E in Hr. injection Hr as <-. injection Hf as <-. reflexivity.
      * split; [done|]. inversion 1 as [|? ? ? ? ? Hf]; simplify_eq. by apply IH in Hf.
    + split; [done|]. inversion 1 as [|? rm' ? ? [Hr _]]. congruence.
Qed.

(** ** Witnesses *)

Definition scalar (s : string) : YamlNode := mkNode 8 "!!str" s [] "".
Definition mapping (ps : list (YamlNode * YamlNode)) : YamlNode :=
  mkNode MappingNode "!!map" "" (flatten ps) "".

Lemma mergeYAMLNodes_shallow_update_witness :
  let bs := [(scalar "requests", scalar "10"); (scalar "window", scalar "1m")] in
  let os := [(scalar "window", scalar "1s"); (scalar "algorithm", scalar "leaky_bucket")] in
  ∃ rs, mergeYAMLNodes (mapping bs) (mapping os) = Ok (mapping rs) ∧
    yaml_lookup "window" rs = Some (scalar "1s") ∧ keys rs = ["requests"; "window"; "algorithm"].
Proof.
  intros bs os.
  destruct (mergeYAMLNodes_shallow_update (mapping bs) (mapping os) bs os) as (rs & He & Hn & Hk & Hl);
    [reflexivity..| | |].
  - unfold bs, keys. simpl. repeat constructor; vm_compute; set_solver.
  - unfold os, keys. simpl. repeat constructor; vm_compute; set_solver.
  - exists rs. split; [exact He|]. split; [by rewrite Hl|]. rewrite Hk. reflexivity.
Defined.
