(* ===== verification/Config.v ===== *)
(** * Loading and validating the configuration (internal/config/config.go)

    Environment substitution, defaults and the semantic checks.  A diagnostic is
    kept as data: its constructor is the message, its arguments what the message
    prints. *)

From S2P Require Import Prelude.
From S2P Require Import GoStrings.
From S2P Require Import Template.
From S2P Require Import ConfigTypes.
From S2P Require Import Resolve.

Local Open Scope Z_scope.

(** ** Environment placeholders *)

(** [envVarPattern.MatchString]. *)
Fixpoint hasUnresolvedEnvVar (s : string) : bool :=
  match placeholder s with
  | Some _ => true
  | None => match s with "" => false | String _ s' => hasUnresolvedEnvVar s' end
  end.

(** [ReplaceAllStringFunc] with the lookup of [LoadConfig]: a variable that is not
    set leaves its placeholder. *)
Definition env_value (LookupEnv : string → option string) (varName : string) : string :=
  match LookupEnv varName with Some value => value | None => match_text varName end.

Definition substitute (LookupEnv : string → option string) (s : string) : string :=
  render (env_value LookupEnv) (tokens s).

(** ** Defaults *)

Definition default_int (v d : Z) : Z := if v =? 0 then d else v.
Definition default_str (v d : string) : string := if bool_decide (v = "") then d else v.

Definition default_server (s : ServerConfig) : ServerConfig := {|
  srv_Host := default_str (srv_Host s) "0.0.0.0";
  srv_Port := default_int (srv_Port s) 8080;
  srv_ReadTimeout := default_int (srv_ReadTimeout s) (30 * Second);
  srv_WriteTimeout := default_int (srv_WriteTimeout s) (30 * Second);
  srv_IdleTimeout := default_int (srv_IdleTimeout s) (120 * Second);
  srv_ShutdownTimeout := default_int (srv_ShutdownTimeout s) (15 * Second);
  srv_TrustedProxies := srv_TrustedProxies s;
  srv_MaxHeaderBytes := default_int (srv_MaxHeaderBytes s) (Z.shiftl 1 20);
|}.

Definition default_redis (r : RedisConfig) : RedisConfig := {|
  redis_Addr := redis_Addr r;
  redis_Password := redis_Password r;
  redis_DB := redis_DB r;
  redis_PoolSize := default_int (redis_PoolSize r) 10;
  redis_MinIdleConns := redis_MinIdleConns r;
  redis_DialTimeout := default_int (redis_DialTimeout r) (5 * Second);
  redis_ReadTimeout := default_int (redis_ReadTimeout r) (3 * Second);
  redis_WriteTimeout := default_int (redis_WriteTimeout r) (3 * Second);
  redis_MaxRetries := redis_MaxRetries r;
  redis_QueryTimeout := default_int (redis_QueryTimeout r) (100 * Millisecond);
  redis_TLSEnabled := redis_TLSEnabled r;
|}.

Definition default_rate_limit (g : RateLimitGlobalConfig) : RateLimitGlobalConfig :=
  let backend := default_str (rlg_Backend g) "memory" in
  mkRateLimitGlobalConfig backend
    (if bool_decide (backend = "redis") then default_redis <$> rlg_Redis g else rlg_Redis g).

Definition default_route (r : RouteConfig) : RouteConfig := {|
  route_Name := route_Name r;
  route_Match := route_Match r;
  route_Upstream := mkUpstreamConfig (up_URL (route_Upstream r)) (up_PathRewrite (route_Upstream r))
    (default_int (up_Timeout (route_Upstream r)) (30 * Second));
  route_Retry := route_Retry r;
  route_CircuitBreaker := route_CircuitBreaker r;
  route_SkipMiddlewares := route_SkipMiddlewares r;
  route_Middlewares := route_Middlewares r;
|}.

Definition applyDefaults (cfg : GatewayConfig) : GatewayConfig := {|
  gw_Server := default_server (gw_Server cfg);
  gw_Logging := mkLoggingConfig (default_str (log_Level (gw_Logging cfg)) "info");
  gw_RateLimit := default_rate_limit (gw_RateLimit cfg);
  gw_AuthProviders := gw_AuthProviders cfg;
  gw_MiddlewareDefinitions := gw_MiddlewareDefinitions cfg;
  gw_Middlewares := gw_Middlewares cfg;
  gw_Routes := default_route <$> gw_Routes cfg;
|}.

(** ** Diagnostics *)

Inductive mw_problem : Type :=
  | WrongConfigType
  | RequestsNotPositive (n : Z)
  | WindowNotPositive (d : Z)
  | UnsupportedAlgorithm (a : string)
  | AlgorithmNeedsRedis (a backend : string)
  | InvalidKeySource (k : string)
  | EmptyHeaderName (k : string)
  | EmptyClaimName (k : string)
  | NoProviders
  | EmptyProvider
  | DuplicateProvider (p : string)
  | UndefinedProvider (p : string)
  | NoneCombined
  | NoOrigins.

Inductive diagnostic : Type :=
  | DuplicateRoute (name : string)
  | UnresolvedPlaceholder (field value : string)
  | GlobalMiddlewares (e : error)
  | MiddlewareProblem (context mw : string) (p : mw_problem)
  | InvalidPathRegex (route regex : string)
  | InvalidHost (route host : string) (e : error)
  | InvalidHeaderRegex (route header pattern : string)
  | UnknownSkip (route name : string)
  | RouteMiddlewares (route : string) (e : error)
  | CorsNotFirst (route mw : string) (i : nat)
  | ManyCors (route : string) (count : nat)
  | ClaimWithoutAuth (route mw keySource : string).

(** ** Host patterns *)

Definition has_empty_label (s : string) : bool :=
  existsb (λ l, bool_decide (l = "")) (Split s ".").

(** [None] when the pattern is valid. *)
Definition validateHostPattern (host : string) : option error :=
  if ContainsByte host "*" then
    if negb (HasPrefix host "*.")
    then Some (Errorf "wildcard must start with '*.' (e.g. *.example.com)")
    else
      let suffix := slice_from host 2 in
      if bool_decide (suffix = "") then Some (Errorf "wildcard suffix must not be empty")
      else if ContainsByte suffix "*"
      then Some (Errorf "only a single leading wildcard is supported (e.g. *.example.com)")
      else if negb (ContainsByte suffix ".")
      then Some (Errorf "wildcard suffix must contain at least two labels (e.g. *.example.com, not *.com)")
      else if has_empty_label suffix then Some (Errorf "host contains empty label")
      else None
  else if has_empty_label host then Some (Errorf "host contains empty label")
  else None.

(** ** Checks of resolved middlewares *)

Definition check (b : bool) {A} (d : A) : list A := if b then [d] else [].

Definition rate_limit_problems (cfg : GatewayConfig) (rl : RateLimitConfig) : list mw_problem :=
  check (rl_Requests rl <=? 0) (RequestsNotPositive (rl_Requests rl)) ++
  check (rl_Window rl <=? 0) (WindowNotPositive (rl_Window rl)) ++
  check (negb (bool_decide (rl_Algorithm rl = "sliding_window") ||
               bool_decide (rl_Algorithm rl = "leaky_bucket")))
    (UnsupportedAlgorithm (rl_Algorithm rl)) ++
  check (bool_decide (rl_Algorithm rl = "leaky_bucket") &&
         negb (bool_decide (rlg_Backend (gw_RateLimit cfg) = "redis")))
    (AlgorithmNeedsRedis (rl_Algorithm rl) (rlg_Backend (gw_RateLimit cfg))) ++
  let k := rl_KeySource rl in
  if negb (bool_decide (k = "")) && negb (bool_decide (k = "ip")) then
    if negb (HasPrefix k "header:") && negb (HasPrefix k "claim:") then [InvalidKeySource k]
    else if HasPrefix k "header:" && bool_decide (TrimPrefix k "header:" = "")
    then [EmptyHeaderName k]
    else check (HasPrefix k "claim:" && bool_decide (TrimPrefix k "claim:" = "")) (EmptyClaimName k)
  else [].

(** The loop over the providers, with the set [seen], and whether [none] was
    among them. *)
Fixpoint provider_problems (cfg : GatewayConfig) (ps : list string) (seen : gset string)
    : list mw_problem * gset string :=
  match ps with
  | [] => ([], seen)
  | p :: ps' =>
      if bool_decide (p = "")
      then let '(errs, seen') := provider_problems cfg ps' seen in (EmptyProvider :: errs, seen')
      else if bool_decide (p ∈ seen)
      then let '(errs, seen') := provider_problems cfg ps' seen in (DuplicateProvider p :: errs, seen')
      else
        let '(errs, seen') := provider_problems cfg ps' ({[p]} ∪ seen) in
        (check (negb (bool_decide (p = "none")) &&
                bool_decide (gw_AuthProviders cfg !! p = None)) (UndefinedProvider p) ++ errs, seen')
  end.

Definition auth_problems (cfg : GatewayConfig) (am : AuthMiddlewareConfig) : list mw_problem :=
  match am_Providers am with
  | [] => [NoProviders]
  | ps =>
      let '(errs, seen) := provider_problems cfg ps ∅ in
      errs ++ check (bool_decide ("none" ∈ seen) && (1 <? Z.of_nat (length ps))) NoneCombined
  end.

Definition mw_problems (cfg : GatewayConfig) (mw : ResolvedMiddleware) : list mw_problem :=
  if bool_decide (rm_Type mw = "rate_limit") then
    match rm_Config mw with CfgRateLimit rl => rate_limit_problems cfg rl | _ => [WrongConfigType] end
  else if bool_decide (rm_Type mw = "auth") then
    match rm_Config mw with CfgAuth am => auth_problems cfg am | _ => [WrongConfigType] end
  else if bool_decide (rm_Type mw = "cors") then
    match rm_Config mw with
    | CfgCORS c => check (bool_decide (cors_AllowedOrigins c = [])) NoOrigins
    | _ => [WrongConfigType]
    end
  else [].

Definition validateResolvedMiddlewares (context : string) (resolved : list ResolvedMiddleware)
    (cfg : GatewayConfig) : list diagnostic :=
  mw ← resolved; MiddlewareProblem context (rm_Name mw) <$> mw_problems cfg mw.

(** ** Semantic errors *)

(** The globals a route keeps: those it does not skip ([filterSkipped] in the
    pipeline, the same loop in [semanticErrors]). *)
Definition filterSkipped (resolved : list ResolvedMiddleware) (skipNames : list string)
    : list ResolvedMiddleware :=
  filter (λ mw, rm_Name mw ∉ skipNames) resolved.

Definition is_cors (mw : ResolvedMiddleware) : bool := bool_decide (rm_Type mw = "cors").
Definition is_auth (mw : ResolvedMiddleware) : bool := bool_decide (rm_Type mw = "auth").

(** The loop that counts CORS middlewares, from position [i]. *)
Fixpoint cors_loop (route : string) (chain : list ResolvedMiddleware) (i count : nat)
    : list diagnostic * nat :=
  match chain with
  | [] => ([], count)
  | mw :: rest =>
      if is_cors mw then
        let '(errs, n) := cors_loop route rest (S i) (S count) in
        (check (negb (Nat.eqb i 0) && Nat.eqb (S count) 1) (CorsNotFirst route (rm_Name mw) i) ++ errs, n)
      else cors_loop route rest (S i) count
  end.

Definition cors_errors (route : string) (chain : list ResolvedMiddleware) : list diagnostic :=
  let '(errs, n) := cors_loop route chain 0 0 in
  errs ++ check (Nat.ltb 1 n) (ManyCors route n).

(** A rate limit keyed by a claim. *)
Definition claim_source (mw : ResolvedMiddleware) : option string :=
  if bool_decide (rm_Type mw = "rate_limit") then
    match rm_Config mw with
    | CfgRateLimit rl => if HasPrefix (rl_KeySource rl) "claim:" then Some (rl_KeySource rl) else None
    | _ => None
    end
  else None.

Fixpoint claim_errors (route : string) (chain : list ResolvedMiddleware) (authSeen : bool)
    : list diagnostic :=
  match chain with
  | [] => []
  | mw :: rest =>
      let authSeen := authSeen || is_auth mw in
      match claim_source mw with
      | Some k => check (negb authSeen) (ClaimWithoutAuth route (rm_Name mw) k)
      | None => []
      end ++ claim_errors route rest authSeen
  end.

Fixpoint duplicate_routes (names : list string) (seen : gset string) : list diagnostic :=
  match names with
  | [] => []
  | n :: names' => check (bool_decide (n ∈ seen)) (DuplicateRoute n) ++ duplicate_routes names' ({[n]} ∪ seen)
  end.

Definition unresolved (field v : string) : list diagnostic :=
  check (hasUnresolvedEnvVar v) (UnresolvedPlaceholder field v).

Definition key_errors (name : string) (ks : list APIKeyEntry) : list diagnostic :=
  concat (imap (λ i k, unresolved ("auth_providers." +:+ name +:+ ".api_key.keys[" +:+
                                   Itoa (Z.of_nat i) +:+ "].key") (ake_Key k)) ks).

Definition provider_errors (nap : string * AuthProvider) : list diagnostic :=
  let '(name, ap) := nap in
  match ap_JWT ap with
  | Some j => unresolved ("auth_providers." +:+ name +:+ ".jwt.secret") (jwt_Secret j)
  | None => []
  end ++
  match ap_APIKey ap with Some ak => key_errors name (ak_Keys ak) | None => [] end ++
  match ap_OIDC ap with
  | Some o => unresolved ("auth_providers." +:+ name +:+ ".oidc.client_secret") (oidc_ClientSecret o)
  | None => []
  end.

Definition redis_errors (o : option RedisConfig) : list diagnostic :=
  match o with
  | Some r => unresolved "rate_limit.redis.addr" (redis_Addr r) ++
              unresolved "rate_limit.redis.password" (redis_Password r)
  | None => []
  end.

Section config.
Context `{RE : RegexpEngine} `{RO : RangeOrder} `{YL : YamlLibrary}.

Definition compiles (pattern : string) : bool := bool_decide (is_Some (Compile pattern)).

Definition header_errors (route : string) (hp : string * string) : list diagnostic :=
  let '(h, pattern) := hp in
  if bool_decide (pattern = "*") then []
  else check (negb (compiles ("^(?:" +:+ pattern +:+ ")$"))) (InvalidHeaderRegex route h pattern).

(** The body of the loop over the routes; [globals] is [None] when the global
    references did not resolve. *)
Definition route_errors (cfg : GatewayConfig) (globals : option (list ResolvedMiddleware))
    (route : RouteConfig) : list diagnostic :=
  let name := route_Name route in
  let m := route_Match route in
  check (negb (bool_decide (match_PathRegex m = "")) && negb (compiles (match_PathRegex m)))
    (InvalidPathRegex name (match_PathRegex m)) ++
  (if bool_decide (match_Host m = "") then []
   else match validateHostPattern (match_Host m) with
        | Some e => [InvalidHost name (match_Host m) e]
        | None => []
        end) ++
  (hp ← range (match_Headers m); header_errors name hp) ++
  (s ← route_SkipMiddlewares route;
   check (negb (bool_decide (s ∈ (mr_Ref <$> gw_Middlewares cfg)))) (UnknownSkip name s)) ++
  match ResolveMiddlewares (route_Middlewares route) (gw_MiddlewareDefinitions cfg) with
  | Err e => [RouteMiddlewares name e]
  | Ok routeResolved =>
      let chain := filterSkipped (default [] globals) (route_SkipMiddlewares route) ++ routeResolved in
      validateResolvedMiddlewares ("route " +:+ Quote name) routeResolved cfg ++
      cors_errors name chain ++ claim_errors name chain false
  end.

Definition semanticErrors (cfg : GatewayConfig) : list diagnostic :=
  duplicate_routes (route_Name <$> gw_Routes cfg) ∅ ++
  (nap ← range (gw_AuthProviders cfg); provider_errors nap) ++
  redis_errors (rlg_Redis (gw_RateLimit cfg)) ++
  match ResolveMiddlewares (gw_Middlewares cfg) (gw_MiddlewareDefinitions cfg) with
  | Err e => [GlobalMiddlewares e] ++ (r ← gw_Routes cfg; route_errors cfg None r)
  | Ok globals =>
      validateResolvedMiddlewares "global" globals cfg ++
      (r ← gw_Routes cfg; route_errors cfg (Some globals) r)
  end.

(** ** Loading *)

(** What a failed load reports. *)
Inductive load_error : Type :=
  | ReadFailed (e : error)
  | SchemaInvalid (errs : list string)
  | UnmarshalFailed (e : error)
  | SemanticsInvalid (errs : list diagnostic).

Section load.
(** [os.LookupEnv], the schema validator and the YAML decoder for the whole
    configuration. *)
Variable LookupEnv : string → option string.
Variable ValidateRawConfig : string → list string.
Variable Unmarshal : string → result GatewayConfig.

(** [data] is the result of reading the file. *)
Definition LoadConfig (data : result string) : GatewayConfig + load_error :=
  match data with
  | Err e => inr (ReadFailed e)
  | Ok text =>
      let resolved := substitute LookupEnv text in
      match ValidateRawConfig resolved with
      | _ :: _ as errs => inr (SchemaInvalid errs)
      | [] =>
          match Unmarshal resolved with
          | Err e => inr (UnmarshalFailed e)
          | Ok cfg0 =>
              let cfg := applyDefaults cfg0 in
              match semanticErrors cfg with
              | _ :: _ as errs => inr (SemanticsInvalid errs)
              | [] => inl cfg
              end
          end
      end
  end.
End load.

(** ** Specification of a valid configuration *)

Definition resolved_secret (v : string) : Prop := hasUnresolvedEnvVar v = false.

Definition valid_provider (ap : AuthProvider) : Prop :=
  (∀ j, ap_JWT ap = Some j → resolved_secret (jwt_Secret j)) ∧
  (∀ ak k, ap_APIKey ap = Some ak → k ∈ ak_Keys ak → resolved_secret (ake_Key k)) ∧
  (∀ o, ap_OIDC ap = Some o → resolved_secret (oidc_ClientSecret o)).

Definition valid_key_source (k : string) : Prop :=
  k = "" ∨ k = "ip" ∨ (∃ n, n ≠ "" ∧ k = "header:" +:+ n) ∨ (∃ n, n ≠ "" ∧ k = "claim:" +:+ n).

Definition valid_rate_limit (cfg : GatewayConfig) (rl : RateLimitConfig) : Prop :=
  0 < rl_Requests rl ∧ 0 < rl_Window rl ∧
  (rl_Algorithm rl = "sliding_window" ∨
   rl_Algorithm rl = "leaky_bucket" ∧ rlg_Backend (gw_RateLimit cfg) = "redis") ∧
  valid_key_source (rl_KeySource rl).

(** Providers are named, distinct and defined; [none] stands alone. *)
Definition valid_auth (cfg : GatewayConfig) (am : AuthMiddlewareConfig) : Prop :=
  am_Providers am = ["none"] ∨
  am_Providers am ≠ [] ∧ NoDup (am_Providers am) ∧
  ∀ p, p ∈ am_Providers am → p ≠ "" ∧ p ≠ "none" ∧ is_Some (gw_AuthProviders cfg !! p).

Definition valid_middleware (cfg : GatewayConfig) (mw : ResolvedMiddleware) : Prop :=
  (rm_Type mw = "rate_limit" → ∃ rl, rm_Config mw = CfgRateLimit rl ∧ valid_rate_limit cfg rl) ∧
  (rm_Type mw = "auth" → ∃ am, rm_Config mw = CfgAuth am ∧ valid_auth cfg am) ∧
  (rm_Type mw = "cors" → ∃ c, rm_Config mw = CfgCORS c ∧ cors_AllowedOrigins c ≠ []).

(** CORS only in front; a claim-keyed rate limit only behind authentication. *)
Definition valid_chain (chain : list ResolvedMiddleware) : Prop :=
  (∀ i mw, chain !! i = Some mw → rm_Type mw = "cors" → i = 0%nat) ∧
  (∀ i mw k, chain !! i = Some mw → claim_source mw = Some k →
     ∃ j mw', (j < i)%nat ∧ chain !! j = Some mw' ∧ rm_Type mw' = "auth").

(** A wildcard over one label, or a plain host, without empty labels. *)
Definition valid_host (host : string) : Prop :=
  (ContainsByte host "*" = false ∧ "" ∉ Split host ".") ∨
  ∃ suffix, host = "*." +:+ suffix ∧ ContainsByte suffix "*" = false ∧
    ContainsByte suffix "." = true ∧ "" ∉ Split suffix ".".

Definition valid_route (cfg : GatewayConfig) (globals : list ResolvedMiddleware) (r : RouteConfig)
    : Prop :=
  let m := route_Match r in
  (match_PathRegex m = "" ∨ is_Some (Compile (match_PathRegex m))) ∧
  (match_Host m = "" ∨ valid_host (match_Host m)) ∧
  (∀ h p, match_Headers m !! h = Some p → p = "*" ∨ is_Some (Compile ("^(?:" +:+ p +:+ ")$"))) ∧
  (∀ s, s ∈ route_SkipMiddlewares r → s ∈ (mr_Ref <$> gw_Middlewares cfg)) ∧
  ∃ rms, ResolveMiddlewares (route_Middlewares r) (gw_MiddlewareDefinitions cfg) = Ok rms ∧
    Forall (valid_middleware cfg) rms ∧
    valid_chain (filterSkipped globals (route_SkipMiddlewares r) ++ rms).

Definition valid_config (cfg : GatewayConfig) : Prop :=
  NoDup (route_Name <$> gw_Routes cfg) ∧
  (∀ name ap, gw_AuthProviders cfg !! name = Some ap → valid_provider ap) ∧
  (∀ r, rlg_Redis (gw_RateLimit cfg) = Some r →
     resolved_secret (redis_Addr r) ∧ resolved_secret (redis_Password r)) ∧
  ∃ globals, ResolveMiddlewares (gw_Middlewares cfg) (gw_MiddlewareDefinitions cfg) = Ok globals ∧
    Forall (valid_middleware cfg) globals ∧
    Forall (valid_route cfg globals) (gw_Routes cfg).

(** ** Lemmas *)

Lemma default_int_idem v d : default_int (default_int v d) d = default_int v d.
Proof. unfold default_int. destruct (v =? 0) eqn:E; [by destruct (d =? 0)|by rewrite E]. Qed.

Lemma default_str_idem v d : default_str (default_str v d) d = default_str v d.
Proof. unfold default_str. repeat case_bool_decide; done. Qed.

Lemma default_redis_idem r : default_redis (default_redis r) = default_redis r.
Proof. unfold default_redis. cbn. by rewrite !default_int_idem. Qed.

Lemma applyDefaults_idempotent cfg : applyDefaults (applyDefaults cfg) = applyDefaults cfg.
Proof.
  unfold applyDefaults. cbn. f_equal.
  - unfold default_server. cbn. by rewrite !default_int_idem, default_str_idem.
  - by rewrite default_str_idem.
  - unfold default_rate_limit. cbn. rewrite default_str_idem. f_equal.
    case_bool_decide; [|done]. destruct (rlg_Redis _); simpl; [|done]. by rewrite default_redis_idem.
  - rewrite <-list_fmap_compose. apply list_fmap_ext. intros i r _. unfold compose, default_route.
    cbn. by rewrite default_int_idem.
Qed.

Lemma check_nil {A} b (d : A) : check b d = [] ↔ b = false.
Proof. by destruct b. Qed.

Lemma bind_nil {A B} (f : A → list B) l : l ≫= f = [] ↔ ∀ x, x ∈ l → f x = [].
Proof.
  induction l as [|x l IH]; simpl; [split; [set_solver|done]|].
  rewrite app_nil. setoid_rewrite elem_of_cons. naive_solver.
Qed.

Lemma duplicate_routes_nil names seen :
  duplicate_routes names seen = [] ↔ NoDup names ∧ ∀ n, n ∈ names → n ∉ seen.
Proof.
  revert seen. induction names as [|n names IH]; intros seen; simpl.
  - split; [|done]. intros _. split; [constructor|]. by intros n ?%not_elem_of_nil.
  - rewrite app_nil, check_nil, bool_decide_eq_false, IH, NoDup_cons.
    setoid_rewrite elem_of_cons. setoid_rewrite elem_of_union. setoid_rewrite elem_of_singleton.
    naive_solver.
Qed.

Lemma unresolved_nil f v : unresolved f v = [] ↔ resolved_secret v.
Proof. apply check_nil. Qed.

Lemma concat_imap_nil {A B} (f : nat → A → list B) l :
  concat (imap f l) = [] ↔ ∀ i x, l !! i = Some x → f i x = [].
Proof.
  revert f. induction l as [|x l IH]; intros f; simpl; [naive_solver|].
  rewrite app_nil, IH. split.
  - intros [H0 H] [|i] y Hy; simplify_eq/=; [done|]. by apply H.
  - intros H. split; [by apply (H 0%nat)|]. intros i y Hy. by apply (H (S i)).
Qed.

Lemma provider_errors_nil name ap : provider_errors (name, ap) = [] ↔ valid_provider ap.
Proof.
  unfold provider_errors, valid_provider, key_errors. rewrite !app_nil.
  assert (match ap_APIKey ap with
          | Some ak => concat (imap (λ i k, unresolved ("auth_providers." +:+ name +:+
              ".api_key.keys[" +:+ Itoa (Z.of_nat i) +:+ "].key") (ake_Key k)) (ak_Keys ak))
          | None => []
          end = [] ↔
          ∀ ak k, ap_APIKey ap = Some ak → k ∈ ak_Keys ak → resolved_secret (ake_Key k)) as ->.
  { destruct (ap_APIKey ap) as [ak|]; [|naive_solver]. rewrite concat_imap_nil.
    setoid_rewrite unresolved_nil. setoid_rewrite list_elem_of_lookup. naive_solver. }
  destruct (ap_JWT ap), (ap_OIDC ap); rewrite ?unresolved_nil; naive_solver.
Qed.

Lemma redis_errors_nil o :
  redis_errors o = [] ↔
  ∀ r, o = Some r → resolved_secret (redis_Addr r) ∧ resolved_secret (redis_Password r).
Proof.
  destruct o as [r|]; simpl; [|naive_solver].
  rewrite app_nil, !unresolved_nil. naive_solver.
Qed.

(** Splitting off a fixed prefix. *)
Lemma TrimPrefix_spec s pre r : HasPrefix s pre = true → TrimPrefix s pre = r ↔ s = pre +:+ r.
Proof.
  intros [t ->]%HasPrefix_spec. rewrite TrimPrefix_app. split; [by intros ->|].
  intros H. by apply append_inj_l in H.
Qed.

Lemma nonempty_suffix k pre :
  (∃ n, n ≠ "" ∧ k = pre +:+ n) ↔ HasPrefix k pre = true ∧ TrimPrefix k pre ≠ "".
Proof.
  split.
  - intros (n & Hn & ->). rewrite TrimPrefix_app. split; [|done]. apply HasPrefix_spec. by exists n.
  - intros [Hp Ht]. exists (TrimPrefix k pre). split; [done|]. by apply TrimPrefix_spec.
Qed.

Lemma key_source_nil k :
  (if negb (bool_decide (k = "")) && negb (bool_decide (k = "ip")) then
     if negb (HasPrefix k "header:") && negb (HasPrefix k "claim:") then [InvalidKeySource k]
     else if HasPrefix k "header:" && bool_decide (TrimPrefix k "header:" = "")
     then [EmptyHeaderName k]
     else check (HasPrefix k "claim:" && bool_decide (TrimPrefix k "claim:" = "")) (EmptyClaimName k)
   else []) = [] ↔ valid_key_source k.
Proof.
  unfold valid_key_source.
  rewrite !nonempty_suffix.
  case_bool_decide as H1; cbn [negb andb]; [naive_solver|].
  case_bool_decide as H2; cbn [negb andb]; [naive_solver|].
  assert (HasPrefix k "header:" = true → HasPrefix k "claim:" = false) as Hex.
  { intros [? ->]%HasPrefix_spec. done. }
  destruct (HasPrefix k "header:"), (HasPrefix k "claim:"); cbn [negb andb];
    rewrite ?check_nil; repeat case_bool_decide; naive_solver.
Qed.

Lemma rate_limit_problems_nil cfg rl : rate_limit_problems cfg rl = [] ↔ valid_rate_limit cfg rl.
Proof.
  unfold rate_limit_problems, valid_rate_limit. rewrite !app_nil, !check_nil, key_source_nil.
  rewrite !Z.leb_gt, negb_false_iff, orb_true_iff, andb_false_iff, negb_false_iff.
  rewrite !bool_decide_eq_true, bool_decide_eq_false. 
  split.
  - intros (? & ? & H1 & H2 & ?). repeat split; auto. tauto.
  - intros (? & ? & [Ha|[Ha Hr]] & ?); repeat split; auto. left. by rewrite Ha.
Qed.

Lemma provider_problems_nil cfg ps seen :
  (provider_problems cfg ps seen).1 = [] ↔
  NoDup ps ∧ ∀ p, p ∈ ps → p ≠ "" ∧ p ∉ seen ∧ (p = "none" ∨ is_Some (gw_AuthProviders cfg !! p)).
Proof.
  revert seen. induction ps as [|p ps IH]; intros seen; simpl.
  - split; [|done]. intros _. split; [constructor|]. by intros p ?%not_elem_of_nil.
  - rewrite NoDup_cons. setoid_rewrite elem_of_cons.
    case_bool_decide as Hp; [|case_bool_decide as Hs].
    + destruct (provider_problems cfg ps seen). simpl. split; [done|]. naive_solver.
    + destruct (provider_problems cfg ps seen). simpl. split; [done|]. naive_solver.
    + specialize (IH ({[p]} ∪ seen)). destruct (provider_problems cfg ps ({[p]} ∪ seen)) as [errs sn].
      simpl in *. rewrite app_nil, check_nil, IH, andb_false_iff, negb_false_iff, bool_decide_eq_true,
        bool_decide_eq_false.
      setoid_rewrite elem_of_union. setoid_rewrite elem_of_singleton.
      setoid_rewrite <-not_eq_None_Some. split.
      * intros (Hk & ND & H). split; [split; [|done]|].
        { intros Hin. destruct (H p Hin) as (_ & Hn & _). naive_solver. }
        intros q [->|Hq]; [naive_solver|]. destruct (H q Hq). naive_solver.
      * intros ([Hn ND] & H). split; [destruct (H p (or_introl eq_refl)); naive_solver|]. split; [done|].
        intros q Hq. destruct (H q (or_intror Hq)). naive_solver.
Qed.

Lemma provider_problems_seen cfg ps seen :
  (provider_problems cfg ps seen).1 = [] → (provider_problems cfg ps seen).2 = list_to_set ps ∪ seen.
Proof.
  revert seen. induction ps as [|p ps IH]; intros seen; simpl; [set_solver|].
  case_bool_decide; [by destruct (provider_problems _ _ _)|].
  case_bool_decide; [by destruct (provider_problems _ _ _)|].
  specialize (IH ({[p]} ∪ seen)). destruct (provider_problems _ _ _) as [errs sn]. simpl in *.
  rewrite app_nil. intros [_ Hn]. rewrite IH by done. set_solver.
Qed.

Lemma auth_problems_nil cfg am : auth_problems cfg am = [] ↔ valid_auth cfg am.
Proof.
  unfold auth_problems, valid_auth. destruct (am_Providers am) as [|p0 ps0]; [naive_solver|].
  set (ps := p0 :: ps0). pose proof (provider_problems_nil cfg ps ∅) as H1.
  pose proof (provider_problems_seen cfg ps ∅) as H2.
  destruct (provider_problems cfg ps ∅) as [errs seen]. simpl in H1, H2.
  rewrite app_nil, check_nil, H1. split.
  - intros [Hps Hn]. rewrite H2 in Hn by (by apply H1). destruct Hps as [Hnd Hps].
    apply andb_false_iff in Hn as [Hn|Hn];
      [apply bool_decide_eq_false in Hn|apply Z.ltb_ge in Hn].
    + right. split; [done|]. split; [done|]. intros p Hp. destruct (Hps p Hp) as (? & _ & Hd).
      assert (p ≠ "none") by (intros ->; apply Hn; set_solver). naive_solver.
    + destruct ps0 as [|? ?]; [|simpl in Hn; lia].
      destruct (Hps p0) as (? & _ & [->|?]); [set_solver|by left|].
      destruct (decide (p0 = "none")) as [->|]; [by left|]. right.
      split; [done|]. split; [done|]. by intros p ->%list_elem_of_singleton.
  - intros [He|(_ & Hnd & Hps)].
    + subst ps. rewrite He. split; [|by rewrite andb_false_r].
      split; [apply NoDup_singleton|]. intros p ->%list_elem_of_singleton. set_solver.
    + split.
      * split; [done|]. intros p Hp. destruct (Hps p Hp) as (? & ? & ?). set_solver.
      * rewrite H2.
        { rewrite bool_decide_false; [done|].
          assert ("none" ∉ ps) as Hnn by (intros Hp; by destruct (Hps _ Hp) as (_ & ? & _)).
          set_solver. }
        apply H1. split; [done|]. intros p Hp. destruct (Hps p Hp) as (? & ? & ?). set_solver.
Qed.

Lemma mw_problems_nil cfg mw : mw_problems cfg mw = [] ↔ valid_middleware cfg mw.
Proof.
  unfold mw_problems, valid_middleware.
  repeat case_bool_decide; destruct (rm_Config mw) as [c|rl|am|tc];
    rewrite ?rate_limit_problems_nil, ?auth_problems_nil, ?check_nil, ?bool_decide_eq_false;
    naive_solver congruence.
Qed.

Lemma validateResolvedMiddlewares_nil ctx rms cfg :
  validateResolvedMiddlewares ctx rms cfg = [] ↔ Forall (valid_middleware cfg) rms.
Proof.
  unfold validateResolvedMiddlewares. rewrite bind_nil, Forall_forall.
  setoid_rewrite <-mw_problems_nil.
  apply forall_proper; intros mw.
  destruct (mw_problems cfg mw); simpl; split; intros H Hin; by specialize (H Hin).
Qed.

(** Chains. *)

Lemma cors_loop_count route chain i count :
  (cors_loop route chain i count).2 = (count + length (filter (λ mw, rm_Type mw = "cors") chain))%nat.
Proof.
  revert i count. induction chain as [|mw chain IH]; intros i count; simpl; [lia|].
  unfold is_cors. rewrite filter_cons. case_bool_decide.
  - rewrite decide_True by done. specialize (IH (S i) (S count)).
    destruct (cors_loop _ _ _ _). simpl in *. lia.
  - rewrite decide_False by done. apply IH.
Qed.

Lemma cors_loop_later route chain i count :
  i ≠ 0%nat →
  (cors_loop route chain i count).1 = [] ↔ count ≠ 0%nat ∨ Forall (λ mw, rm_Type mw ≠ "cors") chain.
Proof.
  revert i count. induction chain as [|mw chain IH]; intros i count Hi; simpl.
  { split; [by right|done]. }
  rewrite Forall_cons. unfold is_cors. case_bool_decide.
  - specialize (IH (S i) (S count) ltac:(lia)). destruct (cors_loop _ _ _ _) as [errs n]. simpl in *.
    rewrite app_nil, check_nil, IH. rewrite andb_false_iff, negb_false_iff, Nat.eqb_eq.
    change (Nat.eqb (S count) 1) with (Nat.eqb count 0). rewrite Nat.eqb_neq. naive_solver lia.
  - rewrite IH by lia. naive_solver.
Qed.

Lemma cors_errors_nil route chain :
  cors_errors route chain = [] ↔
  ∀ i mw, chain !! i = Some mw → rm_Type mw = "cors" → i = 0%nat.
Proof.
  assert (∀ (l : list ResolvedMiddleware), Forall (λ mw, rm_Type mw ≠ "cors") l ↔
    (∀ i mw, (l !! i) = Some mw → rm_Type mw ≠ "cors")) as HF.
  { intros l. rewrite Forall_lookup. done. }
  unfold cors_errors. destruct chain as [|mw chain]; [naive_solver|]. simpl. unfold is_cors.
  assert ((∀ i mw', (mw :: chain) !! i = Some mw' → rm_Type mw' = "cors" → i = 0%nat) ↔
          Forall (λ mw, rm_Type mw ≠ "cors") chain) as ->.
  { rewrite HF. split.
    - intros H i mw' Hi Ht. specialize (H (S i) mw' Hi Ht). lia.
    - intros H [|i] mw' Hi Ht; [done|]. by destruct (H i mw' Hi). }
  assert (∀ l : list ResolvedMiddleware, Forall (λ mw, rm_Type mw ≠ "cors") l ↔
    length (filter (λ mw, rm_Type mw = "cors") l) = 0%nat) as Hlen.
  { intros l. rewrite length_zero_iff_nil, Forall_forall. split.
    - intros H. clear -H. induction l as [|x l IH]; [done|]. rewrite filter_cons_False.
      + apply IH. intros y Hy. apply H. by right.
      + apply H. by left.
    - intros H x Hx Ht. assert (x ∈ filter (λ mw, rm_Type mw = "cors") l) as Hin
        by (by apply list_elem_of_filter). rewrite H in Hin. by apply not_elem_of_nil in Hin. }
  case_bool_decide as Hc.
  - pose proof (cors_loop_count route chain 1 1) as Hn. pose proof (cors_loop_later route chain 1 1) as Hl.
    destruct (cors_loop route chain 1 1) as [errs n]. cbn [fst snd] in *.
    change (check (negb (0 =? 0)%nat && (1 =? 1)%nat) (CorsNotFirst route (rm_Name mw) 0)) with
      (@nil diagnostic). rewrite Hlen. cbn [app].
    rewrite app_nil, check_nil. destruct Hl as [_ Hl]; [done|]. rewrite Hl by (by left).
    subst n. rewrite Nat.ltb_ge. split; [intros []; lia|]. intros ?. split; [done|lia].
  - pose proof (cors_loop_count route chain 1 0) as Hn. pose proof (cors_loop_later route chain 1 0) as Hl.
    destruct (cors_loop route chain 1 0) as [errs n]. cbn [fst snd] in *.
    rewrite app_nil, check_nil, Hl by done. rewrite Hlen in *. subst n.
    rewrite Nat.ltb_ge. split; [intros [[?|?] _]; done|]. intros ->. split; [by right|lia].
Qed.

Lemma claim_source_type mw k : claim_source mw = Some k → is_auth mw = false.
Proof.
  unfold claim_source, is_auth. case_bool_decide as H; [|done]. intros _. by rewrite H.
Qed.

Lemma claim_errors_nil route chain seen :
  claim_errors route chain seen = [] ↔
  ∀ i mw k, chain !! i = Some mw → claim_source mw = Some k →
    seen = true ∨ ∃ j mw', (j < i)%nat ∧ chain !! j = Some mw' ∧ rm_Type mw' = "auth".
Proof.
  revert seen. induction chain as [|mw chain IH]; intros seen; simpl; [naive_solver|].
  rewrite app_nil, IH. clear IH.
  assert (match claim_source mw with
          | Some k => check (negb (seen || is_auth mw)) (ClaimWithoutAuth route (rm_Name mw) k)
          | None => []
          end = [] ↔ (is_Some (claim_source mw) → seen = true)) as ->.
  { destruct (claim_source mw) as [k|] eqn:E; [|split; [by intros _ []|done]].
    rewrite (claim_source_type _ _ E), orb_false_r, check_nil, negb_false_iff. naive_solver. }
  split.
  - intros [H0 H] [|i] mw' k Hi Hk; simpl in Hi.
    + simplify_eq. left. apply H0. by eexists.
    + destruct (H i mw' k Hi Hk) as [Hs|(j & mj & ? & ? & ?)].
      * apply orb_true_iff in Hs as [?|Ha]; [by left|].
        right. exists 0%nat, mw. split; [lia|]. split; [done|]. by apply bool_decide_eq_true in Ha.
      * right. exists (S j), mj. split; [lia|done].
  - intros H. split.
    + intros [k Hk]. destruct (H 0%nat mw k eq_refl Hk) as [?|(j & ? & ? & _)]; [done|lia].
    + intros i mw' k Hi Hk. destruct (H (S i) mw' k Hi Hk) as [->|([|j] & mj & ? & Hj & Ht)].
      * by left.
      * simplify_eq/=. left. unfold is_auth. by rewrite bool_decide_true, orb_true_r.
      * right. exists j, mj. split; [lia|done].
Qed.

Lemma chain_errors_nil route chain :
  cors_errors route chain ++ claim_errors route chain false = [] ↔ valid_chain chain.
Proof.
  rewrite app_nil, cors_errors_nil, claim_errors_nil. unfold valid_chain.
  split; intros [H1 H2]; (split; [exact H1|]).
  - intros i mw k Hi Hk. by destruct (H2 i mw k Hi Hk).
  - intros i mw k Hi Hk. right. eauto.
Qed.

(** Hosts. *)

Lemma has_empty_label_spec s : has_empty_label s = false ↔ "" ∉ Split s ".".
Proof.
  unfold has_empty_label. rewrite <-not_true_iff_false, existsb_exists.
  setoid_rewrite <-list_elem_of_In. setoid_rewrite bool_decide_eq_true. naive_solver.
Qed.

Lemma validateHostPattern_valid host : validateHostPattern host = None ↔ valid_host host.
Proof.
  unfold validateHostPattern, valid_host.
  destruct (ContainsByte host "*") eqn:Hstar.
  - destruct (HasPrefix host "*.") eqn:Hp; cbn [negb].
    + apply HasPrefix_spec in Hp as [suffix ->]. assert (slice_from ("*." +:+ suffix) 2 = suffix) as -> by apply (slice_from_app "*." suffix).
      assert ((∃ s, "*." +:+ suffix = "*." +:+ s ∧ ContainsByte s "*" = false ∧
                ContainsByte s "." = true ∧ "" ∉ Split s ".") ↔
              ContainsByte suffix "*" = false ∧ ContainsByte suffix "." = true ∧ "" ∉ Split suffix ".")
        as ->.
      { split; [intros (s & Hs & ?); apply append_inj_l in Hs; by subst|].
        intros H. by exists suffix. }
      rewrite <-!has_empty_label_spec.
      case_bool_decide as He; [subst; naive_solver|].
      destruct (ContainsByte suffix "*"); [naive_solver|].
      destruct (ContainsByte suffix "."); [|naive_solver]. cbn [negb].
      destruct (has_empty_label suffix); naive_solver.
    + split; [done|]. intros [[? _]|(s & -> & _)]; [done|].
      assert (HasPrefix ("*." +:+ s) "*." = true) by (apply HasPrefix_spec; by exists s). congruence.
  - rewrite <-has_empty_label_spec. split.
    + intros. left. split; [done|]. by destruct (has_empty_label host).
    + intros [[_ ->]|(s & -> & _)]; done.
Qed.

Lemma header_errors_nil route h p :
  header_errors route (h, p) = [] ↔ p = "*" ∨ is_Some (Compile ("^(?:" +:+ p +:+ ")$")).
Proof.
  unfold header_errors, compiles. case_bool_decide; [naive_solver|].
  rewrite check_nil, negb_false_iff, bool_decide_eq_true. naive_solver.
Qed.

Lemma route_errors_nil cfg globals r :
  route_errors cfg (Some globals) r = [] ↔ valid_route cfg globals r.
Proof.
  unfold route_errors, valid_route. rewrite !app_nil.
  rewrite check_nil, andb_false_iff, !negb_false_iff, bool_decide_eq_true.
  rewrite !bind_nil. unfold compiles. rewrite bool_decide_eq_true.
  apply Morphisms_Prop.and_iff_morphism; [done|].
  apply Morphisms_Prop.and_iff_morphism.
  { case_bool_decide; [naive_solver|]. rewrite <-validateHostPattern_valid.
    destruct (validateHostPattern _); naive_solver. }
  apply Morphisms_Prop.and_iff_morphism.
  { split.
    - intros H h p Hhp. apply (header_errors_nil (route_Name r) h p), H. by apply elem_of_range.
    - intros H [h p] Hhp. apply header_errors_nil, (H h). by apply elem_of_range. }
  apply Morphisms_Prop.and_iff_morphism.
  { apply forall_proper; intros s. rewrite check_nil, negb_false_iff, bool_decide_eq_true. done. }
  destruct (ResolveMiddlewares _ _) as [rms|e]; [|naive_solver].
  rewrite app_nil, validateResolvedMiddlewares_nil. cbn [default].
  rewrite chain_errors_nil. naive_solver.
Qed.

(** ** Properties *)

Lemma semanticErrors_nil cfg : semanticErrors cfg = [] ↔ valid_config cfg.
Proof.
  unfold semanticErrors, valid_config. rewrite !app_nil, duplicate_routes_nil, redis_errors_nil.
  rewrite bind_nil.
  assert ((∀ x, x ∈ range (gw_AuthProviders cfg) → provider_errors x = []) ↔
    (∀ name ap, gw_AuthProviders cfg !! name = Some ap → valid_provider ap)) as ->.
  { split.
    - intros H name ap Hn. apply (provider_errors_nil name), H. by apply elem_of_range.
    - intros H [name ap] Hn. apply provider_errors_nil, (H name). by apply elem_of_range. }
  assert (NoDup (route_Name <$> gw_Routes cfg) ∧
    (∀ n, n ∈ route_Name <$> gw_Routes cfg → n ∉ (∅ : gset string)) ↔
    NoDup (route_Name <$> gw_Routes cfg)) as -> by set_solver.
  apply Morphisms_Prop.and_iff_morphism; [done|]. apply Morphisms_Prop.and_iff_morphism; [done|].
  apply Morphisms_Prop.and_iff_morphism; [done|].
  destruct (ResolveMiddlewares (gw_Middlewares cfg) _) as [globals|e];
    [|split; [done|by intros (? & ? & _)]].
  rewrite app_nil, validateResolvedMiddlewares_nil, bind_nil.
  setoid_rewrite Forall_forall. setoid_rewrite route_errors_nil. naive_solver.
Qed.

(** C15: the semantic checks are complete and sound: they report nothing exactly
    for the configurations that are valid: route names distinct, secrets free of
    placeholders, every expression compiling, every middleware resolving to a
    well-formed configuration, every effective chain well ordered. *)
Theorem semanticErrors_iff_valid cfg : semanticErrors cfg = [] ↔ valid_config cfg.
Proof. apply semanticErrors_nil. Qed.

Lemma LoadConfig_inl LookupEnv Validate Unmarshal data cfg :
  LoadConfig LookupEnv Validate Unmarshal data = inl cfg →
  valid_config cfg ∧
  ∃ text cfg0, data = Ok text ∧ Validate (substitute LookupEnv text) = [] ∧
    Unmarshal (substitute LookupEnv text) = Ok cfg0 ∧ cfg = applyDefaults cfg0.
Proof.
  unfold LoadConfig. destruct data as [text|e]; [|done].
  destruct (Validate _) eqn:Hv; [|done]. destruct (Unmarshal _) as [cfg0|e] eqn:Hu; [|done].
  destruct (semanticErrors _) eqn:Hs; [|done]. intros [= <-].
  split; [by apply semanticErrors_nil|]. by exists text, cfg0.
Qed.

(** A configuration that loads is valid, and its defaults are in place. *)
Theorem LoadConfig_valid LookupEnv Validate Unmarshal data cfg :
  LoadConfig LookupEnv Validate Unmarshal data = inl cfg →
  valid_config cfg ∧ applyDefaults cfg = cfg ∧
  ∃ text cfg0, data = Ok text ∧ Validate (substitute LookupEnv text) = [] ∧
    Unmarshal (substitute LookupEnv text) = Ok cfg0 ∧ cfg = applyDefaults cfg0.
Proof.
  intros (Hv & text & cfg0 & ? & ? & ? & ->)%LoadConfig_inl.
  split; [done|]. split; [apply applyDefaults_idempotent|]. by exists text, cfg0.
Qed.

End config.

(** *** Substitution *)

Lemma hasUnresolved_cons a s :
  hasUnresolvedEnvVar (String a s) = false →
  placeholder (String a s) = None ∧ hasUnresolvedEnvVar s = false.
Proof. cbn [hasUnresolvedEnvVar]. by destruct (placeholder _). Qed.

(** Substitution replaces each placeholder by the value of its variable, keeps
    it when the variable is not set, copies everything else, and never looks at
    the inserted values again. *)
Theorem substitute_step env pre name rest :
  ContainsByte pre "$" = false → name ≠ "" → ContainsByte name "}" = false →
  substitute env (pre +:+ "${" +:+ name +:+ "}" +:+ rest) =
  pre +:+ default (match_text name) (env name) +:+ substitute env rest.
Proof.
  intros Hpre Hn Hb. unfold substitute. rewrite render_first by done. done.
Qed.

(** Text without placeholders is not changed by substitution. *)
Theorem substitute_literal env s : hasUnresolvedEnvVar s = false → substitute env s = s.
Proof.
  unfold substitute.
  induction s as [|s name rest Hp IH|a s Hp IH] using tokens_ind; [done| |].
  - intros H. destruct s; [done|]. cbn [hasUnresolvedEnvVar] in H. by rewrite Hp in H.
  - intros [_ Hs]%hasUnresolved_cons. rewrite tokens_Text by done. cbn [render]. by rewrite IH.
Qed.

(** ** Witnesses *)

Definition witness_env : string → option string :=
  λ v, if bool_decide (v = "PORT") then Some "${X}" else None.

Lemma substitute_step_witness :
  substitute witness_env ("port: " +:+ "${" +:+ "PORT" +:+ "}" +:+ " ${HOST}") = "port: ${X} ${HOST}".
Proof.
  rewrite (substitute_step witness_env "port: " "PORT" " ${HOST}"); [reflexivity|done..].
Defined.

Lemma substitute_literal_witness : substitute witness_env "cost: $5 {x} ${}" = "cost: $5 {x} ${}".
Proof. apply (substitute_literal witness_env). reflexivity. Defined.

Definition empty_config : GatewayConfig :=
  mkGatewayConfig (mkServerConfig "" 0 0 0 0 0 [] 0) (mkLoggingConfig "")
    (mkRateLimitGlobalConfig "" None) ∅ ∅ [] [].

Definition no_yaml : YamlLibrary := {|
  decode_cors _ := Ok zero_CORS;
  decode_rate_limit _ := Ok zero_RateLimit;
  decode_auth _ := Ok zero_Auth;
  decode_transform _ := Ok zero_Transform;
  yaml_Marshal _ := Ok "";
|}.

Definition no_submatch (re s : string) : option (list string) := None.
Lemma no_submatch_length re s l : no_submatch re s = Some l → length l = length [""].
Proof. done. Defined.

Definition accept_engine : RegexpEngine := {|
  Regexp := string;
  Compile s := Some s;
  FindStringSubmatch := no_submatch;
  SubexpNames _ := [""];
  FindStringSubmatch_length := no_submatch_length;
|}.

Lemma LoadConfig_valid_witness :
  let RE := accept_engine in let RO := sorted_range in let YL := no_yaml in
  ∃ cfg, LoadConfig witness_env (λ _, []) (λ _, Ok empty_config) (Ok "{}") = inl cfg ∧
    valid_config cfg ∧ srv_Port (gw_Server cfg) = 8080.
Proof.
  intros RE RO YL. exists (applyDefaults empty_config). split; [reflexivity|]. split; [|reflexivity].
  apply (LoadConfig_valid witness_env (λ _, []) (λ _, Ok empty_config) (Ok "{}")). reflexivity.
Defined.
