(* ===== verification/Schema.v ===== *)
(** * Validation against the JSON schema (internal/config/schema.go)

    The decoded YAML document is made JSON compatible, the compiled schema is
    cached, and the validator's output becomes a list of messages.  The schema
    library and the reflection that generates the schema are the interface
    [SchemaLibrary]. *)

From S2P Require Import Prelude.
From S2P Require Import GoStrings.
From S2P Require Import ConfigTypes.
From S2P Require Import Resolve.
From S2P Require Import Config.

Local Open Scope Z_scope.

(** ** Dynamic values

    The dynamic types an [any] has in this file.  A map is the list of its
    entries, in some order. *)
Inductive any : Type :=
  | ANil
  | ABool (b : bool)
  | AInt (n : Z)
  | AInt64 (n : Z)
  | AUint64 (n : Z)
  | AFloat64 (f : spec_float)
  | AString (s : string)
  | ANumber (s : string)
  | ASlice (l : list any)
  | AMap (m : list (string * any)).

(** Induction under slices and maps. *)
Definition any_ind_nested (P : any → Prop)
    (Hnil : P ANil) (Hbool : ∀ b, P (ABool b)) (Hint : ∀ n, P (AInt n))
    (Hint64 : ∀ n, P (AInt64 n)) (Huint : ∀ n, P (AUint64 n)) (Hfloat : ∀ f, P (AFloat64 f))
    (Hstring : ∀ s, P (AString s)) (Hnumber : ∀ s, P (ANumber s))
    (Hslice : ∀ l, Forall P l → P (ASlice l))
    (Hmap : ∀ m, Forall (λ kv, P kv.2) m → P (AMap m)) : ∀ v, P v :=
  fix go v :=
    match v with
    | ANil => Hnil | ABool b => Hbool b | AInt n => Hint n | AInt64 n => Hint64 n
    | AUint64 n => Huint n | AFloat64 f => Hfloat f | AString s => Hstring s | ANumber s => Hnumber s
    | ASlice l =>
        Hslice l ((fix all (l : list any) : Forall P l :=
          match l with [] => Forall_nil_2 _ | x :: l' => Forall_cons_2 _ _ _ (go x) (all l') end) l)
    | AMap m =>
        Hmap m ((fix all (m : list (string * any)) : Forall (λ kv, P kv.2) m :=
          match m with
          | [] => Forall_nil_2 _
          | kv :: m' => Forall_cons_2 _ _ _ (go kv.2) (all m')
          end) m)
    end.

(** One unit of the validator's basic output. *)
Record OutputUnit : Type := mkOutputUnit {
  ou_Error : option string;
  ou_InstanceLocation : string;
}.

(** [verr.BasicOutput()]: [Valid] and [Errors]. *)
Record BasicOutput : Type := mkBasicOutput {
  bo_Valid : bool;
  bo_Errors : list OutputUnit;
}.

(** What [sch.Validate] returns: nothing, a [*ValidationError] by its basic
    output, or another error. *)
Inductive validation : Type :=
  | Conforms
  | Violations (basic : option BasicOutput)
  | OtherError (e : error).

(** The schema library, the reflected schema, and the YAML library on dynamic
    values. *)
Class SchemaLibrary : Type := {
  Schema : Type;
  GenerateSchemaJSON : result string;
  UnmarshalJSON : string → result any;
  AddResource : any → result unit;
  CompileSchema : any → result Schema;
  Validate_instance : Schema → any → validation;
  yaml_Marshal_config : GatewayConfig → result string;
  yaml_Unmarshal_any : string → result any;
}.

Section schema.
Context `{SL : SchemaLibrary}.

(** The verb [%v] on a [float64]. *)
Variable format_v : spec_float → string.

(** ** Conversion *)

(** An interface value is nil. *)
Definition is_nil (v : any) : bool := match v with ANil => true | _ => false end.

Fixpoint yamlToJSONCompatible (v : any) : any :=
  match v with
  | AMap m =>
      AMap ((fix entries (m : list (string * any)) : list (string * any) :=
               match m with
               | [] => []
               | (k, v) :: m' =>
                   let converted := yamlToJSONCompatible v in
                   if is_nil converted then entries m' else (k, converted) :: entries m'
               end) m)
  | ASlice l => ASlice (yamlToJSONCompatible <$> l)
  | AInt n | AInt64 n | AUint64 n => ANumber (Itoa n)
  | AFloat64 f => ANumber (format_v f)
  | _ => v
  end.

(** ** The compiled schema *)

(** [compileValidator] without the cache. *)
Definition compile : result Schema :=
  match GenerateSchemaJSON with
  | Err e => Err (Errorf ("generating schema JSON: " +:+ error_text e))
  | Ok schemaJSON =>
      match UnmarshalJSON schemaJSON with
      | Err e => Err (Errorf ("unmarshaling schema JSON: " +:+ error_text e))
      | Ok schemaDoc =>
          match AddResource schemaDoc with
          | Err e => Err (Errorf ("adding schema resource: " +:+ error_text e))
          | Ok _ =>
              match CompileSchema schemaDoc with
              | Err e => Err (Errorf ("compiling schema: " +:+ error_text e))
              | Ok compiled => Ok compiled
              end
          end
      end
  end.

(** The body of [compileValidator], with the mutex held; [cachedCompiled] is the
    state. *)
Definition compileValidator (cachedCompiled : option Schema) : result Schema * option Schema :=
  match cachedCompiled with
  | Some sch => (Ok sch, cachedCompiled)
  | None =>
      match compile with
      | Err e => (Err e, None)
      | Ok compiled => (Ok compiled, Some compiled)
      end
  end.

(** ** Messages *)

Fixpoint unit_messages (units : list OutputUnit) : list string :=
  match units with
  | [] => []
  | u :: units' =>
      match ou_Error u with
      | None => unit_messages units'
      | Some msg =>
          if bool_decide (msg = "") then unit_messages units'
          else let loc := if bool_decide (ou_InstanceLocation u = "") then "/"
                          else ou_InstanceLocation u in
               (loc +:+ ": " +:+ msg) :: unit_messages units'
      end
  end.

Definition extractErrors (basic : option BasicOutput) : list string :=
  match basic with
  | None => []
  | Some b => if bo_Valid b then [] else unit_messages (bo_Errors b)
  end.

(** ** Validation *)

(** What follows the decoding, in both validators. *)
Definition report (v : validation) : list string :=
  match v with
  | Conforms => []
  | OtherError e => ["schema validation error: " +:+ error_text e]
  | Violations basic => extractErrors basic
  end.

Definition ValidateRawConfig (yamlBytes : string) (cache : option Schema)
    : list string * option Schema :=
  let '(sch, cache) := compileValidator cache in
  match sch with
  | Err e => (["schema compilation error: " +:+ error_text e], cache)
  | Ok sch =>
      match yaml_Unmarshal_any yamlBytes with
      | Err e => (["schema validation: YAML parse error: " +:+ error_text e], cache)
      | Ok inst => (report (Validate_instance sch (yamlToJSONCompatible inst)), cache)
      end
  end.

Definition validateAgainstSchema (cfg : GatewayConfig) (cache : option Schema)
    : list string * option Schema :=
  let '(sch, cache) := compileValidator cache in
  match sch with
  | Err e => (["schema compilation error: " +:+ error_text e], cache)
  | Ok sch =>
      match yaml_Marshal_config cfg with
      | Err e => (["schema validation: failed to marshal config to YAML: " +:+ error_text e], cache)
      | Ok yamlBytes =>
          match yaml_Unmarshal_any yamlBytes with
          | Err e => (["schema validation: failed to unmarshal YAML: " +:+ error_text e], cache)
          | Ok inst => (report (Validate_instance sch (yamlToJSONCompatible inst)), cache)
          end
      end
  end.

(** ** Specification *)

(** Values of the types the validator knows, without null entries in maps. *)
Fixpoint json_compatible (v : any) : Prop :=
  match v with
  | AMap m =>
      (fix entries (m : list (string * any)) : Prop :=
         match m with
         | [] => True
         | (_, v) :: m' => v ≠ ANil ∧ json_compatible v ∧ entries m'
         end) m
  | ASlice l =>
      (fix elements (l : list any) : Prop :=
         match l with [] => True | v :: l' => json_compatible v ∧ elements l' end) l
  | AInt _ | AInt64 _ | AUint64 _ | AFloat64 _ => False
  | _ => True
  end.

(** The entry under a key. *)
Definition entry (k : string) (v : any) : option any :=
  match v with
  | AMap m => snd <$> head (filter (λ kv, kv.1 = k) m)
  | _ => None
  end.

(** ** Several validations

    The calls share the cache. *)
Inductive request : Type :=
  | RawText (yamlBytes : string)
  | WholeConfig (cfg : GatewayConfig).

Definition answer (q : request) (cache : option Schema) : list string * option Schema :=
  match q with
  | RawText text => ValidateRawConfig text cache
  | WholeConfig cfg => validateAgainstSchema cfg cache
  end.

Fixpoint answers (qs : list request) (cache : option Schema) : list (list string) :=
  match qs with
  | [] => []
  | q :: qs' => let '(errs, cache') := answer q cache in errs :: answers qs' cache'
  end.

(** ** Lemmas *)

Lemma is_nil_convert v : is_nil (yamlToJSONCompatible v) = is_nil v.
Proof. by destruct v. Qed.

Lemma is_nil_spec v : is_nil v = true ↔ v = ANil.
Proof. by destruct v. Qed.

(** The conversion of the entries of a map. *)
Definition convert_entries (m : list (string * any)) : list (string * any) :=
  (λ kv, (kv.1, yamlToJSONCompatible kv.2)) <$> filter (λ kv, ¬ is_nil kv.2) m.

Lemma convert_map m : yamlToJSONCompatible (AMap m) = AMap (convert_entries m).
Proof.
  cbn. f_equal. unfold convert_entries. induction m as [|[k v] m IH]; [done|].
  rewrite is_nil_convert, IH. destruct (is_nil v) eqn:E.
  - rewrite filter_cons_False; [done|]. cbn. rewrite E. by intros H; apply H.
  - by rewrite filter_cons_True by (cbn; rewrite E; intros []).
Qed.

Lemma json_compatible_slice l : json_compatible (ASlice l) ↔ Forall json_compatible l.
Proof.
  cbn. induction l as [|v l IH]; [split; constructor|]. rewrite Forall_cons. by rewrite <-IH.
Qed.

Lemma json_compatible_map m :
  json_compatible (AMap m) ↔ Forall (λ kv, kv.2 ≠ ANil ∧ json_compatible kv.2) m.
Proof.
  cbn. induction m as [|[k v] m IH]; [split; constructor|]. rewrite Forall_cons, <-IH. cbn. tauto.
Qed.

Lemma convert_compatible v : json_compatible (yamlToJSONCompatible v).
Proof.
  induction v as [| | | | | | | |l IH|m IH] using any_ind_nested; try done.
  - cbn [yamlToJSONCompatible]. apply json_compatible_slice. by apply Forall_fmap.
  - rewrite convert_map. apply json_compatible_map. unfold convert_entries.
    apply Forall_fmap, Forall_forall. intros [k v] [Hn Hin]%list_elem_of_filter.
    rewrite Forall_forall in IH. split; [|by apply (IH (k, v))]. cbn in *.
    intros E. apply Hn. by rewrite <-is_nil_convert, E.
Qed.

Lemma convert_id v : json_compatible v → yamlToJSONCompatible v = v.
Proof.
  induction v as [| | | | | | | |l IH|m IH] using any_ind_nested; try done.
  - rewrite json_compatible_slice. intros Hl. cbn [yamlToJSONCompatible]. f_equal.
    rewrite <-(list_fmap_id l) at 2. apply list_fmap_ext. intros i v Hv.
    apply (Forall_lookup_1 _ _ _ _ IH Hv), (Forall_lookup_1 _ _ _ _ Hl Hv).
  - rewrite json_compatible_map. intros Hm. rewrite convert_map. f_equal. unfold convert_entries.
    induction m as [|[k v] m IHm]; [done|].
    apply Forall_cons in IH as [IHv IH], Hm as [[Hn Hv] Hm].
    rewrite filter_cons_True by (cbn; rewrite Is_true_true; by rewrite is_nil_spec).
    cbn. rewrite IHm by done. cbn in IHv. by rewrite IHv.
Qed.

Lemma compileValidator_spec cache :
  (cache = None ∨ ∃ sch, compile = Ok sch ∧ cache = Some sch) →
  (compileValidator cache).1 = compile ∧
  ((compileValidator cache).2 = None ∨
   ∃ sch, compile = Ok sch ∧ (compileValidator cache).2 = Some sch).
Proof.
  intros [->|(sch & Hs & ->)]; cbn.
  - destruct compile as [sch|e]; cbn; [|by auto]. split; [done|]. right. by exists sch.
  - split; [by rewrite Hs|]. right. by exists sch.
Qed.

Lemma answer_cache q cache :
  (cache = None ∨ ∃ sch, compile = Ok sch ∧ cache = Some sch) →
  (answer q cache).1 = (answer q None).1 ∧
  ((answer q cache).2 = None ∨ ∃ sch, compile = Ok sch ∧ (answer q cache).2 = Some sch).
Proof.
  intros Hc. pose proof (compileValidator_spec cache Hc) as [H1 H2].
  pose proof (compileValidator_spec None ltac:(by left)) as [H0 _].
  unfold answer, ValidateRawConfig, validateAgainstSchema.
  destruct (compileValidator cache) as [r c], (compileValidator None) as [r0 c0]. cbn in *. subst r r0.
  destruct q; destruct compile; repeat case_match; simplify_eq/=; auto.
Qed.

(** ** Properties *)

(** The conversion yields only values that the validator understands: no Go
    number is left, no map has a null entry; it changes nothing on such values
    (so it is idempotent), and a map keeps exactly its entries that are not null,
    converted. *)
Theorem yamlToJSONCompatible_typed v :
  json_compatible (yamlToJSONCompatible v) ∧
  yamlToJSONCompatible (yamlToJSONCompatible v) = yamlToJSONCompatible v ∧
  ∀ m k, v = AMap m →
    entry k (yamlToJSONCompatible v) =
    (v' ← head (filter (λ kv, kv.1 = k) (filter (λ kv, ¬ is_nil kv.2) m));
     Some (yamlToJSONCompatible v'.2)).
Proof.
  split; [apply convert_compatible|]. split; [apply convert_id, convert_compatible|].
  intros m k ->. rewrite convert_map. unfold convert_entries. cbn [entry].
  induction (filter (λ kv, ¬ is_nil kv.2) m) as [|[k' v'] m' IH]; [done|].
  cbn [fmap list_fmap fst snd]. rewrite !filter_cons. cbn. by case_decide.
Qed.

(** The cache is not observable: whatever validations run one after the other
    from the empty cache, each gives the answer it gives alone. *)
Theorem schema_cache_transparent qs :
  answers qs None = (λ q, (answer q None).1) <$> qs.
Proof.
  assert (∀ cache, (cache = None ∨ ∃ sch, compile = Ok sch ∧ cache = Some sch) →
    answers qs cache = (λ q, (answer q None).1) <$> qs) as H; [|by apply H; left].
  induction qs as [|q qs IH]; intros cache Hc; [done|]. cbn [answers fmap list_fmap].
  destruct (answer_cache q cache Hc) as [H1 H2].
  destruct (answer q cache) as [errs cache']. cbn in H1, H2. rewrite H1. by rewrite IH.
Qed.

(** ** [GatewayConfig.Validate] (config.go) *)

Context `{RE : RegexpEngine} `{RO : RangeOrder} `{YL : YamlLibrary}.

(** The error, as the messages of the schema and the semantic diagnostics. *)
Definition Validate (cfg : GatewayConfig) (cache : option Schema)
    : option (list string * list diagnostic) * option Schema :=
  let '(schemaErrs, cache) := validateAgainstSchema cfg cache in
  let semanticErrs := semanticErrors cfg in
  (if bool_decide (schemaErrs = []) && bool_decide (semanticErrs = []) then None
   else Some (schemaErrs, semanticErrs), cache).

(** No error is reported exactly for a valid configuration without messages of
    the schema. *)
Lemma Validate_accepts cfg cache :
  (Validate cfg cache).1 = None ↔ (validateAgainstSchema cfg cache).1 = [] ∧ valid_config cfg.
Proof.
  unfold Validate. rewrite <-semanticErrors_nil.
  destruct (validateAgainstSchema cfg cache) as [errs cache']. cbn.
  repeat case_bool_decide; cbn; naive_solver.
Qed.
End schema.
