(* ===== verification/SchemaGen.v ===== *)
(** * Schema generation (internal/config/schema.go, lines 17-73)

    The options and the type mapper that the gateway hands to the reflection
    library, the generation that happens once, and what the pattern that stands for
    a duration promises about [time.ParseDuration], which reads the value when the
    configuration is decoded.  The reflection itself is the interface
    [SchemaReflector]. *)

From S2P Require Import Prelude.
From S2P Require Import GoStrings.

Local Open Scope Z_scope.

(** ** The reflector *)

(** [reflect.Type]: the two types the mapper knows, and the others. *)
Inductive GoType : Set :=
  | Duration_type
  | Node_type
  | Other_type (name : string).

#[export] Instance GoType_eq_dec : EqDecision GoType.
Proof. solve_decision. Defined.

(** [invopop.Schema], as far as the mapper fills it. *)
Record TypeSchema : Type := mkTypeSchema {
  ts_Type : string;
  ts_Pattern : string;
  ts_Description : string;
  ts_Examples : list string;
}.

(** [invopop.Reflector]: the fields that are set. *)
Record Reflector : Type := mkReflector {
  rf_FieldNameTag : string;
  rf_DoNotReference : bool;
  rf_ExpandedStruct : bool;
  rf_AllowAdditionalProperties : bool;
  rf_RequiredFromJSONSchemaTags : bool;
  rf_Mapper : GoType → option TypeSchema;
}.

Definition duration_schema : TypeSchema := {|
  ts_Type := "string";
  ts_Pattern := "^([0-9]+(ns|us|µs|ms|s|m|h))+$";
  ts_Description := "Go duration string (e.g. 30s, 1m, 2h30m)";
  ts_Examples := ["30s"; "1m"; "500ms"; "2h30m"];
|}.

Definition Mapper (t : GoType) : option TypeSchema :=
  if decide (t = Duration_type) then Some duration_schema
  else if decide (t = Node_type) then
    Some (mkTypeSchema "" "" "Type-specific middleware configuration" [])
  else None.

Definition reflector : Reflector := {|
  rf_FieldNameTag := "yaml";
  rf_DoNotReference := false;
  rf_ExpandedStruct := true;
  rf_AllowAdditionalProperties := false;
  rf_RequiredFromJSONSchemaTags := true;
  rf_Mapper := Mapper;
|}.

(** ** The reflection library *)

(** [Reflect] on the type [GatewayConfig], and [json.MarshalIndent]. *)
Class SchemaReflector : Type := {
  Reflected : Type;
  Reflect : Reflector → Reflected;
  MarshalIndent : Reflected → result string;
}.

Section generate.
Context `{SR : SchemaReflector}.

(** [cachedSchemaOnce.Do]; [cachedSchema] is the state. *)
Definition GenerateSchema (cachedSchema : option Reflected) : Reflected * option Reflected :=
  match cachedSchema with
  | Some s => (s, cachedSchema)
  | None => let s := Reflect reflector in (s, Some s)
  end.

Definition GenerateSchemaJSON (cachedSchema : option Reflected) : result string * option Reflected :=
  let '(s, cachedSchema) := GenerateSchema cachedSchema in (MarshalIndent s, cachedSchema).

(** [n] calls, one after the other. *)
Fixpoint generations (n : nat) (cachedSchema : option Reflected) : list (result string) :=
  match n with
  | O => []
  | S n' => let '(r, c) := GenerateSchemaJSON cachedSchema in r :: generations n' c
  end.

Lemma generations_cached n s : generations n (Some s) = replicate n (MarshalIndent s).
Proof. induction n as [|n IH]; [done|]. cbn. by f_equal. Qed.

Lemma generations_same n : generations n None = replicate n (MarshalIndent (Reflect reflector)).
Proof. destruct n as [|n]; [done|]. cbn. f_equal. apply generations_cached. Qed.
End generate.

(** ** Durations as text ([time.ParseDuration]) *)

Definition is_digit (a : ascii) : bool := ((48 <=? byte_of a) && (byte_of a <=? 57))%N.
Definition digit_value (a : ascii) : Z := Z.of_N (byte_of a) - 48.

(** [leadingInt]; [None] on overflow. *)
Fixpoint leadingInt (x : Z) (s : string) : option (Z * string) :=
  match s with
  | String c s' =>
      if is_digit c then
        if 2 ^ 63 / 10 <? x then None
        else let x := x * 10 + digit_value c in
             if 2 ^ 63 <? x then None else leadingInt x s'
      else Some (x, s)
  | "" => Some (x, "")
  end.

(** [leadingFraction]: the value, the number of its digits, and the rest. *)
Fixpoint leadingFraction (x : Z) (scale : nat) (overflow : bool) (s : string) : Z * nat * string :=
  match s with
  | String c s' =>
      if is_digit c then
        if overflow || ((2 ^ 63 - 1) / 10 <? x) || (2 ^ 63 <? x * 10 + digit_value c)
        then leadingFraction x scale true s'
        else leadingFraction (x * 10 + digit_value c) (S scale) false s'
      else (x, scale, s)
  | "" => (x, scale, "")
  end.

(** The unit: everything up to the next digit or period. *)
Fixpoint span_unit (s : string) : string * string :=
  match s with
  | String c s' =>
      if is_digit c || Ascii.eqb c "." then ("", s)
      else let '(u, rest) := span_unit s' in (String c u, rest)
  | "" => ("", "")
  end.

(** [unitMap], with both spellings of the micro sign. *)
Definition unitMap : gmap string Z :=
  list_to_map [("ns", 1); ("us", 1000); ("µs", 1000); ("μs", 1000); ("ms", Millisecond);
               ("s", Second); ("m", Minute); ("h", 60 * Minute)].

(** The text does not start with a digit. *)
Definition no_digit (s : string) : bool :=
  match s with "" => true | String c _ => negb (is_digit c) end.

Section parse.
(** [uint64(float64(f) * (float64(unit) / scale))] for a fraction of so many
    digits. *)
Variable fraction : Z → nat → Z → Z.

(** A round of the loop, on the sum so far and a text that is not empty. *)
Definition parse_group (d : Z) (s : string) : option (Z * string) :=
  if no_digit s && negb (HasPrefix s ".") then None
  else
    '(v, s1) ← leadingInt 0 s;
    let pre := negb (String.length s1 =? String.length s)%nat in
    let '(f, scale, s2, post) :=
      match s1 with
      | String "." t =>
          let '(f, scale, s2) := leadingFraction 0 0 false t in
          (f, scale, s2, negb (String.length s2 =? String.length t)%nat)
      | _ => (0, 0%nat, s1, false)
      end in
    if negb pre && negb post then None
    else
      let '(u, rest) := span_unit s2 in
      unit ← unitMap !! u;
      if 2 ^ 63 / unit <? v then None
      else
        let v := v * unit + (if 0 <? f then fraction f scale unit else 0) in
        if (2 ^ 63 <? v) || (2 ^ 63 <? d + v) then None else Some (d + v, rest).

(** The loop; every round consumes at least a unit, so the length of the text is
    enough fuel. *)
Fixpoint parse_groups (fuel : nat) (d : Z) (s : string) : option Z :=
  match fuel, s with
  | _, "" => Some d
  | O, _ => None
  | S fuel', _ => '(d', rest) ← parse_group d s; parse_groups fuel' d' rest
  end.

(** [None] for every error. *)
Definition ParseDuration (s : string) : option Z :=
  let '(neg, t) :=
    match s with
    | String "-" t => (true, t)
    | String "+" t => (false, t)
    | _ => (false, s)
    end in
  if bool_decide (t = "0") then Some 0
  else if bool_decide (t = "") then None
  else
    d ← parse_groups (String.length t) 0 t;
    if neg then Some (- d) else if 2 ^ 63 - 1 <? d then None else Some d.
End parse.

(** ** Specification: the texts of the pattern *)

(** A repetition of the group: digits and a unit. *)
Record group : Type := mkGroup {
  g_digits : string;
  g_unit : string;
}.

Definition pattern_units : list string := ["ns"; "us"; "µs"; "ms"; "s"; "m"; "h"].

Definition group_ok (g : group) : Prop :=
  g_digits g ≠ "" ∧ Forall (λ a, is_digit a = true) (String.list_ascii_of_string (g_digits g)) ∧
  g_unit g ∈ pattern_units.

Fixpoint groups_text (gs : list group) : string :=
  match gs with
  | [] => ""
  | g :: gs' => g_digits g +:+ g_unit g +:+ groups_text gs'
  end.

(** [s] matches [duration_schema]'s pattern, read off its syntax. *)
Definition matches_pattern (s : string) (gs : list group) : Prop :=
  gs ≠ [] ∧ Forall group_ok gs ∧ s = groups_text gs.

Fixpoint decimal (x : Z) (s : string) : Z :=
  match s with "" => x | String c s' => decimal (x * 10 + digit_value c) s' end.

(** What the groups add up to, in nanoseconds. *)
Definition group_value (g : group) : Z := decimal 0 (g_digits g) * default 0 (unitMap !! g_unit g).

Definition total (gs : list group) : Z := foldr (λ g z, group_value g + z) 0 gs.

(** ** Lemmas *)

Abbreviation digits s := (Forall (λ a, is_digit a = true) (String.list_ascii_of_string s)).

Lemma digit_value_range a : is_digit a = true → 0 ≤ digit_value a ≤ 9.
Proof. unfold is_digit, digit_value. intros [H1%N.leb_le H2%N.leb_le]%andb_true_iff. lia. Qed.

Lemma decimal_ge s : ∀ x, 0 ≤ x → digits s → x ≤ decimal x s.
Proof.
  induction s as [|c s IH]; intros x Hx Hd; [done|]. cbn in *.
  apply Forall_cons in Hd as [Hc%digit_value_range Hd]. specialize (IH (x * 10 + digit_value c)).
  pose proof (IH ltac:(lia) Hd). lia.
Qed.

Lemma leadingInt_stop x s : no_digit s = true → leadingInt x s = Some (x, s).
Proof. destruct s as [|c s]; [done|]. cbn. by intros ->%negb_true_iff. Qed.

Lemma leadingInt_digits s rest : ∀ x,
  0 ≤ x ≤ 2 ^ 63 → digits s → no_digit rest = true →
  leadingInt x (s +:+ rest) = if decimal x s <=? 2 ^ 63 then Some (decimal x s, rest) else None.
Proof.
  induction s as [|c s IH]; intros x Hx Hd Hr.
  - cbn [String.append decimal]. rewrite leadingInt_stop by done. by rewrite (proj2 (Z.leb_le _ _)) by lia.
  - cbn [String.list_ascii_of_string] in Hd. apply Forall_cons in Hd as [Hc Hd].
    pose proof (digit_value_range c Hc) as Hv.
    pose proof (decimal_ge s (x * 10 + digit_value c) ltac:(lia) Hd) as Hge.
    cbn [String.append leadingInt decimal]. rewrite Hc.
    destruct (2 ^ 63 / 10 <? x) eqn:E1.
    { apply Z.ltb_lt in E1. change (2 ^ 63 / 10) with 922337203685477580 in E1.
      by rewrite (proj2 (Z.leb_gt _ _)) by lia. }
    destruct (2 ^ 63 <? x * 10 + digit_value c) eqn:E2.
    { apply Z.ltb_lt in E2. by rewrite (proj2 (Z.leb_gt _ _)) by lia. }
    apply Z.ltb_ge in E2. apply IH; [lia|done|done].
Qed.

(** The text after a unit of the pattern. *)
Lemma span_unit_pattern u rest :
  u ∈ pattern_units → (rest = "" ∨ no_digit rest = false) → span_unit (u +:+ rest) = (u, rest).
Proof.
  intros Hu Hr. assert (span_unit rest = ("", rest)) as E.
  { destruct Hr as [->|Hr]; [done|]. destruct rest as [|c rest]; [done|]. cbn in *.
    by apply negb_false_iff in Hr as ->. }
  unfold pattern_units in Hu. set_unfold in Hu.
  repeat destruct Hu as [->|Hu]; try done; cbn [String.append span_unit]; rewrite E; by vm_compute.
Qed.

Lemma pattern_unit_value u :
  u ∈ pattern_units → ∃ z, unitMap !! u = Some z ∧ 1 ≤ z ∧ u ≠ "" ∧
    match u with String c _ => (is_digit c || Ascii.eqb c ".") = false | "" => False end.
Proof.
  unfold pattern_units. intros Hu. set_unfold in Hu.
  repeat destruct Hu as [->|Hu]; try done; (eexists; split; [by vm_compute|]; split; [by vm_compute|]; done).
Qed.

Lemma groups_text_head gs : Forall group_ok gs → groups_text gs = "" ∨ no_digit (groups_text gs) = false.
Proof.
  intros Hg. destruct gs as [|[ds u] gs]; [by left|]. right.
  apply Forall_cons in Hg as [(Hne & Hd & _) _]. cbn in *. destruct ds as [|c ds]; [done|].
  cbn in *. apply Forall_cons in Hd as [-> _]. done.
Qed.

Lemma group_value_nonneg g : group_ok g → 0 ≤ group_value g.
Proof.
  intros (_ & Hd & Hu). destruct (pattern_unit_value _ Hu) as (z & Hz & H1 & _). unfold group_value.
  rewrite Hz. pose proof (decimal_ge (g_digits g) 0 (Z.le_refl 0) Hd). cbn. nia.
Qed.

Lemma total_nonneg gs : Forall group_ok gs → 0 ≤ total gs.
Proof.
  induction 1 as [|g gs Hg _ IH]; [done|]. pose proof (group_value_nonneg g Hg).
  change (total (g :: gs)) with (group_value g + total gs). lia.
Qed.

Lemma length_groups g gs :
  group_ok g → (String.length (groups_text gs) < String.length (groups_text (g :: gs)))%nat.
Proof.
  intros (Hne & _ & _). cbn. rewrite !length_append. destruct (g_digits g); [done|]. cbn. lia.
Qed.

Section parsed.
Variable fraction : Z → nat → Z → Z.

(** A round on a group of the pattern. *)
Lemma parse_group_text d g rest :
  group_ok g → (rest = "" ∨ no_digit rest = false) → 0 ≤ d ≤ 2 ^ 63 →
  parse_group fraction d (g_digits g +:+ g_unit g +:+ rest) =
  if d + group_value g <=? 2 ^ 63 then Some (d + group_value g, rest) else None.
Proof.
  intros (Hne & Hdig & Hu) Hrest Hd. destruct (pattern_unit_value _ Hu) as (z & Hz & Hz1 & Hune & Hfirst).
  assert (no_digit (g_unit g +:+ rest) = true) as Hnd.
  { destruct (g_unit g) as [|c u]; [done|]. cbn. by apply orb_false_iff in Hfirst as [-> _]. }
  pose proof (leadingInt_digits (g_digits g) _ 0 ltac:(lia) Hdig Hnd) as Hli.
  pose proof (span_unit_pattern _ rest Hu Hrest) as Hspan.
  unfold group_value. rewrite Hz. cbn [default from_option id].
  pose proof (decimal_ge (g_digits g) 0 (Z.le_refl 0) Hdig) as Hv.
  unfold parse_group. rewrite Hli.
  assert (no_digit (g_digits g +:+ g_unit g +:+ rest) = false) as ->.
  { destruct (g_digits g) as [|c ds]; [done|]. cbn in *. by apply Forall_cons in Hdig as [-> _]. }
  cbn [andb]. set (v := decimal 0 (g_digits g)) in *.
  destruct (v <=? 2 ^ 63) eqn:Ev; cbn [mbind option_bind].
  2: { apply Z.leb_gt in Ev. rewrite (proj2 (Z.leb_gt _ _)); [done|]. nia. }
  assert ((String.length (g_unit g +:+ rest) =? String.length (g_digits g +:+ g_unit g +:+ rest))%nat = false) as ->.
  { apply Nat.eqb_neq. rewrite (length_append (g_digits g)). destruct (g_digits g); [done|]. cbn. lia. }
  assert (match g_unit g +:+ rest with
    | String "." t => let '(f, scale, s2) := leadingFraction 0 0 false t in
        (f, scale, s2, negb (String.length s2 =? String.length t)%nat)
    | _ => (0, 0%nat, g_unit g +:+ rest, false) end = (0, 0%nat, g_unit g +:+ rest, false)) as ->.
  { unfold pattern_units in Hu. set_unfold in Hu. clear -Hu. by repeat destruct Hu as [->|Hu]. }
  cbn [negb andb]. rewrite Hspan, Hz. cbn [mbind option_bind]. change (0 <? 0) with false. rewrite Z.add_0_r.
  destruct (2 ^ 63 / z <? v) eqn:E1.
  { apply Z.ltb_lt in E1. rewrite (proj2 (Z.leb_gt _ _)); [done|].
    pose proof (Z.mul_succ_div_gt (2 ^ 63) z ltac:(lia)). nia. }
  destruct (2 ^ 63 <? v * z) eqn:E2; destruct (2 ^ 63 <? d + v * z) eqn:E3; destruct (d + v * z <=? 2 ^ 63) eqn:E4;
    cbn [orb]; bool_to_prop; done || lia.
Qed.

(** The loop adds the groups up, and fails exactly when they overflow. *)
Lemma parse_groups_text gs : ∀ fuel d,
  (String.length (groups_text gs) ≤ fuel)%nat → Forall group_ok gs → 0 ≤ d ≤ 2 ^ 63 →
  parse_groups fraction fuel d (groups_text gs) =
  if d + total gs <=? 2 ^ 63 then Some (d + total gs) else None.
Proof.
  induction gs as [|g gs IH]; intros fuel d Hf Hok Hd.
  { cbn [groups_text]. change (total []) with 0. rewrite Z.add_0_r.
    rewrite (proj2 (Z.leb_le _ _)) by lia. by destruct fuel. }
  apply Forall_cons in Hok as [Hg Hok]. pose proof (length_groups g gs Hg) as Hlen.
  pose proof (total_nonneg gs Hok) as Htot. pose proof (group_value_nonneg g Hg) as Hval.
  destruct fuel as [|fuel]; [lia|]. change (total (g :: gs)) with (group_value g + total gs).
  assert (parse_groups fraction (S fuel) d (groups_text (g :: gs)) =
    ('(d', rest) ← parse_group fraction d (groups_text (g :: gs)); parse_groups fraction fuel d' rest)) as ->.
  { cbn [parse_groups]. destruct (groups_text (g :: gs)); [cbn in Hlen; lia|done]. }
  change (groups_text (g :: gs)) with (g_digits g +:+ g_unit g +:+ groups_text gs).
  rewrite parse_group_text by (done || by apply groups_text_head).
  destruct (d + group_value g <=? 2 ^ 63) eqn:E; cbn [mbind option_bind].
  - rewrite IH by (done || bool_to_prop; lia). by rewrite Z.add_assoc.
  - bool_to_prop. by rewrite (proj2 (Z.leb_gt _ _)) by lia.
Qed.
End parsed.

Lemma digits_no_period ds : digits ds → ContainsByte ds "." = false.
Proof.
  induction ds as [|c ds IH]; [done|]. cbn. intros [Hc Hd]%Forall_cons. rewrite IH by done.
  apply orb_false_iff. split; [|done]. apply Ascii.eqb_neq. by intros ->.
Qed.

Lemma groups_no_period gs : Forall group_ok gs → ContainsByte (groups_text gs) "." = false.
Proof.
  induction 1 as [|g gs (_ & Hd & Hu) _ IH]; [done|]. cbn [groups_text].
  rewrite !ContainsByte_app, IH, digits_no_period by done. unfold pattern_units in Hu. set_unfold in Hu.
  by repeat destruct Hu as [->|Hu].
Qed.

(** ** Properties *)


(** The schema is generated once and every caller gets the same text. *)
Theorem GenerateSchemaJSON_once `{SR : SchemaReflector} n :
  generations n None = replicate n (MarshalIndent (Reflect reflector)) ∧
  rf_Mapper reflector Duration_type = Some duration_schema.
Proof. split; [apply generations_same | done]. Qed.

(** The pattern describes itself as that of Go's duration strings, but leaves out
    fractions, which [time.ParseDuration] reads. *)
Theorem fractions_outside_the_pattern :
  ParseDuration (λ f scale unit, f * unit / 10 ^ Z.of_nat scale) "1.5s" = Some 1500000000 ∧
  ∀ gs, ¬ matches_pattern "1.5s" gs.
Proof.
  split; [by vm_compute|]. intros gs (_ & Hok & E). pose proof (groups_no_period gs Hok) as H.
  by rewrite <-E in H.
Qed.

(** ** Witnesses *)

