(* ===== verification/Reload.v ===== *)
(** * Comparing configurations (internal/config/config.go, the reload part)

    The warnings about changes that need a restart and the summary of those that
    a reload applies.  A message is kept as data. *)

From S2P Require Import Prelude.
From S2P Require Import GoStrings.
From S2P Require Import ConfigTypes.
From S2P Require Import F64.
From S2P Require Import Resolve.
From S2P Require Import Config.

Local Open Scope Z_scope.

(** ** Equality helpers *)

(** Slices: the lengths first, then element by element. *)
Definition slices_equal {A} (eqb : A → A → bool) (a b : list A) : bool :=
  Nat.eqb (length a) (length b) && forallb (λ xy, eqb xy.1 xy.2) (zip a b).

Definition stringSliceEqual : list string → list string → bool := slices_equal String.eqb.

(** Pointers: both nil, or both set and equal. *)
Definition pointers_equal {A} (eqb : A → A → bool) (a b : option A) : bool :=
  match a, b with
  | None, None => true
  | Some x, Some y => eqb x y
  | _, _ => false
  end.

Definition redisConfigEqual : option RedisConfig → option RedisConfig → bool :=
  pointers_equal (λ a b,
    String.eqb (redis_Addr a) (redis_Addr b) && String.eqb (redis_Password a) (redis_Password b) &&
    (redis_DB a =? redis_DB b) && (redis_PoolSize a =? redis_PoolSize b) &&
    (redis_MinIdleConns a =? redis_MinIdleConns b) && (redis_DialTimeout a =? redis_DialTimeout b) &&
    (redis_ReadTimeout a =? redis_ReadTimeout b) && (redis_WriteTimeout a =? redis_WriteTimeout b) &&
    (redis_MaxRetries a =? redis_MaxRetries b) && (redis_QueryTimeout a =? redis_QueryTimeout b) &&
    Bool.eqb (redis_TLSEnabled a) (redis_TLSEnabled b)).

Definition jwtConfigEqual : option JWTConfig → option JWTConfig → bool :=
  pointers_equal (λ a b,
    String.eqb (jwt_Secret a) (jwt_Secret b) && String.eqb (jwt_PublicKeyFile a) (jwt_PublicKeyFile b) &&
    String.eqb (jwt_Algorithm a) (jwt_Algorithm b) && String.eqb (jwt_Issuer a) (jwt_Issuer b) &&
    String.eqb (jwt_Audience a) (jwt_Audience b)).

Definition apiKeyConfigEqual : option APIKeyConfig → option APIKeyConfig → bool :=
  pointers_equal (λ a b,
    String.eqb (ak_Header a) (ak_Header b) &&
    slices_equal (λ x y, String.eqb (ake_Key x) (ake_Key y) && String.eqb (ake_Name x) (ake_Name y))
      (ak_Keys a) (ak_Keys b)).

Definition oidcConfigEqual : option OIDCConfig → option OIDCConfig → bool :=
  pointers_equal (λ a b,
    String.eqb (oidc_IssuerURL a) (oidc_IssuerURL b) && String.eqb (oidc_JWKSURL a) (oidc_JWKSURL b) &&
    String.eqb (oidc_IntrospectionURL a) (oidc_IntrospectionURL b) &&
    String.eqb (oidc_ClientID a) (oidc_ClientID b) &&
    String.eqb (oidc_ClientSecret a) (oidc_ClientSecret b) &&
    String.eqb (oidc_Audience a) (oidc_Audience b) &&
    Bool.eqb (oidc_SkipIssuerCheck a) (oidc_SkipIssuerCheck b) &&
    slices_equal String.eqb (oidc_AllowedAlgorithms a) (oidc_AllowedAlgorithms b)).

Definition providerEqual (a b : AuthProvider) : bool :=
  String.eqb (ap_Type a) (ap_Type b) && jwtConfigEqual (ap_JWT a) (ap_JWT b) &&
  apiKeyConfigEqual (ap_APIKey a) (ap_APIKey b) && oidcConfigEqual (ap_OIDC a) (ap_OIDC b).

(** Maps: the sizes, then every entry of the first in the second. *)
Definition maps_equal `{RangeOrder} {V} (eqb : V → V → bool) (a b : gmap string V) : bool :=
  Nat.eqb (size a) (size b) &&
  forallb (λ kv, match b !! kv.1 with Some v => eqb kv.2 v | None => false end) (range a).

Section reload.
Context `{RO : RangeOrder} `{YL : YamlLibrary}.

Definition authProvidersEqual : gmap string AuthProvider → gmap string AuthProvider → bool :=
  maps_equal providerEqual.

Definition stringMapEqual : gmap string string → gmap string string → bool := maps_equal String.eqb.

(** ** Changes that need a restart *)

Inductive restart_warning : Type :=
  | StringChanged (field old new : string)
  | NumberChanged (field : string) (old new : Z)
  | DurationChanged (field : string) (old new : Z)
  | SettingsChanged (field : string).

Definition warn (same : bool) (w : restart_warning) : list restart_warning :=
  if same then [] else [w].

Definition warn_string (field old new : string) := warn (String.eqb old new) (StringChanged field old new).
Definition warn_number (field : string) (old new : Z) := warn (old =? new) (NumberChanged field old new).
Definition warn_duration (field : string) (old new : Z) := warn (old =? new) (DurationChanged field old new).

Definition NonReloadableChanges (old new : GatewayConfig) : list restart_warning :=
  let so := gw_Server old in let sn := gw_Server new in
  warn_string "server.host" (srv_Host so) (srv_Host sn) ++
  warn_number "server.port" (srv_Port so) (srv_Port sn) ++
  warn_duration "server.read_timeout" (srv_ReadTimeout so) (srv_ReadTimeout sn) ++
  warn_duration "server.write_timeout" (srv_WriteTimeout so) (srv_WriteTimeout sn) ++
  warn_duration "server.idle_timeout" (srv_IdleTimeout so) (srv_IdleTimeout sn) ++
  warn_duration "server.shutdown_timeout" (srv_ShutdownTimeout so) (srv_ShutdownTimeout sn) ++
  warn (stringSliceEqual (srv_TrustedProxies so) (srv_TrustedProxies sn))
    (SettingsChanged "server.trusted_proxies") ++
  warn_number "server.max_header_bytes" (srv_MaxHeaderBytes so) (srv_MaxHeaderBytes sn) ++
  warn_string "rate_limit.backend" (rlg_Backend (gw_RateLimit old)) (rlg_Backend (gw_RateLimit new)) ++
  warn (redisConfigEqual (rlg_Redis (gw_RateLimit old)) (rlg_Redis (gw_RateLimit new)))
    (SettingsChanged "rate_limit.redis") ++
  warn (authProvidersEqual (gw_AuthProviders old) (gw_AuthProviders new))
    (SettingsChanged "auth_providers") ++
  warn_string "logging.level" (log_Level (gw_Logging old)) (log_Level (gw_Logging new)).

(** ** Changes that a reload applies *)

Definition yamlNodeEqual (a b : YamlNode) : bool :=
  match yaml_Marshal a, yaml_Marshal b with
  | Ok aBytes, Ok bBytes => String.eqb aBytes bBytes
  | _, _ => false
  end.

Definition middlewareDefinitionEqual (a b : MiddlewareDefinition) : bool :=
  String.eqb (md_Type a) (md_Type b) && yamlNodeEqual (md_Config a) (md_Config b).

Definition middlewareRefsEqual : list MiddlewareRef → list MiddlewareRef → bool :=
  slices_equal (λ x y, String.eqb (mr_Ref x) (mr_Ref y) && yamlNodeEqual (mr_Config x) (mr_Config y)).

Definition retryEqual : option RetryConfig → option RetryConfig → bool :=
  pointers_equal (λ a b,
    (retry_MaxRetries a =? retry_MaxRetries b) && (retry_InitialDelay a =? retry_InitialDelay b) &&
    f_eq (retry_Multiplier a) (retry_Multiplier b) &&
    slices_equal Z.eqb (retry_RetryableStatusCodes a) (retry_RetryableStatusCodes b)).

Definition cbEqual : option CircuitBreakerConfig → option CircuitBreakerConfig → bool :=
  pointers_equal (λ a b,
    (cbc_FailureThreshold a =? cbc_FailureThreshold b) &&
    (cbc_SuccessThreshold a =? cbc_SuccessThreshold b) && (cbc_Timeout a =? cbc_Timeout b)).

Definition routeChanged (a b : RouteConfig) : bool :=
  negb (String.eqb (match_PathRegex (route_Match a)) (match_PathRegex (route_Match b))) ||
  negb (stringSliceEqual (match_Methods (route_Match a)) (match_Methods (route_Match b))) ||
  negb (String.eqb (match_Host (route_Match a)) (match_Host (route_Match b))) ||
  negb (stringMapEqual (match_Headers (route_Match a)) (match_Headers (route_Match b))) ||
  negb (String.eqb (up_URL (route_Upstream a)) (up_URL (route_Upstream b))) ||
  negb (String.eqb (up_PathRewrite (route_Upstream a)) (up_PathRewrite (route_Upstream b))) ||
  negb (up_Timeout (route_Upstream a) =? up_Timeout (route_Upstream b)) ||
  negb (retryEqual (route_Retry a) (route_Retry b)) ||
  negb (cbEqual (route_CircuitBreaker a) (route_CircuitBreaker b)) ||
  negb (stringSliceEqual (route_SkipMiddlewares a) (route_SkipMiddlewares b)) ||
  negb (middlewareRefsEqual (route_Middlewares a) (route_Middlewares b)).

Inductive change : Type :=
  | RouteAdded (name : string)
  | RouteModified (name : string)
  | RouteRemoved (name : string)
  | RouteOrderChanged
  | DefinitionAdded (name : string)
  | DefinitionModified (name : string)
  | DefinitionRemoved (name : string)
  | GlobalsChanged.

(** Routes indexed by name; a later route replaces an earlier one. *)
Definition index_routes (rs : list RouteConfig) : gmap string RouteConfig :=
  foldl (λ m r, <[route_Name r := r]> m) ∅ rs.

Definition diff_routes (old new : list RouteConfig) : list change :=
  (nr ← new; match index_routes old !! route_Name nr with
             | None => [RouteAdded (route_Name nr)]
             | Some r => if routeChanged r nr then [RouteModified (route_Name nr)] else []
             end) ++
  (r ← old; match index_routes new !! route_Name r with
            | None => [RouteRemoved (route_Name r)]
            | Some _ => []
            end).

Definition diffMiddlewareDefinitions (old new : gmap string MiddlewareDefinition) : list change :=
  (nd ← range new; match old !! nd.1 with
                   | None => [DefinitionAdded nd.1]
                   | Some od => if middlewareDefinitionEqual od nd.2 then [] else [DefinitionModified nd.1]
                   end) ++
  (od ← range old; match new !! od.1 with None => [DefinitionRemoved od.1] | Some _ => [] end).

Definition DiffSummary (old new : GatewayConfig) : list change :=
  let changes := diff_routes (gw_Routes old) (gw_Routes new) in
  changes ++
  (if Nat.eqb (length (gw_Routes old)) (length (gw_Routes new)) && bool_decide (length changes = 0%nat)
   then if stringSliceEqual (route_Name <$> gw_Routes old) (route_Name <$> gw_Routes new)
        then [] else [RouteOrderChanged]
   else []) ++
  diffMiddlewareDefinitions (gw_MiddlewareDefinitions old) (gw_MiddlewareDefinitions new) ++
  (if middlewareRefsEqual (gw_Middlewares old) (gw_Middlewares new) then [] else [GlobalsChanged]).

(** ** Specification *)

(** YAML nodes that marshal to the same bytes. *)
Definition yaml_same (a b : YamlNode) : Prop :=
  ∃ bytes, yaml_Marshal a = Ok bytes ∧ yaml_Marshal b = Ok bytes.

Definition refs_same : list MiddlewareRef → list MiddlewareRef → Prop :=
  Forall2 (λ x y, mr_Ref x = mr_Ref y ∧ yaml_same (mr_Config x) (mr_Config y)).

(** Retry settings up to the equality of floating-point numbers. *)
Definition retry_same (a b : option RetryConfig) : Prop :=
  match a, b with
  | None, None => True
  | Some x, Some y =>
      retry_MaxRetries x = retry_MaxRetries y ∧ retry_InitialDelay x = retry_InitialDelay y ∧
      f_eq (retry_Multiplier x) (retry_Multiplier y) = true ∧
      retry_RetryableStatusCodes x = retry_RetryableStatusCodes y
  | _, _ => False
  end.

Definition route_same (a b : RouteConfig) : Prop :=
  route_Name a = route_Name b ∧ route_Match a = route_Match b ∧
  route_Upstream a = route_Upstream b ∧ retry_same (route_Retry a) (route_Retry b) ∧
  route_CircuitBreaker a = route_CircuitBreaker b ∧
  route_SkipMiddlewares a = route_SkipMiddlewares b ∧
  refs_same (route_Middlewares a) (route_Middlewares b).

Definition definitions_same (a b : gmap string MiddlewareDefinition) : Prop :=
  map_relation (λ _ x y, md_Type x = md_Type y ∧ yaml_same (md_Config x) (md_Config y))
    (λ _ _, False) (λ _ _, False) a b.

(** ** Lemmas *)

Lemma slices_equal_spec {A} (eqb : A → A → bool) (R : A → A → Prop) a b :
  (∀ x y, eqb x y = true ↔ R x y) → slices_equal eqb a b = true ↔ Forall2 R a b.
Proof.
  intros Heq. unfold slices_equal. revert b.
  induction a as [|x a IH]; intros [|y b]; simpl; try (split; [done|by inversion 1]).
  rewrite Forall2_cons, <-Heq, <-IH, !andb_true_iff. tauto.
Qed.

Lemma Forall2_eq_iff {A} (a b : list A) : Forall2 eq a b ↔ a = b.
Proof.
  split; [|intros ->; by apply Forall_Forall2_diag, Forall_true].
  induction 1; by f_equal.
Qed.

Lemma slices_equal_eq {A} (eqb : A → A → bool) a b :
  (∀ x y, eqb x y = true ↔ x = y) → slices_equal eqb a b = true ↔ a = b.
Proof. intros Heq. by rewrite (slices_equal_spec eqb eq), Forall2_eq_iff. Qed.

Lemma stringSliceEqual_eq a b : stringSliceEqual a b = true ↔ a = b.
Proof. apply slices_equal_eq, String.eqb_eq. Qed.

Lemma pointers_equal_eq {A} (eqb : A → A → bool) a b :
  (∀ x y, eqb x y = true ↔ x = y) → pointers_equal eqb a b = true ↔ a = b.
Proof. intros Heq. destruct a, b; simpl; rewrite ?Heq; naive_solver. Qed.

Lemma maps_equal_eq {V} (eqb : V → V → bool) (a b : gmap string V) :
  (∀ x y, eqb x y = true ↔ x = y) → maps_equal eqb a b = true ↔ a = b.
Proof.
  intros Heq. unfold maps_equal. rewrite andb_true_iff, Nat.eqb_eq, forallb_forall.
  setoid_rewrite <-list_elem_of_In. split.
  - intros [Hs H]. assert (a ⊆ b) as Hsub.
    { apply map_subseteq_spec. intros k v Hk. specialize (H (k, v) (proj2 (elem_of_range a k v) Hk)).
      simpl in H. destruct (b !! k); [|done]. apply Heq in H. by subst. }
    apply map_eq. intros k. destruct (a !! k) as [v|] eqn:Hk; [symmetry; by eapply lookup_weaken|].
    destruct (b !! k) as [v|] eqn:Hb; [|done]. exfalso.
    assert (size a < size b)%nat; [|lia]. apply map_subset_size.
    split; [done|]. intros Hba. rewrite (lookup_weaken _ _ _ _ Hb Hba) in Hk. done.
  - intros ->. split; [done|]. intros [k v] Hk%elem_of_range. simpl. rewrite Hk. by apply Heq.
Qed.

(** Comparing a record field by field is comparing it. *)
Ltac fields_done :=
  split; [intros; destruct_and?; congruence
         |let H := fresh in intros H; injection H; intros; subst; repeat split].

Ltac fields_eq :=
  intros [] []; cbn;
  repeat rewrite andb_true_iff; repeat rewrite String.eqb_eq; repeat rewrite Z.eqb_eq;
  repeat rewrite Bool.eqb_true_iff;
  fields_done.

Lemma redisConfigEqual_eq a b : redisConfigEqual a b = true ↔ a = b.
Proof. apply pointers_equal_eq. fields_eq. Qed.

Lemma jwtConfigEqual_eq a b : jwtConfigEqual a b = true ↔ a = b.
Proof. apply pointers_equal_eq. fields_eq. Qed.

Lemma cbEqual_eq a b : cbEqual a b = true ↔ a = b.
Proof. apply pointers_equal_eq. fields_eq. Qed.

Lemma apiKeyConfigEqual_eq a b : apiKeyConfigEqual a b = true ↔ a = b.
Proof.
  apply pointers_equal_eq. intros [h ks] [h' ks']; cbn.
  rewrite andb_true_iff, String.eqb_eq, slices_equal_eq by fields_eq. naive_solver.
Qed.

Lemma oidcConfigEqual_eq a b : oidcConfigEqual a b = true ↔ a = b.
Proof.
  apply pointers_equal_eq. intros [] []; cbn.
  rewrite !andb_true_iff, !String.eqb_eq, Bool.eqb_true_iff, slices_equal_eq by apply String.eqb_eq.
  fields_done.
Qed.

Lemma authProvidersEqual_eq a b : authProvidersEqual a b = true ↔ a = b.
Proof.
  apply maps_equal_eq. intros [] []; unfold providerEqual; cbn.
  rewrite !andb_true_iff, String.eqb_eq, jwtConfigEqual_eq, apiKeyConfigEqual_eq, oidcConfigEqual_eq.
  naive_solver.
Qed.

Lemma warn_nil b w : warn b w = [] ↔ b = true.
Proof. by destruct b. Qed.

Lemma yamlNodeEqual_spec a b : yamlNodeEqual a b = true ↔ yaml_same a b.
Proof.
  unfold yamlNodeEqual, yaml_same. destruct (yaml_Marshal a), (yaml_Marshal b);
    rewrite ?String.eqb_eq; naive_solver.
Qed.

Lemma middlewareRefsEqual_spec a b : middlewareRefsEqual a b = true ↔ refs_same a b.
Proof.
  apply slices_equal_spec. intros x y. by rewrite andb_true_iff, String.eqb_eq, yamlNodeEqual_spec.
Qed.

Lemma retryEqual_spec a b : retryEqual a b = true ↔ retry_same a b.
Proof.
  unfold retryEqual, retry_same. destruct a as [[]|], b as [[]|]; cbn; try naive_solver.
  rewrite !andb_true_iff, !Z.eqb_eq, slices_equal_eq by apply Z.eqb_eq. naive_solver.
Qed.

Lemma routeChanged_spec a b :
  route_Name a = route_Name b → routeChanged a b = false ↔ route_same a b.
Proof.
  intros Hn. unfold routeChanged, route_same.
  rewrite !orb_false_iff, !negb_false_iff, !String.eqb_eq, Z.eqb_eq, !stringSliceEqual_eq,
    retryEqual_spec, cbEqual_eq, middlewareRefsEqual_spec.
  unfold stringMapEqual. rewrite maps_equal_eq by apply String.eqb_eq.
  destruct a as [? [] [] ????], b as [? [] [] ????]; simpl in *. naive_solver.
Qed.

(** Indexing by name. *)

Lemma foldl_index_lookup rs (m : gmap string RouteConfig) name :
  NoDup (route_Name <$> rs) →
  foldl (λ m r, <[route_Name r := r]> m) m rs !! name =
  match head (filter (λ r, route_Name r = name) rs) with Some r => Some r | None => m !! name end.
Proof.
  revert m. induction rs as [|r rs IH]; intros m Hnd; [done|]. simpl in *.
  apply NoDup_cons in Hnd as [Hr Hnd]. rewrite IH by done. rewrite filter_cons.
  case_decide as Hn; simpl.
  - subst name. destruct (head (filter _ rs)) as [r'|] eqn:E.
    + exfalso. apply Hr. apply head_Some_elem_of, list_elem_of_filter in E as [<- Hin].
      apply list_elem_of_fmap. eauto.
    + apply lookup_insert_eq.
  - by rewrite lookup_insert_ne.
Qed.

Lemma index_routes_spec rs name r :
  NoDup (route_Name <$> rs) → index_routes rs !! name = Some r ↔ r ∈ rs ∧ route_Name r = name.
Proof.
  intros Hnd. unfold index_routes. rewrite foldl_index_lookup by done. rewrite lookup_empty.
  destruct (head (filter (λ r, route_Name r = name) rs)) as [r'|] eqn:E.
  - apply head_Some_elem_of, list_elem_of_filter in E as [Hn Hin]. split.
    + intros. by simplify_eq.
    + intros [Hr Hrn]. f_equal. apply list_elem_of_lookup in Hin as [i Hi], Hr as [j Hj].
      assert (i = j) as ->; [|congruence].
      eapply NoDup_lookup; [exact Hnd|..]; rewrite list_lookup_fmap; [by rewrite Hi|].
      rewrite Hj. simpl. by rewrite Hn, Hrn.
  - split; [done|]. intros [Hr Hn]. exfalso.
    assert (r ∈ filter (λ r, route_Name r = name) rs) as Hin by (by apply list_elem_of_filter).
    destruct (filter _ rs); [by apply not_elem_of_nil in Hin|done].
Qed.

Lemma index_routes_None rs name :
  NoDup (route_Name <$> rs) → index_routes rs !! name = None ↔ name ∉ (route_Name <$> rs).
Proof.
  intros Hnd. rewrite <-not_elem_of_dom. unfold not. apply not_iff_compat.
  rewrite elem_of_dom. split.
  - intros [r Hr]. apply index_routes_spec in Hr as [? <-]; [|done]. by apply list_elem_of_fmap_2.
  - intros (r & -> & Hr)%list_elem_of_fmap. exists r. by apply index_routes_spec.
Qed.

Lemma list_bind_nil {A B} (f : A → list B) l : l ≫= f = [] ↔ ∀ x, x ∈ l → f x = [].
Proof.
  induction l as [|x l IH]; simpl; [split; [set_solver|done]|].
  rewrite app_nil. setoid_rewrite elem_of_cons. naive_solver.
Qed.

Lemma diff_routes_nil old new :
  NoDup (route_Name <$> old) → NoDup (route_Name <$> new) →
  diff_routes old new = [] ↔
  (∀ nr, nr ∈ new → ∃ r, r ∈ old ∧ route_same r nr) ∧
  (∀ r, r ∈ old → route_Name r ∈ (route_Name <$> new)).
Proof.
  intros Ho Hn. unfold diff_routes. rewrite app_nil, !list_bind_nil.
  apply Morphisms_Prop.and_iff_morphism; apply forall_proper; intros r;
    apply Morphisms_Prop.iff_iff_iff_impl_morphism; try done.
  - destruct (index_routes old !! route_Name r) as [r0|] eqn:E.
    + apply index_routes_spec in E as [Hr0 Hname]; [|done].
      destruct (routeChanged r0 r) eqn:Hc.
      * split; [done|]. intros (r1 & Hr1 & Hs). exfalso.
        assert (Some r1 = Some r0) as [= ->].
        { rewrite <-(proj2 (index_routes_spec old (route_Name r) r1 Ho)) by (split; [done|apply Hs]).
          by apply index_routes_spec. }
        apply routeChanged_spec in Hs; [congruence|done].
      * split; [|done]. intros _. exists r0. split; [done|]. by apply routeChanged_spec.
    + apply index_routes_None in E; [|done]. split; [done|].
      intros (r1 & Hr1 & Hs & _). exfalso. apply E. rewrite <-Hs. by apply list_elem_of_fmap_2.
  - destruct (index_routes new !! route_Name r) as [r0|] eqn:E.
    + apply index_routes_spec in E as [Hr0 <-]; [|done]. split; [|done].
      intros _. by apply list_elem_of_fmap_2.
    + apply index_routes_None in E; [|done]. split; [done|]. intros. by destruct E.
Qed.

Lemma definitions_nil old new : diffMiddlewareDefinitions old new = [] ↔ definitions_same old new.
Proof.
  unfold diffMiddlewareDefinitions, definitions_same. rewrite app_nil, !list_bind_nil.
  assert (∀ x y, middlewareDefinitionEqual x y = true ↔
    md_Type x = md_Type y ∧ yaml_same (md_Config x) (md_Config y)) as Heq.
  { intros x y. unfold middlewareDefinitionEqual.
    by rewrite andb_true_iff, String.eqb_eq, yamlNodeEqual_spec. }
  split.
  - intros [Hn Ho] k. destruct (new !! k) as [y|] eqn:Hy.
    + specialize (Hn (k, y) (proj2 (elem_of_range new k y) Hy)). simpl in Hn.
      destruct (old !! k) as [x|]; [|done]. simpl. rewrite <-Heq.
      by destruct (middlewareDefinitionEqual x y).
    + destruct (old !! k) as [x|] eqn:Hx; [|done].
      specialize (Ho (k, x) (proj2 (elem_of_range old k x) Hx)). simpl in Ho. by rewrite Hy in Ho.
  - intros H. split.
    + intros [k y] Hy%elem_of_range. specialize (H k). rewrite Hy in H. simpl.
      destruct (old !! k) as [x|]; [|done]. simpl in H. apply Heq in H. by rewrite H.
    + intros [k x] Hx%elem_of_range. specialize (H k). rewrite Hx in H. simpl.
      by destruct (new !! k).
Qed.

(** Lists with the same names, each new route like some old one. *)
Lemma routes_pointwise old new :
  NoDup (route_Name <$> old) → route_Name <$> old = route_Name <$> new →
  (∀ nr, nr ∈ new → ∃ r, r ∈ old ∧ route_same r nr) → Forall2 route_same old new.
Proof.
  intros Ho Hn H. apply Forall2_lookup. intros i.
  assert (route_Name <$> (old !! i) = route_Name <$> (new !! i)) as Hi
    by (by rewrite <-!list_lookup_fmap, Hn).
  destruct (old !! i) as [r|] eqn:Er, (new !! i) as [nr|] eqn:En; simplify_eq/=; constructor.
  destruct (H nr) as (r' & Hr' & Hs); [by eapply list_elem_of_lookup_2|].
  apply list_elem_of_lookup in Hr' as [j Hj]. assert (i = j) as <-; [|congruence].
  eapply NoDup_lookup; [exact Ho|..]; rewrite list_lookup_fmap; [by rewrite Er|].
  rewrite Hj. simpl. f_equal. rewrite Hi. apply Hs.
Qed.

(** ** Properties *)

(** A reload warns about nothing exactly when the listening server, the
    rate-limit backend, the authentication providers and the log level are the
    same in both configurations. *)
Theorem NonReloadableChanges_none old new :
  NonReloadableChanges old new = [] ↔
  gw_Server old = gw_Server new ∧ gw_RateLimit old = gw_RateLimit new ∧
  gw_AuthProviders old = gw_AuthProviders new ∧ gw_Logging old = gw_Logging new.
Proof.
  unfold NonReloadableChanges, warn_string, warn_number, warn_duration.
  rewrite !app_nil, !warn_nil, !String.eqb_eq, !Z.eqb_eq, stringSliceEqual_eq, redisConfigEqual_eq,
    authProvidersEqual_eq.
  destruct (gw_Server old), (gw_Server new), (gw_RateLimit old), (gw_RateLimit new),
    (gw_Logging old), (gw_Logging new); cbn.
  split; [intros; destruct_and?; subst; done|].
  intros (H1 & H2 & H3 & H4). injection H1; injection H2; injection H4; intros; subst.
  repeat split; done.
Qed.

(** The reload summary is complete: for configurations with distinct route
    names it is empty exactly when the routes agree one by one and in order (up
    to the marshalled form of middleware overrides), the middleware definitions
    agree, and so do the global references. *)
Theorem DiffSummary_none old new :
  NoDup (route_Name <$> gw_Routes old) → NoDup (route_Name <$> gw_Routes new) →
  DiffSummary old new = [] ↔
  Forall2 route_same (gw_Routes old) (gw_Routes new) ∧
  definitions_same (gw_MiddlewareDefinitions old) (gw_MiddlewareDefinitions new) ∧
  refs_same (gw_Middlewares old) (gw_Middlewares new).
Proof.
  intros Ho Hn. unfold DiffSummary. rewrite !app_nil, definitions_nil, <-middlewareRefsEqual_spec.
  set (ro := gw_Routes old) in *. set (rn := gw_Routes new) in *.
  assert (diff_routes ro rn = [] ∧
    (if Nat.eqb (length ro) (length rn) && bool_decide (length (diff_routes ro rn) = 0%nat)
     then if stringSliceEqual (route_Name <$> ro) (route_Name <$> rn) then [] else [RouteOrderChanged]
     else []) = [] ↔ Forall2 route_same ro rn) as Hr.
  { rewrite (diff_routes_nil ro rn Ho Hn). split.
    - intros [[Hnew Hold] Hord]. apply routes_pointwise; [done| |done].
      rewrite (proj2 (diff_routes_nil ro rn Ho Hn)) in Hord by done.
      assert (length ro = length rn) as Hlen.
      { rewrite <-(length_fmap route_Name ro), <-(length_fmap route_Name rn).
        apply Permutation_length, NoDup_Permutation; [done..|]. intros name. split.
        - intros (r & -> & Hr)%list_elem_of_fmap. auto.
        - intros (nr & -> & Hr)%list_elem_of_fmap. destruct (Hnew nr Hr) as (r & Hin & <- & _).
          by apply list_elem_of_fmap_2. }
      rewrite Hlen, Nat.eqb_refl in Hord. simpl in Hord.
      destruct (stringSliceEqual _ _) eqn:E; [|done]. by apply stringSliceEqual_eq.
    - intros HF. split; [split|].
      + intros nr Hnr. destruct (Forall2_elem_r _ _ _ _ HF Hnr) as (r & ? & ?). eauto.
      + intros r Hr. destruct (Forall2_elem_l _ _ _ _ HF Hr) as (nr & ? & -> & _).
        by apply list_elem_of_fmap_2.
      + rewrite (proj2 (stringSliceEqual_eq (route_Name <$> ro) (route_Name <$> rn))); [by case_match|].
        clear -HF. induction HF as [|r nr ro rn [Hs _] HF IH]; [done|].
        rewrite !fmap_cons, Hs. by f_equal. }
  rewrite <-Hr. destruct (middlewareRefsEqual _ _); naive_solver.
Qed.
End reload.

(** ** Witnesses *)

Lemma DiffSummary_none_witness :
  let RO := sorted_range in let YL := no_yaml in
  let cfg := mkGatewayConfig (mkServerConfig "" 8080 0 0 0 0 [] 0) (mkLoggingConfig "info")
    (mkRateLimitGlobalConfig "memory" None) ∅ ∅ []
    [mkRouteConfig "a" (mkMatchConfig "^/a" ["GET"] "" ∅) (mkUpstreamConfig "http://a" "" 1) None None [] []] in
  DiffSummary cfg cfg = [].
Proof.
  intros RO YL cfg. apply (DiffSummary_none cfg cfg); [apply NoDup_singleton..|].
  split; [|split; [|constructor]].
  - constructor; [|constructor]. repeat split; constructor.
  - intros k. reflexivity.
Defined.
