(* ===== verification/RateLimit.v ===== *)
(** * The rate-limit middleware (internal/middleware/ratelimit/ratelimit.go)

    Key extraction and the handler around a limiter.  The limiter is reached by
    the event [LimiterAllow]; package [net] is the interface [NetPackage], the
    encoders and the digest are [Encoders]. *)

From S2P Require Import Prelude.
From S2P Require Import GoStrings.
From S2P Require Import ConfigTypes.
From S2P Require Import Http.
From S2P Require Import Middleware.

Local Open Scope Z_scope.

(** [strconv.FormatFloat(v, 'f', -1, 64)], [json.Marshal] and [sha256.Sum256]. *)
Class Encoders : Type := {
  FormatFloat : spec_float → string;
  json_Marshal : value → option string;
  Sum256 : string → list N;
}.

Section ratelimit.
Context `{NP : NetPackage} `{EN : Encoders}.

(** ** Trusted proxies *)

Definition parse_trusted (cidr : string) : result IPNet :=
  match (if negb (ContainsByte cidr "/")
         then match ParseIP cidr with
              | None => Err (Errorf ("invalid trusted proxy IP: " +:+ Quote cidr))
              | Some ip => Ok (IP_String ip +:+ "/" +:+ Itoa (if To4 ip then 32 else 128))
              end
         else Ok cidr) with
  | Err e => Err e
  | Ok cidr =>
      match ParseCIDR cidr with
      | Ok n => Ok n
      | Err e => Err (Errorf ("invalid trusted proxy CIDR " +:+ Quote cidr +:+ ": " +:+ error_text e))
      end
  end.

Fixpoint ParseTrustedProxies (cidrs : list string) : result (list IPNet) :=
  match cidrs with
  | [] => Ok []
  | cidr :: rest =>
      match parse_trusted cidr with
      | Err e => Err e
      | Ok n => match ParseTrustedProxies rest with Ok ns => Ok (n :: ns) | Err e => Err e end
      end
  end.

Definition isTrusted (ip : IP) (nets : list IPNet) : bool := existsb (λ n, Contains n ip) nets.

(** ** The client address *)

Definition remoteAddrIP (r : Request) : string := default (r_RemoteAddr r) (SplitHostPort (r_RemoteAddr r)).

(** The walk over the entries of the header, the last one first. *)
Fixpoint walk (entries : list string) (nets : list IPNet) : prog (option string) :=
  match entries with
  | [] => mret None
  | e :: rest =>
      let candidate := TrimSpace e in
      match ParseIP candidate with
      | None =>
          emit (Log "WARN" "skipping unparseable IP in X-Forwarded-For" [AStr "entry" candidate]);;
          walk rest nets
      | Some ip => if isTrusted ip nets then walk rest nets else mret (Some candidate)
      end
  end.

Definition extractIP (r : Request) (nets : list IPNet) : prog string :=
  let addr := remoteAddrIP r in
  match nets with
  | [] => mret addr
  | _ =>
      match ParseIP addr with
      | None => mret addr
      | Some remoteIP =>
          if negb (isTrusted remoteIP nets) then mret addr
          else
            xff ← req_header_get "X-Forwarded-For";
            if bool_decide (xff = "") then mret addr
            else o ← walk (reverse (Split xff ",")) nets; mret (default addr o)
      end
  end.

(** ** The key *)

Definition maxKeyLen : Z := 256.

Definition truncateKey (val : string) : string :=
  if Z.of_nat (String.length val) >? maxKeyLen then hex_encode (take 16 (Sum256 val)) else val.

Definition format_bool (b : bool) : string := if b then "true" else "false".

(** The text of a claim; [None] when it cannot be serialised. *)
Definition claim_text (v : value) : option string :=
  match v with
  | VString s => Some s
  | VFloat f => Some (FormatFloat f)
  | VBool b => Some (format_bool b)
  | _ => json_Marshal v
  end.

Definition fallback (msg : string) (attrs : list attr) (r : Request) (nets : list IPNet) : prog string :=
  emit (Log "WARN" msg attrs);; extractIP r nets.

Definition extractKey (r : Request) (keySource : string) (nets : list IPNet) : prog string :=
  if bool_decide (keySource = "") || bool_decide (keySource = "ip") then extractIP r nets
  else if HasPrefix keySource "header:" then
    let name := TrimPrefix keySource "header:" in
    val ← req_header_get name;
    if bool_decide (val = "")
    then fallback "rate limit header key empty, falling back to IP" [AStr "header" name] r nets
    else mret (truncateKey val)
  else if HasPrefix keySource "claim:" then
    let claimName := TrimPrefix keySource "claim:" in
    match ctx_AuthResult (r_ctx r) ≫= ar_Claims with
    | None =>
        fallback "rate limit claim key: no auth result in context, falling back to IP"
          [AStr "claim" claimName] r nets
    | Some claims =>
        match claims !! claimName with
        | None | Some VNull =>
            fallback "rate limit claim key not found or nil, falling back to IP"
              [AStr "claim" claimName] r nets
        | Some v =>
            match claim_text v with
            | Some s => mret (truncateKey s)
            | None =>
                fallback "rate limit claim value not serializable, falling back to IP"
                  [AStr "claim" claimName] r nets
            end
        end
    end
  else extractIP r nets.

(** ** The middleware *)

Definition composite_key (algorithm routeName middlewareName extracted : string) : string :=
  "rl:" +:+ algorithm +:+ ":" +:+ routeName +:+ ":" +:+ middlewareName +:+ ":" +:+ extracted.

(** The body of a 429: the encoder sorts the keys. *)
Definition rejected_body (retryAfter : Z) : string :=
  "{" +:+ json_string "error" +:+ ":" +:+ json_string "rate_limit_exceeded" +:+ "," +:+
  json_string "message" +:+ ":" +:+
  json_string ("Rate limit exceeded. Try again in " +:+ Itoa retryAfter +:+ " seconds.") +:+ "," +:+
  json_string "retry_after" +:+ ":" +:+ Itoa retryAfter +:+ "}" +:+ newline.

Definition limit_headers (requests remaining resetAt : Z) : prog unit :=
  header_set "X-RateLimit-Limit" (Itoa requests);;
  header_set "X-RateLimit-Remaining" (Itoa remaining);;
  header_set "X-RateLimit-Reset" (Itoa (Unix resetAt)).

Definition reject (resetAt : Z) (routeName middlewareName : string) : prog unit :=
  now ← emit Now;
  let retryAfter := Z.max (Unix resetAt - Unix now) 1 in
  header_set "Retry-After" (Itoa retryAfter);;
  header_set "Content-Type" "application/json";;
  write_header 429;;
  write (rejected_body retryAfter);;
  emit (Emit (MInc "gateway_rate_limit_rejected_total" [routeName; middlewareName])).

(** The handler around a limiter; the metrics are optional in the code and the
    environment may ignore them. *)
Definition limited (cfg : RateLimitConfig) (routeName middlewareName : string)
    (trustedProxies : list IPNet) : Middleware :=
  λ next r,
    extracted ← extractKey r (rl_KeySource cfg) trustedProxies;
    let algorithm := rl_Algorithm cfg in
    let compositeKey := composite_key algorithm routeName middlewareName extracted in
    res ← emit (LimiterAllow compositeKey (rl_Requests cfg) (rl_Window cfg) algorithm);
    match res with
    | Err e =>
        emit (Log "ERROR" "rate limiter backend error, failing open"
          [AStr "route" routeName; AStr "middleware" middlewareName;
           AStr "key_source" (rl_KeySource cfg); AStr "error" (error_text e)]);;
        emit (Emit (MInc "gateway_rate_limit_errors_total" [routeName; middlewareName]));;
        next r
    | Ok (allowed, remaining, resetAt) =>
        limit_headers (rl_Requests cfg) remaining resetAt;;
        if (allowed : bool) then next r else reject resetAt routeName middlewareName
    end.

(** Without a configuration the middleware is the identity. *)
Definition NewRateLimitMiddleware (cfg : option RateLimitConfig) (routeName middlewareName : string)
    (trustedProxies : list IPNet) : Middleware :=
  match cfg with
  | None => λ next, next
  | Some cfg => limited cfg routeName middlewareName trustedProxies
  end.

(** ** Specification *)

(** The entry a right-to-left walk stops at. *)
Definition untrusted_entry (nets : list IPNet) (e : string) : bool :=
  match ParseIP (TrimSpace e) with Some ip => negb (isTrusted ip nets) | None => false end.

Definition client_entry (nets : list IPNet) (entries : list string) : option string :=
  TrimSpace <$> last (filter (λ e, untrusted_entry nets e = true) entries).

(** The address that identifies a client, given the first forwarding header line. *)
Definition client_address (r : Request) (nets : list IPNet) (xff : string) : string :=
  match ParseIP (remoteAddrIP r) with
  | Some ip =>
      if isTrusted ip nets then default (remoteAddrIP r) (client_entry nets (Split xff ","))
      else remoteAddrIP r
  | None => remoteAddrIP r
  end.

(** ** Lemmas *)

(** Programs that only read headers and log. *)
Lemma walk_runs {W} (env : environment W) entries nets c h w :
  no_crash env →
  ∃ w', run (conn_req_env env) (walk entries nets) (c, (h, w)) =
    (Returned (TrimSpace <$> head (filter (λ e, untrusted_entry nets e = true) entries)), (c, (h, w'))).
Proof.
  intros Hc. revert w. induction entries as [|e rest IH]; intros w; [by exists w|].
  cbn [walk]. rewrite filter_cons.
  destruct (decide (untrusted_entry nets e = true)) as [Hu|Hu];
    unfold untrusted_entry in Hu; destruct (ParseIP (TrimSpace e)) as [ip|]; try done.
  - apply negb_true_iff in Hu. rewrite Hu. by exists w.
  - apply not_true_iff_false, negb_false_iff in Hu. rewrite Hu. apply IH.
  - rewrite run_mbind, run_emit, conn_req_env_pass by done.
    destruct (Hc _ (Log "WARN" "skipping unparseable IP in X-Forwarded-For" [AStr "entry" (TrimSpace e)]) w)
      as ([] & w' & ->). apply IH.
Qed.

Lemma extractIP_runs {W} (env : environment W) r nets c h w :
  no_crash env → nets ≠ [] → hdr_get h "X-Forwarded-For" ≠ "" →
  ∃ w', run (conn_req_env env) (extractIP r nets) (c, (h, w)) =
    (Returned (client_address r nets (hdr_get h "X-Forwarded-For")), (c, (h, w'))).
Proof.
  intros Hc Hn Hx. unfold extractIP, client_address. destruct nets as [|n nets]; [done|].
  destruct (ParseIP (remoteAddrIP r)) as [ip|]; [|by exists w].
  destruct (isTrusted ip (n :: nets)); cbn [negb]; [|by exists w].
  rewrite run_mbind.
  change (run (conn_req_env env) (req_header_get "X-Forwarded-For") (c, (h, w)))
    with (Returned (hdr_get h "X-Forwarded-For"), (c, (h, w))). cbv beta iota.
  rewrite bool_decide_false by done. rewrite run_mbind.
  destruct (walk_runs env (reverse (Split (hdr_get h "X-Forwarded-For") ",")) (n :: nets) c h w Hc)
    as [w' ->].
  exists w'. simpl. do 3 f_equal. unfold client_entry. f_equal. f_equal.
  by rewrite filter_reverse, head_reverse.
Qed.

(** ** Properties *)


(** Only the first line of the forwarding header is read: a trusted proxy
    that appends a line of its own, instead of extending the one it received,
    leaves the choice of the key to the client. *)
Theorem extractIP_first_line_only {W} (env : environment W) r nets c h w line lines :
  no_crash env → nets ≠ [] → h !! "X-Forwarded-For" = Some (line :: lines) → line ≠ "" →
  ∃ w', run (conn_req_env env) (extractIP r nets) (c, (h, w)) =
    (Returned (client_address r nets line), (c, (h, w'))).
Proof.
  intros Hc Hn Hh Hl.
  assert (hdr_get h "X-Forwarded-For" = line) as Hget.
  { unfold hdr_get, hdr_values. canonicalize. by rewrite Hh. }
  rewrite <-Hget in Hl |- *. by apply extractIP_runs.
Qed.

(** Limiters of different routes, middlewares and algorithms never share a
    key, as long as those names contain no colon. *)
Theorem composite_key_injective a r m e a' r' m' e' :
  ContainsByte a ":" = false → ContainsByte r ":" = false → ContainsByte m ":" = false →
  ContainsByte a' ":" = false → ContainsByte r' ":" = false → ContainsByte m' ":" = false →
  composite_key a r m e = composite_key a' r' m' e' →
  a = a' ∧ r = r' ∧ m = m' ∧ e = e'.
Proof.
  intros Ha Hr Hm Ha' Hr' Hm' He. unfold composite_key in He. apply append_inj_l in He.
  apply split_first in He as [-> He]; [|done..].
  apply split_first in He as [-> He]; [|done..].
  apply split_first in He as [-> He]; done.
Qed.

(** The rate-limit headers of a response. *)
Definition limited_header (h : Header) (requests remaining resetAt : Z) : Header :=
  hdr_set (hdr_set (hdr_set h "X-RateLimit-Limit" (Itoa requests))
    "X-RateLimit-Remaining" (Itoa remaining)) "X-RateLimit-Reset" (Itoa (Unix resetAt)).

(** C38: the middleware asks the limiter once, under the composite key; it fails
    open on a limiter error, passes an allowed request on with the limit headers
    set, and answers a refused one with a 429 whose [Retry-After] is at least one
    second, without calling the next handler. *)
Theorem RateLimit_decides {W} (env : environment W) cfg route mw nets next r c h w key w1 res w2 :
  no_crash env →
  run (conn_req_env env) (extractKey r (rl_KeySource cfg) nets) (c, (h, w)) =
    (Returned key, (c, (h, w1))) →
  env _ (LimiterAllow (composite_key (rl_Algorithm cfg) route mw key) (rl_Requests cfg)
           (rl_Window cfg) (rl_Algorithm cfg)) w1 = (Returned res, w2) →
  let got := run (conn_req_env env) (NewRateLimitMiddleware (Some cfg) route mw nets next r) (c, (h, w)) in
  match res with
  | Err e => ∃ w3, got = run (conn_req_env env) (next r) (c, (h, w3))
  | Ok (true, remaining, resetAt) =>
      got = run (conn_req_env env) (next r)
              (with_hdr c (limited_header (conn_header c) (rl_Requests cfg) remaining resetAt), (h, w2))
  | Ok (false, remaining, resetAt) =>
      conn_sent c = None →
      ∃ retryAfter w3, 1 ≤ retryAfter ∧
        let hd := hdr_set (hdr_set (limited_header (conn_header c) (rl_Requests cfg) remaining resetAt)
          "Retry-After" (Itoa retryAfter)) "Content-Type" "application/json" in
        got = (Returned tt, (mkConn hd (Some (429, hd)) (conn_body c +:+ rejected_body retryAfter)
                               (conn_info c), (h, w3)))
  end.
Proof.
  intros Hc Hk Ha got. subst got. unfold NewRateLimitMiddleware, limited. rewrite run_mbind, Hk.
  rewrite run_mbind, run_emit, conn_req_env_pass, Ha by done.
  destruct res as [[[[] remaining] resetAt]|e].
  - done.
  - intros Hs. destruct c as [hd sent body info]; simpl in Hs; subst sent.
    rewrite run_mbind. unfold reject.
    destruct (Hc Z Now w2) as (now & w3 & Hnow).
    exists (Z.max (Unix resetAt - Unix now) 1).
    destruct (Hc unit (Emit (MInc "gateway_rate_limit_rejected_total" [route; mw])) w3)
      as ([] & w4 & Hem).
    exists w4. split; [lia|]. cbv zeta.
    match goal with |- context [run ?E (limit_headers ?a ?b ?t) ?x] =>
      change (run E (limit_headers a b t) x) with
        (Returned tt, (with_hdr (mkConn hd None body info) (limited_header hd a b t), (h, w2))) end.
    cbv beta iota. rewrite run_mbind, run_emit, conn_req_env_pass, Hnow by done.
    set (ra := Z.max (Unix resetAt - Unix now) 1). clearbody ra.
    unfold conn_req_env. rewrite run_mbind, conn_header_set, run_mbind, conn_header_set, run_mbind.
    rewrite conn_write_header by (done || lia). cbv beta iota. rewrite run_mbind.
    erewrite conn_write by done. cbv beta iota.
    fold (conn_req_env env). by rewrite run_emit, conn_req_env_pass, Hem by done.
  - rewrite run_mbind, run_emit, conn_req_env_pass by done.
    match goal with |- context [env unit ?l w2] => destruct (Hc unit l w2) as ([] & w3 & ->) end.
    rewrite run_mbind, run_emit, conn_req_env_pass by done.
    match goal with |- context [env unit ?l w3] => destruct (Hc unit l w3) as ([] & w4 & ->) end.
    by exists w4.
Qed.
End ratelimit.

(** ** Witnesses *)

Definition text_encoders : Encoders := {|
  FormatFloat _ := "0";
  json_Marshal _ := None;
  Sum256 s := byte_of <$> String.list_ascii_of_string s;
|}.

Definition trusted_ten : list (IPNet (NetPackage := text_net)) := ["10."].

Definition proxied_request : Request :=
  mkRequest "GET" "/" "" "example.com" "10.0.0.1:555" None 0 ctx_background.

Definition forwarded (line : string) (lines : list string) : Header :=
  {["X-Forwarded-For" := line :: lines]}.


Lemma extractIP_first_line_only_witness :
  let NP := text_net in
  ∃ w', run (conn_req_env quiet_env) (extractIP proxied_request trusted_ten)
    (new_conn, (forwarded "6.6.6.6" ["203.0.113.7"], tt)) =
    (Returned "6.6.6.6", (new_conn, (forwarded "6.6.6.6" ["203.0.113.7"], w'))).
Proof.
  intros NP.
  apply (extractIP_first_line_only quiet_env proxied_request trusted_ten new_conn
    (forwarded "6.6.6.6" ["203.0.113.7"]) tt "6.6.6.6" ["203.0.113.7"] quiet_env_no_crash ltac:(done));
    [reflexivity|done].
Defined.

Lemma composite_key_injective_witness :
  composite_key "sliding_window" "users" "rl" "a:b" = composite_key "sliding_window" "users" "rl" "a:b" ∧
  "a:b" = "a:b".
Proof.
  split; [reflexivity|].
  apply (composite_key_injective "sliding_window" "users" "rl" "a:b" "sliding_window" "users" "rl" "a:b");
    reflexivity.
Defined.

(** A limiter that refuses everything. *)
Definition refusing_env : environment unit :=
  λ X e w,
    (Returned (match e in event X return X with
               | LimiterAllow _ _ _ _ => Ok (false, 0, 5 * Second)
               | e' => quiet_answer 0 e'
               end), w).

Lemma refusing_env_no_crash : no_crash refusing_env.
Proof. intros X e w. by eexists _, _. Defined.

Lemma RateLimit_decides_witness :
  let NP := text_net in let EN := text_encoders in
  let mw := NewRateLimitMiddleware (Some (mkRateLimitConfig 10 Minute "ip" "sliding_window")) "users" "rl" [] in
  ∃ c w', run (conn_req_env refusing_env) (mw (λ _, Panic "reached") proxied_request)
    (new_conn, (∅, tt)) = (Returned tt, (c, w')) ∧ (fst <$> conn_sent c) = Some 429.
Proof.
  intros NP EN mw.
  destruct (RateLimit_decides (NP := text_net) (EN := text_encoders) refusing_env (mkRateLimitConfig 10 Minute "ip" "sliding_window") "users" "rl"
    [] (λ _, Panic "reached") proxied_request new_conn ∅ tt "10.0.0.1" tt (Ok (false, 0, 5 * Second)) tt
    refusing_env_no_crash ltac:(reflexivity) ltac:(reflexivity) ltac:(reflexivity)) as (ra & w3 & _ & H).
  eexists _, _. split; [exact H|reflexivity].
Defined.
