(* ===== verification/Auth.v ===== *)
(** * Authentication (internal/middleware/auth)

    The middleware and the three kinds of authenticators.  The JWT library, the
    key parsers and the JSON and URL packages are the interfaces [JwtLibrary],
    [KeyFiles], [IntrospectionDecoder] and [UrlPackage]; the OpenID Connect
    verifier and the HTTP client are reached by events. *)

From S2P Require Import Prelude.
From S2P Require Import GoStrings.
From S2P Require Import ConfigTypes.
From S2P Require Import Http.
From S2P Require Import Middleware.

Local Open Scope Z_scope.

(** ** Interfaces *)

(** Parsing of key files: PEM, PKIX and PKCS1. *)
Class KeyFiles : Type := {
  RSAPublicKey : Type;
  ECDSAPublicKey : Type;
  OtherPublicKey : Type;
  pem_Decode : string → option string;
  ParsePKIXPublicKey : string → result (RSAPublicKey + (ECDSAPublicKey + OtherPublicKey));
  ParsePKCS1PublicKey : string → result RSAPublicKey;
}.

Section keys.
Context `{KF : KeyFiles}.

(** The dynamic types of [JWTAuthenticator.signingKey]. *)
Inductive signing_key : Type :=
  | HMACKey (secret : string)
  | RSAKey (k : RSAPublicKey)
  | ECDSAKey (k : ECDSAPublicKey).
End keys.

(** The dynamic types of a token's signing method. *)
Inductive SigningMethod : Type :=
  | SigningMethodHMAC
  | SigningMethodRSA
  | SigningMethodECDSA
  | SigningMethodOther.

#[export] Instance SigningMethod_eq_dec : EqDecision SigningMethod.
Proof. solve_decision. Defined.

Inductive ParserOption : Type :=
  | WithValidMethods (algs : list string)
  | WithIssuer (issuer : string)
  | WithAudience (audience : string).

(** An error of the library: its message, and what [errors.Is] finds in it. *)
Record jwt_error : Type := mkJwtError {
  je_text : string;
  je_TokenExpired : bool;
  je_TokenSignatureInvalid : bool;
}.

(** Package [jwt].  A parsed token carries its method, the printed [alg] header,
    its claims when they are [MapClaims], and its validity; [jwt_signed s t k]
    says that the text [s] parses to [t] with a signature that verifies under
    [k].  The law is what the documentation of [Parse] promises. *)
Class JwtLibrary `{KeyFiles} : Type := {
  Token : Type;
  tk_Method : Token → SigningMethod;
  tk_alg : Token → string;
  tk_Claims : Token → option (gmap string value);
  tk_Valid : Token → bool;
  tk_ExpiresAt : Token → option Z;
  tk_Issuer : Token → string;
  tk_Audience : Token → list string;
  GetSubject : gmap string value → string;
  jwt_signed : string → Token → signing_key → Prop;
  jwt_Parse : Z → string → (Token → result signing_key) → list ParserOption → Token + jwt_error;
  jwt_Parse_sound now s keyFunc opts t : jwt_Parse now s keyFunc opts = inl t →
    (∃ k, keyFunc t = Ok k ∧ jwt_signed s t k) ∧
    (∀ e, tk_ExpiresAt t = Some e → now < e) ∧
    ∀ o, o ∈ opts → match o with
                    | WithValidMethods algs => tk_alg t ∈ algs
                    | WithIssuer i => tk_Issuer t = i
                    | WithAudience a => a ∈ tk_Audience t
                    end;
}.

(** [introspectionResponse] and the JSON decoder that fills it. *)
Record introspectionResponse : Type := mkIntrospectionResponse {
  ir_Active : bool;
  ir_Sub : string;
  ir_ClientID : string;
}.

Class IntrospectionDecoder : Type := {
  decode_introspection : Body → result introspectionResponse;
}.

(** An [Authenticator]. *)
Definition Authenticator : Type := Request → prog (result AuthResult).

(** ** The middleware *)

Definition WithAuthResult (c : Context) (result : AuthResult) : Context :=
  mkContext (ctx_RequestID c) (ctx_MatchedRoute c) (ctx_hasRouteHolder c) (Some result)
    (ctx_StartTime c).

Definition ResultFromContext (c : Context) : option AuthResult := ctx_AuthResult c.

Definition set_provider (a : AuthResult) (name : string) : AuthResult :=
  mkAuthResult (ar_Subject a) (ar_Claims a) (ar_Name a) name.

Definition error_key (status : Z) : string :=
  if status =? 403 then "forbidden" else if status =? 500 then "internal_error" else "unauthorized".

Definition writeError (status : Z) (message : string) : prog unit :=
  header_set "Content-Type" "application/json";;
  write_header status;;
  write (json_error (error_key status) message).

(** The loop over the providers. *)
Fixpoint try_providers (authenticators : gmap string Authenticator) (providers names : list string)
    (authErrors : list string) (next : Handler) (r : Request) : prog unit :=
  match names with
  | [] =>
      emit (Log "WARN" "all auth providers failed"
              [AStr "providers" (Join providers ","); AStr "errors" (Join authErrors "; ")]);;
      writeError 401 "authentication failed"
  | name :: rest =>
      match authenticators !! name with
      | None =>
          emit (Log "ERROR" "auth provider not found" [AStr "provider" name]);;
          writeError 500 "misconfigured auth provider"
      | Some authn =>
          res ← authn r;
          match res with
          | Err err =>
              try_providers authenticators providers rest
                (authErrors ++ [name +:+ ": " +:+ error_text err]) next r
          | Ok result => next (WithContext r (WithAuthResult (r_ctx r) (set_provider result name)))
          end
      end
  end.

Definition NewAuthMiddleware (authenticators : gmap string Authenticator) (providers : list string)
    : Middleware :=
  λ next r,
    match providers with
    | [] =>
        emit (Log "ERROR" "auth middleware has no providers configured, rejecting request" []);;
        writeError 500 "misconfigured auth middleware"
    | _ =>
        if bool_decide (providers = ["none"]) then next r
        else try_providers authenticators providers providers [] next r
    end.

(** ** API keys *)

Record APIKeyAuthenticator : Type := mkAPIKeyAuthenticator {
  aka_header : string;
  aka_keys : list APIKeyEntry;
}.

Definition NewAPIKeyAuthenticator (cfg : APIKeyConfig) : APIKeyAuthenticator :=
  mkAPIKeyAuthenticator
    (if bool_decide (ak_Header cfg = "") then "X-API-Key" else ak_Header cfg) (ak_Keys cfg).

Fixpoint find_key (key : string) (keys : list APIKeyEntry) : result AuthResult :=
  match keys with
  | [] => Err (Errorf "invalid API key")
  | entry :: rest =>
      if String.eqb key (ake_Key entry)
      then Ok (mkAuthResult (ake_Name entry) (Some {["key_name" := VString (ake_Name entry)]})
                 (ake_Name entry) "")
      else find_key key rest
  end.

Definition APIKey_Authenticate (a : APIKeyAuthenticator) : Authenticator :=
  λ r,
    key ← req_header_get (aka_header a);
    mret (if bool_decide (key = "") then Err (Errorf "missing API key") else find_key key (aka_keys a)).

(** ** Bearer tokens *)

(** The token of an [Authorization] header: [strings.SplitN(h, " ", 2)]. *)
Definition bearer_token : prog (result string) :=
  authHeader ← req_header_get "Authorization";
  mret (if bool_decide (authHeader = "") then Err (Errorf "missing authorization header")
        else match Cut authHeader " " with
             | Some (scheme, tokenString) =>
                 if EqualFold scheme "Bearer" then Ok tokenString else Err (Errorf "malformed token")
             | None => Err (Errorf "malformed token")
             end).

(** ** JSON web tokens *)

Section jwt.
Context `{JL : JwtLibrary}.

Record JWTAuthenticator : Type := mkJWTAuthenticator {
  ja_signingKey : signing_key;
  ja_algorithm : string;
  ja_issuer : string;
  ja_audience : string;
}.

Definition loadRSAPublicKey (path : string) : prog (result RSAPublicKey) :=
  data ← emit (ReadFile path);
  mret (match data with
        | Err e => Err (Errorf ("reading public key file: " +:+ error_text e))
        | Ok data =>
            match pem_Decode data with
            | None => Err (Errorf "failed to decode PEM block")
            | Some block =>
                match ParsePKIXPublicKey block with
                | Err e =>
                    match ParsePKCS1PublicKey block with
                    | Err _ => Err (Errorf ("parsing public key: " +:+ error_text e))
                    | Ok k => Ok k
                    end
                | Ok (inl k) => Ok k
                | Ok (inr _) => Err (Errorf "public key is not RSA")
                end
            end
        end).

Definition loadECDSAPublicKey (path : string) : prog (result ECDSAPublicKey) :=
  data ← emit (ReadFile path);
  mret (match data with
        | Err e => Err (Errorf ("reading public key file: " +:+ error_text e))
        | Ok data =>
            match pem_Decode data with
            | None => Err (Errorf "failed to decode PEM block")
            | Some block =>
                match ParsePKIXPublicKey block with
                | Err e => Err (Errorf ("parsing public key: " +:+ error_text e))
                | Ok (inr (inl k)) => Ok k
                | Ok _ => Err (Errorf "public key is not ECDSA")
                end
            end
        end).

Definition jwt_prefixed {A} (r : result A) (f : A → signing_key) : result signing_key :=
  match r with Ok k => Ok (f k) | Err e => Err (Errorf ("jwt: " +:+ error_text e)) end.

Definition load_signing_key (cfg : JWTConfig) : prog (result signing_key) :=
  if HasPrefix (jwt_Algorithm cfg) "HS" then
    mret (if bool_decide (jwt_Secret cfg = "") then Err (Errorf "jwt: HMAC algorithm requires secret")
          else Ok (HMACKey (jwt_Secret cfg)))
  else if HasPrefix (jwt_Algorithm cfg) "RS" then
    k ← loadRSAPublicKey (jwt_PublicKeyFile cfg); mret (jwt_prefixed k RSAKey)
  else if HasPrefix (jwt_Algorithm cfg) "ES" then
    k ← loadECDSAPublicKey (jwt_PublicKeyFile cfg); mret (jwt_prefixed k ECDSAKey)
  else mret (Err (Errorf ("jwt: unsupported algorithm " +:+ Quote (jwt_Algorithm cfg)))).

Definition NewJWTAuthenticator (cfg : JWTConfig) : prog (result JWTAuthenticator) :=
  k ← load_signing_key cfg;
  mret (match k with
        | Ok key => Ok (mkJWTAuthenticator key (jwt_Algorithm cfg) (jwt_Issuer cfg) (jwt_Audience cfg))
        | Err e => Err e
        end).

(** [keyFunc]: the key, if the token's method is of its family. *)
Definition key_family (k : signing_key) : SigningMethod :=
  match k with
  | HMACKey _ => SigningMethodHMAC
  | RSAKey _ => SigningMethodRSA
  | ECDSAKey _ => SigningMethodECDSA
  end.

Definition keyFunc (a : JWTAuthenticator) (t : Token) : result signing_key :=
  if bool_decide (tk_Method t = key_family (ja_signingKey a)) then Ok (ja_signingKey a)
  else Err (Errorf ("unexpected signing method: " +:+ tk_alg t)).

Definition classifyJWTError (e : jwt_error) : error :=
  if je_TokenExpired e then Errorf "token expired"
  else if je_TokenSignatureInvalid e then Errorf "invalid token signature"
  else Errorf ("invalid token: " +:+ je_text e).

Definition parserOpts (a : JWTAuthenticator) : list ParserOption :=
  [WithValidMethods [ja_algorithm a]] ++
  (if bool_decide (ja_issuer a = "") then [] else [WithIssuer (ja_issuer a)]) ++
  (if bool_decide (ja_audience a = "") then [] else [WithAudience (ja_audience a)]).

Definition jwt_result (p : Token + jwt_error) : result AuthResult :=
  match p with
  | inr e => Err (classifyJWTError e)
  | inl token =>
      match tk_Claims token with
      | Some claims =>
          if tk_Valid token then Ok (mkAuthResult (GetSubject claims) (Some claims) "" "")
          else Err (Errorf "invalid token")
      | None => Err (Errorf "invalid token")
      end
  end.

Definition JWT_Authenticate (a : JWTAuthenticator) : Authenticator :=
  λ r,
    tok ← bearer_token;
    match tok with
    | Err e => mret (Err e)
    | Ok tokenString =>
        now ← emit Now;
        mret (jwt_result (jwt_Parse now tokenString (keyFunc a) (parserOpts a)))
    end.
End jwt.

(** ** OpenID Connect *)

(** [url.QueryEscape]. *)
Definition unreserved (a : ascii) : bool :=
  let n := byte_of a in
  (N.leb 48 n && N.leb n 57) || (N.leb 65 n && N.leb n 90) || (N.leb 97 n && N.leb n 122)
  || bool_decide (a ∈ ["-"; "_"; "."; "~"]%char).

Definition upper_hex (n : N) : ascii := upper_byte (hex_digit n).

Fixpoint QueryEscape (s : string) : string :=
  match s with
  | "" => ""
  | String a s' =>
      (if unreserved a then String a ""
       else if Ascii.eqb a " " then "+"
       else String "%" (String (upper_hex (byte_of a / 16)) (String (upper_hex (byte_of a `mod` 16)) "")))
      +:+ QueryEscape s'
  end.

Section oidc.
Context `{UP : UrlPackage} `{ID : IntrospectionDecoder}.

(** The HTTP client and the cancel function carry no data of their own. *)
Record OIDCAuthenticator : Type := mkOIDCAuthenticator {
  oa_verifier : option IDTokenVerifier;
  oa_audience : string;
  oa_introspectionURL : string;
  oa_clientID : string;
  oa_clientSecret : string;
}.

Definition buildOIDCConfig (cfg : OIDCConfig) : OidcVerifierConfig :=
  mkOidcVerifierConfig (oidc_Audience cfg) (oidc_AllowedAlgorithms cfg)
    (bool_decide (oidc_Audience cfg = ""))
    (oidc_SkipIssuerCheck cfg || bool_decide (oidc_IssuerURL cfg = "")).

Definition oidc_with (cfg : OIDCConfig) (v : option IDTokenVerifier) : OIDCAuthenticator :=
  mkOIDCAuthenticator v (oidc_Audience cfg) (oidc_IntrospectionURL cfg) (oidc_ClientID cfg)
    (oidc_ClientSecret cfg).

Definition skip_issuer (c : OidcVerifierConfig) : OidcVerifierConfig :=
  mkOidcVerifierConfig (oc_ClientID c) (oc_SupportedSigningAlgs c) (oc_SkipClientIDCheck c) true.

Definition NewOIDCAuthenticator (cfg : OIDCConfig) : prog (result OIDCAuthenticator) :=
  let oidcCfg := buildOIDCConfig cfg in
  if negb (bool_decide (oidc_IntrospectionURL cfg = "")) && bool_decide (oidc_JWKSURL cfg = "") &&
     bool_decide (oidc_IssuerURL cfg = "")
  then mret (Ok (oidc_with cfg None))
  else if negb (bool_decide (oidc_IssuerURL cfg = "")) then
    provider ← emit (OidcDiscover (oidc_IssuerURL cfg));
    mret (match provider with
          | Err e => Err (Errorf ("oidc discovery: " +:+ error_text e))
          | Ok _ => Ok (oidc_with cfg (Some (mkIDTokenVerifier (oidc_IssuerURL cfg)
                      (DiscoveredKeys (oidc_IssuerURL cfg)) oidcCfg)))
          end)
  else if negb (bool_decide (oidc_JWKSURL cfg = "")) then
    mret (Ok (oidc_with cfg (Some (mkIDTokenVerifier (oidc_IssuerURL cfg)
      (RemoteKeySet (oidc_JWKSURL cfg)) (skip_issuer oidcCfg)))))
  else mret (Err (Errorf "oidc: either jwks_url, issuer_url, or introspection_url is required")).

(** [classifyVerifyError] on an error that is not [TokenExpiredError]. *)
Definition classify_message (errMsg : string) : error :=
  if ContainsStr errMsg "issuer" || ContainsStr errMsg "different provider"
  then Errorf "invalid token issuer"
  else if ContainsStr errMsg "audience" then Errorf "invalid token audience"
  else Errorf ("invalid token: " +:+ errMsg).

(** A missing verifier is a nil pointer. *)
Definition verifyToken (a : OIDCAuthenticator) (rawToken : string) : prog (result AuthResult) :=
  match oa_verifier a with
  | None => Panic "runtime error: invalid memory address or nil pointer dereference"
  | Some v =>
      idToken ← emit (OidcVerify v rawToken);
      mret (match idToken with
            | TokenExpiredError => Err (Errorf "token expired")
            | VerifyError msg => Err (classify_message msg)
            | Verified t =>
                match it_Claims t with
                | Err e => Err (Errorf ("extracting claims: " +:+ error_text e))
                | Ok claims => Ok (mkAuthResult (it_Subject t) claims "" "")
                end
            end)
  end.

Definition introspection_request (a : OIDCAuthenticator) (tokenString : string) : HttpRequest :=
  mkHttpRequest "POST" (oa_introspectionURL a)
    (hdr_set ∅ "Content-Type" "application/x-www-form-urlencoded")
    (if negb (bool_decide (oa_clientID a = "")) && negb (bool_decide (oa_clientSecret a = ""))
     then Some (oa_clientID a, oa_clientSecret a) else None)
    ("token=" +:+ QueryEscape tokenString).

Definition introspection_claims (ir : introspectionResponse) : gmap string value :=
  <["sub" := VString (ir_Sub ir)]> (<["client_id" := VString (ir_ClientID ir)]>
    {["active" := VBool true]}).

Definition introspection_result (resp : HttpResponse) : result AuthResult :=
  if negb (hp_Status resp =? 200)
  then Err (Errorf ("introspection endpoint returned status " +:+ Itoa (hp_Status resp)))
  else match decode_introspection (hp_Body resp) with
       | Err e => Err (Errorf ("introspection decode: " +:+ error_text e))
       | Ok ir =>
           if negb (ir_Active ir) then Err (Errorf "token is not active")
           else Ok (mkAuthResult (ir_Sub ir) (Some (introspection_claims ir)) "" "")
       end.

Definition introspect (a : OIDCAuthenticator) (tokenString : string) : prog (result AuthResult) :=
  match url_Parse (oa_introspectionURL a) with
  | Err e => mret (Err (Errorf ("introspection request: " +:+ error_text e)))
  | Ok _ =>
      resp ← emit (HttpDo (introspection_request a tokenString));
      mret (match resp with
            | Err e => Err (Errorf ("introspection request failed: " +:+ error_text e))
            | Ok resp => introspection_result resp
            end)
  end.

Definition OIDC_Authenticate (a : OIDCAuthenticator) : Authenticator :=
  λ r,
    tok ← bearer_token;
    match tok with
    | Err e => mret (Err e)
    | Ok tokenString =>
        if negb (bool_decide (oa_introspectionURL a = "")) then introspect a tokenString
        else verifyToken a tokenString
    end.
End oidc.

(** ** Construction *)

Section authenticators.
Context `{JL : JwtLibrary} `{UP : UrlPackage} `{ID : IntrospectionDecoder}.

Definition as_authenticator {A} (r : result A) (f : A → Authenticator) : result Authenticator :=
  match r with Ok a => Ok (f a) | Err e => Err e end.

Definition requires (ty what : string) : result Authenticator :=
  Err (Errorf ("auth provider type " +:+ Quote ty +:+ " requires " +:+ what +:+ " config")).

Definition NewAuthenticator (provider : AuthProvider) : prog (result Authenticator) :=
  let ty := ap_Type provider in
  if bool_decide (ty = "jwt") then
    match ap_JWT provider with
    | None => mret (requires ty "jwt")
    | Some cfg => a ← NewJWTAuthenticator cfg; mret (as_authenticator a JWT_Authenticate)
    end
  else if bool_decide (ty = "apikey") then
    match ap_APIKey provider with
    | None => mret (requires ty "api_key")
    | Some cfg => mret (Ok (APIKey_Authenticate (NewAPIKeyAuthenticator cfg)))
    end
  else if bool_decide (ty = "oidc") then
    match ap_OIDC provider with
    | None => mret (requires ty "oidc")
    | Some cfg => a ← NewOIDCAuthenticator cfg; mret (as_authenticator a OIDC_Authenticate)
    end
  else mret (Err (Errorf ("unknown auth provider type: " +:+ Quote ty))).
End authenticators.

(** ** Specification *)

(** An authenticator may read the request, the clock, files and the network, but
    changes neither the response nor the request's headers. *)
Definition reads_only (a : Authenticator) : Prop := ∀ r, all_events read_event (a r).

Section gate.
Context {W : Type} (env : environment W).
Variable authenticators : gmap string Authenticator.
Variables (r : Request) (c : Conn) (h : Header).

(** The named authenticator gives this answer, in world [w]. *)
Definition answers (name : string) (w : W) (res : result AuthResult) (w' : W) : Prop :=
  ∃ a, authenticators !! name = Some a ∧
       run (conn_req_env env) (a r) (c, (h, w)) = (Returned res, (c, (h, w'))).

(** Every one of the providers, asked in order, refuses. *)
Inductive refused : list string → W → W → Prop :=
  | refused_nil w : refused [] w w
  | refused_cons name rest e w w1 w2 :
      answers name w (Err e) w1 → refused rest w1 w2 → refused (name :: rest) w w2.

Definition accepted_context (name : string) (res : AuthResult) : Context :=
  WithAuthResult (r_ctx r) (set_provider res name).

(** What the middleware may do with a request. *)
Inductive gate_verdict (providers : list string) (w : W) : Type :=
  | PassUnchecked
  | PassAs (name : string) (res : AuthResult) (w' : W)
  | Reject (status : Z) (message : string)
  | Crash.

Definition rejected (status : Z) (message : string) : Conn :=
  let hd := hdr_set (conn_header c) "Content-Type" "application/json" in
  mkConn hd (Some (status, hd)) (conn_body c +:+ json_error (error_key status) message) (conn_info c).

(** The verdict that the answers of the providers justify. *)
Definition justified (providers : list string) (w : W) (v : gate_verdict providers w) : Prop :=
  match v with
  | PassUnchecked _ _ => providers = ["none"]
  | PassAs _ _ name res w' =>
      ∃ before after w0, providers = before ++ name :: after ∧
        refused before w w0 ∧ answers name w0 (Ok res) w'
  | Reject _ _ status message =>
      (status = 401 ∧ message = "authentication failed" ∧ ∃ w', refused providers w w') ∨
      (status = 500 ∧ message = "misconfigured auth provider" ∧
         ∃ before name after w0, providers = before ++ name :: after ∧
           refused before w w0 ∧ authenticators !! name = None) ∨
      (status = 500 ∧ message = "misconfigured auth middleware" ∧ providers = [])
  | Crash _ _ =>
      ∃ before name after w0 a v st, providers = before ++ name :: after ∧
        refused before w w0 ∧ authenticators !! name = Some a ∧
        run (conn_req_env env) (a r) (c, (h, w0)) = (Panicked v, st)
  end.

(** What a verdict means for the next handler and the connection. *)
Definition effect_of (providers : list string) (w : W) (v : gate_verdict providers w)
    (got : Handler → outcome unit * (Conn * (Header * W))) : Prop :=
  match v with
  | PassUnchecked _ _ => ∀ next, got next = run (conn_req_env env) (next r) (c, (h, w))
  | PassAs _ _ name res w' =>
      ∀ next, got next = run (conn_req_env env) (next (WithContext r (accepted_context name res)))
                           (c, (h, w'))
  | Reject _ _ status message =>
      ∃ w', ∀ next, got next = (Returned tt, (rejected status message, (h, w')))
  | Crash _ _ => ∃ p st, ∀ next, got next = (Panicked p, st)
  end.
End gate.

(** ** Lemmas *)

Lemma run_writeError {W} (env : environment W) status message c h w :
  conn_sent c = None → 200 ≤ status ≤ 999 → bodyAllowedForStatus status = true →
  run (conn_req_env env) (writeError status message) (c, (h, w)) =
  (Returned tt, (rejected c status message, (h, w))).
Proof. intros. unfold conn_req_env. by apply (conn_writeJSON (req_env env)). Qed.

Section gate_lemmas.
Context {W : Type} (env : environment W).
Variable authenticators : gmap string Authenticator.
Variables (r : Request) (c : Conn) (h : Header).

Hypothesis Hcrash : no_crash env.
Hypothesis Hsent : conn_sent c = None.
Hypothesis Hreads : ∀ name a, authenticators !! name = Some a → reads_only a.

Abbreviation refused' := (refused env authenticators r c h).
Abbreviation answers' := (answers env authenticators r c h).

Lemma refused_app before rest w w0 w1 :
  refused' before w w0 → refused' rest w0 w1 → refused' (before ++ rest) w w1.
Proof. induction 1; cbn; [done|]. intros. econstructor; eauto. Qed.

(** The loop, after some providers have refused. *)
Lemma try_providers_verdict providers names : ∀ before errs w w0,
  providers = before ++ names → refused' before w w0 →
  ∃ v, justified env authenticators r c h providers w v ∧
    effect_of env r c h providers w v
      (λ next, run (conn_req_env env) (try_providers authenticators providers names errs next r)
                 (c, (h, w0))).
Proof using Hcrash Hreads Hsent.
  induction names as [|name names IH]; intros before errs w w0 Hp Href; cbn [try_providers].
  - rewrite app_nil_r in Hp. subst. exists (Reject _ _ 401 "authentication failed"). split.
    { left. eauto. }
    unfold effect_of. cbv beta. destruct (Hcrash _ (Log "WARN" "all auth providers failed"
      [AStr "providers" (Join before ","); AStr "errors" (Join errs "; ")]) w0) as ([] & w1 & Hl).
    exists w1. intros next. rewrite run_mbind, run_emit, conn_req_env_pass, Hl by done.
    by apply run_writeError.
  - destruct (authenticators !! name) as [a|] eqn:Ea.
    + destruct (reads_only_run env (a r) c h w0 (Hreads _ _ Ea r)) as ([[res|e]|p] & w1 & Hrun).
      * exists (PassAs _ _ name res w1). split.
        { exists before, names, w0. split; [done|]. split; [done|]. by exists a. }
        intros next. by rewrite run_mbind, Hrun.
      * destruct (IH (before ++ [name]) (errs ++ [name +:+ ": " +:+ error_text e])%list w w1)
          as (v & Hj & He).
        { by rewrite Hp, <-app_assoc. }
        { eapply refused_app; [done|]. econstructor; [by exists a | constructor]. }
        exists v. split; [done|]. destruct v; unfold effect_of in *; cbv beta in *;
          [ intros next | intros next | destruct He as [w' He]; exists w'; intros next
          | destruct He as (p & st & He); exists p, st; intros next ];
          rewrite <-(He next), run_mbind, Hrun; done.
      * exists (Crash _ _). split; [by exists before, name, names, w0, a, p, (c, (h, w1))|].
        exists p, (c, (h, w1)). intros next. by rewrite run_mbind, Hrun.
    + exists (Reject _ _ 500 "misconfigured auth provider"). split.
      { right. left. do 2 (split; [done|]). by exists before, name, names, w0. }
      destruct (Hcrash _ (Log "ERROR" "auth provider not found" [AStr "provider" name]) w0)
        as ([] & w1 & Hl).
      exists w1. intros next. rewrite run_mbind, run_emit, conn_req_env_pass, Hl by done.
      by apply run_writeError.
Qed.
End gate_lemmas.

(** C12: the authentication middleware lets a request through, with the identity
    attached under the provider's name, exactly on the answer of the first
    provider in its list that accepts, all before it having refused; otherwise the
    next handler is not called at all: 401 when every provider refused, 500 for a
    provider that is not registered or an empty list.  Only the list [none] passes
    requests unchecked. *)
Theorem NewAuthMiddleware_gate {W} (env : environment W) authenticators providers r c h w :
  no_crash env → conn_sent c = None →
  (∀ name a, authenticators !! name = Some a → reads_only a) →
  ∃ v, justified env authenticators r c h providers w v ∧
    effect_of env r c h providers w v
      (λ next, run (conn_req_env env) (NewAuthMiddleware authenticators providers next r) (c, (h, w))).
Proof.
  intros Hc Hs Hr. unfold NewAuthMiddleware. destruct providers as [|p ps].
  - exists (Reject _ _ 500 "misconfigured auth middleware"). split; [right; right; done|].
    destruct (Hc _ (Log "ERROR" "auth middleware has no providers configured, rejecting request" []) w)
      as ([] & w1 & Hl).
    exists w1. intros next. rewrite run_mbind, run_emit, conn_req_env_pass, Hl by done.
    by apply run_writeError.
  - case_bool_decide as E.
    + exists (PassUnchecked _ _). split; [exact E | done].
    + destruct (try_providers_verdict env authenticators r c h Hc Hs Hr (p :: ps) (p :: ps) [] [] w w)
        as (v & Hj & He); [done | constructor | by exists v].
Qed.

Lemma find_key_spec key keys :
  match find_key key keys with
  | Ok id => ∃ before e after, keys = before ++ e :: after ∧ ake_Key e = key ∧
      (∀ e', e' ∈ before → ake_Key e' ≠ key) ∧
      id = mkAuthResult (ake_Name e) (Some {["key_name" := VString (ake_Name e)]}) (ake_Name e) ""
  | Err m => m = Errorf "invalid API key" ∧ ∀ e, e ∈ keys → ake_Key e ≠ key
  end.
Proof.
  induction keys as [|e keys IH]; cbn.
  { split; [done|]. by intros e ?%not_elem_of_nil. }
  destruct (String.eqb_spec key (ake_Key e)) as [->|Hne].
  - exists [], e, keys. do 2 (split; [done|]). split; [by intros e' ?%not_elem_of_nil | done].
  - destruct (find_key key keys).
    + destruct IH as (before & e' & after & -> & Hk & Hb & ->).
      exists (e :: before), e', after. do 2 (split; [done|]). split; [|done].
      intros e'' [->|?]%elem_of_cons; [by intros <- | auto].
    + destruct IH as [-> Hk]. split; [done|].
      intros e' [->|?]%elem_of_cons; [by intros <- | auto].
Qed.

(** The bearer token of a request. *)
Definition bearer (h : Header) (tok : string) : Prop :=
  ∃ scheme, hdr_get h "Authorization" = scheme +:+ String " " tok ∧
    ContainsByte scheme " " = false ∧ EqualFold scheme "Bearer" = true.

Lemma bearer_token_run {W} (env : environment W) c h w :
  ∃ t, run (conn_req_env env) bearer_token (c, (h, w)) = (Returned t, (c, (h, w))) ∧
    match t with Ok tok => bearer h tok | Err _ => ∀ tok, ¬ bearer h tok end.
Proof.
  unfold bearer_token, req_header_get.
  eexists. split; [reflexivity|]. cbv beta. cbn [fst].
  case_bool_decide as E.
  { intros tok (s & Hs & _). rewrite E in Hs. by destruct s. }
  destruct (Cut (hdr_get h "Authorization") " ") as [[s tok]|] eqn:Ec.
  - apply Cut_Some in Ec as [Heq Hns]. destruct (EqualFold s "Bearer") eqn:Ef; [by exists s|].
    intros tok' (s' & Heq' & Hns' & Hf). rewrite Heq in Heq'.
    apply split_first in Heq' as [-> ->]; congruence.
  - apply Cut_None in Ec. intros tok (s & Heq & _). rewrite Heq, ContainsByte_app in Ec.
    apply orb_false_iff in Ec as [_ Ec]. done.
Qed.

(** An API key authenticator accepts exactly the requests whose header holds a
    configured, non-empty key, as the first entry with that key; it changes
    nothing. *)
Theorem APIKey_Authenticate_exact {W} (env : environment W) cfg r c h w :
  let a := NewAPIKeyAuthenticator cfg in
  let key := hdr_get h (aka_header a) in
  ∃ res, run (conn_req_env env) (APIKey_Authenticate a r) (c, (h, w)) = (Returned res, (c, (h, w))) ∧
  match res with
  | Ok id => key ≠ "" ∧ ∃ before e after, ak_Keys cfg = before ++ e :: after ∧ ake_Key e = key ∧
      (∀ e', e' ∈ before → ake_Key e' ≠ key) ∧
      id = mkAuthResult (ake_Name e) (Some {["key_name" := VString (ake_Name e)]}) (ake_Name e) ""
  | Err m => key = "" ∨ ∀ e, e ∈ ak_Keys cfg → ake_Key e ≠ key
  end.
Proof.
  cbv zeta. eexists. split; [reflexivity|]. cbv beta.
  case_bool_decide as E; [by left|].
  pose proof (find_key_spec (hdr_get h (aka_header (NewAPIKeyAuthenticator cfg))) (ak_Keys cfg)) as H.
  change (aka_keys (NewAPIKeyAuthenticator cfg)) with (ak_Keys cfg).
  destruct (find_key _ _); [by split | right; apply H].
Qed.

Section jwt_theorems.
Context `{JL : JwtLibrary}.

(** The key that goes with an algorithm of the configuration. *)
Definition key_for (cfg : JWTConfig) (k : signing_key) : Prop :=
  match k with
  | HMACKey s => HasPrefix (jwt_Algorithm cfg) "HS" = true ∧ s = jwt_Secret cfg ∧ s ≠ ""
  | RSAKey _ => HasPrefix (jwt_Algorithm cfg) "RS" = true
  | ECDSAKey _ => HasPrefix (jwt_Algorithm cfg) "ES" = true
  end.

Lemma load_signing_key_for {W} (env : environment W) cfg w k w' :
  run env (load_signing_key cfg) w = (Returned (Ok k), w') → key_for cfg k.
Proof.
  unfold load_signing_key.
  destruct (HasPrefix (jwt_Algorithm cfg) "HS") eqn:E1.
  { case_bool_decide; cbn; intros; simplify_eq. done. }
  destruct (HasPrefix (jwt_Algorithm cfg) "RS") eqn:E2.
  { rewrite run_mbind. destruct (run env (loadRSAPublicKey _) w) as [[[k'|e]|p] w1]; cbn; intros;
      simplify_eq. done. }
  destruct (HasPrefix (jwt_Algorithm cfg) "ES") eqn:E3.
  { rewrite run_mbind. destruct (run env (loadECDSAPublicKey _) w) as [[[k'|e]|p] w1]; cbn; intros;
      simplify_eq. done. }
  cbn. intros. simplify_eq.
Qed.

Lemma NewJWTAuthenticator_spec {W} (env : environment W) cfg w a w' :
  run env (NewJWTAuthenticator cfg) w = (Returned (Ok a), w') →
  key_for cfg (ja_signingKey a) ∧ ja_algorithm a = jwt_Algorithm cfg ∧
  ja_issuer a = jwt_Issuer cfg ∧ ja_audience a = jwt_Audience cfg.
Proof.
  unfold NewJWTAuthenticator. rewrite run_mbind.
  destruct (run env (load_signing_key cfg) w) as [[[k|e]|p] w1] eqn:E; cbn; intros; simplify_eq.
  split; [|done]. by eapply load_signing_key_for.
Qed.

(** C27: no algorithm confusion: a token that a JWT provider accepts is the bearer
    token of the request, names the configured algorithm, and carries a signature
    of that algorithm's family verified under the configured key of the same
    family (an RSA key never serves as an HMAC secret); it has not expired and has
    the configured issuer and audience; subject and claims are the token's. *)
Theorem JWT_accepts_only_signed {W} (env : environment W) cfg a r c h w id st w0 w1 :
  run env (NewJWTAuthenticator cfg) w0 = (Returned (Ok a), w1) →
  run (conn_req_env env) (JWT_Authenticate a r) (c, (h, w)) = (Returned (Ok id), st) →
  ∃ tok now t claims,
    bearer h tok ∧ (env _ Now w).1 = Returned now ∧
    jwt_signed tok t (ja_signingKey a) ∧ key_for cfg (ja_signingKey a) ∧
    tk_Method t = key_family (ja_signingKey a) ∧ tk_alg t = jwt_Algorithm cfg ∧
    (∀ e, tk_ExpiresAt t = Some e → now < e) ∧
    (jwt_Issuer cfg ≠ "" → tk_Issuer t = jwt_Issuer cfg) ∧
    (jwt_Audience cfg ≠ "" → jwt_Audience cfg ∈ tk_Audience t) ∧
    tk_Claims t = Some claims ∧ id = mkAuthResult (GetSubject claims) (Some claims) "" "".
Proof.
  intros (Hk & Halg & Hiss & Haud)%NewJWTAuthenticator_spec Hrun.
  unfold JWT_Authenticate in Hrun. rewrite run_mbind in Hrun.
  destruct (bearer_token_run env c h w) as ([tok|e] & Hb & Hspec); rewrite Hb in Hrun;
    [|by cbn in Hrun; simplify_eq].
  rewrite run_mbind, run_emit, conn_req_env_pass in Hrun by done.
  destruct (env _ Now w) as [[now|p] w2]; [|done]. cbn [run mret prog_ret] in Hrun.
  injection Hrun as Hrun _. unfold jwt_result in Hrun.
  destruct (jwt_Parse now tok (keyFunc a) (parserOpts a)) as [t|e] eqn:Ep; [|done].
  destruct (tk_Claims t) as [claims|] eqn:Ecl; [|done]. destruct (tk_Valid t); [|done].
  apply jwt_Parse_sound in Ep as ((k & Hkf & Hsig) & Hexp & Hopts).
  unfold keyFunc in Hkf. case_bool_decide as Hm; [|done]. simplify_eq.
  exists tok, now, t, claims. do 5 (split; [done|]).
  split; [|split; [done|split; [|split; [|done]]]].
  - specialize (Hopts (WithValidMethods [ja_algorithm a])). rewrite <-Halg.
    apply list_elem_of_singleton, Hopts. set_solver.
  - rewrite <-Hiss. intros Hne. apply (Hopts (WithIssuer (ja_issuer a))).
    unfold parserOpts. rewrite bool_decide_false by done. set_solver.
  - rewrite <-Haud. intros Hne. apply (Hopts (WithAudience (ja_audience a))).
    unfold parserOpts. rewrite (bool_decide_false (ja_audience a = "")) by done. set_solver.
Qed.
End jwt_theorems.

Section oidc_theorems.
Context `{UP : UrlPackage} `{ID : IntrospectionDecoder}.

(** What the verifier of a configuration checks. *)
Definition verifier_for (cfg : OIDCConfig) (v : IDTokenVerifier) : Prop :=
  (oc_SkipIssuerCheck (iv_config v) = true → oidc_SkipIssuerCheck cfg = true ∨ oidc_IssuerURL cfg = "") ∧
  (oc_SkipClientIDCheck (iv_config v) = true → oidc_Audience cfg = "") ∧
  oc_ClientID (iv_config v) = oidc_Audience cfg ∧
  oc_SupportedSigningAlgs (iv_config v) = oidc_AllowedAlgorithms cfg ∧
  iv_issuer v = oidc_IssuerURL cfg ∧
  iv_keySet v = (if bool_decide (oidc_IssuerURL cfg = "") then RemoteKeySet (oidc_JWKSURL cfg)
                 else DiscoveredKeys (oidc_IssuerURL cfg)).

Lemma NewOIDCAuthenticator_spec {W} (env : environment W) cfg w a w' :
  run env (NewOIDCAuthenticator cfg) w = (Returned (Ok a), w') →
  oa_introspectionURL a = oidc_IntrospectionURL cfg ∧
  match oa_verifier a with
  | None => oidc_IntrospectionURL cfg ≠ ""
  | Some v => verifier_for cfg v
  end.
Proof.
  unfold NewOIDCAuthenticator, verifier_for.
  case_bool_decide as E1; case_bool_decide as E2; case_bool_decide as E3; cbn [andb negb];
    rewrite ?run_mbind, ?run_emit;
    repeat match goal with |- context [env _ ?e w] => destruct (env _ e w) as [[[|]|] ?] end;
    cbn; intros; simplify_eq/=; rewrite ?E3; cbn;
    repeat split; intros; bool_to_prop; try done;
    try match goal with H : _ || _ = true |- _ => apply orb_true_iff in H as [?|?]; bool_to_prop end;
    naive_solver.
Qed.

(** C28: an OpenID Connect provider that was built never runs into its missing
    verifier, and accepts only a bearer token that either the introspection
    endpoint called active, in a 200 answer to exactly that token, when such an
    endpoint is configured, or else the verifier verified, which checks issuer and
    audience unless the configuration says not to or names none. *)
Theorem OIDC_accepts_only_verified {W} (env : environment W) cfg a r c h w w0 w1 :
  no_crash env →
  run env (NewOIDCAuthenticator cfg) w0 = (Returned (Ok a), w1) →
  ∃ res w', run (conn_req_env env) (OIDC_Authenticate a r) (c, (h, w)) = (Returned res, (c, (h, w'))) ∧
  ∀ id, res = Ok id → ∃ tok, bearer h tok ∧
    if bool_decide (oidc_IntrospectionURL cfg = "")
    then ∃ v t, oa_verifier a = Some v ∧ verifier_for cfg v ∧
         (env _ (OidcVerify v tok) w).1 = Returned (Verified t) ∧
         ∃ claims, it_Claims t = Ok claims ∧ id = mkAuthResult (it_Subject t) claims "" ""
    else ∃ resp ir, (env _ (HttpDo (introspection_request a tok)) w).1 = Returned (Ok resp) ∧
         hp_Status resp = 200 ∧ decode_introspection (hp_Body resp) = Ok ir ∧ ir_Active ir = true ∧
         id = mkAuthResult (ir_Sub ir) (Some (introspection_claims ir)) "" "".
Proof.
  intros Hc [Hurl Hv]%NewOIDCAuthenticator_spec. unfold OIDC_Authenticate. rewrite run_mbind.
  destruct (bearer_token_run env c h w) as ([tok|e] & -> & Hb); [|by exists (Err e), w].
  rewrite Hurl. case_bool_decide as E; cbn [negb].
  - unfold verifyToken. destruct (oa_verifier a) as [v|] eqn:Ev; [|done].
    destruct (Hc _ (OidcVerify v tok) w) as (x & w' & Hx).
    rewrite run_mbind, run_emit, conn_req_env_pass, Hx by done.
    eexists _, w'. split; [reflexivity|]. intros id. destruct x as [t| |msg]; [|done..].
    destruct (it_Claims t) as [claims|] eqn:Ecl; [|done]. intros [= <-].
    exists tok. split; [done|]. exists v, t. do 2 (split; [done|]). rewrite Hx. split; [done|].
    by exists claims.
  - unfold introspect. destruct (url_Parse _) as [u|e]; [|by exists (Err (Errorf ("introspection request: " +:+ error_text e))), w].
    destruct (Hc _ (HttpDo (introspection_request a tok)) w) as (x & w' & Hx).
    rewrite run_mbind, run_emit, conn_req_env_pass, Hx by done.
    eexists _, w'. split; [reflexivity|]. intros id. destruct x as [resp|e]; [|done].
    unfold introspection_result. destruct (hp_Status resp =? 200) eqn:Es; cbn [negb]; [|done].
    destruct (decode_introspection _) as [ir|] eqn:Ed; [|done].
    destruct (ir_Active ir) eqn:Ea; cbn [negb]; [|done]. intros [= <-].
    exists tok. split; [done|]. exists resp, ir. rewrite Hx. bool_to_prop. done.
Qed.
End oidc_theorems.

(** Every authenticator the gateway builds only reads. *)
Section reads.
Context `{JL : JwtLibrary} `{UP : UrlPackage} `{ID : IntrospectionDecoder}.

Lemma bearer_token_reads : all_events read_event bearer_token.
Proof. split; [done|]. done. Qed.

Lemma NewAuthenticator_reads_only {W} (env : environment W) p w a w' :
  run env (NewAuthenticator p) w = (Returned (Ok a), w') → reads_only a.
Proof.
  unfold NewAuthenticator.
  assert (Hj : ∀ j, reads_only (JWT_Authenticate j)).
  { intros j r. apply all_events_bind; [apply bearer_token_reads|]. by intros [tok|e]. }
  assert (Hk : ∀ k, reads_only (APIKey_Authenticate k)) by done.
  assert (Ho : ∀ o, reads_only (OIDC_Authenticate o)).
  { intros o r. apply all_events_bind; [apply bearer_token_reads|]. intros [tok|e]; [|done].
    case_bool_decide; cbn [negb]; [unfold verifyToken | unfold introspect]; case_match; done. }
  repeat case_bool_decide; repeat case_match; rewrite ?run_mbind;
    try match goal with
    | |- context [run env (NewJWTAuthenticator ?j) w] =>
        destruct (run env (NewJWTAuthenticator j) w) as [[[|]|] ?]
    | |- context [run env (NewOIDCAuthenticator ?o) w] =>
        destruct (run env (NewOIDCAuthenticator o) w) as [[[|]|] ?]
    end;
    cbn [as_authenticator run mret prog_ret]; intros Heq; try discriminate Heq;
    injection Heq as <- <-;
    first [apply Hj | apply Ho | apply Hk].
Qed.
End reads.

(** ** Witnesses *)

Definition no_key_files : KeyFiles := {|
  RSAPublicKey := string;
  ECDSAPublicKey := unit;
  OtherPublicKey := unit;
  pem_Decode s := Some s;
  ParsePKIXPublicKey s := Ok (inl s);
  ParsePKCS1PublicKey s := Ok s;
|}.

(** Tokens of the form [alg.subject.secret]. *)
Definition toy_option (alg : string) (o : ParserOption) : bool :=
  match o with
  | WithValidMethods algs => bool_decide (alg ∈ algs)
  | WithIssuer i => bool_decide (i = "")
  | WithAudience a => bool_decide (a = "everyone")
  end.

Definition toy_Parse (s : string) (keyFunc : string * string → result (signing_key (KF := no_key_files)))
    (opts : list ParserOption) : string * string + jwt_error :=
  match Split s "." with
  | [alg; sub; sec] =>
      match keyFunc (alg, sub) with
      | Ok (HMACKey sec') =>
          if String.eqb sec sec' && forallb (toy_option alg) opts then inl (alg, sub)
          else inr (mkJwtError "signature is invalid" false true)
      | _ => inr (mkJwtError "token is unverifiable" false false)
      end
  | _ => inr (mkJwtError "token is malformed" false false)
  end.

#[refine] Definition toy_jwt : JwtLibrary (H := no_key_files) := {|
  Token := string * string;
  tk_Method t := if HasPrefix t.1 "HS" then SigningMethodHMAC else SigningMethodOther;
  tk_alg t := t.1;
  tk_Claims t := Some {["sub" := VString t.2]};
  tk_Valid t := true;
  tk_ExpiresAt t := None;
  tk_Issuer t := "";
  tk_Audience t := ["everyone"];
  GetSubject claims := match claims !! "sub" with Some (VString s) => s | _ => "" end;
  jwt_signed s t k := ∃ sec, Split s "." = [t.1; t.2; sec] ∧ k = HMACKey (KF := no_key_files) sec;
  jwt_Parse now s keyFunc opts := toy_Parse s keyFunc opts;
|}.
Proof.
  intros now s keyFunc opts t. unfold toy_Parse.
  destruct (Split s ".") as [|alg [|sub [|sec []]]]; try done.
  destruct (keyFunc (alg, sub)) as [[sec'| |]|] eqn:Ek; try done.
  destruct (String.eqb_spec sec sec') as [<-|]; [|done]. cbn [andb].
  destruct (forallb _ opts) eqn:Ef; [|done]. intros [= <-].
  split; [by exists (HMACKey sec); split; [|exists sec]|]. split; [done|].
  intros o Ho. apply list_elem_of_In, (proj1 (forallb_forall _ _) Ef) in Ho.
  destruct o; cbn in Ho; apply bool_decide_eq_true in Ho; subst; set_solver.
Defined.

Definition witness_jwt_config : JWTConfig := mkJWTConfig "s3cret" "" "HS256" "" "everyone".

Lemma JWT_accepts_only_signed_witness :
  let KF := no_key_files in let JL := toy_jwt in
  let a := mkJWTAuthenticator (HMACKey "s3cret") "HS256" "" "everyone" in
  let h : Header := {["Authorization" := ["bearer HS256.alice.s3cret"]]} in
  let id := mkAuthResult "alice" (Some {["sub" := VString "alice"]}) "" "" in
  run (conn_req_env quiet_env) (JWT_Authenticate a witness_request) (new_conn, (h, tt)) =
    (Returned (Ok id), (new_conn, (h, tt))) ∧
  ∃ tok t, bearer h tok ∧ jwt_signed tok t (ja_signingKey a) ∧ tk_alg t = "HS256".
Proof.
  intros KF JL a h id.
  assert (E : run (conn_req_env quiet_env) (JWT_Authenticate a witness_request) (new_conn, (h, tt)) =
    (Returned (Ok id), (new_conn, (h, tt)))) by reflexivity.
  split; [exact E|].
  destruct (JWT_accepts_only_signed (JL := toy_jwt) quiet_env witness_jwt_config a witness_request
    new_conn h tt id (new_conn, (h, tt)) tt tt (eq_refl _) E)
    as (tok & now & t & claims & Hb & _ & Hs & _ & _ & Ha & _).
  exists tok, t. done.
Defined.

Definition witness_keys : APIKeyConfig := mkAPIKeyConfig "" [mkAPIKeyEntry "k1" "ci"].

Definition witness_authenticators : gmap string Authenticator :=
  {["keys" := APIKey_Authenticate (NewAPIKeyAuthenticator witness_keys)]}.

Lemma NewAuthMiddleware_gate_witness :
  ∃ v, justified quiet_env witness_authenticators witness_request new_conn
         {["X-Api-Key" := ["k1"]]} ["keys"] tt v ∧
    effect_of quiet_env witness_request new_conn {["X-Api-Key" := ["k1"]]} ["keys"] tt v
      (λ next, run (conn_req_env quiet_env)
        (NewAuthMiddleware witness_authenticators ["keys"] next witness_request)
        (new_conn, ({["X-Api-Key" := ["k1"]]}, tt))).
Proof.
  apply (NewAuthMiddleware_gate quiet_env witness_authenticators ["keys"] witness_request new_conn);
    [apply quiet_env_no_crash | reflexivity|].
  intros name a Ha r. unfold witness_authenticators in Ha.
  apply lookup_singleton_Some in Ha as [_ <-]. by split.
Defined.

#[local] Existing Instance text_url.
#[local] Instance toy_decoder : IntrospectionDecoder := {|
  decode_introspection b :=
    if bool_decide (body_data b = "active") then Ok (mkIntrospectionResponse true "bob" "app")
    else Err (Errorf "unexpected token");
|}.

(** An endpoint that calls every token active. *)
Definition active_env : environment unit :=
  λ X e w,
    (Returned (match e in event X return X with
               | HttpDo _ => Ok (mkHttpResponse 200 ∅ (mkBody "active" None))
               | e' => quiet_answer 0 e'
               end), w).

Definition witness_oidc : OIDCConfig :=
  mkOIDCConfig "" "" "https://idp/introspect" "app" "pw" "" [] false.

Lemma OIDC_accepts_only_verified_witness :
  let a := oidc_with witness_oidc None in
  let h : Header := {["Authorization" := ["Bearer t0k"]]} in
  ∃ res w', run (conn_req_env active_env) (OIDC_Authenticate a witness_request) (new_conn, (h, tt)) =
    (Returned res, (new_conn, (h, w'))) ∧
  ∀ id, res = Ok id → ∃ tok, bearer h tok ∧ ∃ resp ir,
    (active_env _ (HttpDo (introspection_request a tok)) tt).1 = Returned (Ok resp) ∧
    hp_Status resp = 200 ∧ decode_introspection (hp_Body resp) = Ok ir ∧ ir_Active ir = true ∧
    id = mkAuthResult (ir_Sub ir) (Some (introspection_claims ir)) "" "".
Proof.
  intros a h.
  apply (OIDC_accepts_only_verified active_env witness_oidc a witness_request new_conn h tt tt tt);
    [by intros X e w; eexists _, _ | reflexivity].
Defined.
