(* ===== verification/Proxy.v ===== *)
(** * The reverse proxy (internal/proxy/proxy.go)

    [NewProxyHandler] and the parts of [httputil.ReverseProxy] it relies on: the
    outgoing request, the copy of the response, the error handler.  The transport
    is the event [RoundTrip]; a protocol upgrade (a 101 answer) hijacks the
    connection and is an argument. *)

From S2P Require Import Prelude.
From S2P Require Import GoStrings.
From S2P Require Import ConfigTypes.
From S2P Require Import Http.
From S2P Require Import Middleware.

Local Open Scope Z_scope.

(** ** Headers of a hop ([removeHopByHopHeaders], [upgradeType]) *)

Definition hopHeaders : list string :=
  ["Connection"; "Proxy-Connection"; "Keep-Alive"; "Proxy-Authenticate"; "Proxy-Authorization";
   "Te"; "Trailer"; "Transfer-Encoding"; "Upgrade"].

(** The header names a [Connection] header lists. *)
Definition connection_tokens (h : Header) : list string :=
  filter (λ t, t ≠ "") (v ← default [] (h !! "Connection"); TrimString <$> Split v ",").

Definition removeHopByHopHeaders (h : Header) : Header :=
  foldl hdr_del h (connection_tokens h ++ hopHeaders).

(** [httpguts.HeaderValuesContainsToken]. *)
Definition contains_token (values : list string) (token : string) : bool :=
  existsb (λ v, existsb (λ t, EqualFold (trimOWS t) token) (Split v ",")) values.

Definition upgradeType (h : Header) : string :=
  if contains_token (default [] (h !! "Connection")) "Upgrade" then hdr_get h "Upgrade" else "".

Definition is_print (s : string) : bool :=
  forallb (λ a, N.leb 32 (byte_of a) && N.leb (byte_of a) 126) (String.list_ascii_of_string s).

(** [copyHeader] from an informational response. *)
Definition ErrAbortHandler : string := "net/http: abort Handler".

Section proxy.
Context `{NP : NetPackage} `{UP : UrlPackage} `{RO : RangeOrder}.

(** [ReverseProxy.handleUpgradeResponse]. *)
Variable handleUpgradeResponse : Request → HttpResponse → prog unit.

(** ** The director *)

(** The loop over the captured parameters, in the order of the map. *)
Definition rewrite_path (rewrite : string) (params : list (string * string)) : string :=
  foldl (λ rewritten kv, ReplaceAll rewritten ("{" +:+ kv.1 +:+ "}") kv.2) rewrite params.

(** The path of the outgoing request; the router always sets the parameters. *)
Definition director_path (routeCfg : RouteConfig) (r : Request) : string :=
  match ctx_MatchedRoute (r_ctx r) with
  | Some matched =>
      if bool_decide (up_PathRewrite (route_Upstream routeCfg) = "") then r_Path r
      else rewrite_path (up_PathRewrite (route_Upstream routeCfg)) (range (mt_PathParams matched))
  | None => r_Path r
  end.

(** ** The outgoing request *)

(** The client's address appended to those of the proxies before. *)
Definition forwarded_for (remote : string) (h : Header) : Header :=
  match SplitHostPort remote with
  | None => h
  | Some clientIP =>
      match h !! "X-Forwarded-For" with
      | Some (_ :: _ as prior) => hdr_set h "X-Forwarded-For" (Join prior ", " +:+ ", " +:+ clientIP)
      | Some [] => h
      | None => hdr_set h "X-Forwarded-For" clientIP
      end
  end.

Definition out_header (r : Request) (h : Header) : Header :=
  let upgrade := upgradeType h in
  let out := removeHopByHopHeaders h in
  let out := if contains_token (default [] (h !! "Te")) "trailers" then hdr_set out "Te" "trailers"
             else out in
  let out := if bool_decide (upgrade = "") then out
             else hdr_set (hdr_set out "Connection" "Upgrade") "Upgrade" upgrade in
  let out := forwarded_for (r_RemoteAddr r) out in
  if bool_decide (out !! "User-Agent" = None) then hdr_set out "User-Agent" "" else out.

Definition out_request (upstream : string * string) (routeCfg : RouteConfig) (timeout : Z)
    (r : Request) (h : Header) : OutRequest := {|
  oq_Method := r_Method r;
  oq_Scheme := upstream.1;
  oq_URLHost := upstream.2;
  oq_Path := director_path routeCfg r;
  oq_RawPath := "";
  oq_RawQuery := r_RawQuery r;
  oq_Host := upstream.2;
  oq_Header := out_header r h;
  oq_Body := if r_ContentLength r =? 0 then None else r_Body r;
  oq_ContentLength := r_ContentLength r;
  oq_Timeout := timeout;
|}.

(** ** The response *)

Definition bad_gateway : prog unit :=
  writeJSON 502 "bad_gateway" "Upstream service unavailable".

(** [ErrorHandler]. *)
Definition error_handler (routeCfg : RouteConfig) (method path : string) (err : error) : prog unit :=
  emit (Log "ERROR" "proxy error"
          [AStr "route" (route_Name routeCfg); AStr "method" method; AStr "path" path;
           AStr "error" (error_text err)]);;
  bad_gateway.

(** [Got1xxResponse]: the headers are sent along and cleared. *)
Definition forward_informational (i : Z * Header) : prog unit :=
  add_headers (range i.2);;
  write_header i.1;;
  emit (WHeaderPut ∅).

Fixpoint forward_all (l : list (Z * Header)) : prog unit :=
  match l with [] => mret tt | i :: l' => forward_informational i;; forward_all l' end.

(** [copyResponse]; an error of either side aborts the handler. *)
Definition copy_body (b : Body) : prog unit :=
  err ← (if bool_decide (body_data b = "") then mret None
         else '(_, err) ← emit (WWrite (body_data b)); mret (err : option error));
  match err, body_err b with
  | None, None => mret tt
  | _, _ => Panic ErrAbortHandler
  end.

Definition copy_response (resp : HttpResponse) : prog unit :=
  add_headers (range (removeHopByHopHeaders (hp_Header resp)));;
  write_header (hp_Status resp);;
  copy_body (hp_Body resp).

(** [ReverseProxy.ServeHTTP]. *)
Definition proxy_serve (upstream : string * string) (routeCfg : RouteConfig) (timeout : Z) : Handler :=
  λ r,
    h ← emit RHeader;
    let out := out_request upstream routeCfg timeout r h in
    emit (Log "DEBUG" "proxying request"
            [AStr "route" (route_Name routeCfg); AStr "method" (r_Method r);
             AStr "upstream_url" (url_String upstream.1 upstream.2 (oq_Path out) (r_RawQuery r))]);;
    if negb (is_print (upgradeType h)) then
      error_handler routeCfg (r_Method r) (r_Path r)
        (Errorf ("client tried to switch to invalid protocol " +:+ Quote (upgradeType h)))
    else
      '(informational, res) ← emit (RoundTrip out);
      forward_all informational;;
      match res with
      | Err err => error_handler routeCfg (r_Method r) (oq_Path out) err
      | Ok resp =>
          if hp_Status resp =? 101 then handleUpgradeResponse r resp else copy_response resp
      end.

(** [NewProxyHandler] with the shared transport: the URL is parsed once, when the
    handler is made. *)
Definition NewProxyHandler (routeCfg : RouteConfig) : prog Handler :=
  match url_Parse (up_URL (route_Upstream routeCfg)) with
  | Err err =>
      emit (Log "ERROR" "failed to parse upstream URL"
              [AStr "route" (route_Name routeCfg); AStr "url" (up_URL (route_Upstream routeCfg));
               AStr "error" (error_text err)]);;
      mret (λ _, bad_gateway)
  | Ok upstream => mret (proxy_serve upstream routeCfg (Z.max 0 (up_Timeout (route_Upstream routeCfg))))
  end.
End proxy.

(** ** Specification *)

(** A path template: literal text and holes for parameters. *)
Inductive piece : Type :=
  | Lit (s : string)
  | Hole (k : string).

Definition piece_text (p : piece) : string :=
  match p with Lit s => s | Hole k => "{" +:+ k +:+ "}" end.

Fixpoint template (ps : list piece) : string :=
  match ps with [] => "" | p :: ps' => piece_text p +:+ template ps' end.

(** Braces only delimit holes. *)
Definition piece_ok (p : piece) : Prop :=
  match p with
  | Lit s => ContainsByte s "{" = false
  | Hole k => ContainsByte k "{" = false ∧ ContainsByte k "}" = false
  end.

(** Every hole filled at once. *)
Definition fill (params : gmap string string) (p : piece) : piece :=
  match p with
  | Lit s => Lit s
  | Hole k => match params !! k with Some v => Lit v | None => Hole k end
  end.

(** ** Lemmas *)

Definition fill_one (p : piece) (kv : string * string) : piece :=
  match p with
  | Lit s => Lit s
  | Hole k => if decide (k = kv.1) then Lit kv.2 else Hole k
  end.

Lemma hole_not_prefix k k' s :
  ContainsByte k "}" = false → ContainsByte k' "}" = false → k ≠ k' →
  HasPrefix ("{" +:+ k' +:+ "}" +:+ s) ("{" +:+ k +:+ "}") = false.
Proof.
  intros Hk Hk' Hne. apply not_true_iff_false. intros [r Hr]%HasPrefix_spec.
  rewrite !append_assoc in Hr. apply (append_inj_l "{") in Hr.
  apply (split_first k' s k r "}"%char) in Hr as [-> _]; done.
Qed.

Lemma replace_other k k' v s :
  ContainsByte k "}" = false → ContainsByte k' "{" = false → ContainsByte k' "}" = false → k ≠ k' →
  ReplaceAll (("{" +:+ k' +:+ "}") +:+ s) ("{" +:+ k +:+ "}") v =
  ("{" +:+ k' +:+ "}") +:+ ReplaceAll s ("{" +:+ k +:+ "}") v.
Proof.
  intros H1 H2 H3 Hne. rewrite !append_assoc.
  etrans; [apply (ReplaceAll_skip "{" (k' +:+ "}" +:+ s)); [done | by apply hole_not_prefix]|].
  apply (f_equal (String "{")).
  etrans; [apply (ReplaceAll_literal k' ("}" +:+ s) "{" (k +:+ "}")); done|].
  apply (f_equal (String.append k')). by apply (ReplaceAll_skip "}" s).
Qed.

Lemma replace_template kv ps :
  ContainsByte kv.1 "{" = false → ContainsByte kv.1 "}" = false → Forall piece_ok ps →
  ReplaceAll (template ps) ("{" +:+ kv.1 +:+ "}") kv.2 = template ((λ p, fill_one p kv) <$> ps).
Proof.
  intros H1 H2. induction 1 as [|p ps Hp _ IH]; [done|]. cbn [template fmap list_fmap].
  rewrite <-IH. destruct p as [s|k]; cbn [piece_text fill_one].
  - by apply ReplaceAll_literal.
  - destruct Hp as [Hk1 Hk2]. case_decide as E; cbn [piece_text].
    + subst. by apply ReplaceAll_hit.
    + by apply replace_other.
Qed.

Lemma fill_one_ok kv p : ContainsByte kv.2 "{" = false → piece_ok p → piece_ok (fill_one p kv).
Proof. intros Hv Hp. destruct p; cbn; [done|]. case_decide; done. Qed.

Lemma foldl_fill_Lit kvs s : foldl fill_one (Lit s) kvs = Lit s.
Proof. by induction kvs. Qed.

Lemma foldl_fill kvs p : foldl fill_one p kvs = fill (list_to_map kvs) p.
Proof.
  destruct p as [s|k]; [apply foldl_fill_Lit|].
  induction kvs as [|[k' v] kvs IH]; [done|]. cbn [foldl fill_one fst snd].
  cbn [fill list_to_map foldr uncurry] in *. case_decide as E.
  - subst. by rewrite foldl_fill_Lit, lookup_insert_eq.
  - by rewrite lookup_insert_ne, IH.
Qed.

Lemma rewrite_template kvs : ∀ ps,
  (∀ kv, kv ∈ kvs → ContainsByte kv.1 "{" = false ∧ ContainsByte kv.1 "}" = false ∧
                    ContainsByte kv.2 "{" = false) →
  Forall piece_ok ps →
  rewrite_path (template ps) kvs = template ((λ p, foldl fill_one p kvs) <$> ps).
Proof.
  induction kvs as [|kv kvs IH]; intros ps Hkv Hps.
  { cbn. by rewrite list_fmap_id. }
  destruct (Hkv kv (list_elem_of_here _ _)) as (H1 & H2 & H3).
  change (rewrite_path (template ps) (kv :: kvs))
    with (rewrite_path (ReplaceAll (template ps) ("{" +:+ kv.1 +:+ "}") kv.2) kvs).
  rewrite replace_template, IH by
    first [done | by intros ??; apply Hkv, list_elem_of_further
          | by apply Forall_fmap; eapply Forall_impl; [exact Hps|]; intros; apply fill_one_ok].
  by rewrite <-list_fmap_compose.
Qed.

Section theorems.
Context `{NP : NetPackage} `{UP : UrlPackage} `{RO : RangeOrder}.

(** Path rewriting fills every hole of the template with the captured value
    and leaves unknown holes, in whatever order the map of parameters is visited,
    as long as no captured value contains an opening brace. *)
Theorem rewrite_path_fills (params : gmap string string) ps :
  Forall piece_ok ps →
  (∀ k v, params !! k = Some v → ContainsByte k "{" = false ∧ ContainsByte k "}" = false ∧
                                 ContainsByte v "{" = false) →
  rewrite_path (template ps) (range params) = template (fill params <$> ps).
Proof.
  intros Hps Hp. rewrite rewrite_template; [|intros [k v] ?%elem_of_range; by apply Hp | done].
  f_equal. apply list_fmap_ext. intros _ p _. by rewrite foldl_fill, list_to_map_range.
Qed.
End theorems.

(** An order of iteration, and its reverse. *)
Definition reverse_range : RangeOrder := {|
  range V m := reverse (map_to_list m);
  range_perm V m := reverse_Permutation _;
|}.

(** A captured value with an opening brace, which a client can send
    percent-encoded, makes the rewritten path depend on the order in which Go
    visits the map, which is random. *)
Theorem rewrite_path_order_dependent :
  ∃ (rewrite : string) (params : gmap string string),
    rewrite_path rewrite (range (RangeOrder := sorted_range) params) ≠
    rewrite_path rewrite (range (RangeOrder := reverse_range) params).
Proof.
  exists "/{a}/{b}", {["a" := "{b}"; "b" := "{a}"]}. vm_compute. discriminate.
Qed.

(** ** What the client receives *)

Section outcomes.
Context `{NP : NetPackage} `{UP : UrlPackage} `{RO : RangeOrder}.
Variable handleUpgradeResponse : Request → HttpResponse → prog unit.
Context {W : Type} (env : environment W).
Hypothesis Hcrash : no_crash env.

Abbreviation serve_route := (proxy_serve handleUpgradeResponse).

(** The connection after a complete or partial response. *)
Definition relayed (c : Conn) (resp : HttpResponse) : Conn :=
  let hd := add_all (range (removeHopByHopHeaders (hp_Header resp))) (conn_header c) in
  mkConn hd (Some (hp_Status resp, hd)) (conn_body c +:+ body_data (hp_Body resp)) (conn_info c).

Definition unavailable (c : Conn) : Conn :=
  let hd := hdr_set (conn_header c) "Content-Type" "application/json" in
  mkConn hd (Some (502, hd))
    (conn_body c +:+ json_error "bad_gateway" "Upstream service unavailable") (conn_info c).

Lemma run_copy_body b c h w code hd :
  conn_sent c = Some (code, hd) → (body_data b = "" ∨ bodyAllowedForStatus code = true) →
  run (conn_req_env env) (copy_body b) (c, (h, w)) =
  ((if body_err b then Panicked ErrAbortHandler else Returned tt),
   (mkConn (conn_header c) (conn_sent c) (conn_body c +:+ body_data b) (conn_info c), (h, w))).
Proof.
  intros Hs Hb. unfold copy_body. rewrite run_mbind. case_bool_decide as E.
  - rewrite E, append_nil_r. destruct c. cbn. by destruct (body_err b).
  - destruct Hb as [|Hb]; [done|]. rewrite run_mbind, run_emit.
    destruct c as [ch cs cb ci]. cbn in Hs. subst cs. cbn. unfold conn_Write. cbn.
    rewrite bool_decide_false, Hb by done. by destruct (body_err b).
Qed.

Lemma run_copy_response resp c h w :
  conn_sent c = None → 200 ≤ hp_Status resp ≤ 999 →
  (body_data (hp_Body resp) = "" ∨ bodyAllowedForStatus (hp_Status resp) = true) →
  run (conn_req_env env) (copy_response resp) (c, (h, w)) =
  ((if body_err (hp_Body resp) then Panicked ErrAbortHandler else Returned tt),
   (relayed c resp, (h, w))).
Proof.
  intros Hs Hst Hb. unfold copy_response, conn_req_env. rewrite run_mbind, conn_add_headers.
  cbv beta iota. rewrite run_mbind, conn_write_header by done. cbv beta iota.
  fold (conn_req_env env). by rewrite (run_copy_body _ _ _ _ (hp_Status resp)
    (add_all (range (removeHopByHopHeaders (hp_Header resp))) (conn_header c))).
Qed.

Lemma run_error_handler routeCfg method path err c h w :
  conn_sent c = None →
  ∃ w', run (conn_req_env env) (error_handler routeCfg method path err) (c, (h, w)) =
        (Returned tt, (unavailable c, (h, w'))).
Proof using Hcrash.
  intros Hs. unfold error_handler. rewrite run_mbind, run_emit, conn_req_env_pass by done.
  match goal with |- context [env unit ?l w] => destruct (Hcrash unit l w) as ([] & w' & ->) end.
  exists w'. unfold conn_req_env, bad_gateway. by rewrite conn_writeJSON by (done || lia).
Qed.

(** The upstream's answer to the outgoing request, whenever it is asked. *)
Definition upstream_answers (out : OutRequest) (res : result HttpResponse) : Prop :=
  ∀ w, ∃ w', env _ (RoundTrip out) w = (Returned ([], res), w').

Lemma proxy_serve_run upstream routeCfg timeout r c h w res :
  conn_sent c = None → is_print (upgradeType h) = true →
  upstream_answers (out_request upstream routeCfg timeout r h) res →
  ∃ w', match res with
  | Err _ => run (conn_req_env env) (serve_route upstream routeCfg timeout r) (c, (h, w)) =
             (Returned tt, (unavailable c, (h, w')))
  | Ok resp =>
      200 ≤ hp_Status resp ≤ 999 →
      (body_data (hp_Body resp) = "" ∨ bodyAllowedForStatus (hp_Status resp) = true) →
      run (conn_req_env env) (serve_route upstream routeCfg timeout r) (c, (h, w)) =
      ((if body_err (hp_Body resp) then Panicked ErrAbortHandler else Returned tt),
       (relayed c resp, (h, w')))
  end.
Proof using Hcrash.
  intros Hs Hp Hup. unfold proxy_serve. rewrite run_mbind.
  change (run (conn_req_env env) (emit RHeader) (c, (h, w))) with (Returned h, (c, (h, w))).
  cbv beta iota zeta. rewrite run_mbind, run_emit, conn_req_env_pass by done.
  match goal with |- context [env unit ?l w] => destruct (Hcrash unit l w) as ([] & w1 & ->) end.
  rewrite Hp. cbn [negb].
  rewrite run_mbind, run_emit, conn_req_env_pass by done. destruct (Hup w1) as [w2 ->].
  rewrite run_mbind. cbn [forward_all run mret prog_ret].
  destruct res as [resp|err]; [|by apply run_error_handler].
  exists w2. intros Hst Hb. rewrite (proj2 (Z.eqb_neq (hp_Status resp) 101)) by lia.
  by apply run_copy_response.
Qed.

(** C33: the proxy asks the configured upstream once, with the rewritten path and
    its deadline, and relays its answer: status, headers other than those of the
    hop, and body; an upstream that fails to answer gives the 502 document; an
    upstream that breaks off in the middle of its body ends the handler with a
    panic, after the part that arrived. *)
Theorem proxy_relays upstream routeCfg timeout r c h w res :
  conn_sent c = None → is_print (upgradeType h) = true →
  upstream_answers (out_request upstream routeCfg timeout r h) res →
  ∃ w', match res with
  | Err _ => run (conn_req_env env) (serve_route upstream routeCfg timeout r) (c, (h, w)) =
             (Returned tt, (unavailable c, (h, w')))
  | Ok resp =>
      200 ≤ hp_Status resp ≤ 999 →
      (body_data (hp_Body resp) = "" ∨ bodyAllowedForStatus (hp_Status resp) = true) →
      run (conn_req_env env) (serve_route upstream routeCfg timeout r) (c, (h, w)) =
      ((if body_err (hp_Body resp) then Panicked ErrAbortHandler else Returned tt),
       (relayed c resp, (h, w'))) ∧
      (canonical (removeHopByHopHeaders (hp_Header resp)) → ∀ k,
         hdr_values (conn_headers (relayed c resp)) k =
         hdr_values (conn_header c) k ++ hdr_values (removeHopByHopHeaders (hp_Header resp)) k)
  end.
Proof using Hcrash.
  intros Hs Hp Hup. destruct (proxy_serve_run _ _ _ _ _ _ w _ Hs Hp Hup) as [w' H].
  exists w'. destruct res as [resp|err]; [|done]. intros Hst Hb. split; [by apply H|].
  intros Hc k. by apply hdr_values_add_all.
Qed.

(** An informational answer of the upstream (103, say) takes every header that
    the gateway had set so far with it: the final response that follows has the
    upstream's headers only, without the request identifier and the rate-limit or
    CORS headers. *)
Theorem informational_drops_headers code ih resp c h w :
  conn_sent c = None → is_informational code = true → 200 ≤ hp_Status resp ≤ 999 →
  (body_data (hp_Body resp) = "" ∨ bodyAllowedForStatus (hp_Status resp) = true) →
  ∃ o c', run (conn_req_env env) (forward_informational (code, ih);; copy_response resp) (c, (h, w)) =
    (o, (c', (h, w))) ∧
    conn_info c' = conn_info c ++ [(code, add_all (range ih) (conn_header c))] ∧
    conn_headers c' = add_all (range (removeHopByHopHeaders (hp_Header resp))) ∅.
Proof.
  intros Hs Hi Hst Hb. rewrite run_mbind. unfold forward_informational. cbn [fst snd].
  unfold conn_req_env at 1. rewrite run_mbind, conn_add_headers. cbv beta iota.
  rewrite run_mbind. unfold write_header at 1. rewrite run_mbind, run_emit.
  assert ((code <? 100) || (code >? 999) = false) as Hc.
  { unfold is_informational in Hi. bool_to_prop. apply orb_false_iff. rewrite Z.gtb_ltb. split; lia. }
  destruct c as [ch cs cb ci]. cbn in Hs. subst cs. unfold with_hdr, conn_env, env_with at 1.
  cbn [conn_header conn_sent conn_body conn_info].
  cbn [writer_handler rw_WriteHeader Conn_writer]. unfold conn_WriteHeader.
  cbn [conn_header conn_sent conn_body conn_info]. rewrite Hc, Hi. cbn [run mret prog_ret].
  change (run (env_with (writer_handler Conn) (req_env env)) (emit (WHeaderPut ∅)) ?st) with
    (Returned tt, (with_hdr st.1 ∅, st.2)). cbn [fst snd]. cbv beta iota.
  unfold with_hdr. cbn [conn_header conn_sent conn_body conn_info].
  rewrite run_copy_response by done. eexists _, _. split; [reflexivity|]. done.
Qed.

(** Behind [Recovery] a response that the upstream broke off looks complete:
    the handler returns, so the server ends the body normally, and the error
    document is appended to the part that arrived, under the upstream's status. *)
Theorem truncated_response_completed upstream routeCfg timeout r c h w resp e :
  conn_sent c = None → is_print (upgradeType h) = true →
  upstream_answers (out_request upstream routeCfg timeout r h) (Ok resp) →
  200 ≤ hp_Status resp ≤ 999 → bodyAllowedForStatus (hp_Status resp) = true →
  body_err (hp_Body resp) = Some e →
  ∃ c' hw, run (conn_req_env env) (Recovery (serve_route upstream routeCfg timeout) r) (c, (h, w)) =
    (Returned tt, (c', hw)) ∧
    conn_status c' = hp_Status resp ∧
    conn_body c' = conn_body c +:+ body_data (hp_Body resp) +:+
                   json_error "internal_error" "Internal server error".
Proof using Hcrash.
  intros Hs Hp Hup Hst Hb He.
  destruct (proxy_serve_run _ _ _ _ _ _ w _ Hs Hp Hup) as [w' H].
  specialize (H Hst (or_intror Hb)). rewrite He in H.
  pose proof (Recovery_run (req_env env) (serve_route upstream routeCfg timeout) r c (h, w)
    (req_env_no_crash env Hcrash)) as HR.
  fold (conn_req_env env) in HR. rewrite H in HR. destruct HR as [[h'' w''] HR].
  unfold relayed, recovered in HR. cbn [conn_sent conn_header conn_body conn_info] in HR.
  rewrite Hb in HR. eexists _, _. split; [exact HR|]. split; [done|]. cbn.
  by rewrite append_assoc.
Qed.
End outcomes.

(** ** Witnesses *)

Lemma rewrite_path_fills_witness :
  rewrite_path (template [Lit "/v2/"; Hole "id"; Lit "/"; Hole "tail"])
    (range (RangeOrder := sorted_range) {["id" := "7"; "tail" := "a}b"]}) = "/v2/7/a}b".
Proof.
  etrans; [apply (rewrite_path_fills (RO := sorted_range) {["id" := "7"; "tail" := "a}b"]}
    [Lit "/v2/"; Hole "id"; Lit "/"; Hole "tail"]) | vm_compute; reflexivity].
  - repeat constructor.
  - intros k v H. apply lookup_insert_Some in H as [[<- <-] | [_ H]]; [done|].
    apply lookup_singleton_Some in H as [<- <-]. done.
Defined.

(** An upstream that answers 200, with its body cut off or not. *)
Definition upstream_env (b : Body) : environment unit :=
  λ X e w,
    (Returned (match e in event X return X with
               | RoundTrip _ => ([], Ok (mkHttpResponse 200 {["Content-Type" := ["text/plain"]]} b))
               | e' => quiet_answer 0 e'
               end), w).

Lemma upstream_env_no_crash b : no_crash (upstream_env b).
Proof. intros X e w. by eexists _, _. Defined.

Definition no_upgrade : Request → HttpResponse → prog unit := λ _ _, Panic "no upgrade".

Definition proxied_route : RouteConfig :=
  mkRouteConfig "users" (mkMatchConfig "^/users" [] "" ∅) (mkUpstreamConfig "http:up" "" Second)
    None None [] [].

Lemma proxy_relays_witness :
  let NP := text_net in let UP := text_url in let RO := sorted_range in
  ∃ w', run (conn_req_env (upstream_env (mkBody "hello" None)))
    (proxy_serve no_upgrade ("http", "up") proxied_route Second witness_request) (new_conn, (∅, tt)) =
  (Returned tt, (relayed new_conn (mkHttpResponse 200 {["Content-Type" := ["text/plain"]]}
                                     (mkBody "hello" None)), (∅, w'))).
Proof.
  intros NP UP RO.
  destruct (proxy_relays no_upgrade (upstream_env (mkBody "hello" None)) (upstream_env_no_crash _)
    ("http", "up") proxied_route Second witness_request new_conn ∅ tt
    (Ok (mkHttpResponse 200 {["Content-Type" := ["text/plain"]]} (mkBody "hello" None))))
    as [w' H]; [reflexivity | reflexivity | intros w; eexists; reflexivity|].
  exists w'. apply H; cbn; [lia | right; reflexivity].
Defined.

Lemma informational_drops_headers_witness :
  let RO := sorted_range in
  ∃ o c', run (conn_req_env quiet_env)
    (forward_informational (103, ∅);; copy_response (mkHttpResponse 204 ∅ (mkBody "" None)))
    (mkConn {["X-Request-Id" := ["1"]]} None "" [], (∅, tt)) = (o, (c', (∅, tt))) ∧
    conn_info c' = [] ++ [(103, add_all (range ∅) {["X-Request-Id" := ["1"]]})] ∧
    conn_headers c' = add_all (range (removeHopByHopHeaders ∅)) ∅.
Proof.
  intros RO.
  assert (200 ≤ 204 ≤ 999) as Hst by lia.
  exact (informational_drops_headers quiet_env 103 ∅ (mkHttpResponse 204 ∅ (mkBody "" None))
    (mkConn {["X-Request-Id" := ["1"]]} None "" []) ∅ tt eq_refl eq_refl Hst (or_introl eq_refl)).
Defined.

Lemma truncated_response_completed_witness :
  let NP := text_net in let UP := text_url in let RO := sorted_range in
  ∃ c' hw, run (conn_req_env (upstream_env (mkBody "hel" (Some "unexpected EOF"))))
    (Recovery (proxy_serve no_upgrade ("http", "up") proxied_route Second) witness_request)
    (new_conn, (∅, tt)) = (Returned tt, (c', hw)) ∧
    conn_status c' = 200 ∧
    conn_body c' = "hel" +:+ json_error "internal_error" "Internal server error".
Proof.
  intros NP UP RO.
  apply (truncated_response_completed no_upgrade (upstream_env (mkBody "hel" (Some "unexpected EOF")))
    (upstream_env_no_crash _) ("http", "up") proxied_route Second witness_request new_conn ∅ tt
    (mkHttpResponse 200 {["Content-Type" := ["text/plain"]]} (mkBody "hel" (Some "unexpected EOF")))
    "unexpected EOF"); try reflexivity; [intros w; eexists; reflexivity | cbn; lia].
Defined.
