(* ===== verification/Mux.v ===== *)
(** * The multiplexer (cmd/gateway/main.go, lines 157-162)

    URL paths as [net/url] parses and prints them, and the [http.ServeMux] with
    its three patterns that [runServe] puts in front of the handler in service:
    which requests reach that handler, with which paths. *)

From S2P Require Import Prelude.
From S2P Require Import GoStrings.
From S2P Require Import ConfigTypes.
From S2P Require Import CircuitBreaker.
From S2P Require Import Http.
From S2P Require Import Observability.
From S2P Require Import Proxy.

Local Open Scope Z_scope.

(** ** Percent encoding ([net/url], mode [encodePath]) *)

Definition unhex (a : ascii) : option N :=
  let n := byte_of a in
  if ((48 <=? n) && (n <=? 57))%N then Some (n - 48)%N
  else if ((97 <=? n) && (n <=? 102))%N then Some (n - 87)%N
  else if ((65 <=? n) && (n <=? 70))%N then Some (n - 55)%N
  else None.

Fixpoint unescape (s : string) : option string :=
  match s with
  | "" => Some ""
  | String a s' =>
      if Ascii.eqb a "%" then
        match s' with
        | String h (String l s'') =>
            hi ← unhex h; lo ← unhex l; String (ascii_of_N (16 * hi + lo)) <$> unescape s''
        | _ => None
        end
      else String a <$> unescape s'
  end.

Definition alphanumeric (n : N) : bool :=
  ((97 <=? n) && (n <=? 122) || (65 <=? n) && (n <=? 90) || (48 <=? n) && (n <=? 57))%N.

(** Unreserved bytes, and of the reserved ones all but the question mark. *)
Definition shouldEscape (a : ascii) : bool :=
  negb (alphanumeric (byte_of a) ||
        bool_decide (a ∈ ["-"; "_"; "."; "~"; "$"; "&"; "+"; ","; "/"; ":"; ";"; "="; "@"]%char)).

Definition upperhex (n : N) : ascii :=
  if (n <? 10)%N then ascii_of_N (48 + n) else ascii_of_N (55 + n).

Fixpoint escape (s : string) : string :=
  match s with
  | "" => ""
  | String a s' =>
      (if shouldEscape a
       then String "%" (String (upperhex (byte_of a / 16)) (String (upperhex (byte_of a `mod` 16)) ""))
       else String a "") +:+ escape s'
  end.

(** Bytes that may stand in an encoded path. *)
Fixpoint validEncoded (s : string) : bool :=
  match s with
  | "" => true
  | String a s' =>
      (bool_decide (a ∈ ["!"; "$"; "&"; "'"; "("; ")"; "*"; "+"; ","; ";"; "="; ":"; "@"; "["; "]"; "%"]%char)
       || negb (shouldEscape a)) && validEncoded s'
  end.

(** [url.URL], as far as an incoming request line fills it. *)
Record URL : Type := mkURL {
  u_Path : string;
  u_RawPath : string;
  u_RawQuery : string;
}.

(** [setPath], on the path [p] of the request line. *)
Definition setPath (p query : string) : option URL :=
  path ← unescape p;
  Some (mkURL path (if bool_decide (p = escape path) then "" else p) query).

Definition EscapedPath (u : URL) : string :=
  if negb (bool_decide (u_RawPath u = "")) && validEncoded (u_RawPath u) &&
     bool_decide (unescape (u_RawPath u) = Some (u_Path u))
  then u_RawPath u
  else if bool_decide (u_Path u = "*") then "*" else escape (u_Path u).

(** ** Cleaning ([path.Clean] of a rooted path, and [net/http]) *)

(** One segment after the other; a stack of the segments kept. *)
Fixpoint clean_segments (segs stack : list string) : list string :=
  match segs with
  | [] => stack
  | seg :: segs' =>
      clean_segments segs'
        (if bool_decide (seg = "" ∨ seg = ".") then stack
         else if bool_decide (seg = "..") then tail stack else seg :: stack)
  end.

Definition Clean (p : string) : string :=
  "/" +:+ Join (reverse (clean_segments (Split p "/") [])) "/".

Definition cleanPath (p : string) : string :=
  let p := if HasPrefix p "/" then p else "/" +:+ p in
  let np := Clean p in
  if HasSuffix p "/" && negb (bool_decide (np = "/")) then np +:+ "/" else np.

(** ** The multiplexer *)

Inductive endpoint : Set := Health | Scrape | Current.

#[export] Instance endpoint_eq_dec : EqDecision endpoint.
Proof. solve_decision. Defined.

(** The patterns: method, path, handler, the more specific ones first. *)
Definition mux : list (option string * string * endpoint) :=
  [(Some "GET", "/health", Health); (Some "GET", "/metrics", Scrape); (None, "/", Current)].

(** A pattern with a method [GET] also serves [HEAD]; a pattern that ends in a
    slash matches a subtree, another one the single segment it names, decoded. *)
Definition pattern_matches (pmethod : option string) (ppath method path : string) : bool :=
  match pmethod with
  | None => true
  | Some m => bool_decide (method = m) || bool_decide (m = "GET" ∧ method = "HEAD")
  end &&
  (if HasSuffix ppath "/" then HasPrefix path ppath
   else HasPrefix path "/" && negb (ContainsByte (slice_from path 1) "/") &&
        bool_decide (default (slice_from path 1) (unescape (slice_from path 1)) = slice_from ppath 1)).

Definition match_endpoint (method path : string) : option endpoint :=
  snd <$> find (λ pe, pattern_matches pe.1.1 pe.1.2 method path) mux.

(** [findHandler] for methods other than [CONNECT]: [inl] redirects to a path. *)
Definition findHandler (method : string) (u : URL) : string + option endpoint :=
  let path := cleanPath (EscapedPath u) in
  if bool_decide (path = EscapedPath u) then inr (match_endpoint method path) else inl path.

(** The request as the server hands it on. *)
Definition at_url (u : URL) (r : Request) : Request := {|
  r_Method := r_Method r; r_Path := u_Path u; r_RawQuery := u_RawQuery u; r_Host := r_Host r;
  r_RemoteAddr := r_RemoteAddr r; r_Body := r_Body r;
  r_ContentLength := r_ContentLength r; r_ctx := r_ctx r |}.

Section server.
(** [http.RedirectHandler] with the cleaned path, the answer of the multiplexer
    to [CONNECT] requests and to requests that match no pattern, [promhttp], and
    the timestamp of the health response. *)
Variable redirect : string → Handler.
Variable connect : Handler.
Variable unmatched : Handler.
Variable scrape : Handler.
Variable rfc3339 : Z → string.

(** The mux of [runServe], for a request with the request line's target
    [RequestURI], with the values the two pointers hold and the health checker. *)
Definition mux_ServeHTTP (cfg : GatewayConfig) (current : Handler) (checker : bool)
    (RequestURI : string) (http11 : bool) (u : URL) : Handler := λ r,
  let r := at_url u r in
  if bool_decide (RequestURI = "*") then
    (if http11 then header_set "Connection" "close" else mret tt);; write_header 400
  else if bool_decide (r_Method r = "CONNECT") then connect r
  else match findHandler (r_Method r) u with
       | inl path => redirect path r
       | inr (Some Health) => HealthHandler rfc3339 cfg checker r
       | inr (Some Scrape) => scrape r
       | inr (Some Current) => current r
       | inr None => unmatched r
       end.
End server.

(** ** Specification: clean paths *)

(** A rooted path without empty, [.] and [..] segments, save for a final slash. *)
Definition plain_segment (seg : string) : Prop :=
  seg ≠ "" ∧ seg ≠ "." ∧ seg ≠ ".." ∧ ContainsByte seg "/" = false.

Definition clean_path (p : string) : Prop :=
  ∃ segs, Forall plain_segment segs ∧
    (p = "/" +:+ Join segs "/" ∨ segs ≠ [] ∧ p = "/" +:+ Join segs "/" +:+ "/").

(** ** Lemmas *)

(** *** Encoding *)

Lemma hex_digits a :
  unhex (upperhex (byte_of a / 16)) = Some (byte_of a / 16)%N ∧
  unhex (upperhex (byte_of a `mod` 16)) = Some (byte_of a `mod` 16)%N.
Proof. by destruct a as [[] [] [] [] [] [] [] []]. Qed.

Lemma escape_byte a :
  ascii_of_N (16 * (byte_of a / 16) + byte_of a `mod` 16) = a.
Proof. rewrite <-(N.div_mod' (byte_of a) 16). apply ascii_N_embedding. Qed.

Lemma plain_not_percent a : shouldEscape a = false → Ascii.eqb a "%" = false.
Proof. intros Ha. apply Ascii.eqb_neq. by intros ->. Qed.

(** Decoding undoes encoding. *)
Lemma unescape_escape s : unescape (escape s) = Some s.
Proof.
  induction s as [|a s IH]; [done|]. cbn [escape]. destruct (shouldEscape a) eqn:Ha.
  - cbn [String.append unescape]. destruct (hex_digits a) as [-> ->].
    cbn [Ascii.eqb Bool.eqb mbind option_bind]. by rewrite IH, escape_byte.
  - cbn [String.append unescape]. by rewrite plain_not_percent, IH.
Qed.

(** The escaped path decodes to the path, and is the one of the request line when
    that is made of bytes allowed there. *)
Lemma EscapedPath_decodes u : unescape (EscapedPath u) = Some (u_Path u).
Proof.
  unfold EscapedPath. destruct (negb _ && _ && bool_decide _) eqn:E; [by bool_to_prop|]. clear E.
  case_bool_decide as Es; [by rewrite Es|]. apply unescape_escape.
Qed.

Lemma EscapedPath_request_line p query u :
  setPath p query = Some u → validEncoded p = true → HasPrefix p "/" = true →
  EscapedPath u = p.
Proof.
  unfold setPath. intros (path & Hp & [= <-])%bind_Some Hv Hs. unfold EscapedPath. cbn [u_Path u_RawPath].
  destruct (decide (p = escape path)) as [E|E].
  - rewrite (bool_decide_true (p = escape path)), (bool_decide_true ("" = "")) by done. cbn [negb andb].
    rewrite bool_decide_false; [done|]. intros ->. subst p. by vm_compute in Hs.
  - rewrite (bool_decide_false (p = escape path)), Hv by done.
    rewrite (bool_decide_false (p = "")) by (by intros ->). by rewrite bool_decide_true.
Qed.

(** *** Cleaning *)

Lemma clean_segments_plain segs : ∀ stack,
  Forall (λ seg, ContainsByte seg "/" = false) segs → Forall plain_segment stack →
  Forall plain_segment (clean_segments segs stack).
Proof.
  induction segs as [|seg segs IH]; intros stack Hsegs Hst; [done|]. cbn [clean_segments].
  apply Forall_cons in Hsegs as [Hseg Hsegs]. apply IH; [done|].
  case_bool_decide as E1; [done|]. case_bool_decide as E2.
  - destruct Hst; [constructor|done].
  - constructor; [|done]. unfold plain_segment. naive_solver.
Qed.

Lemma clean_segments_id segs : ∀ stack,
  Forall plain_segment segs → clean_segments segs stack = reverse segs ++ stack.
Proof.
  induction segs as [|seg segs IH]; intros stack Hs; [done|]. cbn [clean_segments].
  apply Forall_cons in Hs as [(H1 & H2 & H3 & _) Hs].
  rewrite bool_decide_false, bool_decide_false, IH by naive_solver.
  by rewrite reverse_cons, <-(assoc (++)).
Qed.

Lemma clean_segments_empty segs stack :
  clean_segments (segs ++ [""]) stack = clean_segments segs stack.
Proof. revert stack. induction segs as [|seg segs IH]; intros stack; [done|]. apply IH. Qed.

Lemma Split_single w c : ContainsByte w c = false → Split w c = [w].
Proof.
  induction w as [|a w IH]; [done|]. cbn [ContainsByte Split]. intros [-> Hw]%orb_false_iff.
  by rewrite IH.
Qed.

Lemma Split_Join segs c :
  segs ≠ [] → Forall (λ seg, ContainsByte seg c = false) segs →
  Split (Join segs (String c "")) c = segs.
Proof.
  induction segs as [|seg segs IH]; [done|]. intros _ [Hseg Hsegs]%Forall_cons.
  destruct segs as [|seg' segs]; [by apply Split_single|].
  change (Join (seg :: seg' :: segs) (String c ""))
    with (seg +:+ String c (Join (seg' :: segs) (String c ""))).
  by rewrite Split_app_sep, Split_single, IH.
Qed.

Lemma plain_no_slash segs :
  Forall plain_segment segs → Forall (λ seg, ContainsByte seg "/" = false) segs.
Proof. intros Hs. eapply Forall_impl; [exact Hs|]. by intros seg (_ & _ & _ & ?). Qed.

Lemma plain_Split_Join segs :
  segs ≠ [] → Forall plain_segment segs → Split (Join segs "/") "/" = segs.
Proof. intros Hne Hs. by apply Split_Join, plain_no_slash. Qed.

(** A text that ends in the separator has an empty last part. *)
Lemma Split_suffix s c : HasSuffix s (String c "") = true → "" ∈ Split s c.
Proof.
  intros (p & -> & _)%HasSuffix_spec. rewrite Split_app_sep. apply list_elem_of_In, in_or_app.
  right. by left.
Qed.

Lemma plain_not_suffix segs :
  segs ≠ [] → Forall plain_segment segs → HasSuffix (Join segs "/") "/" = false.
Proof.
  intros Hne Hs. apply not_true_iff_false. intros Hsuf%Split_suffix.
  rewrite plain_Split_Join in Hsuf by done. rewrite Forall_forall in Hs. by destruct (Hs _ Hsuf).
Qed.

Lemma HasSuffix_cons a s c : s ≠ "" → HasSuffix (String a s) (String c "") = HasSuffix s (String c "").
Proof.
  intros Hs. apply eq_iff_eq_true. rewrite !HasSuffix_spec. split.
  - intros (p & Hp & _). destruct p as [|b p]; [by injection Hp as _ ->|]. injection Hp as -> ->.
    exists p. split; [done|]. apply slice_to_suffix.
  - intros (p & -> & _). exists (String a p). split; [done|]. apply (slice_to_suffix (String a p)).
Qed.

Lemma Clean_plain segs trail :
  Forall plain_segment segs → Forall (λ seg, seg = "") trail →
  Join (reverse (clean_segments ("" :: segs ++ trail) [])) "/" = Join segs "/".
Proof.
  intros Hs Ht. f_equal. cbn [clean_segments]. rewrite bool_decide_true by (by left).
  assert (clean_segments (segs ++ trail) [] = clean_segments segs []) as ->.
  { revert Ht. induction trail as [|t trail IH] using rev_ind; [by rewrite app_nil_r|].
    intros [Ht ->%Forall_singleton]%Forall_app. by rewrite (assoc (++)), clean_segments_empty, IH. }
  by rewrite clean_segments_id, app_nil_r, reverse_involutive.
Qed.

Lemma Join_plain_not_empty segs : segs ≠ [] → Forall plain_segment segs → Join segs "/" ≠ "".
Proof.
  intros Hne Hs E. pose proof (plain_Split_Join _ Hne Hs) as H. rewrite E in H. cbn in H. subst segs.
  apply Forall_cons in Hs as [[Hs _] _]. by apply Hs.
Qed.

(** Cleaning yields clean paths and leaves them alone. *)
Lemma cleanPath_clean p : clean_path (cleanPath p).
Proof.
  unfold cleanPath, Clean. set (q := if HasPrefix p "/" then p else "/" +:+ p).
  pose proof (clean_segments_plain (Split q "/") [] (Split_no_sep _ _) (Forall_nil_2 _)) as Hs.
  apply Forall_reverse in Hs. revert Hs. generalize (reverse (clean_segments (Split q "/") [])).
  intros segs Hs. exists segs. split; [done|]. destruct (HasSuffix q "/"); [|by left].
  case_bool_decide as E; cbn [negb andb]; [by left|]. right. split; [by intros ->|].
  by rewrite !append_assoc.
Qed.

Lemma HasPrefix_slash s : HasPrefix (String "/" s) "/" = true.
Proof. by destruct s. Qed.

Lemma cleanPath_id p : clean_path p → cleanPath p = p.
Proof.
  intros (segs & Hs & Hp). unfold cleanPath, Clean.
  destruct (decide (segs = [])) as [->|Hne]; [by destruct Hp as [->|[]]|].
  pose proof (Join_plain_not_empty _ Hne Hs) as Hj.
  destruct Hp as [->|[_ ->]]; cbn [String.append]; rewrite HasPrefix_slash.
  - rewrite HasSuffix_cons, plain_not_suffix by done. cbn [andb Split Ascii.eqb Bool.eqb].
    rewrite plain_Split_Join by done. pose proof (Clean_plain segs [] Hs (Forall_nil_2 _)) as Hc.
    rewrite app_nil_r in Hc. by rewrite Hc.
  - assert (HasSuffix (String "/" (Join segs "/" +:+ "/")) "/" = true) as ->.
    { apply HasSuffix_spec. exists (String "/" (Join segs "/")). split; [done|].
      apply (slice_to_suffix (String "/" (Join segs "/")) "/"). }
    cbn [Split Ascii.eqb Bool.eqb]. rewrite (Split_app_sep (Join segs "/") "" "/"), plain_Split_Join by done.
    change (Split "" "/") with [""].
    pose proof (Clean_plain segs [""] Hs ltac:(by constructor)) as ->. cbn [andb].
    rewrite bool_decide_false; [by cbn|]. cbn. by intros [= ?].
Qed.

Lemma cleanPath_fixed p : cleanPath p = p ↔ clean_path p.
Proof. split; [intros <-; apply cleanPath_clean | apply cleanPath_id]. Qed.

#[export] Instance clean_path_dec p : Decision (clean_path p).
Proof. refine (cast_if (decide (cleanPath p = p))); by rewrite <-cleanPath_fixed. Defined.

(** *** Matching *)

(** Decoding keeps slashes. *)
Lemma unescape_keeps_slash n : ∀ s d,
  (String.length s <= n)%nat → unescape s = Some d → ContainsByte s "/" = true → ContainsByte d "/" = true.
Proof.
  induction n as [|n IH]; intros [|a s] d Hn Hd Hs; try done; cbn in Hn; [lia|].
  cbn [unescape] in Hd. destruct (Ascii.eqb_spec a "%") as [->|Ha].
  - destruct s as [|h [|l s]]; try done.
    apply bind_Some in Hd as (hi & Hh & (lo & Hl & Hd)%bind_Some).
    apply fmap_Some in Hd as (d' & Hd & ->). cbn [ContainsByte] in *.
    destruct (Ascii.eqb_spec h "/") as [->|_]; [done|]. destruct (Ascii.eqb_spec l "/") as [->|_]; [done|].
    cbn in Hs, Hn. rewrite (IH s d') by (done || lia). apply orb_true_r.
  - apply fmap_Some in Hd as (d' & Hd & ->). cbn [ContainsByte] in *.
    apply orb_true_iff in Hs as [->|Hs]; [done|]. rewrite (IH s d') by (done || lia). apply orb_true_r.
Qed.

(** A literal pattern matches exactly the path it names, however encoded. *)
Lemma literal_matches e path lit :
  unescape (String "/" e) = Some path → ContainsByte lit "/" = false →
  negb (ContainsByte e "/") && bool_decide (default e (unescape e) = lit) =
  bool_decide (path = String "/" lit).
Proof.
  cbn [unescape Ascii.eqb Bool.eqb]. intros (d & Hd & ->)%fmap_Some Hl. rewrite Hd. cbn [default from_option id].
  apply eq_iff_eq_true. rewrite andb_true_iff, negb_true_iff, !bool_decide_eq_true. split.
  - by intros [_ ->].
  - intros [= ->]. split; [|done]. apply not_true_iff_false. intros He.
    by rewrite (unescape_keeps_slash (String.length e) e lit (le_n _) Hd He) in Hl.
Qed.

Definition reads (method : string) : bool := bool_decide (method ∈ ["GET"; "HEAD"]).

Lemma match_endpoint_spec method u :
  clean_path (EscapedPath u) →
  match_endpoint method (EscapedPath u) =
  Some (if reads method && bool_decide (u_Path u = "/health") then Health
        else if reads method && bool_decide (u_Path u = "/metrics") then Scrape
        else Current).
Proof.
  intros (segs & _ & Hp). pose proof (EscapedPath_decodes u) as Hd.
  assert (∃ e, EscapedPath u = String "/" e) as [e He] by (destruct Hp as [Hp|[_ Hp]]; rewrite Hp; by eexists).
  rewrite He in *. unfold match_endpoint, mux, pattern_matches. cbn [find fst snd fmap option_fmap option_map].
  change (HasSuffix "/health" "/") with false. change (HasSuffix "/metrics" "/") with false.
  change (HasSuffix "/" "/") with true. rewrite HasPrefix_slash.
  change (slice_from (String "/" e) 1) with (slice_from e 0).
  change (slice_from "/health" 1) with "health". change (slice_from "/metrics" 1) with "metrics".
  assert (slice_from e 0 = e) as -> by by destruct e. cbn [andb].
  rewrite !(literal_matches e (u_Path u)) by done.
  assert (bool_decide (method = "GET") || bool_decide ("GET" = "GET" ∧ method = "HEAD") = reads method) as ->.
  { unfold reads. apply eq_iff_eq_true. rewrite orb_true_iff, !bool_decide_eq_true. set_solver. }
  by destruct (reads method && bool_decide (u_Path u = "/health")),
    (reads method && bool_decide (u_Path u = "/metrics")).
Qed.

(** Without a percent sign there is nothing to decode. *)
Lemma unescape_plain s : ContainsByte s "%" = false → unescape s = Some s.
Proof.
  induction s as [|a s IH]; [done|]. cbn [ContainsByte unescape]. intros [-> Hs]%orb_false_iff.
  by rewrite IH.
Qed.

(** ** Properties *)



(** With percent encoding they can.  The multiplexer cleans the encoded path only,
    routes match the decoded one, and the director forgets the encoded one, so that
    dot segments that were hidden from the gateway stand in the clear on the request
    line to the upstream. *)
Theorem encoded_dots_reach_upstream `{RO : RangeOrder} `{NP : NetPackage} :
  ∃ u, setPath "/public/%2e%2e/admin" "" = Some u ∧ findHandler "GET" u = inr (Some Current) ∧
    ∀ upstream cfg timeout r h,
      up_PathRewrite (route_Upstream cfg) = "" →
      let out := out_request upstream cfg timeout (at_url u r) h in
      EscapedPath (mkURL (oq_Path out) (oq_RawPath out) (oq_RawQuery out)) = "/public/../admin".
Proof.
  eexists. split; [by vm_compute|]. split; [by vm_compute|].
  intros upstream cfg timeout r h Hrw out. unfold out, out_request. cbn [oq_Path oq_RawPath oq_RawQuery].
  unfold director_path. rewrite Hrw. cbn [r_Path at_url r_ctx u_Path].
  destruct (ctx_MatchedRoute (r_ctx r)); by vm_compute.
Qed.

(** ** Examples and witnesses *)

Example cleanPath_examples :
  cleanPath <$> ["/a//b/"; "/a/./b/../c"; "/../x"; ""; "/"] = ["/a/b/"; "/a/c"; "/x"; "/"; "/"].
Proof. by vm_compute. Qed.

(** A client that asks for the health of the gateway. *)
Definition probe (method : string) : Request :=
  mkRequest method "" "" "gw" "192.0.2.1:99" None 0 ctx_background.

Definition silent : Handler := λ _, mret tt.


