(* ===== verification/Transform.v ===== *)
(** * Request and response transforms (internal/middleware/transform)

    Header and body rewriting, with the variables that the configured values may
    mention.  JSON is the interface [JsonPackage], the RFC 3339 format is
    [TimeFormat]. *)

From S2P Require Import Prelude.
From S2P Require Import GoStrings.
From S2P Require Import Template.
From S2P Require Import ConfigTypes.
From S2P Require Import Http.
From S2P Require Import Middleware.
From S2P Require Import Proxy.

Local Open Scope Z_scope.

(** [json.Unmarshal] into a [map[string]any], which a [null] leaves nil, and
    [json.Marshal] of such a map. *)
Class JsonPackage : Type := {
  json_Unmarshal : string → result (option (gmap string value));
  json_Marshal_map : option (gmap string value) → result string;
  json_Unmarshal_null : json_Unmarshal "null" = Ok None;
}.

(** [t.UTC().Format(time.RFC3339)]. *)
Class TimeFormat : Type := { FormatRFC3339 : Z → string }.

Section transform.
Context `{NP : NetPackage} `{RO : RangeOrder} `{JP : JsonPackage} `{TF : TimeFormat}.

(** ** Variables *)

Definition clientIP (r : Request) : prog string :=
  xff ← req_header_get "X-Forwarded-For";
  mret (if bool_decide (xff = "") then default (r_RemoteAddr r) (SplitHostPort (r_RemoteAddr r))
        else match Cut xff "," with
             | Some (ip, _) => TrimSpace ip
             | None => TrimSpace xff
             end).

(** The replacement of a variable; an unknown one stays. *)
Definition variable (name : string) (r : Request) (latencyMs : option Z) : prog string :=
  if String.eqb name "request_id" then mret (RequestIDFromContext (r_ctx r))
  else if String.eqb name "client_ip" then clientIP r
  else if String.eqb name "timestamp_iso" then now ← emit Now; mret (FormatRFC3339 now)
  else if String.eqb name "timestamp_unix" then now ← emit Now; mret (Itoa (Unix now))
  else if String.eqb name "latency_ms" then
    mret (match latencyMs with Some l => Itoa l | None => "0" end)
  else if String.eqb name "route_name" then
    mret (match ctx_MatchedRoute (r_ctx r) with Some mr => route_Name (mt_Config mr) | None => "" end)
  else if String.eqb name "method" then mret (r_Method r)
  else if String.eqb name "path" then mret (r_Path r)
  else mret (match_text name).

Fixpoint resolve_tokens (toks : list token) (r : Request) (latencyMs : option Z) : prog string :=
  match toks with
  | [] => mret ""
  | Text a :: toks' => s ← resolve_tokens toks' r latencyMs; mret (String a s)
  | Var name :: toks' =>
      v ← variable name r latencyMs;
      s ← resolve_tokens toks' r latencyMs;
      mret (v +:+ s)
  end.

Definition resolveVariables (s : string) (r : Request) (latencyMs : option Z) : prog string :=
  resolve_tokens (tokens s) r latencyMs.

(** [mime]: the media type without its parameters. *)
Definition isJSON (ct : string) : bool :=
  let ct := match Cut ct ";" with Some (t, _) => t | None => ct end in
  bool_decide (TrimSpace ct = "application/json").

(** ** Headers *)

(** The removals and the renames of a header map. *)
Definition rename_header (h : Header) (on : string * string) : Header :=
  match hdr_values h on.1 with
  | [] => h
  | vals => foldl (λ h v, hdr_add h on.2 v) (hdr_del h on.1) vals
  end.

Definition remove_and_rename (cfg : HeaderTransform) (h : Header) : Header :=
  foldl rename_header (foldl hdr_del h (ht_Remove cfg)) (range (ht_Rename cfg)).

Section headers.
(** The map being rewritten: the request's or the buffered response's. *)
Variable get : prog Header.
Variable put : Header → prog unit.

Fixpoint set_headers (adds : list (string * string)) (r : Request) (latencyMs : option Z) : prog unit :=
  match adds with
  | [] => mret tt
  | (name, value) :: adds' =>
      v ← resolveVariables value r latencyMs;
      h ← get;
      put (hdr_set h name v);;
      set_headers adds' r latencyMs
  end.

Definition transformHeaders (cfg : option HeaderTransform) (r : Request) (latencyMs : option Z)
    : prog unit :=
  match cfg with
  | None => mret tt
  | Some cfg =>
      h ← get;
      put (remove_and_rename cfg h);;
      set_headers (range (ht_Add cfg)) r latencyMs
  end.
End headers.

(** ** Bodies *)

Definition rename_key (data : gmap string value) (on : string * string) : gmap string value :=
  match data !! on.1 with
  | Some val => delete on.1 (<[on.2 := val]> data)
  | None => data
  end.

Definition strip_and_rename (cfg : BodyTransform) (data : gmap string value) : gmap string value :=
  foldl rename_key (foldl (λ d field, delete field d) data (bt_StripFields cfg))
    (range (bt_RenameKeys cfg)).

(** A value to inject: the variables of a string are resolved. *)
Definition injected (v : value) (r : Request) (latencyMs : option Z) : prog value :=
  match v with
  | VString s => s' ← resolveVariables s r latencyMs; mret (VString s')
  | _ => mret v
  end.

(** Writing to a nil map panics. *)
Fixpoint inject_fields (fields : list (string * value)) (data : option (gmap string value))
    (r : Request) (latencyMs : option Z) : prog (option (gmap string value)) :=
  match fields with
  | [] => mret data
  | (key, v) :: fields' =>
      v' ← injected v r latencyMs;
      match data with
      | None => Panic "assignment to entry in nil map"
      | Some d => inject_fields fields' (Some (<[key := v']> d)) r latencyMs
      end
  end.

Definition transformBody (body : string) (cfg : option BodyTransform) (r : Request)
    (latencyMs : option Z) : prog (result string) :=
  match cfg with
  | None => mret (Ok body)
  | Some cfg =>
      if bool_decide (body = "") then mret (Ok body)
      else match json_Unmarshal body with
           | Err err =>
               emit (Log "DEBUG" "body transform: not a JSON object, passing through"
                       [AStr "error" (error_text err)]);;
               mret (Ok body)
           | Ok data =>
               data' ← inject_fields (range (bt_InjectFields cfg)) (strip_and_rename cfg <$> data)
                         r latencyMs;
               mret (json_Marshal_map data')
           end
  end.

Definition defaultMaxTransformBodySize : Z := Z.shiftl 10 20.

Definition effectiveMaxBody (configured : Z) : Z :=
  if configured >? 0 then configured else defaultMaxTransformBodySize.

(** ** Requests *)

Definition with_start_time (c : Context) (t : Z) : Context :=
  mkContext (ctx_RequestID c) (ctx_MatchedRoute c) (ctx_hasRouteHolder c) (ctx_AuthResult c) (Some t).

(** [io.LimitReader] with a limit that is not positive yields nothing. *)
Definition read_at_most (b : Body) (n : Z) : string * option string :=
  if n <=? 0 then ("", None) else ReadLimited b n.

(** A request body that was read: a reader over [body]. *)
Definition reread (r : Request) (body : string) : Request :=
  with_body r (Some (mkBody body None)) (r_ContentLength r).

(** What [RequestTransform] does with a JSON body: the new request, or [None]
    when the client was answered.  The sum [limit+1] is of type [int64]; a server
    request always has a body. *)
Definition transform_request_body (cfg : option BodyTransform) (limit : Z) (r : Request)
    : prog (option Request) :=
  let '(body, err) := read_at_most (default (mkBody "" None) (r_Body r)) (wrap64 (limit + 1)) in
  match err with
  | Some _ => writeJSON 502 "bad_gateway" "failed to read request body";; mret None
  | None =>
      if Z.of_nat (String.length body) >? limit then
        writeJSON 413 "request_too_large" "request body exceeds transform size limit";; mret None
      else if bool_decide (body = "") then mret (Some (reread r body))
      else
        transformed ← transformBody body cfg r None;
        match transformed with
        | Err _ => mret (Some (reread r body))
        | Ok t =>
            let n := Z.of_nat (String.length t) in
            h ← emit RHeader;
            emit (RHeaderPut (hdr_set h "Content-Length" (Itoa n)));;
            mret (Some (with_body r (Some (mkBody t None)) n))
        end
  end.

Definition RequestTransform (cfg : option DirectionTransform) (maxBodySize : Z) : Middleware :=
  λ next r,
    now ← emit Now;
    let r := WithContext r (with_start_time (r_ctx r) now) in
    match cfg with
    | None => next r
    | Some cfg =>
        transformHeaders (emit RHeader) (λ h, emit (RHeaderPut h)) (dt_Headers cfg) r None;;
        ct ← req_header_get "Content-Type";
        if bool_decide (dt_Body cfg ≠ None) && isJSON ct then
          o ← transform_request_body (dt_Body cfg) (effectiveMaxBody maxBodySize) r;
          match o with Some r' => next r' | None => mret tt end
        else next r
    end.

(** ** Responses *)

Record bufferingResponseWriter : Type := mkBuffer {
  buf_headers : Header;
  buf_body : string;
  buf_statusCode : Z;
  buf_wroteHeader : bool;
  buf_maxBody : Z;
  buf_exceeded : bool;
}.

Definition new_buffer (limit : Z) : bufferingResponseWriter := mkBuffer ∅ "" 200 false limit false.

Definition buf_WriteHeader (code : Z) (b : bufferingResponseWriter) : bufferingResponseWriter :=
  if buf_wroteHeader b then b
  else mkBuffer (buf_headers b) (buf_body b) code true (buf_maxBody b) (buf_exceeded b).

Definition buf_Write (p : string) (b : bufferingResponseWriter)
    : (Z * option error) * bufferingResponseWriter :=
  let len := Z.of_nat (String.length p) in
  if (buf_maxBody b >? 0) && (Z.of_nat (String.length (buf_body b)) + len >? buf_maxBody b)
  then ((0, Some (Errorf "response body exceeds transform size limit")),
        mkBuffer (buf_headers b) (buf_body b) (buf_statusCode b) true (buf_maxBody b) true)
  else ((len, None),
        mkBuffer (buf_headers b) (buf_body b +:+ p) (buf_statusCode b) true (buf_maxBody b)
          (buf_exceeded b)).

#[export] Instance Buffer_writer : ResponseWriter bufferingResponseWriter := {|
  rw_Header b := mret (buf_headers b, b);
  rw_HeaderPut h b := mret (mkBuffer h (buf_body b) (buf_statusCode b) (buf_wroteHeader b)
                              (buf_maxBody b) (buf_exceeded b));
  rw_WriteHeader code b := mret (Returned tt, buf_WriteHeader code b);
  rw_Write p b := mret (buf_Write p b);
  rw_Flush b := mret b;
  rw_Wrapped _ := None;
|}.

(** The time since [RequestTransform] stored its start time. *)
Definition latency (r : Request) : prog Z :=
  match ctx_StartTime (r_ctx r) with
  | Some start => now ← emit Now; mret (since_ms now start)
  | None => mret 0
  end.

(** The body to send. *)
Definition transform_response_body (cfg : option BodyTransform) (ct body : string) (r : Request)
    (latencyMs : Z) : prog string :=
  if bool_decide (cfg ≠ None) && isJSON ct && negb (bool_decide (body = "")) then
    transformed ← transformBody body cfg r (Some latencyMs);
    mret (match transformed with Ok t => t | Err _ => body end)
  else mret body.

(** Sending the buffered response. *)
Definition send_buffered (h : Header) (code : Z) (body : string) : prog unit :=
  let h := hdr_set (hdr_del h "Transfer-Encoding") "Content-Length"
             (Itoa (Z.of_nat (String.length body))) in
  add_headers (range h);;
  write_header code;;
  write body.

(** Rewriting the buffered headers. *)
Definition transform_response_headers (cfg : option HeaderTransform) (h : Header) (r : Request)
    (latencyMs : Z) : prog Header :=
  x ← with_writer (transformHeaders (emit WHeader) (λ h, emit (WHeaderPut h)) cfg r (Some latencyMs))
        (mkBuffer h "" 200 false 0 false);
  mret (buf_headers x.2).

Definition ResponseTransform (cfg : option DirectionTransform) (maxBodySize : Z) : Middleware :=
  λ next r,
    match cfg with
    | None => next r
    | Some cfg =>
        '(_, buf) ← with_writer (next r) (new_buffer (effectiveMaxBody maxBodySize));
        if buf_exceeded buf then
          writeJSON 502 "bad_gateway" "upstream response body exceeds transform size limit"
        else
          latencyMs ← latency r;
          h ← transform_response_headers (dt_Headers cfg) (buf_headers buf) r latencyMs;
          body ← transform_response_body (dt_Body cfg) (hdr_get h "Content-Type") (buf_body buf) r
                   latencyMs;
          send_buffered h (buf_statusCode buf) body
    end.
End transform.

(** ** Specification *)

Section variables.
Context `{NP : NetPackage} `{TF : TimeFormat}.

(** Who the request comes from, read off the header map [h]. *)
Definition client_of (r : Request) (h : Header) : string :=
  let xff := hdr_get h "X-Forwarded-For" in
  if bool_decide (xff = "") then default (r_RemoteAddr r) (SplitHostPort (r_RemoteAddr r))
  else TrimSpace (match Cut xff "," with Some (ip, _) => ip | None => xff end).

(** The variables of a request other than the times. *)
Definition variables (r : Request) (h : Header) (latencyMs : option Z) : gmap string string :=
  <["request_id" := default "" (ctx_RequestID (r_ctx r))]>
  (<["client_ip" := client_of r h]>
  (<["latency_ms" := match latencyMs with Some l => Itoa l | None => "0" end]>
  (<["route_name" := match ctx_MatchedRoute (r_ctx r) with
                     | Some mr => route_Name (mt_Config mr) | None => "" end]>
  (<["method" := r_Method r]> {["path" := r_Path r]})))).

Definition timeless (t : token) : Prop :=
  t ≠ Var "timestamp_iso" ∧ t ≠ Var "timestamp_unix".

(** ** Lemmas *)

Lemma variable_runs {W} (env : environment W) name r l c h w :
  timeless (Var name) →
  run (conn_req_env env) (variable name r l) (c, (h, w)) =
  (Returned (default (match_text name) (variables r h l !! name)), (c, (h, w))).
Proof.
  intros [H1 H2]. unfold variable.
  assert (name ≠ "timestamp_iso" ∧ name ≠ "timestamp_unix") as [H3 H4] by (split; congruence).
  rewrite (proj2 (String.eqb_neq name "timestamp_iso")), (proj2 (String.eqb_neq name "timestamp_unix"))
    by done.
  repeat match goal with |- context [String.eqb name ?s] =>
    let E := fresh in destruct (String.eqb_spec name s) as [->|E]; [try reflexivity|] end.
  - unfold clientIP, variables, client_of, req_header_get.
    rewrite lookup_insert_ne, lookup_insert_eq by done. cbn [default].
    do 2 rewrite run_mbind. cbn. case_bool_decide; [done|]. by destruct (Cut _ _) as [[]|].
  - unfold variables. rewrite !lookup_insert_ne, lookup_singleton_ne by congruence. done.
Qed.

Lemma variable_reader name r l : reader (variable name r l).
Proof.
  unfold variable.
  repeat match goal with |- context [String.eqb name ?s] => destruct (String.eqb name s) end;
    try apply reader_ret;
    apply reader_bind; try (intros; apply reader_ret); try (by apply reader_emit).
Qed.

Lemma resolveVariables_reader s r l : reader (resolveVariables s r l).
Proof.
  unfold resolveVariables. induction (tokens s) as [|[a|name] toks IH]; cbn [resolve_tokens].
  - apply reader_ret.
  - apply reader_bind; [done | intros; apply reader_ret].
  - apply reader_bind; [apply variable_reader|]. intros v.
    apply reader_bind; [done | intros; apply reader_ret].
Qed.

Lemma resolve_tokens_runs {W} (env : environment W) toks r l c h w :
  Forall timeless toks →
  run (conn_req_env env) (resolve_tokens toks r l) (c, (h, w)) =
  (Returned (render (λ name, default (match_text name) (variables r h l !! name)) toks), (c, (h, w))).
Proof.
  induction 1 as [|[a|name] toks Ht _ IH]; [done| |]; cbn [resolve_tokens render].
  - by rewrite run_mbind, IH.
  - by rewrite run_mbind, variable_runs, run_mbind, IH.
Qed.

End variables.

(** *** Renaming keys *)

Section bodies.
Context `{RO : RangeOrder}.

(** Renames that do not interfere: no key is both an old and a new name, and no
    two keys get the same new name. *)
Definition independent (renames : gmap string string) : Prop :=
  (∀ o n n', renames !! o = Some n → renames !! n = Some n' → False) ∧
  (∀ o o' n, renames !! o = Some n → renames !! o' = Some n → o = o').

Lemma rename_key_lookup data on k :
  on.1 ≠ on.2 →
  rename_key data on !! k =
  match data !! on.1 with
  | Some v => if decide (k = on.2) then Some v else if decide (k = on.1) then None else data !! k
  | None => data !! k
  end.
Proof.
  intros Hne. unfold rename_key. destruct (data !! on.1) as [v|] eqn:E; [|done].
  case_decide as E1; [|case_decide as E2].
  - subst. by rewrite lookup_delete_ne, lookup_insert_eq.
  - subst. by rewrite lookup_delete_eq.
  - by rewrite lookup_delete_ne, lookup_insert_ne by congruence.
Qed.

(** A rename list in which old names are distinct and the renames are
    independent, applied in its order. *)
Lemma rename_fold kvs : ∀ data k,
  NoDup kvs.*1 → NoDup kvs.*2 → (∀ o n, (o, n) ∈ kvs → o ∉ kvs.*2) →
  foldl rename_key data kvs !! k =
  match (list_to_map (prod_swap <$> kvs) : gmap string string) !! k with
  | Some o => match data !! o with Some v => Some v | None => data !! k end
  | None => if decide (k ∈ kvs.*1) then None else data !! k
  end.
Proof.
  induction kvs as [|[o n] kvs IH]; intros data k ND1 ND2 Hi; [done|].
  cbn [foldl]. rewrite fmap_cons in ND1, ND2.
  apply NoDup_cons in ND1 as [Ho ND1]. apply NoDup_cons in ND2 as [Hn ND2]. cbn [fst snd] in *.
  assert (o ≠ n) as Hon by (specialize (Hi o n ltac:(set_solver)); set_solver).
  rewrite IH; [|done|done|intros o' n' Hin; specialize (Hi o' n' ltac:(set_solver)); set_solver].
  rewrite rename_key_lookup by done. cbn [fst snd].
  rewrite !fmap_cons. cbn [prod_swap fst snd list_to_map foldr uncurry].
  destruct (list_to_map (prod_swap <$> kvs) !! k) as [o0|] eqn:E.
  - pose proof (elem_of_list_to_map_2 _ _ _ E) as Em. apply list_elem_of_fmap in Em as ([o1 k1] & [= E1 E2] & Hin).
    subst o1 k1. assert (k ∈ kvs.*2) by (apply list_elem_of_fmap; by eexists (_, _)).
    assert (o0 ∈ kvs.*1) by (apply list_elem_of_fmap; by eexists (_, _)).
    pose proof (Hi _ _ (list_elem_of_further _ _ _ Hin)) as Ho0.
    pose proof (Hi _ _ (list_elem_of_here (o, n) kvs)) as Ho1.
    rewrite lookup_insert_ne by set_solver. rewrite E.
    rewrite rename_key_lookup by done. cbn [fst snd].
    destruct (data !! o), (data !! o0); repeat case_decide; set_solver.
  - pose proof (not_elem_of_list_to_map_2 _ _ E) as Hk. rewrite <-list_fmap_compose in Hk.
    change (k ∉ kvs.*2) in Hk. destruct (decide (k = n)) as [->|Hkn].
    + rewrite lookup_insert_eq. rewrite decide_False; [done|].
      intros ([n' n''] & -> & Hin)%list_elem_of_fmap. cbn in *.
      pose proof (Hi _ _ (list_elem_of_further _ _ _ Hin)). set_solver.
    + rewrite lookup_insert_ne, E by done.
      destruct (data !! o) eqn:?; repeat case_decide; set_solver.
Qed.

Lemma strip_lookup (fields : list string) (data : gmap string value) k :
  foldl (λ d field, delete field d) data fields !! k =
  (if decide (k ∈ fields) then None else data !! k : option value).
Proof.
  revert data. induction fields as [|f fields IH]; intros data; [done|]. cbn [foldl].
  rewrite IH. destruct (decide (k = f)) as [->|Hne].
  - rewrite lookup_delete_eq. repeat case_decide; set_solver.
  - rewrite lookup_delete_ne by done. repeat case_decide; set_solver.
Qed.

(** A field of the object after stripping. *)
Definition stripped (cfg : BodyTransform) (data : gmap string value) (k : string) : option value :=
  if decide (k ∈ bt_StripFields cfg) then None else data !! k.

(** Stripping and renaming the fields of a JSON object: when the renames do
    not interfere, every field is decided by the configuration alone, in whatever
    order the map of renames is visited: a new name takes the value of its old
    name if there is one, old names are gone, all other fields stay. *)
Theorem strip_and_rename_fields cfg data k :
  independent (bt_RenameKeys cfg) →
  (∀ o, bt_RenameKeys cfg !! o = Some k →
     strip_and_rename cfg data !! k =
     match stripped cfg data o with Some v => Some v | None => stripped cfg data k end) ∧
  ((∀ o, bt_RenameKeys cfg !! o ≠ Some k) →
     strip_and_rename cfg data !! k =
     if decide (is_Some (bt_RenameKeys cfg !! k)) then None else stripped cfg data k).
Proof.
  intros [Hi1 Hi2]. unfold strip_and_rename, stripped.
  pose proof (λ o n, elem_of_range (bt_RenameKeys cfg) o n) as Hr.
  assert (∀ o, o ∈ (range (bt_RenameKeys cfg)).*1 ↔ is_Some (bt_RenameKeys cfg !! o)) as H1.
  { intros o. rewrite list_elem_of_fmap. split.
    - intros ([o' n] & -> & Hin%Hr). by exists n.
    - intros [n Hn%Hr]. by exists (o, n). }
  assert (∀ n, n ∈ (range (bt_RenameKeys cfg)).*2 ↔ ∃ o, bt_RenameKeys cfg !! o = Some n) as H2.
  { intros n. rewrite list_elem_of_fmap. split.
    - intros ([o n'] & -> & Hin%Hr). by exists o.
    - intros [o Ho%Hr]. by exists (o, n). }
  assert (NoDup (range (bt_RenameKeys cfg)).*2) as ND2.
  { apply NoDup_fmap_2_strong; [|rewrite range_perm; apply NoDup_map_to_list].
    intros [o n] [o' n'] Hx%Hr Hy%Hr. cbn. intros ->. f_equal. by eapply Hi2. }
  rewrite rename_fold;
    [|apply NoDup_range|done|].
  2: { intros o n Hon%Hr [o' Ho']%H2. eauto. }
  split.
  - intros o Ho. rewrite (elem_of_list_to_map_1 _ k o).
    + by rewrite !strip_lookup.
    + by rewrite <-list_fmap_compose.
    + apply list_elem_of_fmap. exists (o, k). split; [done | by apply Hr].
  - intros Hno. rewrite not_elem_of_list_to_map_1.
    + rewrite strip_lookup. by repeat case_decide; try (rewrite H1 in *; done).
    + rewrite <-list_fmap_compose. change (k ∉ (range (bt_RenameKeys cfg)).*2).
      rewrite H2. intros [o Ho]. by eapply Hno.
Qed.
End bodies.

(** Renames that form a chain depend on the order in which Go visits the map,
    which is random. *)
Theorem rename_chain_order_dependent :
  ∃ (cfg : BodyTransform) (data : gmap string value),
    strip_and_rename (RO := sorted_range) cfg data ≠ strip_and_rename (RO := reverse_range) cfg data.
Proof.
  exists (mkBodyTransform ∅ [] {["a" := "b"; "b" := "c"]}), {["a" := VNull]}.
  intros H. apply (f_equal (lookup "b")) in H. vm_compute in H. discriminate.
Qed.

(** *** Bodies *)

Section body_theorems.
Context `{NP : NetPackage} `{RO : RangeOrder} `{JP : JsonPackage} `{TF : TimeFormat}.

(** A configured value without the time variables, and what it becomes. *)
Definition timeless_value (v : value) : Prop :=
  match v with VString s => Forall timeless (tokens s) | _ => True end.

Definition expand (r : Request) (h : Header) (l : option Z) (v : value) : value :=
  match v with
  | VString s =>
      VString (render (λ name, default (match_text name) (variables r h l !! name)) (tokens s))
  | _ => v
  end.

Lemma injected_runs {W} (env : environment W) v r l c h w :
  timeless_value v →
  run (conn_req_env env) (injected v r l) (c, (h, w)) = (Returned (expand r h l v), (c, (h, w))).
Proof.
  intros Hv. destruct v; try done. cbn [injected expand].
  unfold resolveVariables. by rewrite run_mbind, resolve_tokens_runs.
Qed.

Lemma inject_fields_runs {W} (env : environment W) kvs : ∀ d r l c h w,
  Forall (λ kv, timeless_value kv.2) kvs →
  run (conn_req_env env) (inject_fields kvs (Some d) r l) (c, (h, w)) =
  (Returned (Some (foldl (λ d kv, <[kv.1 := expand r h l kv.2]> d) d kvs)), (c, (h, w))).
Proof.
  induction kvs as [|[k v] kvs IH]; intros d r l c h w; [done|].
  intros [Hv Hkvs]%Forall_cons. cbn [inject_fields foldl].
  by rewrite run_mbind, injected_runs, IH.
Qed.

Lemma foldl_insert_lookup (f : value → value) (kvs : list (string * value)) k : ∀ d,
  NoDup kvs.*1 →
  foldl (λ d kv, <[kv.1 := f kv.2]> d) d kvs !! k =
  match (list_to_map kvs : gmap string value) !! k with
  | Some v => Some (f v)
  | None => (d : gmap string value) !! k
  end.
Proof.
  induction kvs as [|[k' v] kvs IH]; intros d ND; [done|].
  rewrite fmap_cons in ND. apply NoDup_cons in ND as [Hn ND]. cbn [foldl]. rewrite IH by done.
  cbn [list_to_map foldr uncurry fst snd]. destruct (decide (k = k')) as [->|Hne].
  - by rewrite not_elem_of_list_to_map_1, !lookup_insert_eq.
  - by rewrite !lookup_insert_ne by done.
Qed.

(** The body of a JSON object becomes the document of the object in which the
    injected fields have their values, with variables resolved, and the remaining
    fields are those left by stripping and renaming; a body that is not a JSON
    object is kept byte for byte. *)
Theorem transformBody_object {W} (env : environment W) body cfg r l c h w :
  no_crash env → body ≠ "" →
  (∀ k v, bt_InjectFields cfg !! k = Some v → timeless_value v) →
  match json_Unmarshal body with
  | Ok (Some data) => ∃ out,
      run (conn_req_env env) (transformBody body (Some cfg) r l) (c, (h, w)) =
      (Returned (json_Marshal_map (Some out)), (c, (h, w))) ∧
      ∀ k, out !! k = match bt_InjectFields cfg !! k with
                      | Some v => Some (expand r h l v)
                      | None => strip_and_rename cfg data !! k
                      end
  | Ok None => True
  | Err _ => ∃ w', run (conn_req_env env) (transformBody body (Some cfg) r l) (c, (h, w)) =
      (Returned (Ok body), (c, (h, w')))
  end.
Proof.
  intros Hc Hb Ht. unfold transformBody. rewrite bool_decide_false by done.
  destruct (json_Unmarshal body) as [[data|]|err]; [|done|].
  - eexists. split.
    + cbn [fmap option_fmap option_map]. rewrite run_mbind, inject_fields_runs; [done|].
      apply Forall_forall. intros [k v] Hin%elem_of_range. by apply (Ht k).
    + intros k. by rewrite foldl_insert_lookup, list_to_map_range by apply NoDup_range.
  - rewrite run_mbind, run_emit, conn_req_env_pass by done.
    match goal with |- context [env unit ?e w] => destruct (Hc unit e w) as ([] & w' & ->) end.
    by exists w'.
Qed.

(** [inject_fields] on a nil map. *)
Lemma inject_nil_panics {W} (env : environment W) kvs r l c h w :
  no_crash env → kvs ≠ [] →
  ∃ st, run (conn_req_env env) (inject_fields kvs None r l) (c, (h, w)) =
    (Panicked "assignment to entry in nil map", st).
Proof.
  intros Hc Hk. destruct kvs as [|[k v] kvs]; [done|]. cbn [inject_fields]. rewrite run_mbind.
  destruct (reader_run env (injected v r l) c h w Hc) as (v' & w' & ->); [|by eexists].
  destruct v; try apply reader_ret.
  apply reader_bind; [apply resolveVariables_reader | intros; apply reader_ret].
Qed.

(** [transform_request_body] by cases on the body and the limit. *)
Lemma request_body_cases cfg limit r b :
  0 ≤ limit < max_int64 → r_Body r = Some b →
  transform_request_body cfg limit r =
  if Z.of_nat (String.length (body_data b)) >? limit then
    writeJSON 413 "request_too_large" "request body exceeds transform size limit";; mret None
  else match body_err b with
  | Some _ => writeJSON 502 "bad_gateway" "failed to read request body";; mret None
  | None =>
      if bool_decide (body_data b = "") then mret (Some (reread r ""))
      else
        transformed ← transformBody (body_data b) cfg r None;
        match transformed with
        | Err _ => mret (Some (reread r (body_data b)))
        | Ok t =>
            let n := Z.of_nat (String.length t) in
            h ← emit RHeader;
            emit (RHeaderPut (hdr_set h "Content-Length" (Itoa n)));;
            mret (Some (with_body r (Some (mkBody t None)) n))
        end
  end.
Proof.
  intros Hl Hb. unfold transform_request_body. rewrite Hb.
  rewrite wrap64_id by (unfold int64_range, min_int64; lia).
  change (default (mkBody "" None) (Some b)) with b. unfold read_at_most, ReadLimited.
  rewrite (proj2 (Z.leb_gt (limit + 1) 0)) by lia. rewrite Z.gtb_ltb.
  destruct (Z.of_nat (String.length (body_data b)) <? limit + 1) eqn:E.
  - apply Z.ltb_lt in E. rewrite (proj2 (Z.ltb_ge limit _)) by lia.
    destruct (body_err b); [done|]. rewrite Z.gtb_ltb, (proj2 (Z.ltb_ge limit _)) by lia.
    case_bool_decide as Hd; [by rewrite Hd | done].
  - apply Z.ltb_ge in E. rewrite (proj2 (Z.ltb_lt limit _)) by lia.
    assert (String.length (slice_to (body_data b) (Z.to_nat (limit + 1))) = Z.to_nat (limit + 1)) as Hlen.
    { apply length_slice_to. lia. }
    rewrite Hlen, Z.gtb_ltb, (proj2 (Z.ltb_lt limit _)) by lia. done.
Qed.

(** A body that is the JSON text [null] decodes to a nil map, and injecting a
    field into it panics: any client can make a route with injected request
    fields answer 500. *)
Theorem null_body_panics {W} (env : environment W) cfg n next r c h w :
  no_crash env → bt_InjectFields cfg ≠ ∅ → 4 ≤ effectiveMaxBody n < max_int64 →
  r_Body r = Some (mkBody "null" None) → hdr_get h "Content-Type" = "application/json" →
  ∃ st, run (conn_req_env env)
    (RequestTransform (Some (mkDirectionTransform None (Some cfg))) n next r) (c, (h, w)) =
    (Panicked "assignment to entry in nil map", st).
Proof.
  intros Hc Hi Hl Hb Hct. unfold RequestTransform. rewrite run_mbind, run_emit, conn_req_env_pass by done.
  destruct (Hc Z Now w) as (now & w1 & ->). cbn [dt_Headers dt_Body transformHeaders].
  rewrite run_mbind. cbn [run mret prog_ret]. rewrite run_mbind.
  change (run (conn_req_env env) (req_header_get "Content-Type") (c, (h, w1)))
    with (Returned (hdr_get h "Content-Type"), (c, (h, w1))). cbv beta iota. rewrite Hct.
  rewrite bool_decide_true by done. change (isJSON "application/json") with true. cbn [andb].
  rewrite run_mbind, (request_body_cases _ _ _ (mkBody "null" None)) by (done || lia).
  cbn [body_data body_err]. rewrite Z.gtb_ltb, (proj2 (Z.ltb_ge (effectiveMaxBody n) _)) by (cbn; lia).
  rewrite bool_decide_false by done. rewrite run_mbind. unfold transformBody.
  rewrite bool_decide_false, json_Unmarshal_null by done. cbn [fmap option_fmap option_map].
  rewrite run_mbind.
  destruct (inject_nil_panics env (range (bt_InjectFields cfg))
    (WithContext r (with_start_time (r_ctx r) now)) None c h w1 Hc) as [st Hp].
  { intros E. apply Hi. rewrite <-(list_to_map_range (bt_InjectFields cfg)), E. done. }
  exists st. by rewrite Hp.
Qed.

(** *** Requests *)

Lemma set_headers_runs {W} (env : environment W) adds r l : ∀ c h w,
  no_crash env →
  ∃ h' w', run (conn_req_env env)
    (set_headers (emit RHeader) (λ h, emit (RHeaderPut h)) adds r l) (c, (h, w)) =
    (Returned tt, (c, (h', w'))).
Proof.
  induction adds as [|[k v] adds IH]; intros c h w Hc; [by exists h, w|]. cbn [set_headers].
  rewrite run_mbind.
  destruct (reader_run env (resolveVariables v r l) c h w Hc (resolveVariables_reader _ _ _))
    as (s & w1 & ->).
  apply (IH c (hdr_set h k s) w1 Hc).
Qed.

Lemma transformHeaders_runs {W} (env : environment W) cfg r l c h w :
  no_crash env →
  ∃ h' w', run (conn_req_env env)
    (transformHeaders (emit RHeader) (λ h, emit (RHeaderPut h)) cfg r l) (c, (h, w)) =
    (Returned tt, (c, (h', w'))).
Proof.
  intros Hc. destruct cfg as [cfg|]; [|by exists h, w].
  apply (set_headers_runs env (range (ht_Add cfg)) r l c (remove_and_rename cfg h) w Hc).
Qed.

(** A request that the transform may pass on in place of [r]: its length, when the
    body was replaced by a document, is the length of that document. *)
Definition consistent (r r' : Request) (h' : Header) : Prop :=
  (r_Body r' = r_Body r ∧ r_ContentLength r' = r_ContentLength r) ∨
  (∃ b, r_Body r = Some b ∧ body_err b = None ∧ r_Body r' = Some (mkBody (body_data b) None) ∧
        r_ContentLength r' = r_ContentLength r) ∨
  (∃ t, r_Body r' = Some (mkBody t None) ∧ r_ContentLength r' = Z.of_nat (String.length t) ∧
        hdr_get h' "Content-Length" = Itoa (Z.of_nat (String.length t))).

Definition answered (c : Conn) (code : Z) (errCode message : string) : Conn :=
  let hd := hdr_set (conn_header c) "Content-Type" "application/json" in
  mkConn hd (Some (code, hd)) (conn_body c +:+ json_error errCode message) (conn_info c).

Lemma run_answer {W} (env : environment W) code ec msg (o : option Request) c h w :
  conn_sent c = None → 200 ≤ code ≤ 999 → bodyAllowedForStatus code = true →
  run (conn_req_env env) (writeJSON code ec msg;; mret o) (c, (h, w)) =
  (Returned o, (answered c code ec msg, (h, w))).
Proof.
  intros. unfold conn_req_env. by rewrite run_mbind, conn_writeJSON.
Qed.

Lemma reader_transformBody_ok {W} (env : environment W) body cfg r l c h w :
  no_crash env →
  ∃ o w', run (conn_req_env env) (transformBody body cfg r l) (c, (h, w)) = (o, (c, (h, w'))).
Proof.
  intros Hc. apply reads_only_run. unfold transformBody. destruct cfg as [cfg|]; [|done].
  case_bool_decide; [done|]. destruct (json_Unmarshal body) as [data|]; [|done].
  apply all_events_bind; [|done]. generalize (strip_and_rename cfg <$> data).
  induction (range (bt_InjectFields cfg)) as [|[k v] kvs IH]; intros d; [done|]. cbn [inject_fields].
  apply all_events_bind; [|intros; by destruct d].
  destruct v; try done.
  apply all_events_bind; [apply resolveVariables_reader | done].
Qed.

Lemma transform_request_body_runs {W} (env : environment W) cfg limit r b c h w :
  no_crash env → conn_sent c = None → 0 ≤ limit < max_int64 → r_Body r = Some b →
  let got := run (conn_req_env env) (transform_request_body cfg limit r) (c, (h, w)) in
  if Z.of_nat (String.length (body_data b)) >? limit then
    got = (Returned None, (answered c 413 "request_too_large"
             "request body exceeds transform size limit", (h, w)))
  else match body_err b with
  | Some _ => got = (Returned None, (answered c 502 "bad_gateway" "failed to read request body", (h, w)))
  | None => (∃ v st, got = (Panicked v, st)) ∨
            ∃ r' h' w', got = (Returned (Some r'), (c, (h', w'))) ∧ consistent r r' h' ∧
                        r_ctx r' = r_ctx r
  end.
Proof.
  intros Hc Hs Hl Hb. cbv zeta. rewrite (request_body_cases cfg limit r b Hl Hb).
  destruct (Z.of_nat (String.length (body_data b)) >? limit) eqn:Elen; [by apply run_answer|].
  destruct (body_err b) eqn:Ee; [by apply run_answer|].
  assert (∀ h', consistent r (reread r (body_data b)) h') as Hre.
  { intros h'. right. left. by exists b. }
  case_bool_decide as Ed.
  { right. exists (reread r ""), h, w. rewrite Ed in Hre. done. }
  rewrite run_mbind.
  destruct (reader_transformBody_ok env (body_data b) cfg r None c h w Hc) as ([[t|e]|v] & w1 & ->).
  - right. set (n := Z.of_nat (String.length t)).
    exists (with_body r (Some (mkBody t None)) n), (hdr_set h "Content-Length" (Itoa n)), w1.
    split; [reflexivity|]. split; [|done]. right. right. exists t. do 2 (split; [done|]).
    unfold hdr_get. rewrite hdr_values_set, decide_True by done. done.
  - right. exists (reread r (body_data b)), h, w1. done.
  - left. by eexists _, _.
Qed.

End body_theorems.

(** *** Responses *)

Section response_theorems.
Context `{NP : NetPackage} `{UP : UrlPackage} `{RO : RangeOrder} `{JP : JsonPackage} `{TF : TimeFormat}.
Context {W : Type} (env : environment W).
Hypothesis Hcrash : no_crash env.

(** Handlers that only put canonical header maps, as the methods of
    [http.Header] do. *)
Definition canonical_event : ∀ X, event X → Prop :=
  λ X e, match e with WHeaderPut h => canonical h | _ => True end.

(** The world of a handler behind the buffer. *)
Abbreviation buffered := (env_with (writer_handler bufferingResponseWriter) (conn_req_env env)).

Lemma buf_Write_headers p b : buf_headers (buf_Write p b).2 = buf_headers b.
Proof. unfold buf_Write. by case_match. Qed.

Lemma canonical_buffer c X (e : event X) buf h w :
  canonical_event X e → canonical (buf_headers buf) →
  ∃ o buf' h' w', buffered X e (buf, (c, (h, w))) = (o, (buf', (c, (h', w')))) ∧
    canonical (buf_headers buf').
Proof.
  intros He Hb.
  assert (Hread : read_event X e → ∃ o buf' h' w',
    buffered X e (buf, (c, (h, w))) = (o, (buf', (c, (h', w')))) ∧ canonical (buf_headers buf')).
  { intros Hr. rewrite (env_with_pass (writer_handler bufferingResponseWriter)) by (destruct e; first [done | destruct Hr]).
    destruct (read_event_pass env X e c h w Hr) as (o & w' & ->). by eexists _, _, h, w'. }
  destruct e; try (apply Hread; exact I); cbn in He.
  - by eexists _, _, h, w.
  - by eexists _, _, h, w.
  - eexists _, _, h, w. split; [reflexivity|]. cbn. unfold buf_WriteHeader. by case_match.
  - pose proof (buf_Write_headers b buf) as Hh. unfold env_with. cbn.
    destruct (buf_Write b buf) as [o buf']. eexists _, _, h, w. split; [reflexivity|].
    cbn in Hh. by rewrite Hh.
  - by eexists _, _, h, w.
  - by eexists _, _, h, w.
  - by eexists _, _, _, w.
Qed.

(** Behind the buffer a handler does not touch the connection. *)
Lemma buffer_run {A} (p : prog A) c buf h w :
  all_events canonical_event p → canonical (buf_headers buf) →
  ∃ o h' w', run (conn_req_env env) (with_writer p buf) (c, (h, w)) = (o, (c, (h', w'))) ∧
    match o with Returned (_, buf') => canonical (buf_headers buf') | Panicked _ => True end.
Proof.
  intros Hp Hb. unfold with_writer. rewrite run_handle.
  pose proof (run_invariant buffered canonical_event
    (λ st, st.2.1 = c ∧ canonical (buf_headers st.1)) p (buf, (c, (h, w)))) as H.
  destruct (run buffered p (buf, (c, (h, w)))) as [o [buf' [c' [h' w']]]].
  destruct H as [E Hb']; [|done..|]; cbn in *.
  - intros X e [b1 [c1 [h1 w1]]] He [E Hc1]. cbn in E, Hc1. subst c1.
    destruct (canonical_buffer c X e b1 h1 w1 He Hc1) as (o' & b2 & h2 & w2 & -> & Hb2). done.
  - subst. destruct o as [a|v]; by eexists _, h', w'.
Qed.

Lemma canonical_rename cfg h : canonical h → canonical (remove_and_rename cfg h).
Proof.
  intros Hh. unfold remove_and_rename.
  assert (∀ l h, canonical h → canonical (foldl hdr_del h l)) as Hd.
  { induction l as [|k l IH]; intros h' Hh'; [done|]. apply IH. auto with gateway. }
  specialize (Hd (ht_Remove cfg) h Hh). revert Hd. generalize (foldl hdr_del h (ht_Remove cfg)).
  clear h Hh. induction (range (ht_Rename cfg)) as [|[o n] l IH]; intros h Hh; [done|].
  cbn [foldl]. apply IH. unfold rename_header. destruct (hdr_values h _) as [|v vals]; [done|].
  generalize (v :: vals). cbn [fst snd]. intros vs. assert (canonical (hdr_del h o)) as Hx by auto with gateway.
  revert Hx. generalize (hdr_del h o). induction vs as [|x vs IHv]; intros h1 H1; [done|].
  apply IHv. auto with gateway.
Qed.

Lemma set_headers_buffer adds r l c : ∀ hd h w,
  canonical hd →
  ∃ o h' w' hd', run buffered (set_headers (emit WHeader) (λ h, emit (WHeaderPut h)) adds r l)
      (mkBuffer hd "" 200 false 0 false, (c, (h, w))) =
    (o, (mkBuffer hd' "" 200 false 0 false, (c, (h', w')))) ∧ canonical hd' ∧ o = Returned tt.
Proof using Hcrash.
  induction adds as [|[k v] adds IH]; intros hd h w Hhd; [by eexists _, _, _, hd|].
  cbn [set_headers]. rewrite run_mbind.
  assert (∃ s w1, run buffered (resolveVariables v r l)
    (mkBuffer hd "" 200 false 0 false, (c, (h, w))) =
    (Returned s, (mkBuffer hd "" 200 false 0 false, (c, (h, w1))))) as (s & w1 & ->).
  { pose proof (resolveVariables_reader v r l) as [Hr Hn].
    assert (∀ A (p : prog A) w, all_events read_event p →
      run buffered p (mkBuffer hd "" 200 false 0 false, (c, (h, w))) =
      let '(o, st) := run (conn_req_env env) p (c, (h, w)) in
      (o, (mkBuffer hd "" 200 false 0 false, st))) as Hpass.
    { clear -Hcrash. intros A p. induction p as [a|x|X e k IH]; intros w Hp; [done..|].
      destruct Hp as [He Hk]. cbn [run].
      rewrite (env_with_pass (writer_handler bufferingResponseWriter))
        by (destruct e; first [done | destruct He]).
      destruct (read_event_pass env X e c h w He) as (o & w' & ->).
      destruct o; [by apply IH | done]. }
    rewrite Hpass by done.
    destruct (reader_run env _ c h w Hcrash (conj Hr Hn)) as (a & w' & ->). by exists a, w'. }
  apply (IH (hdr_set hd k s) h w1). auto with gateway.
Qed.

Lemma response_headers_run cfg hd r l c h w :
  canonical hd →
  ∃ hd' h' w', run (conn_req_env env) (transform_response_headers cfg hd r l) (c, (h, w)) =
    (Returned hd', (c, (h', w'))) ∧ canonical hd'.
Proof using Hcrash.
  intros Hhd. unfold transform_response_headers. rewrite run_mbind. unfold with_writer.
  rewrite run_handle. destruct cfg as [cfg|]; [|by exists hd, h, w].
  unfold transformHeaders. rewrite run_mbind, run_emit.
  change (buffered _ WHeader (mkBuffer hd "" 200 false 0 false, (c, (h, w)))) with
    (@Returned Header hd, (mkBuffer hd "" 200 false 0 false, (c, (h, w)))). cbv beta iota.
  rewrite run_mbind, run_emit.
  change (buffered _ (WHeaderPut (remove_and_rename cfg hd)) (mkBuffer hd "" 200 false 0 false, (c, (h, w))))
    with (Returned tt, (mkBuffer (remove_and_rename cfg hd) "" 200 false 0 false, (c, (h, w)))).
  cbv beta iota.
  destruct (set_headers_buffer (range (ht_Add cfg)) r (Some l) c (remove_and_rename cfg hd) h w)
    as (o & h' & w' & hd' & -> & Hc & ->); [by apply canonical_rename|].
  by exists hd', h', w'.
Qed.

(** The header map of a buffered response as it is sent. *)
Definition sent_header (hd : Header) (body : string) (c : Conn) : Header :=
  add_all (range (hdr_set (hdr_del hd "Transfer-Encoding") "Content-Length"
                    (Itoa (Z.of_nat (String.length body))))) (conn_header c).

Lemma sent_header_length hd body c :
  canonical hd → hdr_values (conn_header c) "Content-Length" = [] →
  hdr_values (sent_header hd body c) "Content-Length" = [Itoa (Z.of_nat (String.length body))].
Proof.
  intros Hhd Hc. unfold sent_header. rewrite hdr_values_add_all by auto with gateway.
  rewrite Hc, hdr_values_set. by rewrite decide_True.
Qed.

(** What is on the wire agrees with its declared length. *)
Definition length_declared (c : Conn) : Prop :=
  bodyAllowedForStatus (conn_status c) = true →
  hdr_values (conn_headers c) "Content-Length" = [Itoa (Z.of_nat (String.length (conn_body c)))].

Lemma run_send_buffered hd code body c h w :
  conn_sent c = None → conn_body c = "" → canonical hd →
  hdr_values (conn_header c) "Content-Length" = [] →
  match run (conn_req_env env) (send_buffered hd code body) (c, (h, w)) with
  | (Returned _, (c', _)) => length_declared c'
  | (Panicked _, (c', _)) => conn_sent c' = None
  end.
Proof.
  intros Hs Hb Hhd Hcl. pose proof (sent_header_length hd body c Hhd Hcl) as Hlen.
  unfold send_buffered, conn_req_env. rewrite run_mbind, conn_add_headers. cbv beta iota.
  fold (sent_header hd body c). set (hd1 := sent_header hd body c) in *. clearbody hd1.
  rewrite run_mbind. unfold write_header. rewrite run_mbind, run_emit.
  destruct c as [ch cs cb ci]. cbn in Hs, Hb. subst. unfold with_hdr, conn_env, env_with.
  cbn. unfold conn_WriteHeader. cbn.
  assert (∀ cs ci, (cs = None ∨ ∃ code, cs = Some (code, hd1)) →
    length_declared (conn_Write body (mkConn hd1 cs "" ci)).2) as Hw.
  { intros cs' ci' Hcs. unfold length_declared, conn_Write, conn_commit. cbn.
    destruct Hcs as [-> | [code' ->]]; cbn; case_bool_decide as E; cbn.
    - by rewrite E in *.
    - done.
    - by rewrite E in *.
    - destruct (bodyAllowedForStatus code') eqn:Ea; cbn; [done|]. unfold conn_status. cbn. congruence. }
  destruct ((code <? 100) || (code >? 999)); [done|].
  destruct (is_informational code); cbn.
  - pose proof (Hw None (ci ++ [(code, hd1)]) (or_introl eq_refl)) as H.
    by destruct (conn_Write body _) as [[] ?].
  - pose proof (Hw (Some (code, hd1)) ci (or_intror (ex_intro _ code eq_refl))) as H.
    by destruct (conn_Write body _) as [[] ?].
Qed.

(** C29: a transformed response declares exactly the length of the body it sends,
    whatever the handler declared or wrote and however the body was changed; a
    panic on the way leaves the response unsent; and a response over the limit is
    replaced by a 502 document. *)
Theorem ResponseTransform_length cfg n next r c h w :
  conn_sent c = None → conn_body c = "" → hdr_values (conn_header c) "Content-Length" = [] →
  all_events canonical_event (next r) →
  match run (conn_req_env env) (ResponseTransform (Some cfg) n next r) (c, (h, w)) with
  | (Returned _, (c', _)) =>
      length_declared c' ∨
      c' = answered c 502 "bad_gateway" "upstream response body exceeds transform size limit"
  | (Panicked _, (c', _)) => conn_sent c' = None
  end.
Proof using Hcrash.
  intros Hs Hb Hcl Hnext. unfold ResponseTransform. rewrite run_mbind.
  destruct (buffer_run (next r) c (new_buffer (effectiveMaxBody n)) h w Hnext canonical_empty)
    as (o & h1 & w1 & -> & Ho).
  destruct o as [[[] buf]|v]; [|done]. cbv beta iota. destruct (buf_exceeded buf).
  { unfold conn_req_env. rewrite conn_writeJSON by (done || lia). by right. }
  rewrite run_mbind.
  assert (reader (latency r)) as Hlat.
  { unfold latency. destruct (ctx_StartTime _); [|apply reader_ret].
    apply reader_bind; [by apply reader_emit | intros; apply reader_ret]. }
  destruct (reader_run env (latency r) c h1 w1 Hcrash Hlat) as (l & w2 & ->).
  rewrite run_mbind.
  destruct (response_headers_run (dt_Headers cfg) (buf_headers buf) r l c h1 w2 Ho)
    as (hd & h2 & w3 & -> & Hhd).
  rewrite run_mbind. unfold transform_response_body. destruct (_ && _ && _).
  - rewrite run_mbind.
    destruct (reader_transformBody_ok env (buf_body buf) (dt_Body cfg) r (Some l) c h2 w3 Hcrash)
      as ([t|v] & w4 & ->); [|done]. cbn [run mret prog_ret].
    pose proof (run_send_buffered hd (buf_statusCode buf)
      (match t with Ok t => t | Err _ => buf_body buf end) c h2 w4 Hs Hb Hhd Hcl) as H.
    destruct (run _ (send_buffered _ _ _) _) as [[[]|] [c' hw]]; [by left | done].
  - cbn [run mret prog_ret].
    pose proof (run_send_buffered hd (buf_statusCode buf) (buf_body buf) c h2 w3 Hs Hb Hhd Hcl) as H.
    destruct (run _ (send_buffered _ _ _) _) as [[[]|] [c' hw]]; [by left | done].
Qed.

(** *** The transform in front of the proxy *)

Lemma buffer_add_headers kvs body code wrote limit ex st : ∀ hd,
  ∃ hd', run buffered (add_headers kvs) (mkBuffer hd body code wrote limit ex, st) =
    (Returned tt, (mkBuffer hd' body code wrote limit ex, st)).
Proof.
  induction kvs as [|[k vals] kvs IH]; intros hd; [by exists hd|]. cbn [add_headers].
  rewrite run_mbind.
  assert (∃ hd1, run buffered (add_values k vals) (mkBuffer hd body code wrote limit ex, st) =
    (Returned tt, (mkBuffer hd1 body code wrote limit ex, st))) as [hd1 ->]; [|by apply IH].
  revert hd. induction vals as [|v vals IHv]; intros hd; [by exists hd|]. cbn [add_values].
  rewrite run_mbind.
  change (run buffered (header_add k v) (mkBuffer hd body code wrote limit ex, st))
    with (Returned tt, (mkBuffer (hdr_add hd k v) body code wrote limit ex, st)). cbv beta iota.
  apply IHv.
Qed.

(** A response over the limit that comes from the proxy is not answered by the
    502 document of the transform: the refused write makes the proxy abort with a
    panic, which passes the transform by, and the client gets the 500 document of
    [Recovery]. *)
Theorem oversized_response_is_500 handleUpgradeResponse upstream routeCfg timeout cfg n r c h w resp :
  conn_sent c = None → conn_body c = "" → is_print (upgradeType h) = true →
  upstream_answers env (out_request upstream routeCfg timeout r h) (Ok resp) →
  hp_Status resp ≠ 101 →
  effectiveMaxBody n < Z.of_nat (String.length (body_data (hp_Body resp))) →
  ∃ c' hw, run (conn_req_env env)
    (Recovery (ResponseTransform (Some cfg) n
       (proxy_serve handleUpgradeResponse upstream routeCfg timeout)) r) (c, (h, w)) =
    (Returned tt, (c', hw)) ∧
    conn_status c' = 500 ∧ conn_body c' = json_error "internal_error" "Internal server error".
Proof using Hcrash.
  intros Hs Hb Hp Hup Hst Hlen.
  set (next := proxy_serve handleUpgradeResponse upstream routeCfg timeout).
  assert (0 < effectiveMaxBody n) as Hpos.
  { unfold effectiveMaxBody. case_match eqn:E; [apply Z.gtb_lt in E; lia | done]. }
  assert (∃ hw, run (conn_req_env env) (ResponseTransform (Some cfg) n next r) (c, (h, w)) =
    (Panicked ErrAbortHandler, (c, hw))) as [hw Hrun].
  { unfold ResponseTransform. rewrite run_mbind. unfold with_writer. rewrite run_handle.
    unfold next, proxy_serve. rewrite run_mbind.
    change (run buffered (emit RHeader) (new_buffer (effectiveMaxBody n), (c, (h, w))))
      with (Returned h, (new_buffer (effectiveMaxBody n), (c, (h, w)))).
    cbv beta iota zeta. rewrite run_mbind, run_emit.
    rewrite (env_with_pass (writer_handler bufferingResponseWriter)), conn_req_env_pass by done.
    match goal with |- context [env unit ?l w] => destruct (Hcrash unit l w) as ([] & w1 & ->) end.
    rewrite Hp. cbn [negb]. rewrite run_mbind, run_emit.
    rewrite (env_with_pass (writer_handler bufferingResponseWriter)), conn_req_env_pass by done.
    destruct (Hup w1) as [w2 ->]. rewrite run_mbind. cbn [forward_all run mret prog_ret].
    rewrite (proj2 (Z.eqb_neq _ _) Hst). unfold copy_response. rewrite run_mbind. unfold new_buffer.
    destruct (buffer_add_headers (range (removeHopByHopHeaders (hp_Header resp))) "" 200 false
      (effectiveMaxBody n) false (c, (h, w2)) ∅) as [hd ->].
    rewrite run_mbind.
    change (run buffered (write_header (hp_Status resp))
      (mkBuffer hd "" 200 false (effectiveMaxBody n) false, (c, (h, w2)))) with
      (Returned tt, (mkBuffer hd "" (hp_Status resp) true (effectiveMaxBody n) false, (c, (h, w2)))).
    cbv beta iota. unfold copy_body. rewrite run_mbind.
    rewrite bool_decide_false by (intros E; rewrite E in Hlen; cbn in Hlen; lia).
    rewrite run_mbind, run_emit. unfold env_with at 1. cbn. unfold buf_Write. cbn.
    rewrite !Z.gtb_ltb, (proj2 (Z.ltb_lt 0 _)), (proj2 (Z.ltb_lt (effectiveMaxBody n) _)) by lia.
    by exists (h, w2). }
  pose proof (Recovery_run (req_env env) (ResponseTransform (Some cfg) n next) r c (h, w)
    (req_env_no_crash env Hcrash)) as HR.
  fold (conn_req_env env) in HR. rewrite Hrun in HR. destruct HR as [[h'' w''] HR].
  unfold recovered in HR. rewrite Hs, Hb in HR. eexists _, _. split; [exact HR|]. done.
Qed.
End response_theorems.

(** ** Witnesses *)

(** Objects without fields or with one. *)
#[refine] Definition toy_json : JsonPackage := {|
  json_Unmarshal s :=
    if String.eqb s "null" then Ok None
    else if String.eqb s "{a}" then Ok (Some {["a" := VBool true]})
    else Err (Errorf "invalid character");
  json_Marshal_map m :=
    Ok (match m with
        | Some d => "{" +:+ Join (map_to_list d).*1 "," +:+ "}"
        | None => "null"
        end);
|}.
Proof. reflexivity. Defined.

Definition toy_time : TimeFormat := {| FormatRFC3339 _ := "1970-01-01T00:00:00Z" |}.

Definition json_request (body : string) : Request :=
  mkRequest "POST" "/${path}" "" "example.com" "192.0.2.1:1234" (Some (mkBody body None)) (-1)
    ctx_background.

Definition json_header : Header := {["Content-Type" := ["application/json"]]}.

Definition inject_user : BodyTransform := mkBodyTransform {["user" := VString "${method}"]} [] {["a" := "b"]}.


Lemma strip_and_rename_fields_witness :
  let RO := sorted_range in
  strip_and_rename inject_user {["a" := VBool true]} !! "b" = Some (VBool true).
Proof.
  intros RO. assert (Hi : independent (bt_RenameKeys inject_user)).
  { split; cbn; intros *; rewrite !lookup_singleton_Some; intros [<- <-]; intros [? ?]; congruence. }
  etrans; [apply (proj1 (strip_and_rename_fields inject_user {["a" := VBool true]} "b" Hi) "a");
    reflexivity | reflexivity].
Defined.

Lemma transformBody_object_witness :
  let NP := text_net in let RO := sorted_range in let JP := toy_json in let TF := toy_time in
  ∃ out, run (conn_req_env quiet_env) (transformBody "{a}" (Some inject_user) (json_request "{a}") None)
    (new_conn, (json_header, tt)) = (Returned (json_Marshal_map (Some out)), (new_conn, (json_header, tt))) ∧
  out !! "user" = Some (VString "POST").
Proof.
  intros NP RO JP TF.
  destruct (transformBody_object quiet_env "{a}" inject_user (json_request "{a}") None new_conn
    json_header tt quiet_env_no_crash) as (out & Hrun & Hk); [discriminate| |].
  - cbn. intros k v [<- <-]%lookup_singleton_Some. cbn.
    apply (bool_decide_unpack (Forall (λ t, t ≠ Var "timestamp_iso" ∧ t ≠ Var "timestamp_unix")
      (tokens "${method}"))). vm_compute. exact I.
  - exists out. split; [exact Hrun|]. rewrite Hk. vm_compute. reflexivity.
Defined.

Lemma null_body_panics_witness :
  let NP := text_net in let RO := sorted_range in let JP := toy_json in let TF := toy_time in
  ∃ st, run (conn_req_env quiet_env)
    (RequestTransform (Some (mkDirectionTransform None (Some inject_user))) 0 plain_handler
       (json_request "null")) (new_conn, (json_header, tt)) =
    (Panicked "assignment to entry in nil map", st).
Proof.
  intros NP RO JP TF.
  apply (null_body_panics quiet_env inject_user 0 plain_handler (json_request "null") new_conn json_header tt);
    [apply quiet_env_no_crash | | split; vm_compute; [discriminate | reflexivity]
    | reflexivity | reflexivity].
  intros E. apply (f_equal (lookup "user")) in E. vm_compute in E. discriminate E.
Defined.


Definition hello_length : Header := {["Content-Length" := ["5"]]}.

Lemma ResponseTransform_length_witness :
  let NP := text_net in let RO := sorted_range in let JP := toy_json in let TF := toy_time in
  let c' := mkConn hello_length (Some (200, hello_length)) "hello" [] in
  run (conn_req_env quiet_env)
    (ResponseTransform (Some (mkDirectionTransform None None)) 0 (λ _, write "hello") witness_request)
    (new_conn, (∅, tt)) = (Returned tt, (c', (∅, tt))) ∧
  (length_declared c' ∨
   c' = answered new_conn 502 "bad_gateway" "upstream response body exceeds transform size limit").
Proof.
  intros NP RO JP TF c'.
  pose proof (ResponseTransform_length quiet_env quiet_env_no_crash (mkDirectionTransform None None) 0
    (λ _, write "hello") witness_request new_conn ∅ tt eq_refl eq_refl eq_refl
    ltac:(split; [exact I | intros x; exact I])) as H.
  assert (E : run (conn_req_env quiet_env)
    (ResponseTransform (Some (mkDirectionTransform None None)) 0 (λ _, write "hello") witness_request)
    (new_conn, (∅, tt)) = (Returned tt, (c', (∅, tt)))) by (vm_compute; reflexivity).
  rewrite E in H. split; [exact E | exact H].
Defined.

Lemma oversized_response_is_500_witness :
  let NP := text_net in let UP := text_url in let RO := sorted_range in
  let JP := toy_json in let TF := toy_time in
  ∃ c' hw, run (conn_req_env (upstream_env (mkBody "hello" None)))
    (Recovery (ResponseTransform (Some (mkDirectionTransform None None)) 4
       (proxy_serve no_upgrade ("http", "up") proxied_route Second)) witness_request)
    (new_conn, (∅, tt)) = (Returned tt, (c', hw)) ∧
    conn_status c' = 500 ∧ conn_body c' = json_error "internal_error" "Internal server error".
Proof.
  intros NP UP RO JP TF.
  apply (oversized_response_is_500 (upstream_env (mkBody "hello" None)) (upstream_env_no_crash _)
    no_upgrade ("http", "up") proxied_route Second (mkDirectionTransform None None) 4 witness_request
    new_conn ∅ tt (mkHttpResponse 200 {["Content-Type" := ["text/plain"]]} (mkBody "hello" None)));
    try reflexivity; [intros w; eexists; reflexivity | discriminate].
Defined.
