(* ===== verification/Effects.v ===== *)
(** * What the handlers may do to their surroundings

    Every event has a price, and its answer may earn credit; [costs price m p]
    says that on no branch the program [p] spends more than [m] and what it has
    earned.  A pricing that concerns only requests to upstreams, metric samples
    that the collector does not take, and questions to the limiter is [Tame], and
    under every tame pricing each middleware costs what its next handler costs,
    the proxy what its upstream request costs, and retries as much as their
    attempts.  The theorems about upstream requests, about samples and about rate
    limits are instances. *)

From S2P Require Import Prelude.
From S2P Require Import GoStrings.
From S2P Require Import Template.
From S2P Require Import ConfigTypes.
From S2P Require Import CircuitBreaker.
From S2P Require Import Http.
From S2P Require Import Metrics.
From S2P Require Import Middleware.
From S2P Require Import Router.
From S2P Require Import Cors.
From S2P Require Import Observability.
From S2P Require Import Retry.
From S2P Require Import RateLimit.
From S2P Require Import Auth.
From S2P Require Import Proxy.
From S2P Require Import Transform.

Local Open Scope Z_scope.

(** ** Costs *)

Record pricing : Type := mkPricing {
  charge : ∀ X, event X → nat;
  earn : ∀ X, event X → X → nat;
}.

Definition no_earnings : ∀ X, event X → X → nat := λ _ _ _, 0%nat.

Fixpoint costs {A} (price : pricing) (m : nat) (p : prog A) : Prop :=
  match p with
  | Ret _ | Panic _ => True
  | Vis e k => (charge price _ e ≤ m)%nat ∧
      ∀ x, costs price (m - charge price _ e + earn price _ e x) (k x)
  end.

Lemma costs_mono {A} price m m' (p : prog A) : (m ≤ m')%nat → costs price m p → costs price m' p.
Proof.
  revert m m'. induction p as [| |X e k IH]; intros m m' Hm; [done..|]. intros [He Hk].
  split; [lia|]. intros x. eapply IH; [|apply Hk]. lia.
Qed.

Lemma costs_bind {A B} price m n (p : prog A) (f : A → prog B) :
  costs price m p → (∀ a, costs price n (f a)) → costs price (m + n) (p ≫= f).
Proof.
  intros Hp Hf. change (costs price (m + n) (prog_bind p f)).
  revert m Hp. induction p as [a| |X e k IH]; intros m Hp; cbn; [|done|].
  - eapply costs_mono; [|apply Hf]. lia.
  - destruct Hp as [He Hk]. split; [lia|]. intros x.
    replace (m + n - charge price X e + earn price X e x)%nat
      with (m - charge price X e + earn price X e x + n)%nat by lia. by apply IH.
Qed.

Lemma costs_bind_l {A B} price m (p : prog A) (f : A → prog B) :
  costs price 0 p → (∀ a, costs price m (f a)) → costs price m (p ≫= f).
Proof. apply (costs_bind price 0 m). Qed.

Lemma costs_bind_r {A B} price m (p : prog A) (f : A → prog B) :
  costs price m p → (∀ a, costs price 0 (f a)) → costs price m (p ≫= f).
Proof. intros Hp Hf. rewrite <-(Nat.add_0_r m). by apply costs_bind. Qed.

Lemma costs_catch {A} price m (p : prog A) h :
  costs price m p → (∀ v, costs price 0 (h v)) → costs price m (catch p h).
Proof.
  intros Hp Hh. revert m Hp. induction p as [| |X e k IH]; intros m Hp; cbn; [done| |].
  - eapply costs_mono; [|apply Hh]. lia.
  - destruct Hp as [He Hk]. split; [done|]. intros x. by apply IH.
Qed.

Lemma costs_emit {X} price m (e : event X) : (charge price X e ≤ m)%nat → costs price m (emit e).
Proof. by split. Qed.

Lemma costs_vis {A X} price m (e : event X) (k : X → prog A) :
  charge price X e = 0%nat → (∀ x, costs price m (k x)) → costs price m (Vis e k).
Proof.
  intros He Hk. split; rewrite He; [lia|]. intros x. eapply costs_mono; [|apply Hk]. lia.
Qed.

(** What a program that costs nothing and earns nothing does. *)
Lemma costs_0_all_events {A} charge (Q : ∀ X, event X → Prop) (p : prog A) :
  (∀ X (e : event X), charge X e = 0%nat → Q X e) →
  costs (mkPricing charge no_earnings) 0 p → all_events Q p.
Proof.
  intros HQ. induction p as [| |X e k IH]; [done..|]. intros [He Hk].
  split; [apply HQ; cbn in He; lia|]. intros x. apply IH. specialize (Hk x). cbn in He, Hk.
  by replace (0 - charge X e + no_earnings X e x)%nat with 0%nat in Hk by (unfold no_earnings; lia).
Qed.

Lemma all_events_costs {A} charge (Q : ∀ X, event X → Prop) m (p : prog A) :
  (∀ X (e : event X), Q X e → charge X e = 0%nat) →
  all_events Q p → costs (mkPricing charge no_earnings) m p.
Proof.
  intros HQ. induction p as [| |X e k IH]; [done..|]. intros [He Hk].
  apply costs_vis; [by apply HQ | auto].
Qed.

(** A program costs what follows costs for the values it can return. *)
Lemma costs_returns {A B} price m (R : A → Prop) (p : prog A) (f : A → prog B) :
  costs price 0 p → ends R any_value p → (∀ a, R a → costs price m (f a)) →
  costs price m (p ≫= f).
Proof.
  intros Hp Hr Hf. change (costs price m (prog_bind p f)).
  assert (∀ k, costs price k p → costs price (k + m) (prog_bind p f)) as H; [|by apply (H 0%nat)].
  clear Hp. induction p as [a| |X e k IH]; intros n Hp; cbn; [|done|].
  - eapply costs_mono; [|by apply Hf]. lia.
  - destruct Hp as [He Hk]. split; [lia|]. intros x.
    replace (n + m - charge price X e + earn price X e x)%nat
      with (n - charge price X e + earn price X e x + m)%nat by lia. by apply IH.
Qed.

(** ** Tame prices *)

(** The samples that the gateway produces: the collector takes them, and none is
    for the vector of upstream errors. *)
Definition sample_name (m : metric) : string :=
  match m with MInc name _ | MObserve name _ _ | MSet name _ _ => name end.

Definition produced (m : metric) : bool :=
  Metrics.accepts m && negb (bool_decide (sample_name m = "gateway_upstream_errors_total")).

Class Tame (price : pricing) : Prop := {
  tame_sample m : produced m = true → charge price _ (Emit m) = 0%nat;
  tame_rest X (e : event X) :
    match e with
    | RoundTrip _ | Emit _ | LimiterAllow _ _ _ _ => True
    | _ => charge price X e = 0%nat
    end;
  tame_earn X (e : event X) x :
    match e with LimiterAllow _ _ _ _ => True | _ => earn price X e x = 0%nat end;
}.

(** Requests to upstreams. *)
Definition trip_price : pricing :=
  mkPricing (λ X e, match e with RoundTrip _ => 1%nat | _ => 0%nat end) no_earnings.

(** Samples the gateway should not produce. *)
Definition sample_price : pricing :=
  mkPricing (λ X e, match e with Emit m => if produced m then 0%nat else 1%nat | _ => 0%nat end)
    no_earnings.

(** Questions to the limiter. *)
Definition limiter_price : pricing :=
  mkPricing (λ X e, match e with LimiterAllow _ _ _ _ => 1%nat | _ => 0%nat end) no_earnings.

#[export] Instance trip_tame : Tame trip_price.
Proof. split; [done|by intros X []..]. Qed.
#[export] Instance sample_tame : Tame sample_price.
Proof. split; [|by intros X []..]. intros m Hm. cbn. by rewrite Hm. Qed.
#[export] Instance limiter_tame : Tame limiter_price.
Proof. split; [done|by intros X []..]. Qed.

Create HintDb pays discriminated.

(** A handler's cost, for requests from the address [addr]. *)
Definition handler_costs (price : pricing) (addr : string) (m : nat) (h : Handler) : Prop :=
  ∀ r, r_RemoteAddr r = addr → costs price m (h r).

(** A middleware that costs nothing itself. *)
Definition costs_inside (price : pricing) (mw : Middleware) : Prop :=
  ∀ addr m next, handler_costs price addr m next → handler_costs price addr m (mw next).

(** An event that is free under every tame price. *)
Ltac free_event :=
  match goal with
  | |- charge ?price ?X ?e = 0%nat =>
      first [ exact (tame_rest (price := price) X e) | apply tame_sample; reflexivity
            | solve [auto with pays nocore] ]
  end.

(** Programs by their structure: what is not the next handler is free. *)
Ltac pay_step :=
  match goal with
  | |- True => exact I
  | |- _ ∧ _ => split
  | |- ∀ _, _ => intro
  | H : ?P |- ?P => exact H
  | H : handler_costs _ _ _ ?h |- costs _ _ (?h _) => apply H; assumption
  | H : ∀ _, costs _ _ (_ _) |- costs _ _ (_ _) => apply H
  | |- costs _ _ (mret _) => exact I
  | |- costs _ _ (Ret _) => exact I
  | |- costs _ _ (Panic _) => exact I
  | |- costs _ _ (emit _) => apply costs_vis; [free_event | intro; exact I]
  | |- costs _ _ (Vis _ _) => apply costs_vis; [free_event | intro]
  | |- costs _ _ (catch _ _) => apply costs_catch
  | |- costs _ _ (match ?x with _ => _ end) => destruct x
  | |- costs _ _ _ => solve [auto with pays nocore]
  | |- costs _ _ (_ ≫= _) =>
      first [ apply costs_bind_l; [solve [repeat pay_step] | intro]
            | apply costs_bind_r; [ | intro; solve [repeat pay_step]] ]
  | |- costs _ _ _ => progress cbv beta iota zeta
  end.

Ltac pay := repeat pay_step.

Section prices.
#[local] Set Default Proof Using "Type*".
Context `{RE : RegexpEngine} `{UT : UnicodeTables} `{RO : RangeOrder} `{NP : NetPackage} `{UP : UrlPackage} `{EN : Encoders}
  `{CS : ContentSniffer} `{JP : JsonPackage} `{TF : TimeFormat}.
Context (price : pricing) `{!Tame price}.

(** *** Helpers of the handlers *)

Lemma header_set_costs m k v : costs price m (header_set k v).
Proof. unfold header_set. pay. Qed.
Lemma header_add_costs m k v : costs price m (header_add k v).
Proof. unfold header_add. pay. Qed.
Lemma write_header_costs m code : costs price m (write_header code).
Proof. unfold write_header. pay. Qed.
Lemma write_costs m b : costs price m (write b).
Proof. unfold write. pay. Qed.
Lemma req_header_get_costs m k : costs price m (req_header_get k).
Proof. unfold req_header_get. pay. Qed.
#[local] Hint Resolve header_set_costs header_add_costs write_header_costs write_costs
  req_header_get_costs : pays.

Lemma writeJSON_costs m code e msg : costs price m (writeJSON code e msg).
Proof. unfold writeJSON. pay. Qed.
Lemma writeError_costs m code msg : costs price m (writeError code msg).
Proof. unfold writeError. pay. Qed.
Lemma header_set_if_costs m b k v : costs price m (header_set_if b k v).
Proof. unfold header_set_if. pay. Qed.
Lemma add_values_costs m k vals : costs price m (add_values k vals).
Proof. revert m. induction vals; intros m; cbn [add_values]; pay. Qed.
#[local] Hint Resolve writeJSON_costs writeError_costs header_set_if_costs add_values_costs : pays.
Lemma add_headers_costs m kvs : costs price m (add_headers kvs).
Proof. revert m. induction kvs as [|[k vals] kvs IH]; intros m; cbn [add_headers]; pay. Qed.
#[local] Hint Resolve add_headers_costs : pays.

Lemma walk_costs m es nets : costs price m (walk es nets).
Proof. revert m. induction es; intros m; cbn [walk]; cbv zeta; pay. Qed.
#[local] Hint Resolve walk_costs : pays.
Lemma extractIP_costs m r nets : costs price m (extractIP r nets).
Proof. unfold extractIP. cbv zeta. pay. Qed.
#[local] Hint Resolve extractIP_costs : pays.
Lemma extractKey_costs m r k nets : costs price m (extractKey r k nets).
Proof. unfold extractKey, fallback. cbv zeta. pay. Qed.
Lemma clientIP_costs m r : costs price m (clientIP r).
Proof. unfold clientIP. pay. Qed.
#[local] Hint Resolve extractKey_costs clientIP_costs : pays.
Lemma variable_costs m name r l : costs price m (variable name r l).
Proof. unfold variable. pay. Qed.
#[local] Hint Resolve variable_costs : pays.
Lemma resolveVariables_costs m s r l : costs price m (resolveVariables s r l).
Proof.
  unfold resolveVariables. revert m. induction (tokens s); intros m; cbn [resolve_tokens]; pay.
Qed.
#[local] Hint Resolve resolveVariables_costs : pays.
Lemma inject_fields_costs m fields r l : ∀ data, costs price m (inject_fields fields data r l).
Proof.
  revert m. induction fields as [|[k v] fields IH]; intros m data; cbn [inject_fields];
    unfold injected; pay.
Qed.
#[local] Hint Resolve inject_fields_costs : pays.
Lemma transformBody_costs m body cfg r l : costs price m (transformBody body cfg r l).
Proof. unfold transformBody. pay. Qed.
#[local] Hint Resolve transformBody_costs : pays.

Lemma transformHeaders_costs m get put cfg r l :
  (∀ m, costs price m get) → (∀ m h, costs price m (put h)) →
  costs price m (transformHeaders get put cfg r l).
Proof.
  intros Hg Hp. unfold transformHeaders. destruct cfg as [cfg|]; pay.
  induction (range (ht_Add cfg)) as [|[k v] adds IH]; cbn [set_headers]; pay.
Qed.

#[local] Hint Extern 1 (costs _ _ (transformHeaders _ _ _ _ _)) =>
  solve [apply transformHeaders_costs; pay] : pays.

(** *** Handled events *)

Lemma costs_handle {S A} m (h : handler S) (p : prog A) s :
  (∀ X (e : event X) k s, h X e = Some k →
     costs price 0 (k s) ∧ match e with LimiterAllow _ _ _ _ => False | _ => True end) →
  costs price m p → costs price m (handle h p s).
Proof using Type*.
  intros Hh. revert m s. induction p as [| |X e k IH]; intros m s Hp; cbn; [done..|].
  destruct Hp as [He Hk]. destruct (h X e) as [q|] eqn:E.
  - destruct (Hh X e q s E) as [Hq Hne]. apply costs_bind_l; [done|]. intros [x s']. cbn [fst snd]. apply IH.
    eapply costs_mono; [|apply Hk].
    assert (earn price X e x = 0%nat) by (pose proof (tame_earn X e x); by destruct e). lia.
  - split; [done|]. intros x. by apply IH.
Qed.

(** *** Wrapped writers *)

Definition free_writer (S : Type) `{ResponseWriter S} : Prop :=
  ∀ X (e : event X) k s, writer_handler S X e = Some k → costs price 0 (k s).

Lemma with_writer_costs {S A} `{ResponseWriter S} m (p : prog A) (s : S) :
  free_writer S → costs price m p → costs price m (with_writer p s).
Proof.
  intros Hw Hp. apply costs_handle; [|done]. intros X e k s' E. split; [by eapply Hw|].
  by destruct e.
Qed.

Lemma wrapped_free : free_writer WrappedResponseWriter.
Proof.
  intros X e k s. destruct e; cbn; try done; intros [= <-];
    unfold ww_WriteHeader, ww_Write, ww_WriteHeader; pay.
Qed.
Lemma cors_free : free_writer corsResponseWriter.
Proof.
  intros X e k s. destruct e; cbn; try done; intros [= <-];
    unfold crw_WriteHeader, crw_Write, crw_WriteHeader, injectCORSHeaders; pay.
Qed.
Lemma buffer_free : free_writer bufferingResponseWriter.
Proof. intros X e k s. destruct e; cbn; try done; intros [= <-]; pay. Qed.
Lemma recorder_free : free_writer Recorder.
Proof. intros X e k s. destruct e; cbn; try done; intros [= <-]; pay. Qed.
#[local] Hint Resolve wrapped_free cors_free buffer_free recorder_free : pays.

#[local] Hint Extern 1 (costs _ _ (with_writer _ _)) =>
  solve [apply with_writer_costs; [auto with pays nocore | pay]] : pays.

Lemma WrapResponseWriter_costs {A} m (p : prog A) :
  costs price m p → costs price m (WrapResponseWriter p).
Proof. intros Hp. unfold WrapResponseWriter. pay. Qed.
#[local] Hint Resolve WrapResponseWriter_costs : pays.

(** *** Middlewares *)

Lemma Recovery_costs : costs_inside price Recovery.
Proof. intros addr m next Hn r Hr. unfold Recovery. pay. Qed.
Lemma RequestID_costs : costs_inside price RequestID.
Proof. intros addr m next Hn r Hr. unfold RequestID, generateUUID. pay. Qed.
Lemma Logging_costs : costs_inside price Logging.
Proof.
  intros addr m next Hn r Hr. unfold Logging. cbv zeta. apply costs_bind_l; [pay|]. intros start.
  apply costs_bind_r; [|pay]. apply WrapResponseWriter_costs. pay.
Qed.
Lemma Metrics_costs : costs_inside price MetricsMiddleware.
Proof.
  intros addr m next Hn r Hr. unfold MetricsMiddleware. cbv zeta. apply costs_bind_l; [pay|]. intros start.
  apply costs_bind_r; [|pay]. apply WrapResponseWriter_costs, costs_handle; [|auto].
  intros X e k s. destruct e; cbn; try done; intros [= <-]; pay.
Qed.
Lemma CORS_costs cfg : costs_inside price (CORSMiddleware cfg).
Proof.
  intros addr m next Hn r Hr. unfold CORSMiddleware, handlePreflight. cbv zeta. pay.
Qed.
Lemma transform_request_body_keeps cfg n r :
  ends (λ o, ∀ r', o = Some r' → r_RemoteAddr r' = r_RemoteAddr r) any_value
    (transform_request_body cfg n r).
Proof.
  unfold transform_request_body. destruct (read_at_most _ _) as [body [e|]].
  { eapply ends_bind; [apply ends_any | done]. }
  destruct (_ >? _); [eapply ends_bind; [apply ends_any | done]|].
  case_bool_decide; [by intros r' [= <-]|].
  eapply ends_bind; [apply ends_any|]. intros [t|e] _; [|by intros r' [= <-]].
  intros h. cbn. by intros _ r' [= <-].
Qed.

Lemma RequestTransform_costs cfg n : costs_inside price (RequestTransform cfg n).
Proof.
  intros addr m next Hn r Hr. unfold RequestTransform. cbv zeta. apply costs_bind_l; [pay|].
  intros now. destruct cfg as [cfg|]; [|pay].
  apply costs_bind_l; [pay|]. intros _. apply costs_bind_l; [pay|]. intros ct.
  destruct (_ && _); [|pay]. eapply costs_returns; [|apply transform_request_body_keeps|].
  - unfold transform_request_body. pay.
  - intros [r'|] Hr'; [|pay]. apply Hn. by rewrite (Hr' r' eq_refl).
Qed.
Lemma ResponseTransform_costs cfg n : costs_inside price (ResponseTransform cfg n).
Proof.
  intros addr m next Hn r Hr. unfold ResponseTransform, latency, transform_response_headers,
    transform_response_body, send_buffered. cbv zeta. pay.
Qed.
(** The rate limit: free when questions about its keys are. *)
Definition asks (cfg : RateLimitConfig) (routeName middlewareName extracted : string)
    : event (result (bool * Z * Z)) :=
  LimiterAllow (composite_key (rl_Algorithm cfg) routeName middlewareName extracted)
    (rl_Requests cfg) (rl_Window cfg) (rl_Algorithm cfg).

Lemma limited_costs_for m (R : string → Prop) cfg route mw nets next r :
  ends R any_value (extractKey r (rl_KeySource cfg) nets) →
  (∀ extracted, R extracted → charge price _ (asks cfg route mw extracted) = 0%nat) →
  (∀ extracted res, R extracted → (∀ remaining resetAt, res ≠ Ok (false, remaining, resetAt)) →
     costs price (m + earn price _ (asks cfg route mw extracted) res) (next r)) →
  costs price m (limited cfg route mw nets next r).
Proof.
  intros Hk Hask Hnext. unfold limited, limit_headers, reject. cbv zeta.
  eapply costs_returns; [pay | exact Hk|]. intros extracted Hx. cbn [mbind prog_mbind prog_bind emit].
  fold (asks cfg route mw extracted). split; rewrite (Hask _ Hx); [lia|]. intros res.
  rewrite Nat.sub_0_r. specialize (Hnext extracted res Hx).
  destruct res as [[[[] remaining] resetAt]|e]; [| |]; pay; discriminate.
Qed.

Lemma limited_costs cfg route mw nets :
  (∀ extracted, charge price _ (asks cfg route mw extracted) = 0%nat) →
  costs_inside price (limited cfg route mw nets).
Proof.
  intros Hask addr m next Hn r Hr. apply (limited_costs_for m (λ _, True)); [apply ends_any | auto|].
  intros extracted res _ _. eapply costs_mono; [|by apply Hn]. lia.
Qed.

(** An authenticator that costs nothing. *)
Definition costless (a : Authenticator) : Prop := ∀ r, costs price 0 (a r).

Lemma try_providers_costs m authenticators providers names errs next r :
  (∀ name a, authenticators !! name = Some a → costless a) →
  (∀ res, costs price m (next (WithContext r (WithAuthResult (r_ctx r) res)))) →
  costs price m (try_providers authenticators providers names errs next r).
Proof.
  intros Ha Hn. revert errs. induction names as [|name names IH]; intros errs; cbn [try_providers]; [pay|].
  destruct (authenticators !! name) as [a|] eqn:E; [|pay].
  apply costs_bind_l; [by apply (Ha name)|]. intros [res|e]; [pay | apply IH].
Qed.

Lemma NewAuthMiddleware_costs authenticators providers :
  (∀ name a, authenticators !! name = Some a → costless a) →
  costs_inside price (NewAuthMiddleware authenticators providers).
Proof.
  intros Ha addr m next Hn r Hr. unfold NewAuthMiddleware. destruct providers; [pay|].
  case_bool_decide; [by apply Hn|]. apply try_providers_costs; [done|]. intros res. by apply Hn.
Qed.

(** *** The proxy and the retries around it *)

Lemma forward_all_costs m l : costs price m (forward_all l).
Proof. revert m. induction l; intros m; cbn [forward_all]; unfold forward_informational; pay. Qed.
#[local] Hint Resolve forward_all_costs : pays.
Lemma copy_response_costs m resp : costs price m (copy_response resp).
Proof. unfold copy_response, copy_body. pay. Qed.
Lemma error_handler_costs m route method path err : costs price m (error_handler route method path err).
Proof. unfold error_handler, bad_gateway. pay. Qed.
#[local] Hint Resolve copy_response_costs error_handler_costs : pays.

Lemma proxy_costs m upgrade upstream route timeout r :
  (∀ r resp, costs price 0 (upgrade r resp)) →
  (∀ h, charge price _ (RoundTrip (out_request upstream route timeout r h)) ≤ m)%nat →
  costs price m (proxy_serve upgrade upstream route timeout r).
Proof.
  intros Hup Htrip. unfold proxy_serve. cbv zeta. apply costs_bind_l; [pay|]. intros h.
  apply costs_bind_l; [pay|]. intros _. case_match; [pay|].
  apply costs_bind_r; [by apply costs_emit|]. intros [infos res]. pay.
Qed.

Definition quiet_breaker (br : Breaker) : Prop := ∀ t, costs price 0 (br_onStateChange br t).

Lemma record_costs m p : costs price m p → costs price m (record p).
Proof.
  intros Hp. unfold record. apply costs_bind_r; [|pay]. apply with_writer_costs; [apply recorder_free | done].
Qed.

Lemma recorded_attempt_costs m p : costs price m p → costs price m (recorded_attempt p).
Proof. intros Hp. unfold recorded_attempt. apply costs_bind_r; [by apply record_costs | pay]. Qed.

Lemma fire_costs br t : quiet_breaker br → costs price 0 (fire br t).
Proof. intros Hb. unfold fire. destruct t; [apply Hb | pay]. Qed.

Lemma Execute_costs m br fn : quiet_breaker br → costs price m fn → costs price m (Execute br fn).
Proof.
  intros Hb Hf. unfold Execute. apply costs_bind_l; [pay|]. intros [|isProbe pre]; [pay|].
  apply costs_bind_l; [by apply fire_costs|]. intros _. apply costs_bind_r; [done|]. intros [err rec].
  apply costs_bind_l; [pay|]. intros post. apply costs_bind_l; [by apply fire_costs | pay].
Qed.

Lemma copyRecorderToWriter_costs m rec : costs price m (copyRecorderToWriter rec).
Proof. unfold copyRecorderToWriter. pay. Qed.
#[local] Hint Resolve copyRecorderToWriter_costs : pays.

Lemma WithCircuitBreaker_costs br : quiet_breaker br → costs_inside price (WithCircuitBreaker br).
Proof.
  intros Hb addr m next Hn r Hr. unfold WithCircuitBreaker. apply costs_bind_r; [|pay].
  apply Execute_costs; [done|]. by apply recorded_attempt_costs, Hn.
Qed.

Definition quiet_breakers (cb : option Breaker) : Prop :=
  match cb with Some br => quiet_breaker br | None => True end.

Lemma try_once_costs m cb proxy clone :
  quiet_breakers cb → costs price m (proxy clone) → costs price m (try_once cb proxy clone).
Proof.
  intros Hb Hp. unfold try_once, with_cloned_header. apply costs_bind_l; [pay|]. intros h.
  apply costs_bind_r; [|pay]. apply costs_handle.
  { intros X e k s. destruct e; cbn; try done; intros [= <-]; pay. }
  destruct cb as [br|]; [apply Execute_costs; [done | by apply recorded_attempt_costs]|].
  apply costs_bind_r; [by apply record_costs | pay].
Qed.

Lemma pause_costs m cfg attempt : costs price m (pause cfg attempt).
Proof. unfold pause, backoff, client_closed. cbv zeta. pay. Qed.

Lemma retry_loop_costs m cfg cb proxy clone maxA n : ∀ attempt lastErr,
  quiet_breakers cb → costs price m (proxy clone) →
  costs price (n * m) (retry_loop cfg cb proxy clone maxA n attempt lastErr).
Proof.
  intros attempt lastErr Hb Hp. revert attempt lastErr.
  induction n as [|n IH]; intros attempt lastErr; cbn [retry_loop]; [pay|].
  apply costs_bind_l; [apply pause_costs|]. intros go. destruct go; cbn [negb]; [|pay].
  cbn [Nat.mul]. apply costs_bind; [by apply try_once_costs|]. intros [execErr rec].
  destruct execErr as [[|msg]|]; [pay | apply IH|]. case_match; [apply IH | pay].
Qed.

(** The attempts that a configuration of retries allows. *)
Definition attempts (cfg : RetryConfig) : nat := Z.to_nat (wrap64 (retry_MaxRetries cfg + 1)).

Lemma Retry_costs addr m cfg cb proxy :
  quiet_breakers cb → handler_costs price addr m proxy →
  handler_costs price addr (attempts cfg * m) (Retry cfg cb proxy).
Proof.
  intros Hb Hp r Hr. unfold Retry, buffer_body.
  assert (∀ b, costs price m (proxy (clone_request b r))) as Hclone.
  { intros b. apply Hp. by destruct b. }
  destruct (r_Body r) as [b|]; cbv zeta; [|by apply retry_loop_costs].
  destruct (ReadLimited b _) as [bytes [err|]]; [pay|].
  destruct (_ >? maxRetryBodySize); [pay | by apply retry_loop_costs].
Qed.

(** *** The router *)

Lemma serve_routes_costs addr m routes :
  (∀ cr h, cr ∈ routes → cr_handler cr = Some h → handler_costs price addr m h) →
  handler_costs price addr m (serve_routes routes).
Proof.
  induction routes as [|cr routes IH]; intros Hh r Hr; cbn [serve_routes]; [pay|].
  assert (costs price m (serve_routes routes r)) as Hrest.
  { apply IH; [|done]. intros cr' h Hin. apply Hh. by right. }
  assert (∀ ms, costs price m (dispatch cr ms r)) as Hd.
  { intros ms. unfold dispatch. cbv zeta. destruct (path_params _ _ _ _); [|pay].
    apply costs_bind_l; [pay|]. intros _.
    destruct (cr_handler cr) as [h|] eqn:E; [|pay]. apply (Hh cr h); [by left | done..]. }
  pay.
Qed.

Lemma Chain_costs addr (ms : list Middleware) m h :
  Forall (costs_inside price) ms → handler_costs price addr m h →
  handler_costs price addr m (Chain ms h).
Proof.
  intros Hm Hh. rewrite Chain_foldr. induction Hm as [|mw ms Hmw Hms IH]; [done|]. cbn. by apply Hmw.
Qed.

(** *** The authenticators *)

Context `{JL : JwtLibrary} `{ID : IntrospectionDecoder}.

Lemma bearer_token_costs m : costs price m bearer_token.
Proof. unfold bearer_token. pay. Qed.
#[local] Hint Resolve bearer_token_costs : pays.

Lemma JWT_costless a : costless (JWT_Authenticate a).
Proof. intros r. unfold JWT_Authenticate. pay. Qed.

Lemma APIKey_costless a : costless (APIKey_Authenticate a).
Proof. intros r. unfold APIKey_Authenticate. pay. Qed.

Lemma OIDC_costless a : costless (OIDC_Authenticate a).
Proof. intros r. unfold OIDC_Authenticate, verifyToken, introspect. pay. Qed.

Lemma NewAuthenticator_costless p :
  ends (λ res, ∀ a, res = Ok a → costless a) any_value (NewAuthenticator p).
Proof.
  unfold NewAuthenticator. cbv zeta. repeat case_bool_decide; [| | |by cbn].
  - destruct (ap_JWT p); [|by cbn]. eapply ends_bind; [apply ends_any|]. intros [a|e] _; cbn; [|done].
    intros ? [= <-]. apply JWT_costless.
  - destruct (ap_APIKey p); [|by cbn]. cbn. intros ? [= <-]. apply APIKey_costless.
  - destruct (ap_OIDC p); [|by cbn]. eapply ends_bind; [apply ends_any|]. intros [a|e] _; cbn; [|done].
    intros ? [= <-]. apply OIDC_costless.
Qed.
End prices.

#[export] Hint Extern 0 (Tame _) => typeclasses eauto : pays.
#[export] Hint Resolve writeError_costs writeJSON_costs : pays.
