(* ===== verification/Redis.v ===== *)
(** * The Redis rate limiter (internal/middleware/ratelimit/redis.go)

    The sliding-window script runs atomically on a Redis server; the commands it
    calls are the interface [RedisServer].  Lua's numbers are exact on the
    integers the script handles.  The server's clock and the gateway's are one. *)

From S2P Require Import Prelude.
From S2P Require Import GoStrings.
From S2P Require Import ConfigTypes.
From S2P Require Import Http.

Local Open Scope Z_scope.

(** Sorted sets, with what each command does to the scores of the members. *)
Class RedisServer : Type := {
  zset : Type;
  scores : zset → gmap string Z;
  empty_zset : zset;
  ZREMRANGEBYSCORE : Z → Z → zset → zset;
  ZCARD : zset → Z;
  ZADD : Z → string → zset → zset;
  (** the score of the first element of [ZRANGE key 0 0 WITHSCORES] *)
  ZRANGE_first : zset → option Z;
  scores_empty : scores empty_zset = ∅;
  scores_ZREMRANGEBYSCORE lo hi z :
    scores (ZREMRANGEBYSCORE lo hi z) = filter (λ ms, ¬ (lo ≤ ms.2 ≤ hi)) (scores z);
  ZCARD_size z : ZCARD z = Z.of_nat (size (scores z));
  scores_ZADD s m z : scores (ZADD s m z) = <[m := s]> (scores z);
  ZRANGE_first_None z : ZRANGE_first z = None ↔ scores z = ∅;
  ZRANGE_first_Some z s : ZRANGE_first z = Some s →
    (∃ m, scores z !! m = Some s) ∧ ∀ m s', scores z !! m = Some s' → s ≤ s';
}.

Section redis.
Context `{RS : RedisServer}.

(** A key: its set and the time it expires at, in milliseconds. *)
Record entry : Type := mkEntry {
  en_set : zset;
  en_expires : option Z;
}.

(** The keys of the server. *)
Abbreviation Store := (gmap string entry).

(** What a command finds under a key at time [now]: an expired key is gone. *)
Definition live (now : Z) (o : option entry) : option entry :=
  match o with
  | Some e => match en_expires e with
              | Some d => if d <=? now then None else Some e
              | None => Some e
              end
  | None => None
  end.

Definition set_of (o : option entry) : zset :=
  match o with Some e => en_set e | None => empty_zset end.

Definition expires_of (o : option entry) : option Z := o ≫= en_expires.

(** [slidingWindowScript] on the value under its key: the answer
    [{allowed, remaining, reset}] and the new value.  A sorted set that becomes
    empty disappears with its deadline; [PEXPIRE] with a time that is not
    positive deletes the key. *)
Definition sliding_window (window limit now : Z) (member : string) (o : option entry)
    : (Z * Z * Z) * option entry :=
  let o := live now o in
  let set := ZREMRANGEBYSCORE 0 (now - window) (set_of o) in
  let count := ZCARD set in
  let expires := if count =? 0 then None else expires_of o in
  if count <? limit then
    let set := ZADD now member set in
    ((1, limit - count - 1, now + window),
     if window <=? 0 then None else Some (mkEntry set (Some (now + window))))
  else
    let reset := match ZRANGE_first set with Some s => s + window | None => now + window end in
    ((0, 0, reset), if count =? 0 then None else Some (mkEntry set expires)).

(** ** The limiter *)

(** The process's member counter and the server. *)
Record RedisLimiter : Type := mkRedisLimiter {
  rl_instanceID : string;
  rl_memberCounter : N;
  rl_store : Store;
}.

Definition member_of (instanceID : string) (nowMs : Z) (counter : N) : string :=
  instanceID +:+ ":" +:+ Itoa nowMs +:+ ":" +:+ pretty counter.

(** [allowSlidingWindow]. *)
Definition allowSlidingWindow (key : string) (limit windowMs nowMs : Z) (rl : RedisLimiter)
    : (bool * Z * Z) * RedisLimiter :=
  let counter := ((rl_memberCounter rl + 1) `mod` 2 ^ 64)%N in
  let member := member_of (rl_instanceID rl) nowMs counter in
  let '((allowed, remaining, reset), e) :=
    sliding_window windowMs limit nowMs member (rl_store rl !! key) in
  ((allowed =? 1, remaining, reset * Millisecond),
   mkRedisLimiter (rl_instanceID rl) counter (partial_alter (λ _, e) key (rl_store rl))).

(** [Allow] with an algorithm other than the leaky bucket. *)
Definition Allow (key : string) (limit window now : Z) (rl : RedisLimiter)
    : (bool * Z * Z) * RedisLimiter :=
  allowSlidingWindow key limit (Milliseconds window) (UnixMilli now) rl.

(** ** Runs of the script *)

(** A call: its time and member. *)
Fixpoint granted_calls (window limit : Z) (calls : list (Z * string)) (o : option entry)
    : list (Z * string) :=
  match calls with
  | [] => []
  | (now, m) :: rest =>
      let '((allowed, _, _), o') := sliding_window window limit now m o in
      if allowed =? 1 then (now, m) :: granted_calls window limit rest o'
      else granted_calls window limit rest o'
  end.

(** The calls of a list that fall in the window that ends at [t]. *)
Definition in_window (window t : Z) (l : list (Z * string)) : list (Z * string) :=
  filter (λ c, t - window < c.1 ≤ t) l.

(** The calls of a list that are younger than the window at [now]. *)
Definition fresh (window now : Z) (l : list (Z * string)) : list (Z * string) :=
  filter (λ c, now - window < c.1) l.

(** What the calls leave under the key, and the time of the last one. *)
Fixpoint script_state (window limit : Z) (calls : list (Z * string)) (o : option entry)
    : option entry :=
  match calls with
  | [] => o
  | (now, m) :: rest => script_state window limit rest (sliding_window window limit now m o).2
  end.

Definition last_call (start : Z) (calls : list (Z * string)) : Z :=
  foldl (λ _ c, c.1) start calls.

Fixpoint nondecreasing (t : Z) (calls : list (Z * string)) : Prop :=
  match calls with [] => True | (now, _) :: rest => t ≤ now ∧ nondecreasing now rest end.

(** ** Lemmas *)

(** What the key holds after the calls [A] were admitted (the newest first) and
    the clock read [last]: their members that are still in the window. *)
Definition holds (window last : Z) (A : list (Z * string)) (o : option entry) : Prop :=
  scores (set_of o) = list_to_map (prod_swap <$> fresh window last A) ∧
  (∀ d, expires_of o = Some d → ∀ c, c ∈ A → c.1 + window ≤ d).

Definition history_ok (limit window last : Z) (A : list (Z * string)) : Prop :=
  NoDup (snd <$> A) ∧ (∀ c, c ∈ A → 0 ≤ c.1 ≤ last) ∧
  ∀ t, Z.of_nat (length (in_window window t A)) ≤ Z.max 0 limit.

Lemma member_keys (P : Z * string → Prop) `{∀ c, Decision (P c)} A :
  NoDup (snd <$> A) → NoDup ((prod_swap <$> filter P A).*1).
Proof.
  rewrite <-list_fmap_compose. induction A as [|c A IH]; [done|].
  rewrite fmap_cons, NoDup_cons, filter_cons. intros [Hn ND].
  case_decide; [|by auto]. rewrite fmap_cons, NoDup_cons. split; [|by auto].
  intros ([t m] & E & [_ Hin]%list_elem_of_filter)%list_elem_of_fmap.
  apply Hn, list_elem_of_fmap. by exists (t, m).
Qed.

Lemma window_lookup (P : Z * string → Prop) `{∀ c, Decision (P c)} A m s :
  NoDup (snd <$> A) →
  (list_to_map (prod_swap <$> filter P A) : gmap string Z) !! m = Some s ↔ P (s, m) ∧ (s, m) ∈ A.
Proof.
  intros ND. rewrite <-elem_of_list_to_map by (by apply member_keys).
  rewrite list_elem_of_fmap, <-list_elem_of_filter. split.
  - intros ([s' m'] & [= -> ->] & Hin). done.
  - intros Hin. by exists (s, m).
Qed.

Lemma live_cases now o :
  (live now o = None ∧ ∃ d, expires_of o = Some d ∧ d ≤ now) ∨ live now o = o.
Proof.
  destruct o as [[z [d|]]|]; cbn; [|by right..]. case_match; [left|by right].
  split; [done|]. exists d. split; [done | lia].
Qed.

(** Expiry and trimming leave the members of the window that ends now. *)
Lemma trimmed limit window last now A (o : option entry) :
  0 < window → last ≤ now → history_ok limit window last A → holds window last A o →
  scores (ZREMRANGEBYSCORE 0 (now - window) (set_of (live now o))) =
  list_to_map (prod_swap <$> fresh window now A).
Proof.
  intros Hw Hl (ND & Hb & _) [Hs Hd]. rewrite scores_ZREMRANGEBYSCORE.
  apply map_eq. intros m. apply option_eq. intros s.
  unfold fresh in *. rewrite map_lookup_filter_Some, window_lookup by done. cbn.
  destruct (live_cases now o) as [(-> & d & Hexp & Hle) | ->].
  - cbn [set_of]. rewrite scores_empty, lookup_empty. split; [naive_solver|].
    intros [? Hin]. specialize (Hd _ Hexp _ Hin). cbn in *. lia.
  - rewrite Hs, window_lookup by done. cbn. split.
    + intros [[? Hin] ?]. specialize (Hb _ Hin). cbn in *. split; [lia | done].
    + intros [? Hin]. specialize (Hb _ Hin). cbn in *. repeat split; (done || lia).
Qed.

Lemma trimmed_card limit window last now A (o : option entry) :
  0 < window → last ≤ now → history_ok limit window last A → holds window last A o →
  ZCARD (ZREMRANGEBYSCORE 0 (now - window) (set_of (live now o))) =
  Z.of_nat (length (fresh window now A)).
Proof.
  intros Hw Hl Hok Hh. rewrite ZCARD_size, (trimmed _ _ _ _ _ _ Hw Hl Hok Hh).
  destruct Hok as [ND _]. rewrite map_size_list_to_map by (by apply member_keys).
  by rewrite length_fmap.
Qed.

(** A deadline never precedes the end of an admitted call's window. *)
Lemma live_deadline window last now A o d :
  holds window last A o → expires_of (live now o) = Some d → ∀ c, c ∈ A → c.1 + window ≤ d.
Proof.
  intros [_ Hd]. destruct (live_cases now o) as [[-> _]| ->]; [done|]. apply Hd.
Qed.

Lemma window_shrinks window t now A :
  now ≤ t →
  (length (in_window window t A) ≤ length (fresh window now A))%nat.
Proof.
  intros Ht. unfold in_window, fresh. induction A as [|c A IH]; [done|].
  rewrite !filter_cons. repeat case_decide; cbn [length]; lia.
Qed.

(** One run of the script: what it answers and what it leaves behind. *)
Lemma script_step window limit last now m A o :
  0 < window → 0 ≤ last ≤ now → m ∉ (snd <$> A) →
  history_ok limit window last A → holds window last A o →
  let '((allowed, _, _), o') := sliding_window window limit now m o in
  let A' := if allowed =? 1 then (now, m) :: A else A in
  allowed = (if Z.of_nat (length (fresh window now A)) <? limit then 1 else 0) ∧
  history_ok limit window now A' ∧ holds window now A' o'.
Proof.
  intros Hw Hl Hm Hok Hh. unfold sliding_window.
  pose proof (trimmed _ _ _ _ _ _ Hw (proj2 Hl) Hok Hh) as Ht.
  rewrite (trimmed_card _ _ _ _ _ _ Hw (proj2 Hl) Hok Hh).
  pose proof Hok as (ND & Hb & Hc).
  destruct (_ <? limit) eqn:E; cbn [Z.eqb Pos.eqb].
  - apply Z.ltb_lt in E. split; [done|]. rewrite (proj2 (Z.leb_gt window 0)) by lia.
    split; [split; [|split]|].
    + rewrite fmap_cons. by apply NoDup_cons.
    + intros c [-> | Hin]%elem_of_cons; cbn; [lia|]. specialize (Hb _ Hin). lia.
    + intros t. unfold in_window. rewrite filter_cons. case_decide as Hc'; [|apply Hc].
      pose proof (window_shrinks window t now A (proj2 Hc')). cbn [length].
      unfold in_window in *. lia.
    + split; cbn.
      * rewrite scores_ZADD, Ht. by rewrite decide_True by lia.
      * intros d [= <-] c [-> | Hin]%elem_of_cons; cbn; [lia|]. specialize (Hb _ Hin). lia.
  - apply Z.ltb_ge in E. split; [done|]. split.
    + split; [done|]. split; [|done]. intros c Hin. specialize (Hb _ Hin). lia.
    + destruct (_ =? 0) eqn:E0; split; cbn.
      * apply Z.eqb_eq in E0. destruct (fresh window now A); [|cbn in E0; lia].
        by rewrite scores_empty.
      * done.
      * exact Ht.
      * intros d Hd. by apply (live_deadline window last now A o).
Qed.

Lemma script_run window limit calls : ∀ last A o,
  0 < window → 0 ≤ last → nondecreasing last calls →
  NoDup ((snd <$> calls) ++ (snd <$> A)) →
  history_ok limit window last A → holds window last A o →
  let A' := reverse (granted_calls window limit calls o) ++ A in
  let last' := last_call last calls in
  history_ok limit window last' A' ∧ holds window last' A' (script_state window limit calls o).
Proof.
  induction calls as [|[now m] calls IH]; intros last A o Hw Hl Hnd ND Hok Hh; [done|].
  cbn [granted_calls nondecreasing script_state] in *. destruct Hnd as [Hle Hnd].
  rewrite fmap_cons in ND. cbn in ND. apply NoDup_cons in ND as [Hm ND].
  rewrite elem_of_app in Hm.
  pose proof (script_step window limit last now m A o Hw ltac:(lia) ltac:(tauto) Hok Hh) as Hs.
  destruct (sliding_window window limit now m o) as [[[al re] rs] o'].
  destruct Hs as (-> & Hok' & Hh'). case_match; cbn [Z.eqb Pos.eqb] in *.
  - rewrite reverse_cons, <-app_assoc. apply (IH now); try done; [lia|].
    cbn. rewrite <-Permutation_middle. apply NoDup_cons.
    by rewrite elem_of_app.
  - apply (IH now); try done; lia.
Qed.

Lemma granted_members window limit calls : ∀ o m,
  m ∈ (snd <$> granted_calls window limit calls o) → m ∈ (snd <$> calls).
Proof.
  induction calls as [|[now m'] calls IH]; intros o m; [done|].
  cbn [granted_calls]. destruct (sliding_window _ _ _ _ _) as [[[al re] rs] o'].
  case_match; rewrite !fmap_cons, !elem_of_cons; naive_solver.
Qed.

Lemma last_call_bounds calls now m : ∀ start,
  0 ≤ start → nondecreasing start (calls ++ [(now, m)]) → 0 ≤ last_call start calls ≤ now.
Proof.
  induction calls as [|[t m'] calls IH]; intros start Hs; cbn; [lia|].
  intros [? Hnd]. apply IH; [lia | done].
Qed.

Lemma nondecreasing_app start calls rest :
  nondecreasing start (calls ++ rest) → nondecreasing start calls.
Proof. revert start. induction calls as [|[]]; cbn; naive_solver. Qed.

Lemma fresh_key limit window now : history_ok limit window now [] ∧ holds window now [] None.
Proof.
  split; [split; [by constructor|split; [by intros c ?%not_elem_of_nil | intros t; cbn; lia]]|].
  split; [apply scores_empty | done].
Qed.

Lemma run_from_scratch window limit start calls :
  0 < window → 0 ≤ start → nondecreasing start calls → NoDup (snd <$> calls) →
  let A := reverse (granted_calls window limit calls None) in
  let last := last_call start calls in
  history_ok limit window last A ∧ holds window last A (script_state window limit calls None).
Proof.
  intros Hw Hs Hnd ND. destruct (fresh_key limit window start) as [Hok Hh].
  pose proof (script_run window limit calls start [] None Hw Hs Hnd
                ltac:(by rewrite app_nil_r) Hok Hh) as H.
  by rewrite app_nil_r in H.
Qed.

(** A refusal names the oldest member of the window. *)
Lemma refused_reset window limit last now m A o :
  0 < window → 0 < limit → last ≤ now → history_ok limit window last A → holds window last A o →
  let '((allowed, remaining, reset), _) := sliding_window window limit now m o in
  allowed ≠ 1 →
  remaining = 0 ∧ ∃ s x, reset = s + window ∧ (s, x) ∈ A ∧ now - window < s.
Proof.
  intros Hw Hlim Hl Hok Hh. unfold sliding_window.
  pose proof (trimmed _ _ _ _ _ _ Hw Hl Hok Hh) as Ht. rewrite ZCARD_size.
  destruct (_ <? limit) eqn:E; [done|]. apply Z.ltb_ge in E. intros _. split; [done|].
  destruct (ZRANGE_first _) as [s|] eqn:Ez.
  - apply ZRANGE_first_Some in Ez as [[x Hx] _].
    rewrite Ht in Hx. apply window_lookup in Hx as [? ?]; [|apply Hok]. by exists s, x.
  - apply ZRANGE_first_None in Ez. rewrite Ez, map_size_empty in E. lia.
Qed.

(** The oldest member decides the reset time. *)
Lemma oldest_leaves window limit now A s m :
  history_ok limit window now A → (s, m) ∈ A → now - window < s →
  Z.of_nat (length (fresh window (s + window) A)) < Z.max 0 limit.
Proof.
  intros (ND & Hb & Hc) Hin Hs. specialize (Hc now).
  assert (length (fresh window (s + window) A) < length (in_window window now A))%nat; [|lia].
  clear Hc ND. unfold fresh, in_window. induction A as [|c A IH]; [by apply not_elem_of_nil in Hin|].
  assert (Hle : ∀ B : list (Z * string), (∀ c, c ∈ B → 0 ≤ c.1 ≤ now) →
    (length (filter (λ c : Z * string, (s + window - window < c.1)%Z) B)
     ≤ length (filter (λ c : Z * string, (now - window < c.1 ≤ now)%Z) B))%nat).
  { clear -Hs. intros B. induction B as [|c B IH]; intros Hb; [done|]. rewrite !filter_cons.
    specialize (IH (λ c' H, Hb c' (list_elem_of_further _ _ _ H))).
    specialize (Hb c (list_elem_of_here _ _)). repeat case_decide; cbn [length]; lia. }
  rewrite !filter_cons. pose proof (Hb c (list_elem_of_here _ _)).
  apply elem_of_cons in Hin as [<- | Hin].
  - rewrite decide_False, decide_True by (cbn in *; lia). cbn [length].
    specialize (Hle A (λ c' H, Hb c' (list_elem_of_further _ _ _ H))). lia.
  - specialize (IH (λ c' H, Hb c' (list_elem_of_further _ _ _ H)) Hin).
    repeat case_decide; cbn [length]; lia.
Qed.

(** However many gateways share a key, whatever the times of their calls (as
    the server sees them, in order) and whatever their number, no window of the
    configured length, wherever it ends, contains more admitted requests than
    the limit: the sliding window has no burst at the edge of a fixed window. *)
Theorem sliding_window_bound window limit start calls :
  0 < window → 0 ≤ start → nondecreasing start calls → NoDup (snd <$> calls) →
  ∀ t, Z.of_nat (length (in_window window t (granted_calls window limit calls None)))
       ≤ Z.max 0 limit.
Proof.
  intros Hw Hs Hnd ND t.
  destruct (run_from_scratch window limit start calls Hw Hs Hnd ND) as [(_ & _ & H) _].
  specialize (H t). unfold in_window in *. by rewrite filter_reverse, length_reverse in H.
Qed.

(** A refused call is told a time in the future, at most one window away,
    and that the caller has nothing left; the next call of anyone at that time
    is admitted. *)
Theorem sliding_window_reset window limit start calls now m m' allowed remaining reset o :
  0 < window → 0 < limit → 0 ≤ start → nondecreasing start (calls ++ [(now, m)]) →
  NoDup (m' :: (snd <$> (calls ++ [(now, m)]))) →
  sliding_window window limit now m (script_state window limit calls None) =
    ((allowed, remaining, reset), o) →
  allowed ≠ 1 →
  now < reset ≤ now + window ∧ remaining = 0 ∧
  (sliding_window window limit reset m' o).1.1.1 = 1.
Proof.
  intros Hw Hlim Hs Hnd ND Hrun.
  rewrite fmap_app in ND. apply NoDup_cons in ND as [Hm' (NDc & Hm & _)%NoDup_app].
  destruct (run_from_scratch window limit start calls) as [Hok Hh];
    [done | done | by eapply nondecreasing_app | done|].
  set (A := reverse _) in *. set (last := last_call _ _) in *. set (o0 := script_state _ _ _ _) in *.
  pose proof (last_call_bounds _ _ _ _ Hs Hnd) as Hl. fold last in Hl.
  assert (Hmem : ∀ x, x ∈ (snd <$> A) → x ∈ (snd <$> calls)).
  { intros x. unfold A. rewrite fmap_reverse, elem_of_reverse. apply granted_members. }
  assert (HmA : m ∉ (snd <$> A)) by (intros ?%Hmem%Hm; set_solver).
  assert (HmA' : m' ∉ (snd <$> A)) by (intros ?%Hmem; set_solver).
  pose proof (script_step window limit last now m A o0 Hw Hl HmA Hok Hh) as Hstep.
  pose proof (refused_reset window limit last now m A o0 Hw Hlim (proj2 Hl) Hok Hh) as Hr.
  rewrite Hrun in Hstep, Hr.
  destruct Hstep as (_ & Hok' & Hh'). intros Hal.
  destruct (Hr Hal) as (-> & s & x & -> & Hin & Hsn). clear Hr.
  rewrite (proj2 (Z.eqb_neq allowed 1) Hal) in Hok', Hh'.
  pose proof (proj1 (proj2 Hok') _ Hin) as Hsb. cbn in Hsb.
  split; [lia|]. split; [done|].
  pose proof (script_step window limit now (s + window) m' A o Hw ltac:(lia) HmA' Hok' Hh') as H2.
  destruct (sliding_window window limit (s + window) m' o) as [[[al2 re2] rs2] o2].
  destruct H2 as (-> & _). cbn.
  pose proof (oldest_leaves _ _ _ _ _ _ Hok' Hin Hsn) as Hold.
  by rewrite (proj2 (Z.ltb_lt _ limit)) by lia.
Qed.

(** A window of less than a millisecond, which validation accepts, is sent as
    zero milliseconds: the key is deleted by every call, and every call is
    admitted. *)
Theorem submillisecond_window_unlimited key limit window now rl :
  0 < limit → 0 ≤ window < Millisecond → rl_store rl !! key = None →
  let '((allowed, _, _), rl') := Allow key limit window now rl in
  allowed = true ∧ rl_store rl' !! key = None.
Proof.
  intros Hlim Hw Hk. unfold Allow, allowSlidingWindow, Milliseconds, sliding_window.
  rewrite Z.quot_small, Hk by done. cbn [live set_of].
  rewrite ZCARD_size, scores_ZREMRANGEBYSCORE, scores_empty, map_filter_empty, map_size_empty.
  change (Z.of_nat 0) with 0. rewrite (proj2 (Z.ltb_lt 0 limit)) by lia. cbn.
  by rewrite lookup_partial_alter_eq.
Qed.

(** A call for one key leaves every other key of the server as it was. *)
Theorem Allow_other_keys key key' limit window now rl :
  key ≠ key' → rl_store (Allow key limit window now rl).2 !! key' = rl_store rl !! key'.
Proof.
  intros Hk. unfold Allow, allowSlidingWindow.
  destruct (sliding_window _ _ _ _ _) as [[[al re] rs] e]. cbn.
  by rewrite lookup_partial_alter_ne.
Qed.
End redis.

(** ** A server for the examples: sorted sets as finite maps *)

Definition least (l : list Z) : option Z :=
  foldr (λ s o, Some (match o with Some s' => Z.min s s' | None => s end)) None l.

Lemma least_None l : least l = None ↔ l = [].
Proof. by destruct l. Qed.

Lemma least_Some l : ∀ s, least l = Some s → s ∈ l ∧ ∀ s', s' ∈ l → s ≤ s'.
Proof.
  induction l as [|x l IH]; [done|]. cbn. fold (least l).
  intros s [= <-]. destruct (least l) as [y|] eqn:E.
  - destruct (IH y eq_refl) as [Hin Hmin]. split.
    + destruct (Z.min_spec x y) as [[_ ->]|[_ ->]]; set_solver.
    + intros s' [->|Hs']%elem_of_cons; [lia|]. specialize (Hmin _ Hs'). lia.
  - apply least_None in E as ->. split; [set_solver|].
    intros s' [->|[]%not_elem_of_nil]%elem_of_cons. lia.
Qed.

#[refine] Instance map_server : RedisServer := {
  zset := gmap string Z;
  scores z := z;
  empty_zset := ∅;
  ZREMRANGEBYSCORE lo hi z := filter (λ ms, ¬ (lo ≤ ms.2 ≤ hi)) z;
  ZCARD z := Z.of_nat (size z);
  ZADD s m z := <[m := s]> z;
  ZRANGE_first z := least (map_to_list z).*2;
}.
Proof.
  - done.
  - done.
  - done.
  - done.
  - intros z. rewrite least_None, <-map_to_list_empty_iff. split; [apply fmap_nil_inv | by intros ->].
  - intros z s [(x & -> & Hx)%list_elem_of_fmap Hmin]%least_Some. destruct x as [m s]. split.
    + exists m. by apply elem_of_map_to_list.
    + intros m' s' Hm'. apply Hmin, list_elem_of_fmap. exists (m', s').
      by rewrite elem_of_map_to_list.
Defined.

Lemma sliding_window_bound_witness :
  granted_calls 10 2 [(0, "a"); (1, "b"); (5, "c"); (11, "d")] None = [(0, "a"); (1, "b"); (11, "d")] ∧
  Z.of_nat (length (in_window 10 9
    (granted_calls 10 2 [(0, "a"); (1, "b"); (5, "c"); (11, "d")] None))) ≤ Z.max 0 2.
Proof.
  split; [vm_compute; reflexivity|]. apply (sliding_window_bound 10 2 0); [lia | lia | cbn; lia|].
  apply (bool_decide_unpack _). vm_compute. exact I.
Defined.

Definition witness_full : option entry := script_state 10 2 [(0, "a"); (1, "b")] None.

Lemma sliding_window_reset_witness :
  (sliding_window 10 2 5 "c" witness_full).1 = (0, 0, 10) ∧
  5 < 10 ≤ 5 + 10 ∧ 0 = 0 ∧
  (sliding_window 10 2 10 "d" (sliding_window 10 2 5 "c" witness_full).2).1.1.1 = 1.
Proof.
  assert (E : (sliding_window 10 2 5 "c" witness_full).1 = (0, 0, 10)) by (vm_compute; reflexivity).
  split; [exact E|].
  apply (sliding_window_reset 10 2 0 [(0, "a"); (1, "b")] 5 "c" "d" 0 0 10
           (sliding_window 10 2 5 "c" witness_full).2); [lia | lia | lia | cbn; lia| | | lia].
  - apply (bool_decide_unpack _). vm_compute. exact I.
  - rewrite <-E. apply surjective_pairing.
Defined.

Definition witness_limiter : RedisLimiter := mkRedisLimiter "1:ab" 0 ∅.

Lemma submillisecond_window_unlimited_witness :
  let '((allowed, _, _), rl') := Allow "k" 1 999999 0 witness_limiter in
  allowed = true ∧ rl_store rl' !! "k" = None.
Proof. apply (submillisecond_window_unlimited "k" 1 999999 0); [lia | done | done]. Defined.

Lemma Allow_other_keys_witness :
  rl_store (Allow "k" 1 Second 0 witness_limiter).2 !! "other" = rl_store witness_limiter !! "other".
Proof. apply (Allow_other_keys "k" "other"). discriminate. Defined.
