(* ===== verification/Concurrency.v ===== *)
(** * The in-memory limiter under concurrency (internal/middleware/ratelimit/memory.go)

    Buckets live on a heap and the [sync.Map] holds pointers to them.  A call is
    two atomic steps, the lookup in the map and the critical section under the
    bucket's lock; the cleanup goroutine looks at one bucket at a time, under its
    lock, and deletes its key in a further step.  A schedule is any sequence of
    such steps. *)

From Stdlib Require Import QArith Lqa.
From S2P Require Import Prelude.
From S2P Require Import F64.
From S2P Require Import Memory.

Local Open Scope Z_scope.

Section steps.
Context `{Ar : Arith}.

(** ** The state *)

(** A call between its lookup and its critical section. *)
Record call : Type := mkCall {
  c_key : string;
  c_limit : Z;
  c_window : Z;
  c_now : Z;
  c_bucket : nat;
}.

(** A round of [evictStale]: the clock reading, the entries that were in the map
    at some time during the round, of which [Range] may yield one per key, the
    keys it has yielded, and the one about to be deleted. *)
Record round : Type := mkRound {
  rd_now : Z;
  rd_seen : list (string * nat);
  rd_visited : list string;
  rd_doomed : option string;
}.

(** The map, the heap, the goroutines inside [Allow], the cleanup goroutine. *)
Record limiter : Type := mkLimiter {
  l_map : gmap string nat;
  l_heap : list bucket;
  l_calls : gmap nat call;
  l_round : option round;
}.

Definition new_limiter : limiter := mkLimiter ∅ [] ∅ None.

(** ** The steps *)

Inductive action : Type :=
  | Lookup (g : nat) (key : string) (limit window now : Z)
  | Critical (g : nat)
  | StartRound (now : Z)
  | Visit (key : string) (l : nat)
  | Delete
  | EndRound.

Inductive output : Type :=
  | Answer (c : call) (r : bool * Z * Z)
  | Dropped (key : string).

(** An entry stored while a round goes on may be seen by it. *)
Definition saw (e : string * nat) (r : round) : round :=
  mkRound (rd_now r) (e :: rd_seen r) (rd_visited r) (rd_doomed r).

(** [LoadOrStore] of goroutine [g]. *)
Definition lookup (g : nat) (key : string) (limit window now : Z) (s : limiter) : option limiter :=
  match l_calls s !! g with
  | Some _ => None
  | None =>
      match l_map s !! key with
      | Some l =>
          Some (mkLimiter (l_map s) (l_heap s) (<[g := mkCall key limit window now l]> (l_calls s))
                  (l_round s))
      | None =>
          let l := length (l_heap s) in
          Some (mkLimiter (<[key := l]> (l_map s)) (l_heap s ++ [new_bucket limit window now])
                  (<[g := mkCall key limit window now l]> (l_calls s)) (saw (key, l) <$> l_round s))
      end
  end.

(** From [b.mu.Lock()] to the end of [Allow]. *)
Definition critical (g : nat) (s : limiter) : option (limiter * output) :=
  c ← l_calls s !! g;
  b ← l_heap s !! c_bucket c;
  let '(r, b') := take_token (c_limit c) (c_window c) (c_now c) b in
  Some (mkLimiter (l_map s) (<[c_bucket c := b']> (l_heap s)) (base.delete g (l_calls s)) (l_round s),
        Answer c r).

(** The body of the function given to [Range], up to the unlock. *)
Definition visit (key : string) (l : nat) (s : limiter) : option limiter :=
  match l_round s with
  | Some (mkRound now seen visited None) =>
      if bool_decide ((key, l) ∈ seen ∧ key ∉ visited) then
        b ← l_heap s !! l;
        Some (mkLimiter (l_map s) (l_heap s) (l_calls s)
                (Some (mkRound now seen (key :: visited) (if idle now b then Some key else None))))
      else None
  | _ => None
  end.

Definition step (a : action) (s : limiter) : option (limiter * option output) :=
  match a with
  | Lookup g key limit window now => s' ← lookup g key limit window now s; Some (s', None)
  | Critical g => '(s', o) ← critical g s; Some (s', Some o)
  | StartRound now =>
      match l_round s with
      | None =>
          Some (mkLimiter (l_map s) (l_heap s) (l_calls s)
                  (Some (mkRound now (map_to_list (l_map s)) [] None)), None)
      | Some _ => None
      end
  | Visit key l => s' ← visit key l s; Some (s', None)
  | Delete =>
      match l_round s with
      | Some (mkRound now seen visited (Some key)) =>
          Some (mkLimiter (base.delete key (l_map s)) (l_heap s) (l_calls s)
                  (Some (mkRound now seen visited None)), Some (Dropped key))
      | _ => None
      end
  | EndRound =>
      match l_round s with
      | Some (mkRound _ _ _ None) => Some (mkLimiter (l_map s) (l_heap s) (l_calls s) None, None)
      | _ => None
      end
  end.

(** A schedule, with the outputs in order; [None] when a step is not possible. *)
Fixpoint exec (acts : list action) (s : limiter) : option (limiter * list output) :=
  match acts with
  | [] => Some (s, [])
  | a :: acts' =>
      '(s1, o) ← step a s;
      '(s2, os) ← exec acts' s1;
      Some (s2, option_list o ++ os)
  end.

(** ** Observations *)

Definition passes (key : string) (o : output) : bool :=
  match o with Answer c r => bool_decide (c_key c = key) && r.1.1 | Dropped _ => false end.

Definition drops (key : string) (o : output) : bool :=
  match o with Dropped k => bool_decide (k = key) | Answer _ _ => false end.

Definition count (p : output → bool) (os : list output) : nat := length (filter (λ o, p o = true) os).

Lemma count_cons p o os : count p (o :: os) = ((if p o then 1 else 0) + count p os)%nat.
Proof. unfold count. rewrite filter_cons. by destruct (p o). Qed.

Lemma count_app p os os' : count p (os ++ os') = (count p os + count p os')%nat.
Proof. unfold count. by rewrite filter_app, length_app. Qed.

(** One step at a time, for a property of the state and of the outputs so far. *)
Lemma exec_ind (I : limiter → list output → Prop) (P : action → Prop) acts :
  (∀ a s os s' o, P a → I s os → step a s = Some (s', o) → I s' (os ++ option_list o)) →
  Forall P acts → ∀ s os s' os', I s os → exec acts s = Some (s', os') → I s' (os ++ os').
Proof.
  intros Hstep. induction 1 as [|a acts Ha _ IH]; intros s os s' os' HI Hx; cbn in Hx.
  { injection Hx as <- <-. by rewrite app_nil_r. }
  apply bind_Some in Hx as ([s1 o] & H1 & Hx). apply bind_Some in Hx as ([s2 os2] & H2 & [= <- <-]).
  rewrite (assoc (++)). eapply IH; [|exact H2]. by eapply Hstep.
Qed.

End steps.

(** ** The rate under every schedule *)

Section rate.
#[local] Existing Instance ideal_arith.
Variables (key : string) (limit window t0 T : Z).
Hypothesis Hlimit : 0 ≤ limit.
Hypothesis Hwindow : 0 < window.
Hypothesis HT : t0 ≤ T.

Abbreviation Qn n := (inject_Z (Z.of_nat n)).

(** The keys under which the buckets of the heap were stored, a ghost. *)
Implicit Types own : list string.

(** What the buckets of [key] may still spend until [T]. *)
Fixpoint spendable own (heap : list bucket) : Q :=
  match own, heap with
  | k :: own', b :: heap' =>
      ((if decide (k = key) then credit limit window t0 T (Some b) else 0) + spendable own' heap')%Q
  | _, _ => 0
  end.

Definition owned own : nat := length (filter (λ k, k = key) own).

(** The budget of a new bucket. *)
Definition budget : Q := credit limit window t0 T None.

Lemma spendable_app own heap k b :
  length own = length heap →
  (spendable (own ++ [k]) (heap ++ [b]) ==
   spendable own heap + (if decide (k = key) then credit limit window t0 T (Some b) else 0))%Q.
Proof.
  revert heap. induction own as [|k' own IH]; intros [|b' heap] [=]; cbn [spendable app];
    [lra|]. rewrite IH by done. lra.
Qed.

Lemma spendable_insert own heap l k b b' :
  own !! l = Some k → heap !! l = Some b →
  (spendable own (<[l := b']> heap) ==
   spendable own heap + (if decide (k = key)
     then credit limit window t0 T (Some b') - credit limit window t0 T (Some b) else 0))%Q.
Proof.
  revert heap l. induction own as [|k' own IH]; intros [|b1 heap] [|l]; try done;
    intros Hk Hb; cbn in Hk, Hb; cbn [insert list_insert spendable].
  - injection Hk as ->. injection Hb as ->. destruct (decide (k = key)); ring.
  - change (alter (λ _, b') l heap) with (<[l := b']> heap). rewrite (IH _ _ Hk Hb). ring.
Qed.

Lemma spendable_nonneg own heap :
  (∀ l b, own !! l = Some key → heap !! l = Some b → bucket_ok T (Some b)) →
  (0 <= spendable own heap)%Q.
Proof using Hlimit Hwindow.
  revert heap. induction own as [|k own IH]; intros [|b heap] Hok; cbn [spendable]; try apply Qle_refl.
  assert (0 <= spendable own heap)%Q by (apply IH; intros l b' Hl Hb; by apply (Hok (S l) b')).
  destruct (decide (k = key)) as [->|]; [|lra].
  destruct (Hok 0%nat b eq_refl eq_refl) as [H0 Hr]. cbn [credit].
  assert (0 <= inject_Z (T - b_lastRefill b) * rate limit window)%Q; [|lra].
  apply Qmult_le_0_compat; [|by apply rate_nonneg]. change 0%Q with (inject_Z 0). rewrite <-Zle_Qle. lia.
Qed.

Lemma budget_nonneg : (0 <= budget)%Q.
Proof using Hlimit Hwindow HT.
  cbn. assert (0 <= inject_Z limit)%Q by (change 0%Q with (inject_Z 0); by rewrite <-Zle_Qle).
  assert (0 <= inject_Z (T - t0) * rate limit window)%Q; [|lra].
  apply Qmult_le_0_compat; [|by apply rate_nonneg]. change 0%Q with (inject_Z 0). rewrite <-Zle_Qle. lia.
Qed.

(** A bucket made for [key] between [t0] and [T] has at most the budget. *)
Lemma new_bucket_credit now :
  t0 ≤ now ≤ T →
  bucket_ok T (Some (new_bucket limit window now)) ∧
  (credit limit window t0 T (Some (new_bucket limit window now)) <= budget)%Q.
Proof using Hlimit Hwindow.
  intros Hn. split; cbn.
  - split; [|lia]. change 0%Q with (inject_Z 0). by rewrite <-Zle_Qle.
  - assert (inject_Z (T - now) * rate limit window <= inject_Z (T - t0) * rate limit window)%Q; [|lra].
    apply Qmult_le_compat_r; [|by apply rate_nonneg]. rewrite <-Zle_Qle. lia.
Qed.

Definition call_ok (c : call) : Prop :=
  c_key c = key → c_limit c = limit ∧ c_window c = window ∧ t0 ≤ c_now c ≤ T.

(** The invariant: pointers are typed by the keys, buckets of [key] are in order,
    and what has passed and may still pass is covered by the buckets made, of
    which there is one more than drops at most. *)
Definition accounted (s : limiter) (os : list output) : Prop := ∃ own,
  length own = length (l_heap s) ∧
  (∀ k l, l_map s !! k = Some l → own !! l = Some k) ∧
  (∀ g c, l_calls s !! g = Some c → own !! c_bucket c = Some (c_key c) ∧ call_ok c) ∧
  (∀ l b, own !! l = Some key → l_heap s !! l = Some b → bucket_ok T (Some b)) ∧
  (Qn (count (passes key) os) + spendable own (l_heap s) <= Qn (owned own) * budget)%Q ∧
  (owned own ≤ count (drops key) os + if decide (is_Some (l_map s !! key)) then 1 else 0)%nat.

Definition paced_action (a : action) : Prop :=
  match a with
  | Lookup _ k l w now => k = key → l = limit ∧ w = window ∧ t0 ≤ now ≤ T
  | _ => True
  end.

Lemma accounted_lookup g k l w now s s' os :
  (k = key → l = limit ∧ w = window ∧ t0 ≤ now ≤ T) → accounted s os →
  lookup g k l w now s = Some s' → accounted s' os.
Proof using Hlimit Hwindow.
  intros Hp (own & Hlen & Hmap & Hcalls & Hok & Hq & Ho) Hl. unfold lookup in Hl.
  destruct (l_calls s !! g) as [|] eqn:Eg; [done|].
  destruct (l_map s !! k) as [p|] eqn:Ek; injection Hl as <-.
  - exists own. cbn. do 2 (split; [done|]). split; [|done].
    intros g' c [[<- <-]|[_ Hc]]%lookup_insert_Some; [|by eapply Hcalls]. split; [by apply Hmap | exact Hp].
  - assert (∀ i x, own !! i = Some x → (own ++ [k]) !! i = Some x) as Hown
      by (intros; by apply lookup_app_l_Some).
    assert ((own ++ [k]) !! length (l_heap s) = Some k) as Hnew
      by (rewrite <-Hlen; apply list_lookup_middle; done).
    exists (own ++ [k]). cbn [l_heap l_map l_calls l_round]. split; [rewrite !length_app; cbn; lia|]. split; [|split; [|split; [|split]]].
    + intros k' p [[<- <-]|[_ Hk']]%lookup_insert_Some; [done | by apply Hown, Hmap].
    + intros g' c [[<- <-]|[_ Hc]]%lookup_insert_Some; [by split|].
      destruct (Hcalls g' c Hc). split; [by apply Hown | done].
    + intros i b Hi [Hb|[Hge Hb]]%lookup_app_Some.
      * apply (Hok i); [|done]. apply lookup_app_Some in Hi as [|[Hge _]]; [done|].
        apply lookup_lt_Some in Hb. lia.
      * apply list_lookup_singleton_Some in Hb as [Hi0 <-].
        assert (i = length (l_heap s)) as -> by lia. rewrite Hnew in Hi. injection Hi as ->.
        destruct (Hp eq_refl) as (-> & -> & Hn). by apply new_bucket_credit.
    + rewrite spendable_app by done. unfold owned in *. rewrite filter_app, length_app, filter_cons.
      destruct (decide (k = key)) as [->|]; cbn [length filter list_filter].
      * destruct (Hp eq_refl) as (-> & -> & Hn). destruct (new_bucket_credit now Hn) as [_ Hc].
        rewrite Nat2Z.inj_add, inject_Z_plus. change (inject_Z (Z.of_nat 1)) with 1%Q. lra.
      * rewrite Nat.add_0_r. lra.
    + unfold owned in *. rewrite filter_app, length_app, filter_cons.
      destruct (decide (k = key)) as [->|]; cbn [length filter list_filter].
      * rewrite lookup_insert_eq, decide_True by done. rewrite Ek, decide_False in Ho by (by intros []). lia.
      * rewrite lookup_insert_ne by done. lia.
Qed.

Lemma accounted_critical g s s' o os :
  accounted s os → critical g s = Some (s', o) → accounted s' (os ++ [o]).
Proof using Hlimit Hwindow.
  intros (own & Hlen & Hmap & Hcalls & Hok & Hq & Ho) Hc. unfold critical in Hc.
  apply bind_Some in Hc as (c & Eg & Hc). apply bind_Some in Hc as (b & Eb & Hc).
  destruct (take_token _ _ _ _) as [r b'] eqn:Et. injection Hc as <- <-.
  destruct (Hcalls g c Eg) as [Hown Hcok].
  assert (c_key c = key → bucket_ok T (Some b') ∧
    (credit limit window t0 T (Some b') + cost r.1.1 <= credit limit window t0 T (Some b))%Q) as Htake.
  { intros Hk. destruct (Hcok Hk) as (Hl & Hw & Hn). rewrite Hk in Hown.
    destruct (Hok _ _ Hown Eb) as [H0 Hr]. rewrite Hl, Hw in Et.
    destruct (take_token_ideal _ _ _ _ _ _ Et Hlimit Hwindow H0) as (H1 & H2 & H3).
    split; [split; [done|lia]|]. cbn [credit].
    replace (T - b_lastRefill b) with ((T - b_lastRefill b') + (b_lastRefill b' - b_lastRefill b)) by lia.
    rewrite inject_Z_plus, Qmult_plus_distr_l. lra. }
  exists own. cbn [l_heap l_map l_calls l_round]. rewrite length_insert. split; [done|]. split; [done|]. split; [|split; [|split]].
  - intros g' c' [_ Hc']%lookup_delete_Some. by eapply Hcalls.
  - intros l x Hl [(<- & -> & _)|[_ Hx]]%list_lookup_insert_Some; [|by eapply Hok].
    apply Htake. congruence.
  - rewrite (spendable_insert _ _ _ _ _ _ Hown Eb), count_app, count_cons. cbn [passes count filter length].
    rewrite Nat2Z.inj_add, inject_Z_plus. change (count (passes key) []) with 0%nat. rewrite Nat.add_0_r.
    destruct (decide (c_key c = key)) as [Hk|Hk].
    + destruct (Htake Hk) as [_ Hle]. rewrite bool_decide_true by done. unfold cost in Hle.
      destruct (r.1.1); cbn [andb]; change (inject_Z (Z.of_nat 1)) with 1%Q;
        change (inject_Z (Z.of_nat 0)) with 0%Q; lra.
    + rewrite bool_decide_false by done. cbn [andb]. change (inject_Z (Z.of_nat 0)) with 0%Q. lra.
  - rewrite count_app, count_cons. cbn. change (count (drops key) []) with 0%nat. lia.
Qed.

Lemma accounted_step a s os s' o :
  paced_action a → accounted s os → step a s = Some (s', o) → accounted s' (os ++ option_list o).
Proof using Hlimit Hwindow.
  intros Hp Hacc Hs. pose proof Hacc as (own & Hlen & Hmap & Hcalls & Hok & Hq & Ho).
  destruct a as [g k l w now|g|now|k l| |]; cbn in Hs.
  - apply bind_Some in Hs as (s1 & H1 & [= <- <-]). cbn. rewrite app_nil_r. by eapply accounted_lookup.
  - apply bind_Some in Hs as ([s1 o1] & H1 & [= <- <-]). by eapply accounted_critical.
  - destruct (l_round s); [done|]. injection Hs as <- <-. cbn. rewrite app_nil_r. by exists own.
  - apply bind_Some in Hs as (s1 & H1 & [= <- <-]). cbn. rewrite app_nil_r. unfold visit in H1.
    destruct (l_round s) as [[now seen visited [|]]|]; [done| |done]. case_bool_decide; [|done].
    apply bind_Some in H1 as (b & _ & [= <-]). by exists own.
  - destruct (l_round s) as [[now seen visited [k|]]|]; [|done..]. injection Hs as <- <-.
    change (option_list (Some (Dropped k))) with [Dropped k].
    exists own. cbn [l_heap l_map l_calls l_round]. split; [done|].
    split; [|split; [done|split; [done|split]]].
    + intros k' l [_ Hk']%lookup_delete_Some. by apply Hmap.
    + rewrite count_app, count_cons. cbn [passes]. change (count (passes key) []) with 0%nat.
      by rewrite !Nat.add_0_r.
    + rewrite count_app, count_cons. cbn. change (count (drops key) []) with 0%nat.
      case_bool_decide as Hk; [subst k|rewrite lookup_delete_ne by done; lia].
      rewrite lookup_delete_eq, decide_False by (by intros []).
      destruct (decide (is_Some (l_map s !! key))); lia.
  - destruct (l_round s) as [[now seen visited [|]]|]; [done| |done]. injection Hs as <- <-.
    cbn. rewrite app_nil_r. by exists own.
Qed.

Lemma accounted_new : accounted new_limiter [].
Proof.
  exists []. cbn. split; [done|]. split; [by intros k l ?%lookup_empty_Some|].
  split; [by intros g c ?%lookup_empty_Some|]. split; [done|].
  split; [|lia]. unfold owned. cbn. change (count (passes key) []) with 0%nat.
  change (inject_Z (Z.of_nat 0)) with 0%Q. lra.
Qed.

Lemma exec_accounted acts s os :
  Forall paced_action acts → exec acts new_limiter = Some (s, os) → accounted s os.
Proof using Hlimit Hwindow.
  intros Hp Hx. change os with ([] ++ os).
  by eapply (exec_ind accounted paced_action); [exact accounted_step|exact Hp|exact accounted_new|].
Qed.
End rate.

(** ** Linearization *)

Section linear.
#[local] Existing Instance ideal_arith.
Variable params : string → Z * Z.
Hypothesis Hparams : ∀ k, 0 ≤ (params k).1 ∧ 0 < (params k).2.

(** The calls that were answered, in the order of their critical sections. *)
Definition served (os : list output) : list (call * (bool * Z * Z)) :=
  omap (λ o, match o with Answer c r => Some (c, r) | Dropped _ => None end) os.

(** The same calls one after the other. *)
Fixpoint serial (cs : list call) (ml : gmap string bucket) : list (bool * Z * Z) :=
  match cs with
  | [] => []
  | c :: cs' =>
      let '(r, ml') := Allow (c_key c) (c_limit c) (c_window c) (c_now c) ml in r :: serial cs' ml'
  end.

(** Calls with the limit of their key, and no deletion. *)
Definition steady_action (a : action) : Prop :=
  match a with Lookup _ k l w _ => (l, w) = params k | Delete => False | _ => True end.

(** The lookups read a clock that does not go back. *)
Fixpoint clocked_lookups (t : Z) (acts : list action) : Prop :=
  match acts with
  | [] => True
  | Lookup _ _ _ _ now :: acts' => t ≤ now ∧ clocked_lookups now acts'
  | _ :: acts' => clocked_lookups t acts'
  end.

(** A bucket that no critical section has touched is one that the serial limiter
    does not have yet. *)
Definition key_sim (t : Z) (s : limiter) (k : string) (o : option bucket) : Prop :=
  match l_map s !! k, o with
  | None, None => True
  | Some l, None => ∃ c0, l_heap s !! l = Some (new_bucket (params k).1 (params k).2 c0) ∧ c0 ≤ t ∧
      ∀ g c, l_calls s !! g = Some c → c_key c = k → c0 ≤ c_now c
  | Some l, Some b2 => ∃ b1, l_heap s !! l = Some b1 ∧ bucket_equiv b1 b2
  | None, Some _ => False
  end.

Definition sim (t : Z) (s : limiter) (ml : gmap string bucket) : Prop :=
  (∀ k l, l_map s !! k = Some l → (l < length (l_heap s))%nat) ∧
  (∀ k k' l, l_map s !! k = Some l → l_map s !! k' = Some l → k = k') ∧
  (∀ g c, l_calls s !! g = Some c →
     l_map s !! c_key c = Some (c_bucket c) ∧ (c_limit c, c_window c) = params (c_key c)) ∧
  ∀ k, key_sim t s k (ml !! k).

Lemma refill_new limit window c0 now :
  0 ≤ limit → 0 < window → c0 ≤ now →
  bucket_equiv (refill now (with_params limit window (new_bucket limit window c0)))
    (refill now (with_params limit window (new_bucket limit window now))).
Proof.
  intros Hl Hw Hc. destruct (decide (c0 = now)) as [->|Hne]; [done|].
  unfold refill, with_params, new_bucket. cbn [b_tokens b_maxTokens b_refillRate b_lastRefill b_lastAccess].
  rewrite Z.sub_diag. rewrite (proj1 (not_true_iff_false (num_lt (of_int 0) (Seconds (saturate64 0)))))
    by (rewrite Seconds_pos; unfold saturate64, min_int64, max_int64; lia).
  set (d := saturate64 (now - c0)).
  assert (0 < d) as Hd by (unfold d, saturate64, min_int64, max_int64; lia).
  rewrite (proj2 (Seconds_pos d) Hd). split; [|done]. cbn [b_tokens].
  pose proof (Seconds_rate limit window d Hw) as Hs. cbn [num_lt num_add num_mul ideal_arith].
  simpl in Hs |- *. match type of Hs with (?g == _)%Q => set (gain := g) in * end.
  assert (0 <= gain)%Q as Hg.
  { rewrite Hs. apply Qmult_le_0_compat; [|by apply rate_nonneg]. change 0%Q with (inject_Z 0).
    rewrite <-Zle_Qle. lia. }
  case_match eqn:E; [done|]. rewrite negb_false_iff, Qle_bool_iff in E. lra.
Qed.

Lemma sim_lookup t g k l w now s s' ml :
  (l, w) = params k → t ≤ now → sim t s ml → lookup g k l w now s = Some s' → sim now s' ml.
Proof.
  intros Hp Ht (Hlen & Hinj & Hcalls & Hsim) Hl. unfold lookup in Hl.
  destruct (l_calls s !! g) as [|] eqn:Eg; [done|].
  destruct (l_map s !! k) as [p|] eqn:Ek; injection Hl as <-; unfold sim; cbn.
  - do 2 (split; [done|]). split.
    { intros g' c [[<- <-]|[_ Hc]]%lookup_insert_Some; [by split | by eapply Hcalls]. }
    intros k'. specialize (Hsim k'). unfold key_sim in *. cbn.
    destruct (l_map s !! k') as [p'|] eqn:Ek', (ml !! k') as [b2|]; try done.
    destruct Hsim as (c0 & Hb & Hc0 & Hpend). exists c0. split; [done|]. split; [lia|].
    intros g' c [[<- <-]|[_ Hc]]%lookup_insert_Some; [cbn; intros; lia | by eapply Hpend].
  - split; [|split; [|split]].
    + intros k' p [[<- <-]|[_ Hk']]%lookup_insert_Some; rewrite length_app; cbn; [lia|].
      specialize (Hlen _ _ Hk'). lia.
    + intros k1 k2 p [[<- <-]|[Hn1 H1]]%lookup_insert_Some [[<- E]|[Hn2 H2]]%lookup_insert_Some;
        [done| | |by eapply Hinj].
      * apply Hlen in H2. lia.
      * subst p. apply Hlen in H1. lia.
    + intros g' c [[<- <-]|[_ Hc]]%lookup_insert_Some; cbn; [by rewrite lookup_insert_eq|].
      destruct (Hcalls g' c Hc) as [Hm Hpar]. split; [|done].
      rewrite lookup_insert_ne; [done|]. intros E. rewrite <-E in Hm. congruence.
    + intros k'. specialize (Hsim k'). unfold key_sim in *. cbn.
      destruct (decide (k = k')) as [<-|Hne].
      * rewrite lookup_insert_eq. rewrite Ek in Hsim. destruct (ml !! k); [done|].
        exists now. rewrite <-Hp. split; [by apply list_lookup_middle|]. split; [lia|].
        intros g' c [[<- <-]|[_ Hc]]%lookup_insert_Some Hk; [cbn; lia|].
        destruct (Hcalls g' c Hc) as [Hm _]. rewrite Hk in Hm. congruence.
      * rewrite lookup_insert_ne by done. destruct (l_map s !! k') as [p'|] eqn:Ek', (ml !! k') as [b2|];
          try done.
        -- destruct Hsim as (b1 & Hb & He). exists b1. split; [by apply lookup_app_l_Some | done].
        -- destruct Hsim as (c0 & Hb & Hc0 & Hpend). exists c0.
           split; [by apply lookup_app_l_Some|]. split; [lia|].
           intros g' c [[<- <-]|[_ Hc]]%lookup_insert_Some; [cbn; intros; lia | by eapply Hpend].
Qed.

Lemma sim_critical t g s s' o ml :
  sim t s ml → critical g s = Some (s', o) →
  ∃ c r ml', o = Answer c r ∧ Allow (c_key c) (c_limit c) (c_window c) (c_now c) ml = (r, ml') ∧
    sim t s' ml'.
Proof using Hparams.
  intros (Hlen & Hinj & Hcalls & Hsim) Hc. unfold critical in Hc.
  apply bind_Some in Hc as (c & Eg & Hc). apply bind_Some in Hc as (b & Eb & Hc).
  destruct (take_token _ _ _ _) as [r b'] eqn:Et. injection Hc as <- <-.
  destruct (Hcalls g c Eg) as [Hm Hpar]. destruct (Hparams (c_key c)) as [Hl Hw].
  rewrite <-Hpar in Hl, Hw. cbn in Hl, Hw.
  assert (r = (take_token (c_limit c) (c_window c) (c_now c)
                 (load_or_store (c_limit c) (c_window c) (c_now c) (ml !! c_key c))).1 ∧
    bucket_equiv b' (take_token (c_limit c) (c_window c) (c_now c)
                 (load_or_store (c_limit c) (c_window c) (c_now c) (ml !! c_key c))).2) as [Hr Hb'].
  { replace r with ((r, b').1) by done. replace b' with ((r, b').2) at 2 by done. rewrite <-Et.
    apply take_token_refilled. specialize (Hsim (c_key c)). unfold key_sim in Hsim. rewrite Hm, Eb in Hsim.
    unfold load_or_store. destruct (ml !! c_key c) as [b2|]; cbn [default].
    - destruct Hsim as (b1 & [= <-] & [Ht Hrf]). apply refill_proper; [by split|done..].
    - destruct Hsim as (c0 & [= ->] & Hc0 & Hpend). rewrite <-Hpar. cbn.
      apply refill_new; [done..|]. by apply (Hpend g c). }
  destruct (take_token _ _ _ (load_or_store _ _ _ _)) as [r2 b2'] eqn:E2. cbn in Hr, Hb'.
  subst r2. exists c, r, (<[c_key c := b2']> ml). split; [done|].
  split; [unfold Allow; by rewrite E2|].
  unfold sim. cbn. rewrite length_insert. do 2 (split; [done|]). split.
  { intros g' c' [_ Hc']%lookup_delete_Some. by eapply Hcalls. }
  intros k. specialize (Hsim k). unfold key_sim in *. cbn.
  destruct (decide (c_key c = k)) as [<-|Hne].
  - rewrite Hm, lookup_insert_eq. exists b'. split; [|done].
    apply list_lookup_insert_eq. by eapply lookup_lt_Some.
  - rewrite lookup_insert_ne by done. destruct (l_map s !! k) as [l|] eqn:Ek; [|done].
    assert (c_bucket c ≠ l) as Hl' by (intros <-; apply Hne; by eapply Hinj).
    rewrite list_lookup_insert_ne by done. destruct (ml !! k) as [b3|]; [done|].
    destruct Hsim as (c0 & Hb & Hc0 & Hpend). exists c0. do 2 (split; [done|]).
    intros g' c' [_ Hc']%lookup_delete_Some. by eapply Hpend.
Qed.

Lemma exec_serial acts : ∀ t s ml s' os,
  Forall steady_action acts → clocked_lookups t acts → sim t s ml → exec acts s = Some (s', os) →
  snd <$> served os = serial (fst <$> served os) ml.
Proof using Hparams.
  induction acts as [|a acts IH]; intros t s ml s' os Hst Hck Hsim Hx; cbn in Hx.
  { by injection Hx as <- <-. }
  apply Forall_cons in Hst as [Ha Hst].
  apply bind_Some in Hx as ([s1 o] & H1 & Hx). apply bind_Some in Hx as ([s2 os2] & H2 & [= <- <-]).
  destruct a as [g k l w now|g|now|k l| |]; cbn in H1, Ha, Hck; [| | | |done|].
  - apply bind_Some in H1 as (s3 & H3 & [= <- <-]). destruct Hck as [Ht Hck].
    apply (IH now s3 ml s2); [done..| |done]. by apply (sim_lookup t g k l w now s).
  - apply bind_Some in H1 as ([s3 o3] & H3 & [= <- <-]).
    destruct (sim_critical t g s s3 o3 ml Hsim H3) as (c & r & ml' & -> & Hal & Hsim'). cbn.
    rewrite Hal. f_equal. by apply (IH t s3 ml' s2).
  - destruct (l_round s); [done|]. injection H1 as <- <-. cbn. eapply (IH t); [done|done| |exact H2]. exact Hsim.
  - apply bind_Some in H1 as (s3 & H3 & [= <- <-]). unfold visit in H3.
    destruct (l_round s) as [[now seen visited [|]]|]; [done| |done]. case_bool_decide; [|done].
    apply bind_Some in H3 as (b & _ & [= <-]). cbn. eapply (IH t); [done|done| |exact H2]. exact Hsim.
  - destruct (l_round s) as [[now seen visited [|]]|]; [done| |done]. injection H1 as <- <-.
    cbn. eapply (IH t); [done|done| |exact H2]. exact Hsim.
Qed.

Lemma sim_new t : sim t new_limiter ∅.
Proof.
  unfold sim, new_limiter. cbn [l_map l_heap l_calls].
  split; [by intros k l ?%lookup_empty_Some|]. split; [by intros k k' l ?%lookup_empty_Some|].
  split; [by intros g c ?%lookup_empty_Some|]. intros k. unfold key_sim. cbn. by rewrite !lookup_empty.
Qed.
End linear.

(** ** Properties *)



(** The cleanup can delete a bucket in use.  It finds a bucket idle, releases the
    lock and deletes the key later; a call that has looked the bucket up in
    between takes its token from a bucket that is no longer in the map, and the
    next call gets a fresh one.  With one request per minute, two pass at the same
    moment, six minutes after the last. *)
Definition race : list action :=
  [Lookup 1 "k" 1 Minute 0; Critical 1;
   StartRound (6 * Minute); Visit "k" 0;
   Lookup 2 "k" 1 Minute (6 * Minute); Critical 2;
   Delete; EndRound;
   Lookup 3 "k" 1 Minute (6 * Minute); Critical 3].

Theorem eviction_race_doubles_burst :
  (λ '(_, os), (λ cr, (c_now cr.1, cr.2.1.1)) <$> served os) <$>
    exec (Ar := float_arith) race (new_limiter (Ar := float_arith)) =
    Some [(0, true); (6 * Minute, true); (6 * Minute, true)] ∧
  (* one after the other, with evictions in between, one of the two is refused *)
  (λ a, a.1.1) <$> answers (Ar := float_arith) "k"
    [Call "k" 1 Minute 0; Evict (6 * Minute); Call "k" 1 Minute (6 * Minute);
     Evict (6 * Minute); Call "k" 1 Minute (6 * Minute)] ∅ = [true; true; false].
Proof. by vm_compute. Qed.

(** ** Witnesses *)

(** Two goroutines overlap: the second looks up before the first takes its token,
    and enters its critical section first. *)
Definition overlapping : list action :=
  [Lookup 1 "k" 1 Minute 0; Lookup 2 "k" 1 Minute Second; Critical 2; Critical 1;
   Lookup 1 "k" 1 Minute (2 * Minute); StartRound (2 * Minute); Visit "k" 0; Critical 1].


