(* ===== verification/LeakyBucket.v ===== *)
(** * The leaky bucket (internal/middleware/ratelimit/redis.go)

    The second script of the Redis limiter.  Lua computes with doubles and
    stores them as text, so the script is defined over an interface of numbers;
    the rate theorems are about exact numbers.  The clock of the Redis server,
    which expires keys, and the clock of the gateway, which the script is given,
    are distinct arguments. *)

From Stdlib Require Import QArith Qround Lqa.
From S2P Require Import Prelude.
From S2P Require Import GoStrings.
From S2P Require Import ConfigTypes.
From S2P Require Import Http.
From S2P Require Import F64.
From S2P Require Import Redis.

Local Open Scope Z_scope.

(** What the script uses of Lua's numbers besides arithmetic. *)
Class LuaNumbers : Type := {
  lua_arith :: Arith;
  lua_max : Num → Num → Num;
  lua_floor : Num → Z;
  lua_ceil : Num → Z;
  (** [tonumber(tostring(x))] *)
  lua_text : Num → Num;
}.

Definition ideal_lua : LuaNumbers := {|
  lua_arith := ideal_arith;
  lua_max x y := if Qle_bool x y then y else x;
  lua_floor := Qfloor;
  lua_ceil := Qceiling;
  lua_text x := x;
|}.

Section leaky.
Context `{LN : LuaNumbers}.

(** The hash under a key, and the time it expires at. *)
Record bucket : Type := mkBucket {
  bk_level : Num;
  bk_last_update : Z;
  bk_expires : Z;
}.

(** The bucket that the commands find at time [clock] of the server. *)
Definition live_bucket (clock : Z) (o : option bucket) : option bucket :=
  match o with
  | Some b => if bk_expires b <=? clock then None else Some b
  | None => None
  end.

(** [HSET] and [PEXPIRE]; a deadline that is not in the future deletes the key. *)
Definition store_bucket (clock window_ms now_ms : Z) (level : Num) : option bucket :=
  if window_ms <=? 0 then None else Some (mkBucket (lua_text level) now_ms (clock + window_ms)).

(** [leakyBucketScript]. *)
Definition leaky_bucket (capacity window_ms now_ms clock : Z) (o : option bucket)
    : (Z * Z * Z) * option bucket :=
  let leak_rate := num_div (of_int capacity) (of_int window_ms) in
  let data := live_bucket clock o in
  let level := match data with Some b => bk_level b | None => of_int 0 end in
  let last_update := match data with Some b => bk_last_update b | None => now_ms end in
  let elapsed := now_ms - last_update in
  let level := if 0 <? elapsed
               then lua_max (num_sub level (num_mul (of_int elapsed) leak_rate)) (of_int 0)
               else level in
  if num_le (num_add level (of_int 1)) (of_int capacity) then
    let level := num_add level (of_int 1) in
    let remaining := lua_floor (num_sub (of_int capacity) level) in
    let reset_ms := now_ms + lua_ceil (num_div level leak_rate) in
    ((1, remaining, reset_ms), store_bucket clock window_ms now_ms level)
  else
    let overflow := num_sub (num_add level (of_int 1)) (of_int capacity) in
    let reset_ms := now_ms + lua_ceil (num_div overflow leak_rate) in
    ((0, 0, reset_ms), store_bucket clock window_ms now_ms level).

(** [allowLeakyBucket], on the hashes of the server. *)
Definition allowLeakyBucket (key : string) (capacity windowMs nowMs clock : Z)
    (hashes : gmap string bucket) : (bool * Z * Z) * gmap string bucket :=
  let '((allowed, remaining, reset), b) :=
    leaky_bucket capacity windowMs nowMs clock (hashes !! key) in
  ((allowed =? 1, remaining, reset * Millisecond), partial_alter (λ _, b) key hashes).

(** [RedisLimiter.Allow]: the algorithm selects the script.  The gateway's keys
    carry the algorithm, so a key never holds both types. *)
Definition Allow `{RS : RedisServer} (key : string) (limit window : Z) (algorithm : string)
    (now clock : Z) (rl : RedisLimiter * gmap string bucket)
    : (bool * Z * Z) * (RedisLimiter * gmap string bucket) :=
  if bool_decide (algorithm = "leaky_bucket") then
    let '(answer, hashes) :=
      allowLeakyBucket key limit (Milliseconds window) (UnixMilli now) clock rl.2 in
    (answer, (rl.1, hashes))
  else
    let '(answer, rl1) := allowSlidingWindow key limit (Milliseconds window) (UnixMilli now) rl.1 in
    (answer, (rl1, rl.2)).

(** ** Runs of the script *)

(** A call: the gateway's time and the server's. *)
Fixpoint admitted_calls (capacity window : Z) (calls : list (Z * Z)) (o : option bucket) : nat :=
  match calls with
  | [] => 0%nat
  | (now, clock) :: rest =>
      let '((allowed, _, _), o') := leaky_bucket capacity window now clock o in
      let n := admitted_calls capacity window rest o' in
      if allowed =? 1 then S n else n
  end.
End leaky.

(** One clock, which does not go backwards, between [t] and [T]. *)
Fixpoint one_clock (t T : Z) (calls : list (Z * Z)) : Prop :=
  match calls with
  | [] => t ≤ T
  | (now, clock) :: rest => clock = now ∧ t ≤ now ∧ one_clock now T rest
  end.

(** ** The rate, with exact numbers *)

Section rate.
#[local] Existing Instance ideal_lua.
Variables capacity window : Z.
Hypothesis Hcap : 0 < capacity.
Hypothesis Hwin : 0 < window.

Definition leak : Q := (inject_Z capacity / inject_Z window)%Q.

(** A bucket that calls at times up to [t] left behind. *)
Definition bucket_ok (t : Z) (o : option bucket) : Prop :=
  match o with
  | Some b => (0 <= bk_level b)%Q ∧ (bk_level b <= inject_Z capacity)%Q ∧
              bk_last_update b ≤ t ∧ bk_expires b = bk_last_update b + window
  | None => True
  end.

(** What may still pass until [T]. *)
Definition room (t0 T : Z) (o : option bucket) : Q :=
  match o with
  | Some b => (inject_Z capacity - bk_level b + inject_Z (T - bk_last_update b) * leak)%Q
  | None => (inject_Z capacity + inject_Z (T - t0) * leak)%Q
  end.

Lemma window_pos : (0 < inject_Z window)%Q.
Proof using Hwin. change 0%Q with (inject_Z 0). by rewrite <-Zlt_Qlt. Qed.

Lemma leak_pos : (0 < leak)%Q.
Proof using Hcap Hwin.
  unfold leak. apply Qlt_shift_div_l; [apply window_pos|]. rewrite Qmult_0_l.
  change 0%Q with (inject_Z 0). by rewrite <-Zlt_Qlt.
Qed.

Lemma leak_mono x y : x ≤ y → (inject_Z x * leak <= inject_Z y * leak)%Q.
Proof using Hcap Hwin.
  intros H. apply Qmult_le_compat_r; [by rewrite <-Zle_Qle | apply Qlt_le_weak, leak_pos].
Qed.

Lemma leak_window : (inject_Z window * leak == inject_Z capacity)%Q.
Proof using Hwin. unfold leak. field. pose proof window_pos. lra. Qed.

(** The level before the request, after the leak. *)
Definition leaked_level (now clock : Z) (o : option bucket) : Q :=
  match live_bucket clock o with
  | None => 0%Q
  | Some b =>
      if 0 <? now - bk_last_update b
      then lua_max (bk_level b - inject_Z (now - bk_last_update b) * leak)%Q 0%Q
      else bk_level b
  end.

Lemma leaky_bucket_level now clock o :
  leaky_bucket capacity window now clock o =
  let level := leaked_level now clock o in
  if Qle_bool (level + 1) (inject_Z capacity)
  then ((1, Qfloor (inject_Z capacity - (level + 1)), now + Qceiling ((level + 1) / leak)),
        Some (mkBucket (level + 1)%Q now (clock + window)))
  else ((0, 0, now + Qceiling ((level + 1 - inject_Z capacity) / leak)),
        Some (mkBucket level now (clock + window))).
Proof using Hwin.
  unfold leaky_bucket, leaked_level, store_bucket. rewrite (proj2 (Z.leb_gt window 0)) by lia.
  destruct (live_bucket clock o) as [b|]; cbn zeta; [done|].
  by rewrite Z.sub_diag.
Qed.

Lemma leaked_level_bounds t now o :
  bucket_ok t o → t ≤ now →
  let level := leaked_level now now o in
  (0 <= level)%Q ∧ (level <= inject_Z capacity)%Q ∧
  ∀ T t0, t0 ≤ now →
    (inject_Z capacity - level + inject_Z (T - now) * leak <= room t0 T o)%Q.
Proof using Hcap Hwin.
  intros Hok Ht. pose proof leak_pos as Hl.
  assert (0 <= inject_Z capacity)%Q as Hc by (change 0%Q with (inject_Z 0); rewrite <-Zle_Qle; lia).
  unfold leaked_level, live_bucket. destruct o as [b|]; cbn [room]; cycle 1; cbv zeta.
  { repeat split; [lra..|]. intros T t0 H0. pose proof (leak_mono (T - now) (T - t0) ltac:(lia)). lra. }
  destruct Hok as (H0 & Hcp & Hu & He). destruct b as [l u e].
  cbn [bk_level bk_last_update bk_expires] in *. subst e. cbv zeta.
  assert (∀ T, (inject_Z (T - u) * leak == inject_Z (T - now) * leak + inject_Z (now - u) * leak)%Q) as Hsplit.
  { intros T. rewrite <-Qmult_plus_distr_l, <-inject_Z_plus.
    by replace (T - now + (now - u)) with (T - u) by lia. }
  destruct (Z.leb_spec (u + window) now) as [Hx|Hx]; cbn [bk_level bk_last_update].
  - repeat split; [lra..|]. intros T t0 _. rewrite (Hsplit T).
    pose proof (leak_mono window (now - u) ltac:(lia)) as Hm. rewrite leak_window in Hm. lra.
  - destruct (Z.ltb_spec 0 (now - u)) as [Hpos|Hpos].
    + pose proof (leak_mono 0 (now - u) ltac:(lia)) as Hm.
      change (inject_Z 0) with 0%Q in Hm. rewrite Qmult_0_l in Hm.
      cbn [lua_max ideal_lua]. destruct (Qle_bool _ 0) eqn:E.
      * apply Qle_bool_iff in E. repeat split; [lra..|]. intros T t0 _. rewrite (Hsplit T). lra.
      * assert (0 <= l - inject_Z (now - u) * leak)%Q as Hnn.
        { apply Qlt_le_weak, Qnot_le_lt. rewrite <-Qle_bool_iff. by rewrite E. }
        repeat split; [lra..|]. intros T t0 _. rewrite (Hsplit T). lra.
    + assert (now = u) as -> by lia. repeat split; [lra..|]. intros T t0 _. lra.
Qed.

Lemma Qle_bool_false x y : Qle_bool x y = false → (y < x)%Q.
Proof. intros E. apply Qnot_le_lt. by rewrite <-Qle_bool_iff, E. Qed.

(** An admission costs one unit of room. *)
Definition price (allowed : Z) : Q := if allowed =? 1 then 1%Q else 0%Q.

Lemma call_room t now o a rem reset o' :
  bucket_ok t o → t ≤ now → leaky_bucket capacity window now now o = ((a, rem, reset), o') →
  bucket_ok now o' ∧ ∀ T t0, t0 ≤ now → (room now T o' + price a <= room t0 T o)%Q.
Proof using Hcap Hwin.
  intros Hok Ht. rewrite leaky_bucket_level. cbv zeta.
  destruct (leaked_level_bounds t now o Hok Ht) as (H0 & Hc & Hroom).
  set (level := leaked_level now now o) in *. clearbody level.
  destruct (Qle_bool (level + 1) (inject_Z capacity)) eqn:E; intros [= <- <- <- <-];
    cbn [bucket_ok room bk_level bk_last_update bk_expires].
  - apply Qle_bool_iff in E. split; [repeat split; lra || lia|].
    intros T t0 Ht0. specialize (Hroom T t0 Ht0). change (price 1) with 1%Q. lra.
  - split; [repeat split; lra || lia|].
    intros T t0 Ht0. specialize (Hroom T t0 Ht0). change (price 0) with 0%Q. lra.
Qed.

Lemma calls_room calls : ∀ t t0 T o,
  bucket_ok t o → one_clock t T calls → t0 ≤ t →
  (inject_Z (Z.of_nat (admitted_calls capacity window calls o)) <= room t0 T o)%Q.
Proof using Hcap Hwin.
  induction calls as [|[now clock] calls IH]; intros t t0 T o Hok Hcl Ht0; cbn [admitted_calls].
  - cbn in Hcl. change (inject_Z (Z.of_nat 0)) with 0%Q.
    pose proof (leak_mono 0 (T - t0) ltac:(lia)) as Hm.
    change (inject_Z 0) with 0%Q in Hm. rewrite Qmult_0_l in Hm.
    assert (0 <= inject_Z capacity)%Q as Hc by (change 0%Q with (inject_Z 0); rewrite <-Zle_Qle; lia).
    destruct o as [b|]; cbn [room]; [|lra]. destruct Hok as (H0 & Hb & Hu & _).
    pose proof (leak_mono 0 (T - bk_last_update b) ltac:(lia)) as Hm'.
    change (inject_Z 0) with 0%Q in Hm'. rewrite Qmult_0_l in Hm'. lra.
  - destruct Hcl as (-> & Htn & Hcl).
    destruct (leaky_bucket capacity window now now o) as [[[a rem] reset] o'] eqn:E.
    destruct (call_room t now o a rem reset o' Hok Htn E) as [Hok' Hroom].
    specialize (IH now now T o' Hok' Hcl ltac:(lia)). specialize (Hroom T t0 ltac:(lia)).
    unfold price in Hroom. cbv zeta. destruct (a =? 1); [|lra].
    rewrite Nat2Z.inj_succ, <-Z.add_1_r, inject_Z_plus. change (inject_Z 1) with 1%Q. lra.
Qed.

(** With one clock the leaky bucket enforces its rate: of all the calls
    between [t0] and [T] at most [capacity + capacity * (T - t0) / window] pass,
    although the key expires one window after its last call. *)
Theorem leaky_bucket_bound t0 T calls :
  one_clock t0 T calls →
  (Z.of_nat (admitted_calls capacity window calls None) - capacity) * window ≤ capacity * (T - t0).
Proof using Hcap Hwin.
  intros Hcl. pose proof (calls_room calls t0 t0 T None I Hcl ltac:(lia)) as H. cbn [room] in H.
  pose proof window_pos as Hw. pose proof leak_window as Hlw.
  rewrite Zle_Qle, !inject_Z_mult. unfold Z.sub at 1. rewrite inject_Z_plus, inject_Z_opp.
  set (a := inject_Z (Z.of_nat _)) in *. set (d := inject_Z (T - t0)) in *.
  assert ((a + - inject_Z capacity) * inject_Z window <= d * leak * inject_Z window)%Q as Hm.
  { apply Qmult_le_compat_r; lra. }
  assert (d * leak * inject_Z window == d * inject_Z capacity)%Q as Hd by (rewrite <-Hlw; ring).
  lra.
Qed.

(** The reset time of a refusal is honest: it lies in the future, and a call
    at that time, with no other call in between, passes. *)
Theorem leaky_bucket_reset t now o a rem reset o' :
  bucket_ok t o → t ≤ now →
  leaky_bucket capacity window now now o = ((a, rem, reset), o') → a ≠ 1 →
  now < reset ∧ (leaky_bucket capacity window reset reset o').1.1.1 = 1.
Proof using Hcap Hwin.
  intros Hok Ht Hcall Ha. revert Hcall. rewrite leaky_bucket_level. cbv zeta.
  destruct (leaked_level_bounds t now o Hok Ht) as (H0 & Hc & _).
  set (level := leaked_level now now o) in *. clearbody level.
  destruct (Qle_bool (level + 1) (inject_Z capacity)) eqn:E; intros [= <- <- <- <-]; [done|].
  apply Qle_bool_false in E. pose proof leak_pos as Hl.
  set (over := ((level + 1 - inject_Z capacity) / leak)%Q).
  assert (0 < over)%Q as Hover by (apply Qlt_shift_div_l; [done|]; lra).
  pose proof (Qle_ceiling over) as Hceil.
  assert (0 < Qceiling over) as Hpos.
  { rewrite Zlt_Qlt. change (inject_Z 0) with 0%Q. lra. }
  split; [lia|]. rewrite leaky_bucket_level. cbv zeta.
  set (e := Qceiling over) in *. clearbody e.
  assert (1 <= inject_Z capacity)%Q as Hc1 by (change 1%Q with (inject_Z 1); rewrite <-Zle_Qle; lia).
  set (l' := leaked_level (now + e) (now + e) _).
  assert (l' + 1 <= inject_Z capacity)%Q as Hfit; [|by rewrite (proj2 (Qle_bool_iff _ _) Hfit)].
  subst l'. unfold leaked_level, live_bucket. cbn [bk_expires bk_level bk_last_update].
  destruct (now + window <=? now + e); cbn [bk_level bk_last_update]; [lra|]. replace (now + e - now) with e by lia.
  rewrite (proj2 (Z.ltb_lt 0 e)) by done. cbn [lua_max ideal_lua bk_level].
  destruct (Qle_bool _ 0); [lra|].
  assert (over * leak == level + 1 - inject_Z capacity)%Q as Hmul.
  { unfold over. field. lra. }
  assert (over * leak <= inject_Z e * leak)%Q by (apply Qmult_le_compat_r; lra). lra.
Qed.
End rate.

(** ** Clocks that differ *)

(** Two gateways, the first a second ahead of the second, take turns: after [n]
    rounds of two milliseconds. *)
Fixpoint skewed_calls (n : nat) (start : Z) : list (Z * Z) :=
  match n with
  | O => []
  | S n' => (start + 1000, start) :: (start + 1, start + 1) :: skewed_calls n' (start + 2)
  end.

(** The bucket does not enforce its rate across gateways whose clocks differ:
    a call of the gateway that is behind moves [last_update] back, so the next
    call of the other one leaks the same second again.  With a limit of one
    request per second, 100 requests pass within 200 milliseconds. *)
Theorem skewed_clocks_exceed_rate :
  admitted_calls (LN := ideal_lua) 1 1000 (skewed_calls 100 0) None = 100%nat.
Proof. vm_compute. reflexivity. Qed.

(** ** Witnesses *)

Lemma leaky_bucket_bound_witness :
  (Z.of_nat (admitted_calls (LN := ideal_lua) 2 1000 [(0, 0); (1, 1); (2, 2); (600, 600)] None) - 2)
    * 1000 ≤ 2 * (600 - 0) ∧
  admitted_calls (LN := ideal_lua) 2 1000 [(0, 0); (1, 1); (2, 2); (600, 600)] None = 3%nat.
Proof.
  split; [|vm_compute; reflexivity].
  apply (leaky_bucket_bound 2 1000 ltac:(lia) ltac:(lia)). cbn. lia.
Defined.

Lemma leaky_bucket_reset_witness :
  let o := (leaky_bucket (LN := ideal_lua) 1 1000 0 0 None).2 in
  0 < 1000 ∧
  (leaky_bucket (LN := ideal_lua) 1 1000 1000 1000 (leaky_bucket (LN := ideal_lua) 1 1000 0 0 o).2).1.1.1 = 1.
Proof.
  intros o.
  refine (leaky_bucket_reset 1 1000 ltac:(lia) ltac:(lia) 0 0 o 0 0 1000
    (leaky_bucket (LN := ideal_lua) 1 1000 0 0 o).2 _ _ _ _).
  - vm_compute. repeat split; discriminate.
  - lia.
  - vm_compute. reflexivity.
  - lia.
Defined.
