(* ===== verification/RedisClient.v ===== *)
(** * The Redis client (internal/middleware/ratelimit/redis.go)

    What stands between the limiter and its scripts: the options of the client, the
    identity of the process, and a network that loses requests and answers.  The
    client library repeats a command whose connection breaks, so that a script may
    run several times, or not at all, for one call of [Allow]. *)

From Stdlib Require Import QArith Lqa.
From S2P Require Import Prelude.
From S2P Require Import GoStrings.
From S2P Require Import ConfigTypes.
From S2P Require Import Http.
From S2P Require Import Middleware.
From S2P Require Import F64.
From S2P Require Import Redis.
From S2P Require Import LeakyBucket.

Local Open Scope Z_scope.

(** ** Construction *)

(** [redis.Options], as far as the gateway sets them; of [TLSConfig] the minimum
    version. *)
Record Options : Type := mkOptions {
  op_Addr : string;
  op_Password : string;
  op_DB : Z;
  op_PoolSize : Z;
  op_MinIdleConns : Z;
  op_DialTimeout : Z;
  op_ReadTimeout : Z;
  op_WriteTimeout : Z;
  op_MaxRetries : Z;
  op_TLSMinVersion : option Z;
}.

Definition VersionTLS12 : Z := 0x0303.

(** The client's options and the query timeout. *)
Definition NewRedisLimiter (cfg : RedisConfig) : Options * Z :=
  ({| op_Addr := redis_Addr cfg;
      op_Password := redis_Password cfg;
      op_DB := redis_DB cfg;
      op_PoolSize := redis_PoolSize cfg;
      op_MinIdleConns := redis_MinIdleConns cfg;
      op_DialTimeout := redis_DialTimeout cfg;
      op_ReadTimeout := redis_ReadTimeout cfg;
      op_WriteTimeout := redis_WriteTimeout cfg;
      op_MaxRetries := redis_MaxRetries cfg;
      op_TLSMinVersion := if redis_TLSEnabled cfg then Some VersionTLS12 else None |},
   redis_QueryTimeout cfg).

(** [pid] is [os.Getpid()]. *)
Definition generateInstanceID (pid : Z) : prog string :=
  rnd ← emit (RandBytes 4);
  mret (Itoa pid +:+ ":" +:+ hex_encode rnd).

(** ** The network *)

(** What becomes of a call: the script ran [again] times more than once and the last
    answer arrived, or it ran [times] times and there was an error. *)
Inductive delivery : Type :=
  | Answered (again : nat)
  | Failed (times : nat) (err : error).

Definition runs (d : delivery) : nat :=
  match d with Answered again => S again | Failed times _ => times end.

Section network.
Context {S A : Type} (script : S → A * S).

Fixpoint repeat (n : nat) (s : S) : S :=
  match n with O => s | Datatypes.S n' => repeat n' (script s).2 end.

(** [Script.Run]. *)
Definition Run (d : delivery) (s : S) : result A * S :=
  match d with
  | Answered again => let '(a, s') := script (repeat again s) in (Ok a, s')
  | Failed times err => (Err err, repeat times s)
  end.
End network.

(** ** The limiter on the network *)

(** An answer of a script as [Allow] returns it. *)
Definition answer (r : result (Z * Z * Z)) : result (bool * Z * Z) :=
  match r with
  | Err err => Err err
  | Ok (allowed, remaining, reset) => Ok (allowed =? 1, remaining, reset * Millisecond)
  end.

Section limiter.
Context `{RS : RedisServer} `{LN : LuaNumbers}.

Definition allowSlidingWindow (d : delivery) (key : string) (limit windowMs nowMs : Z) (rl : RedisLimiter)
    : result (bool * Z * Z) * RedisLimiter :=
  let counter := ((rl_memberCounter rl + 1) `mod` 2 ^ 64)%N in
  let member := member_of (rl_instanceID rl) nowMs counter in
  let '(r, e) := Run (sliding_window windowMs limit nowMs member) d (rl_store rl !! key) in
  (answer r, mkRedisLimiter (rl_instanceID rl) counter (partial_alter (λ _, e) key (rl_store rl))).

Definition allowLeakyBucket (d : delivery) (key : string) (capacity windowMs nowMs clock : Z)
    (hashes : gmap string bucket) : result (bool * Z * Z) * gmap string bucket :=
  let '(r, b) := Run (leaky_bucket capacity windowMs nowMs clock) d (hashes !! key) in
  (answer r, partial_alter (λ _, b) key hashes).

(** [RedisLimiter.Allow]; a query timeout is one way to fail. *)
Definition Allow (d : delivery) (key : string) (limit window : Z) (algorithm : string) (now clock : Z)
    (rl : RedisLimiter * gmap string bucket)
    : result (bool * Z * Z) * (RedisLimiter * gmap string bucket) :=
  if bool_decide (algorithm = "leaky_bucket") then
    let '(r, hashes) :=
      allowLeakyBucket d key limit (Milliseconds window) (UnixMilli now) clock rl.2 in
    (r, (rl.1, hashes))
  else
    let '(r, rl1) := allowSlidingWindow d key limit (Milliseconds window) (UnixMilli now) rl.1 in
    (r, (rl1, rl.2)).

(** On a network that delivers everything once this is the limiter of Redis.v and
    LeakyBucket.v. *)
Lemma Allow_reliable key limit window algorithm now clock rl :
  Allow (Answered 0) key limit window algorithm now clock rl =
  let '(a, rl') := LeakyBucket.Allow key limit window algorithm now clock rl in (Ok a, rl').
Proof.
  unfold Allow, LeakyBucket.Allow. case_bool_decide.
  - unfold allowLeakyBucket, LeakyBucket.allowLeakyBucket, Run. cbn [repeat].
    by destruct (leaky_bucket _ _ _ _ _) as [[[a rem] reset] b].
  - unfold allowSlidingWindow, Redis.allowSlidingWindow, Run. cbn [repeat].
    by destruct (sliding_window _ _ _ _ _) as [[[a rem] reset] b].
Qed.

(** Calls of one key, each with its time and what becomes of it: how many are told
    that they may pass. *)
Fixpoint passed_calls (capacity window : Z) (calls : list (Z * delivery)) (o : option bucket) : nat :=
  match calls with
  | [] => 0%nat
  | (now, d) :: rest =>
      let '(r, o') := Run (leaky_bucket capacity window now now) d o in
      let n := passed_calls capacity window rest o' in
      match answer r with Ok (true, _, _) => Datatypes.S n | _ => n end
  end.

(** The same for the sliding window: each call with its time and member, and which of
    them are told that they may pass. *)
Fixpoint passed_windowed (window limit : Z) (calls : list (Z * string * delivery)) (o : option entry)
    : list (Z * string) :=
  match calls with
  | [] => []
  | (now, m, d) :: rest =>
      let '(r, o') := Run (sliding_window window limit now m) d o in
      let l := passed_windowed window limit rest o' in
      match answer r with Ok (true, _, _) => (now, m) :: l | _ => l end
  end.
End limiter.

(** The runs of the script that the calls lead to. *)
Definition all_runs (calls : list (Z * delivery)) : list (Z * Z) :=
  '(now, d) ← calls; replicate (runs d) (now, now).

(** The calls read one clock between [t] and [T]. *)
Fixpoint clocked (t T : Z) (calls : list (Z * delivery)) : Prop :=
  match calls with
  | [] => t ≤ T
  | (now, _) :: rest => t ≤ now ∧ clocked now T rest
  end.

(** ** Lemmas *)

Lemma one_clock_replicate t T now n rest :
  t ≤ now → one_clock now T rest → one_clock t T (replicate n (now, now) ++ rest).
Proof.
  revert t. induction n as [|n IH]; intros t Ht Hr; cbn.
  - destruct rest as [|[now' clock] rest]; cbn in *; [lia|]. destruct Hr as (-> & ? & ?). split; [done|]. split; [lia|done].
  - split; [done|]. split; [done|]. apply IH; [lia|done].
Qed.

Lemma all_runs_clocked T calls : ∀ t, clocked t T calls → one_clock t T (all_runs calls).
Proof.
  induction calls as [|[now d] calls IH]; intros t Hc; [done|]. destruct Hc as [Ht Hc].
  change (all_runs ((now, d) :: calls)) with (replicate (runs d) (now, now) ++ all_runs calls).
  apply one_clock_replicate; [done|]. by apply IH.
Qed.

Section passed.
Context `{LN : LuaNumbers}.

Lemma admitted_repeat capacity window now n rest : ∀ o,
  (admitted_calls capacity window rest (repeat (leaky_bucket capacity window now now) n o) ≤
   admitted_calls capacity window (replicate n (now, now) ++ rest) o)%nat.
Proof.
  induction n as [|n IH]; intros o; [done|]. cbn [repeat replicate app admitted_calls].
  destruct (leaky_bucket capacity window now now o) as [[[a rem] reset] o'] eqn:E. cbn [snd].
  specialize (IH o'). cbv zeta. destruct (a =? 1); lia.
Qed.

(** A call that passes is an admitted run of the script. *)
Lemma passed_admitted capacity window calls : ∀ o,
  (passed_calls capacity window calls o ≤ admitted_calls capacity window (all_runs calls) o)%nat.
Proof.
  induction calls as [|[now d] calls IH]; intros o; [done|]. cbn [passed_calls].
  change (all_runs ((now, d) :: calls)) with (replicate (runs d) (now, now) ++ all_runs calls).
  destruct d as [again|times err]; cbn [Run runs].
  - set (s := repeat _ again o). destruct (leaky_bucket capacity window now now s) as [[[a rem] reset] o'] eqn:E.
    cbn [answer]. cbv zeta.
    pose proof (admitted_repeat capacity window now again ((now, now) :: all_runs calls) o) as H.
    fold s in H. cbn [admitted_calls] in H. rewrite E in H. cbv zeta in H.
    assert (replicate (Datatypes.S again) (now, now) ++ all_runs calls =
            replicate again (now, now) ++ (now, now) :: all_runs calls) as ->.
    { rewrite replicate_S_end, <-(assoc (++)). done. }
    specialize (IH o'). destruct (a =? 1); lia.
  - cbn [answer]. cbv zeta.
    pose proof (admitted_repeat capacity window now times (all_runs calls) o). specialize (IH (repeat (leaky_bucket capacity window now now) times o)). lia.
Qed.
End passed.

Section windowed.
Context `{RS : RedisServer}.
Variables (window limit : Z).
Hypothesis Hwindow : 0 < window.

(** What is admitted by the server at [last], and what the key holds. *)
Definition window_state (last : Z) (A : list (Z * string)) (o : option entry) : Prop :=
  0 ≤ last ∧ history_ok limit window last A ∧ holds window last A o.

(** A run for [m] at [now]: either its first one, or one that finds its own member. *)
Definition first_or_again (last now : Z) (m : string) (A : list (Z * string)) : Prop :=
  m ∉ (snd <$> A) ∨ (last = now ∧ (now, m) ∈ A).

(** A member that is added again keeps its score. *)
Lemma again_held last A o now m :
  window_state last A o → last = now → (now, m) ∈ A →
  window_state now A (sliding_window window limit now m o).2.
Proof using Hwindow.
  intros (H0 & Hok & Hh) -> Hin. split; [done|]. split; [done|]. unfold sliding_window.
  pose proof (trimmed _ _ _ _ _ _ Hwindow (Z.le_refl now) Hok Hh) as Ht.
  rewrite (trimmed_card _ _ _ _ _ _ Hwindow (Z.le_refl now) Hok Hh).
  pose proof Hok as (ND & Hb & _).
  destruct (_ <? limit); cbn [snd].
  - rewrite (proj2 (Z.leb_gt window 0)) by lia. split; cbn.
    + rewrite scores_ZADD, Ht. apply insert_id. apply window_lookup; [done|]. cbn. split; [lia|done].
    + intros d [= <-] c Hc. specialize (Hb c Hc). lia.
  - destruct (_ =? 0) eqn:E0; split; cbn; [|done|exact Ht|].
    + apply Z.eqb_eq in E0. destruct (fresh window now A); [|cbn in E0; lia]. by rewrite scores_empty.
    + intros d Hd. by eapply live_deadline.
Qed.

Lemma one_run last A o now m :
  window_state last A o → last ≤ now → first_or_again last now m A →
  let '((allowed, _, _), o') := sliding_window window limit now m o in
  ∃ A', (A' = A ∨ A' = (now, m) :: A) ∧ (allowed = 1 → (now, m) ∈ A') ∧ window_state now A' o' ∧
    first_or_again now now m A'.
Proof using Hwindow.
  intros Hst Hl [Hnew|[El Hin]].
  - destruct Hst as (H0 & Hok & Hh).
    pose proof (script_step window limit last now m A o Hwindow (conj H0 Hl) Hnew Hok Hh) as Hs.
    destruct (sliding_window window limit now m o) as [[[a rem] reset] o']. destruct Hs as (Ea & Hok' & Hh').
    exists (if a =? 1 then (now, m) :: A else A).
    assert (0 ≤ now) by lia. destruct (Z.eqb_spec a 1).
    + split; [by right|]. split; [by left|]. split; [done|]. right. split; [done|by left].
    + split; [by left|]. split; [done|]. split; [done|]. by left.
  - pose proof (again_held last A o now m Hst El Hin) as Hst'.
    destruct (sliding_window window limit now m o) as [[[a rem] reset] o']. exists A.
    split; [by left|]. split; [done|]. split; [exact Hst'|]. right. done.
Qed.

Lemma some_runs n : ∀ last A o now m,
  window_state last A o → last ≤ now → first_or_again last now m A →
  ∃ last' A', (A' = A ∨ A' = (now, m) :: A) ∧ last' ≤ now ∧
    window_state last' A' (repeat (sliding_window window limit now m) n o) ∧ first_or_again last' now m A'.
Proof using Hwindow.
  induction n as [|n IH]; intros last A o now m Hst Hl Hf; [exists last, A; by split; [left|]|].
  cbn [repeat]. pose proof (one_run last A o now m Hst Hl Hf) as H1.
  destruct (sliding_window window limit now m o) as [[[a rem] reset] o1].
  destruct H1 as (A1 & HA1 & _ & Hst1 & Hf1). cbn [snd].
  destruct (IH now A1 o1 now m Hst1 (Z.le_refl _) Hf1) as (last' & A' & HA' & Hl' & Hst' & Hf').
  exists last', A'. split; [|done]. destruct HA1 as [->| ->]; [done|].
  destruct HA' as [->|E]; [by right|].
  (* the member is not recorded twice *)
  exfalso. destruct Hst' as (_ & (ND & _ & _) & _). rewrite E in ND. cbn in ND.
  apply NoDup_cons in ND as [Hn _]. apply Hn. by left.
Qed.

(** A call, whatever becomes of it. *)
Lemma delivered last A o now m d :
  window_state last A o → last ≤ now → m ∉ (snd <$> A) →
  let '(r, o') := Run (sliding_window window limit now m) d o in
  ∃ last' A', (A' = A ∨ A' = (now, m) :: A) ∧ last' ≤ now ∧ window_state last' A' o' ∧
    ∀ remaining reset, answer r = Ok (true, remaining, reset) → (now, m) ∈ A'.
Proof using Hwindow.
  intros Hst Hl Hm. destruct d as [again|times err]; cbn [Run].
  - destruct (some_runs again last A o now m Hst Hl (or_introl Hm)) as (l1 & A1 & HA1 & Hl1 & Hst1 & Hf1).
    pose proof (one_run l1 A1 _ now m Hst1 Hl1 Hf1) as H1.
    destruct (sliding_window window limit now m _) as [[[a rem] reset] o'].
    destruct H1 as (A' & HA' & Hin & Hst' & _). exists now, A'. split; [|split; [done|split; [done|]]].
    + destruct HA1 as [->| ->], HA' as [->| ->]; [by left|by right|by right|].
      exfalso. destruct Hst' as (_ & (ND & _ & _) & _). cbn in ND. apply NoDup_cons in ND as [Hn _].
      apply Hn. by left.
    + intros remaining reset' [= Ha _ _]. by apply Hin, Z.eqb_eq.
  - destruct (some_runs times last A o now m Hst Hl (or_introl Hm)) as (l1 & A1 & HA1 & Hl1 & Hst1 & _).
    by exists l1, A1.
Qed.

Lemma delivered_calls calls : ∀ last A o,
  window_state last A o → nondecreasing last calls.*1 → NoDup (calls.*1.*2 ++ A.*2) →
  ∃ last' A', A ⊆ A' ∧ passed_windowed window limit calls o ⊆ A' ∧ history_ok limit window last' A'.
Proof using Hwindow.
  induction calls as [|[[now m] d] calls IH]; intros last A o Hst Hnd ND.
  { exists last, A. split; [done|]. split; [by intros ? ?%not_elem_of_nil|]. apply Hst. }
  cbn [passed_windowed]. rewrite !fmap_cons in Hnd, ND. cbn in Hnd, ND. destruct Hnd as [Hl Hnd].
  apply NoDup_cons in ND as [Hm ND]. rewrite elem_of_app in Hm.
  pose proof (delivered last A o now m d Hst Hl ltac:(tauto)) as Hd.
  destruct (Run (sliding_window window limit now m) d o) as [r o'].
  destruct Hd as (l1 & A1 & HA1 & Hl1 & Hst1 & Hin).
  destruct (IH l1 A1 o') as (last' & A' & HAA & Hp & Hok); [done|..].
  { destruct calls as [|[[now' m'] d'] calls]; [done|]. cbn in Hnd |- *. split; [lia|apply Hnd]. }
  { destruct HA1 as [->| ->]; [done|]. cbn. rewrite <-Permutation_middle. apply NoDup_cons.
    split; [by rewrite elem_of_app|done]. }
  exists last', A'. split; [destruct HA1 as [->| ->]; set_solver|]. split; [|done].
  destruct (answer r) as [[[[] rem] reset]|e] eqn:Er; [|done..].
  intros c [->|Hc]%elem_of_cons; [by apply HAA, (Hin _ _ eq_refl)|by apply Hp].
Qed.

Lemma passed_sublist calls : ∀ o, passed_windowed window limit calls o `sublist_of` calls.*1.
Proof.
  induction calls as [|[[now m] d] calls IH]; intros o; [done|]. cbn [passed_windowed]. rewrite fmap_cons.
  destruct (Run _ _ _) as [r o']. cbn. destruct (answer r) as [[[[] ?] ?]|?]; by constructor.
Qed.
End windowed.

(** ** Properties *)



(** The sliding window counts a repeated command against itself: with one request per
    minute, a call whose answer is lost is admitted, repeated, and refused. *)
Theorem repeated_call_refuses_itself :
  let RS := map_server in
  let call d := (allowSlidingWindow d "k" 1 60000 1000 (mkRedisLimiter "1:ab" 0 ∅)).1 in
  call (Answered 0) = Ok (true, 0, 61000 * Millisecond) ∧
  call (Answered 1) = Ok (false, 0, 61000 * Millisecond).
Proof. by vm_compute. Qed.

(** ** Witnesses *)


Definition unreliable_calls : list (Z * string * delivery) :=
  [((0, "a"), Answered 1); ((1, "b"), Failed 2 (Errorf "i/o timeout")); ((5, "c"), Answered 0);
   ((11, "d"), Answered 0)].

