(* ===== verification/Limits.v ===== *)
(** * Rate limiting end to end (internal/middleware/ratelimit)

    The middleware of RateLimit.v on top of the limiters of Memory.v and
    LeakyBucket.v, through the [Limiter] interface of the code.  What the
    middleware needs of a limiter is the class [BudgetedLimiter]: a budget that
    every admitted call draws on.  The bound on the requests that reach an
    upstream is proved once, against that class. *)

From Stdlib Require Import QArith Lqa.
From S2P Require Import Prelude.
From S2P Require Import GoStrings.
From S2P Require Import ConfigTypes.
From S2P Require Import Http.
From S2P Require Import Middleware.
From S2P Require Import F64.
From S2P Require Import Memory.
From S2P Require Import RateLimit.
From S2P Require Import Redis.
From S2P Require Import LeakyBucket.
From S2P Require Import Proxy.
From S2P Require Import Effects.

Local Open Scope Z_scope.

(** ** The interface *)

(** [Limiter.Allow] at a reading of the clock: [allowed], [remaining],
    [resetAt], or the error. *)
Class Limiter (S : Type) : Type :=
  limiter_Allow : string → Z → Z → string → Z → S → result (bool * Z * Z) * S.

(** What a limiter promises about one key between [t0] and [T], if the clock
    does not go backwards: its states of up to time [t], and what may still pass
    until [T]. *)
Class BudgetedLimiter (S : Type) `{Limiter S} (key : string) (limit window : Z) (algorithm : string)
    (t0 T : Z) : Type := {
  bl_ok : Z → S → Prop;
  bl_budget : S → Q;
  bl_nonneg t s : bl_ok t s → t0 ≤ t → t ≤ T → (0 <= bl_budget s)%Q;
  bl_later t t' s : t ≤ t' → bl_ok t s → bl_ok t' s;
  bl_call t now s res s' :
    bl_ok t s → t0 ≤ now → t ≤ now → now ≤ T →
    limiter_Allow key limit window algorithm now s = (res, s') →
    bl_ok now s' ∧ ∃ a remaining resetAt, res = Ok (a, remaining, resetAt) ∧
      (bl_budget s' + (if a : bool then 1 else 0) <= bl_budget s)%Q;
  bl_other t now key' l w a s res s' :
    key' ≠ key → bl_ok t s → limiter_Allow key' l w a now s = (res, s') →
    bl_ok t s' ∧ (bl_budget s' <= bl_budget s)%Q;
}.

(** *** The in-memory limiter; it ignores the algorithm *)

#[export] Instance memory_limiter `{Arith} : Limiter (gmap string Memory.bucket) :=
  λ key limit window _ now ml,
    let '(answer, ml') := Memory.Allow key limit window now ml in (Ok answer, ml').

(** *** The Redis limiter, with one clock *)

#[export] Instance redis_limiter `{RedisServer} `{LuaNumbers}
    : Limiter (RedisLimiter * gmap string LeakyBucket.bucket) :=
  λ key limit window algorithm now rl,
    let '(answer, rl') :=
      LeakyBucket.Allow key limit window algorithm now (UnixMilli now) rl in (Ok answer, rl').

Section memory.
#[local] Existing Instance ideal_arith.
Variables (key algorithm : string) (limit window t0 T : Z).
Hypothesis Hlimit : 0 ≤ limit.
Hypothesis Hwindow : 0 < window.
Hypothesis Ht : t0 ≤ T.

Lemma credit_nonneg (ml : gmap string Memory.bucket) :
  Memory.bucket_ok T (ml !! key) → (0 <= credit limit window t0 T (ml !! key))%Q.
Proof using Hlimit Hwindow Ht.
  intros Hok. exact (calls_within_credit key limit window t0 T [] ml Hlimit Hwindow (Forall_nil_2 _) Hok Ht).
Qed.

Program Definition memory_budget
    : BudgetedLimiter (gmap string Memory.bucket) key limit window algorithm t0 T := {|
  bl_ok _ ml := Memory.bucket_ok T (ml !! key);
  bl_budget ml := credit limit window t0 T (ml !! key);
|}.
Next Obligation. intros. by apply credit_nonneg. Qed.
Next Obligation. done. Qed.
Next Obligation.
  intros t now ml res ml' Hok H0 _ HT Hcall. unfold limiter_Allow, memory_limiter in Hcall.
  destruct (Memory.Allow key limit window now ml) as [[[a rem] reset] ml1] eqn:E.
  injection Hcall as <- <-.
  destruct (call_within_credit key limit window t0 T now ml _ _ E Hlimit Hwindow (conj H0 HT) Hok)
    as [Hok' Hc].
  split; [done|]. by exists a, rem, reset.
Qed.
Next Obligation.
  intros t now key' l w a ml res ml' Hne Hok Hcall.
  unfold limiter_Allow, memory_limiter, Memory.Allow in Hcall.
  destruct (take_token _ _ _ _) as [answer b]. injection Hcall as _ <-.
  rewrite lookup_insert_ne by done. split; [done | apply Qle_refl].
Qed.
End memory.

Section leaky.
#[local] Existing Instance ideal_lua.
Context `{RS : RedisServer}.
Variables (key : string) (limit window t0 T : Z).
Hypothesis Hlimit : 0 < limit.
Hypothesis Hwindow : 0 < Milliseconds window.

Abbreviation state := (RedisLimiter * gmap string LeakyBucket.bucket)%type.

Lemma UnixMilli_mono t t' : t ≤ t' → UnixMilli t ≤ UnixMilli t'.
Proof. intros Ht. by apply Z.div_le_mono. Qed.

Program Definition leaky_budget : BudgetedLimiter state key limit window "leaky_bucket" t0 T := {|
  bl_ok t s := LeakyBucket.bucket_ok limit (Milliseconds window) (UnixMilli t) (s.2 !! key);
  bl_budget s := room limit (Milliseconds window) (UnixMilli t0) (UnixMilli T) (s.2 !! key);
|}.
Next Obligation.
  intros t s Hok H0 HT.
  apply (calls_room limit (Milliseconds window) Hlimit Hwindow [] (UnixMilli t));
    [done|by apply UnixMilli_mono..].
Qed.
Next Obligation.
  intros t t' s Ht. unfold LeakyBucket.bucket_ok. destruct (s.2 !! key) as [b|]; [|done].
  intros (? & ? & Hu & ?). pose proof (UnixMilli_mono t t' Ht). repeat split; [done..|lia|done].
Qed.
Next Obligation.
  intros t now [rl hs] res s' Hok H0 Ht HT Hcall. cbn [snd] in *.
  unfold limiter_Allow, redis_limiter, LeakyBucket.Allow, allowLeakyBucket in Hcall.
  rewrite bool_decide_true in Hcall by done. cbn [fst snd] in Hcall.
  destruct (leaky_bucket limit (Milliseconds window) (UnixMilli now) (UnixMilli now) (hs !! key))
    as [[[a rem] reset] b] eqn:E.
  injection Hcall as <- <-. cbn [snd]. rewrite lookup_partial_alter_eq.
  destruct (call_room limit (Milliseconds window) Hlimit Hwindow (UnixMilli t) (UnixMilli now)
    (hs !! key) a rem reset b Hok (UnixMilli_mono _ _ Ht) E) as [Hok' Hroom].
  split; [done|]. exists (a =? 1), rem, (reset * Millisecond). split; [done|].
  specialize (Hroom (UnixMilli T) (UnixMilli t0) (UnixMilli_mono _ _ H0)). unfold price in Hroom.
  destruct b as [b|]; cbn [room] in *; [exact Hroom|].
  (* a call always leaves a bucket behind *)
  rewrite leaky_bucket_level in E by done. cbv zeta in E. by destruct (Qle_bool _ _).
Qed.
Next Obligation.
  intros t now key' l w a [rl hs] res s' Hne Hok Hcall. cbn [snd] in *.
  unfold limiter_Allow, redis_limiter, LeakyBucket.Allow, allowLeakyBucket, allowSlidingWindow in Hcall.
  case_bool_decide; cbn [fst snd] in Hcall.
  - destruct (leaky_bucket _ _ _ _ _) as [[[al rem] reset] b]. injection Hcall as _ <-. cbn [snd].
    rewrite lookup_partial_alter_ne by done. split; [done | apply Qle_refl].
  - destruct (sliding_window _ _ _ _ _) as [[[al rem] reset] e]. injection Hcall as _ <-.
    split; [done | apply Qle_refl].
Qed.
End leaky.

(** ** The middleware on a limiter *)

(** The limiter behind the event [LimiterAllow]; it reads the clock itself. *)
Definition limiter_cell {S} `{Limiter S} : handler S :=
  λ X e,
    match e in event X return option (S → prog (X * S)) with
    | LimiterAllow key limit window algorithm =>
        Some (λ s, now ← emit Now; mret (limiter_Allow key limit window algorithm now s))
    | _ => None
    end.

(** The requests sent to the upstreams of interest, counted. *)
Definition trip_cell (counts : OutRequest → bool) : handler nat :=
  λ X e,
    match e in event X return option (nat → prog (X * nat)) with
    | RoundTrip q =>
        Some (λ n, x ← emit (RoundTrip q); mret (x, if counts q then S n else n))
    | _ => None
    end.

(** ** Credit for upstream requests *)

Section credit.
Variables (counts : OutRequest → bool) (key : string) (limit window : Z) (algorithm : string) (m : nat).

(** Each counted request costs one, and every call of the limiter under [key] that
    is not refused earns [m]. *)
Definition credit_price : pricing := mkPricing
  (λ X e, match e with RoundTrip q => if counts q then 1%nat else 0%nat | _ => 0%nat end)
  (λ X e,
     match e in event X return X → nat with
     | LimiterAllow k _ _ _ => λ res,
         if bool_decide (k = key) then match res with Ok (false, _, _) => 0%nat | _ => m end else 0%nat
     | _ => λ _, 0%nat
     end).

(** Questions under [key] are about its limit. *)
Definition conflict_price : pricing := mkPricing
  (λ X e,
     match e with
     | LimiterAllow k l w a =>
         if bool_decide (k = key ∧ ¬ (l = limit ∧ w = window ∧ a = algorithm)) then 1%nat else 0%nat
     | _ => 0%nat
     end) no_earnings.

#[export] Instance credit_tame : Tame credit_price.
Proof. split; [done|by intros X []..]. Qed.
#[export] Instance conflict_tame : Tame conflict_price.
Proof. split; [done|by intros X []..]. Qed.

(** Programs that stay within [b] requests and what they earn. *)
Definition within_credit {A} (b : nat) (p : prog A) : Prop :=
  costs credit_price b p ∧ costs conflict_price 0 p.

Lemma within_mono {A} b b' (p : prog A) : (b ≤ b')%nat → within_credit b p → within_credit b' p.
Proof. intros Hb [H1 H2]. split; [by eapply costs_mono | done]. Qed.
End credit.

Section client.
Context `{NP : NetPackage} `{EN : Encoders} {S W : Type} `{Lim : Limiter S}.
Context (env : environment W) (clock : W → Z) (counts : OutRequest → bool).

(** The world: limiter, counter, and the rest. *)
Definition limited_env : environment (S * (nat * W)) :=
  env_with limiter_cell (env_with (trip_cell counts) env).

(** The requests [rs], with their headers, served one after the other, each on its
    own connection. *)
Fixpoint serve_all (h : Handler) (rs : list (Request * Header)) (w : S * (nat * W))
    : S * (nat * W) :=
  match rs with
  | [] => w
  | (r, hdr) :: rs' =>
      serve_all h rs' (run (conn_req_env limited_env) (h r) (new_conn, (hdr, w))).2.2.2
  end.

Variables (key : string) (limit window : Z) (algorithm : string) (t0 T : Z) (m : nat).
Context `{BL : !BudgetedLimiter S key limit window algorithm t0 T}.

(** The clock does not go backwards and stays between [t0] and [T]; [Now] reads
    it. *)
Hypothesis Hmono : ∀ X (e : event X) w, clock w ≤ clock (env X e w).2.
Hypothesis Hnow : ∀ w, (env Z Now w).1 = Returned (clock (env Z Now w).2).
Hypothesis Hrange : ∀ w, t0 ≤ clock w ≤ T.

Abbreviation Qn n := (inject_Z (Z.of_nat n)).

(** Between two events of a program: [b] is the credit left, [c] bounds the
    requests so far and all that can still be earned. *)
Definition in_credit (b : nat) (c : Q) (w : S * (nat * W)) : Prop :=
  bl_ok (clock w.2.2) w.1 ∧ (Qn w.2.1 + Qn b + Qn m * bl_budget w.1 <= c)%Q.

Lemma Qn_add a b : (Qn (a + b) == Qn a + Qn b)%Q.
Proof. by rewrite Nat2Z.inj_add, inject_Z_plus. Qed.

Lemma Qn_nonneg a : (0 <= Qn a)%Q.
Proof. change 0%Q with (inject_Z 0). rewrite <-Zle_Qle. lia. Qed.

Lemma Qn_mul_le a x y : (x <= y → Qn a * x <= Qn a * y)%Q.
Proof. intros Hxy. rewrite !(Qmult_comm (Qn a)). apply Qmult_le_compat_r; [done|apply Qn_nonneg]. Qed.

Lemma in_credit_later b c s n w w' :
  clock w ≤ clock w' → in_credit b c (s, (n, w)) → in_credit b c (s, (n, w')).
Proof. intros Hw [Hok Hc]. split; [by eapply bl_later | done]. Qed.

(** One event. *)
Lemma event_in_credit X (e : event X) b c cn h w :
  (charge (credit_price counts key m) X e ≤ b)%nat →
  charge (conflict_price key limit window algorithm) X e = 0%nat → in_credit b c w →
  let '(o, (_, (_, w'))) := conn_req_env limited_env X e (cn, (h, w)) in
  match o with
  | Returned x =>
      in_credit (b - charge (credit_price counts key m) X e + earn (credit_price counts key m) X e x) c w'
  | Panicked _ => in_credit 0 c w'
  end.
Proof using Hmono Hnow Hrange.
  destruct w as [s [n w]]. intros Hb Hconf Hin.
  assert (in_credit 0 c (s, (n, w))) as Hin0.
  { destruct Hin as [Hok Hc]. split; [done|]. cbn in *. pose proof (Qn_nonneg b).
    change (Qn 0) with 0%Q. lra. }
  destruct e; cbn [credit_price charge earn] in *; rewrite ?Nat.sub_0_r, ?Nat.add_0_r;
    try exact Hin;
    try (cbn; destruct (conn_WriteHeader _ _); exact Hin);
    try (cbn; destruct (conn_Write _ _); exact Hin);
    unfold conn_req_env, req_env, limited_env, env_with; cbn;
    try (match goal with |- context [env ?X ?e w] =>
           pose proof (Hmono X e w) as Hm; destruct (env X e w) as [[?|?] w1]; cbn in *;
           by eapply in_credit_later; eauto end).
  - (* the limiter *)
    pose proof (Hnow w) as Hn. pose proof (Hmono Z Now w) as Hm. pose proof (Hrange w).
    destruct (env Z Now w) as [o w1]. cbn in Hn, Hm. subst o. pose proof (Hrange w1).
    cbn. destruct (limiter_Allow key0 limit0 window0 algorithm0 (clock w1) s) as [res s'] eqn:Ecall.
    cbn. destruct Hin as [Hok Hc]. cbn in Hok, Hc. cbn in Hconf.
    destruct (decide (key0 = key)) as [->|Hk];
      [rewrite (bool_decide_true (key = key)) by done | rewrite (bool_decide_false (key0 = key)) by done].
    + assert (limit0 = limit ∧ window0 = window ∧ algorithm0 = algorithm) as (-> & -> & ->).
      { destruct (bool_decide _) eqn:Hp in Hconf; [done|]. apply bool_decide_eq_false in Hp.
        destruct (decide (limit0 = limit)), (decide (window0 = window)),
          (decide (algorithm0 = algorithm)); naive_solver. }
      destruct (bl_call (clock w) (clock w1) s res s' Hok) as [Hok' (a & rem & reset & -> & Hbud)];
        [lia..|exact Ecall|].
      split; [done|]. cbn. rewrite Qn_add. apply (Qn_mul_le m) in Hbud.
      rewrite Qmult_plus_distr_r in Hbud. destruct a; change (Qn 0) with 0%Q; lra.
    + destruct (bl_other (clock w) (clock w1) key0 limit0 window0 algorithm0 s res s' Hk Hok Ecall)
        as [Hok' Hbud].
      split; [by eapply bl_later|]. cbn. apply (Qn_mul_le m) in Hbud. rewrite Nat.add_0_r. lra.
  - (* an upstream *)
    pose proof (Hmono _ (RoundTrip q) w) as Hm. destruct (env _ (RoundTrip q) w) as [[x|v] w1];
      cbn in *; [|by eapply in_credit_later].
    destruct (counts q); [|rewrite Nat.sub_0_r; by eapply in_credit_later].
    destruct Hin as [Hok Hc]. split; [by eapply bl_later|]. cbn in *.
    replace b with (b - 1 + 1)%nat in Hc by lia. rewrite Qn_add in Hc.
    change (Qn (Datatypes.S n)) with (inject_Z (Z.of_nat (1 + n))). rewrite Qn_add. lra.
Qed.

Lemma run_in_credit {A} (p : prog A) : ∀ b c cn h w,
  within_credit counts key limit window algorithm m b p → in_credit b c w →
  in_credit 0 c (run (conn_req_env limited_env) p (cn, (h, w))).2.2.2.
Proof using Hmono Hnow Hrange.
  assert (∀ b c w, in_credit b c w → in_credit 0 c w) as H0.
  { intros b c w [Hok Hc]. split; [done|]. pose proof (Qn_nonneg b). change (Qn 0) with 0%Q. lra. }
  induction p as [a|v|X e k IH]; intros b c cn h w [Hp Hq] Hin; [by eapply H0..|].
  destruct Hp as [He Hk], Hq as [Hqe Hqk]. cbn [run].
  pose proof (event_in_credit X e b c cn h w He ltac:(lia) Hin) as Hev.
  destruct (conn_req_env limited_env X e (cn, (h, w))) as [[x|v] [c1 [h1 w1]]]; [|exact Hev].
  eapply IH; [|exact Hev]. split; [apply Hk|]. specialize (Hqk x).
  by replace (0 - charge (conflict_price key limit window algorithm) X e +
    earn (conflict_price key limit window algorithm) X e x)%nat with 0%nat in Hqk
    by (cbn; unfold no_earnings; lia).
Qed.

Lemma serve_all_in_credit h rs : ∀ c w,
  (∀ r hdr, (r, hdr) ∈ rs → within_credit counts key limit window algorithm m 0 (h r)) →
  in_credit 0 c w → in_credit 0 c (serve_all h rs w).
Proof using Hmono Hnow Hrange.
  induction rs as [|[r hdr] rs IH]; intros c w Hh Hin; [done|]. cbn [serve_all].
  apply IH; [intros r' hdr' Hr; apply (Hh r' hdr'); by right|].
  eapply run_in_credit; [|exact Hin]. apply (Hh r hdr). by left.
Qed.

(** The requests that were sent are covered by the budget at the start. *)
Lemma serve_all_budget h rs s w :
  (∀ r hdr, (r, hdr) ∈ rs → within_credit counts key limit window algorithm m 0 (h r)) →
  bl_ok (clock w) s →
  (Qn (serve_all h rs (s, (0%nat, w))).2.1 <= Qn m * bl_budget s)%Q.
Proof using Hmono Hnow Hrange.
  intros Hh Hok.
  destruct (serve_all_in_credit h rs (Qn m * bl_budget s) (s, (0%nat, w)) Hh) as [Hok' Hc].
  { split; [done|]. cbn. change (Qn 0) with 0%Q. lra. }
  set (final := serve_all h rs _) in *. clearbody final. destruct final as [s' [n w']]. cbn in *.
  pose proof (bl_nonneg (clock w') s' Hok' ltac:(apply Hrange) ltac:(apply Hrange)) as Hnn.
  assert (0 <= Qn m * bl_budget s')%Q by (apply Qmult_le_0_compat; [apply Qn_nonneg | done]).
  change (Qn 0) with 0%Q in Hc. lra.
Qed.
End client.

(** The middleware under its key: the calls that pass pay for [m] requests behind
    it. *)
Lemma extractKey_ip `{NP : NetPackage} `{EN : Encoders} r :
  ends (λ x, x = remoteAddrIP r) any_value (extractKey r "ip" []).
Proof. done. Qed.

Lemma limited_credit `{NP : NetPackage} `{EN : Encoders} counts limit window algorithm m routeName
    mwName next r :
  let cfg := mkRateLimitConfig limit window "ip" algorithm in
  let key := composite_key algorithm routeName mwName (remoteAddrIP r) in
  costs (credit_price counts key m) m (next r) →
  costs (credit_price counts key m) 0 (limited cfg routeName mwName [] next r).
Proof.
  intros cfg key Hp. eapply (limited_costs_for (credit_price counts key m) 0);
    [apply extractKey_ip | done|].
  intros x res -> Hres. cbn. fold key. rewrite bool_decide_true by done.
  destruct res as [[[[] rem] reset]|e]; [done| |done]. by destruct (Hres rem reset).
Qed.

Lemma limited_within `{NP : NetPackage} `{EN : Encoders} counts limit window algorithm m routeName
    mwName cfg next r :
  cfg = mkRateLimitConfig limit window "ip" algorithm →
  let key := composite_key algorithm routeName mwName (remoteAddrIP r) in
  within_credit counts key limit window algorithm m m (next r) →
  within_credit counts key limit window algorithm m 0 (limited cfg routeName mwName [] next r).
Proof.
  intros -> key [Hp Hq]. split; [by apply limited_credit|].
  eapply (limited_costs_for (conflict_price key limit window algorithm) 0); [apply extractKey_ip | |].
  - intros x ->. cbn. rewrite bool_decide_false; [done|]. naive_solver.
  - intros x res -> _. done.
Qed.

(** Programs that ask no limiter and send at most [m] requests to an upstream. *)
Definition trips_le {A} (m : nat) (p : prog A) : Prop :=
  costs trip_price m p ∧ costs limiter_price 0 p.

Lemma trips_within {A} key limit window algorithm k m (p : prog A) :
  trips_le m p → within_credit (λ _, true) key limit window algorithm k m p.
Proof.
  intros [Hp Hq]. revert m Hp Hq. induction p as [| |X e kont IH]; intros m Hp Hq; [by split..|].
  destruct Hp as [He Hk], Hq as [Hqe Hqk].
  assert (∀ x, within_credit (λ _, true) key limit window algorithm k (m - charge trip_price X e) (kont x))
    as Hrest.
  { intros x. apply IH; [specialize (Hk x)|specialize (Hqk x)].
    - cbn in Hk |- *. unfold no_earnings in Hk. by rewrite Nat.add_0_r in Hk.
    - by replace (0 - charge limiter_price X e + earn limiter_price X e x)%nat with 0%nat in Hqk
        by (cbn; unfold no_earnings; lia). }
  split; split; try (intros x; specialize (Hrest x) as [Hr1 Hr2]).
  - by destruct e.
  - eapply costs_mono; [|exact Hr1]. destruct e; cbn; lia.
  - destruct e; cbn in *; lia.
  - eapply costs_mono; [|exact Hr2]. lia.
Qed.

(** What the budget of a fresh bucket amounts to. *)
Lemma budget_bound limit window t0 T m trips :
  0 < window →
  (inject_Z (Z.of_nat trips) <=
     inject_Z (Z.of_nat m) * (inject_Z limit + inject_Z (T - t0) * rate limit window))%Q →
  (Z.of_nat trips - Z.of_nat m * limit) * window ≤ Z.of_nat m * limit * (T - t0).
Proof.
  intros Hw Hb. unfold rate in Hb.
  assert (0 < inject_Z window)%Q as Hwq by (change 0%Q with (inject_Z 0); by rewrite <-Zlt_Qlt).
  rewrite Zle_Qle, !inject_Z_mult. unfold Z.sub at 1. rewrite inject_Z_plus, inject_Z_opp, inject_Z_mult.
  set (n := inject_Z (Z.of_nat trips)) in *. set (l := inject_Z limit) in *.
  set (v := inject_Z window) in *. set (d := inject_Z (T - t0)) in *.
  set (k := inject_Z (Z.of_nat m)) in *.
  assert (k * (l + d * (l / v)) * v == k * l * v + k * l * d)%Q as Hd by (field; lra).
  assert (n * v <= k * (l + d * (l / v)) * v)%Q as Hn by (apply Qmult_le_compat_r; lra).
  lra.
Qed.

(** ** Properties *)

Section bounds.
Context `{NP : NetPackage} `{EN : Encoders} {W : Type} (env : environment W) (clock : W → Z).

(** What the rate limit is for.  Requests of one client address arrive at a
    route behind the middleware, between [t0] and [T], and the handler behind it
    sends at most [m] requests to an upstream for each.  With the in-memory
    limiter the upstream sees at most [m * (limit + limit * (T - t0) / window)]
    of them, however many arrive, and whatever else the handlers and the
    environment do. *)
Theorem upstream_rate_bound limit window algorithm routeName mwName addr t0 T m next rs w :
  0 ≤ limit → 0 < window → t0 ≤ T →
  (∀ X (e : event X) w, clock w ≤ clock (env X e w).2) →
  (∀ w, (env Z Now w).1 = Returned (clock (env Z Now w).2)) →
  (∀ w, t0 ≤ clock w ≤ T) →
  Forall (λ rh, remoteAddrIP rh.1 = addr) rs → (∀ r, trips_le m (next r)) →
  let cfg := mkRateLimitConfig limit window "ip" algorithm in
  let trips :=
    (serve_all (Lim := memory_limiter (H := ideal_arith)) env (λ _, true)
      (NewRateLimitMiddleware (Some cfg) routeName mwName [] next) rs
      (NewMemoryLimiter (Ar := ideal_arith), (0%nat, w))).2.1 in
  (Z.of_nat trips - Z.of_nat m * limit) * window ≤ Z.of_nat m * limit * (T - t0).
Proof.
  intros Hl Hw HT Hmono Hnow Hrange Hrs Hnext cfg. apply budget_bound; [done|].
  pose (BL := memory_budget (composite_key algorithm routeName mwName addr) algorithm limit window t0 T
    Hl Hw HT).
  apply (serve_all_budget env clock (λ _, true) (composite_key algorithm routeName mwName addr)
    limit window algorithm t0 T m (BL := BL) Hmono Hnow Hrange); [|exact I].
  intros r hdr Hr. rewrite Forall_forall in Hrs. specialize (Hrs _ Hr). cbn in Hrs. subst addr.
  by apply limited_within, trips_within.
Qed.
End bounds.

(** ** Witness *)

(** Three requests of one client within a window, with a limit of two. *)
Lemma upstream_rate_bound_witness :
  let NP := text_net in let UP := text_url in let RO := sorted_range in let EN := text_encoders in
  let trips :=
    (serve_all (Lim := memory_limiter (H := ideal_arith)) (upstream_env (mkBody "hello" None)) (λ _, true)
      (NewRateLimitMiddleware (Some (mkRateLimitConfig 2 Minute "ip" "sliding_window")) "users" "rl" []
         (proxy_serve no_upgrade ("http", "up") proxied_route Second))
      (replicate 3 (proxied_request, ∅)) (NewMemoryLimiter (Ar := ideal_arith), (0%nat, tt))).2.1 in
  (Z.of_nat trips - 1 * 2) * Minute ≤ 1 * 2 * (0 - 0) ∧ trips = 2%nat.
Proof.
  intros NP UP RO EN trips. split; [|vm_compute; reflexivity].
  apply (upstream_rate_bound (upstream_env (mkBody "hello" None)) (λ _, 0) 2 Minute "sliding_window"
    "users" "rl" "10.0.0.1" 0 0 1
    (proxy_serve no_upgrade ("http", "up") proxied_route Second) (replicate 3 (proxied_request, ∅)) tt);
    [lia|reflexivity|lia|intros; lia|reflexivity|intros; lia| |].
  - repeat constructor.
  - intros r. split; [apply (proxy_costs trip_price) | apply (proxy_costs limiter_price)]; by cbn.
Defined.
