(* ===== verification/Pipeline.v ===== *)
(** * The pipeline (internal/pipeline: registry, builder)

    The registry of middleware factories and the construction of the gateway's
    handler from a configuration: per route the proxy, its breaker and retries,
    the transforms and the remaining middlewares; then the router and the global
    chain. *)

From S2P Require Import Prelude.
From S2P Require Import GoStrings.
From S2P Require Import Template.
From S2P Require Import ConfigTypes.
From S2P Require Import CircuitBreaker.
From S2P Require Import Http.
From S2P Require Import Middleware.
From S2P Require Import Router.
From S2P Require Import Cors.
From S2P Require Import Observability.
From S2P Require Import Retry.
From S2P Require Import Resolve.
From S2P Require Import Config.
From S2P Require Import RateLimit.
From S2P Require Import Auth.
From S2P Require Import Proxy.
From S2P Require Import Transform.
From S2P Require Import Effects.

Local Open Scope Z_scope.

(** Everything but a request to an upstream. *)
Definition no_upstream : ∀ X, event X → Prop :=
  λ X e, match e with RoundTrip _ => False | _ => True end.

(** Programs whose events satisfy a predicate, by their structure. *)
Ltac stay :=
  repeat match goal with
  | |- True => exact I
  | |- _ ∧ _ => split
  | |- ∀ _, _ => intro
  | H : ?P |- ?P => exact H
  | |- all_events _ (mret _) => exact I
  | |- all_events _ (Ret _) => exact I
  | |- all_events _ (Panic _) => exact I
  | |- all_events _ (emit _) => split; [exact I | intros; exact I]
  | |- all_events _ (Vis _ _) => split; [exact I | intros]
  | |- all_events _ (_ ≫= _) => apply all_events_bind
  | |- all_events _ (catch _ _) => apply all_events_catch
  | |- all_events _ (match ?x with _ => _ end) => destruct x
  | |- all_events _ _ => progress cbv beta iota zeta
  end.

Section pipeline.
Context `{RE : RegexpEngine} `{UT : UnicodeTables} `{RO : RangeOrder} `{YL : YamlLibrary}
  `{NP : NetPackage} `{UP : UrlPackage} `{EN : Encoders} `{CS : ContentSniffer}
  `{JP : JsonPackage} `{TF : TimeFormat}.

(** [ReverseProxy.handleUpgradeResponse], and the text of the stack trace in the
    error of a recovered panic. *)
Variable handleUpgradeResponse : Request → HttpResponse → prog unit.
Variable Stack : string.

(** ** The registry (registry.go) *)

(** The shared resources of the factories.  The limiter, the collector and the
    logger are reached through events. *)
Record FactoryDeps : Type := mkFactoryDeps {
  fd_Authenticators : gmap string Authenticator;
  fd_TrustedProxies : list IPNet;
}.

Definition Factory : Type :=
  FactoryDeps → string → string → TypedConfig → prog (result Middleware).

Abbreviation Registry := (gmap string Factory).

Definition NewRegistry : Registry := ∅.

Definition Register (r : Registry) (typeName : string) (f : Factory) : Registry :=
  <[typeName := f]> r.

Definition Build (r : Registry) (typeName : string) (deps : FactoryDeps) (routeName mwName : string)
    (cfg : TypedConfig) : prog (result Middleware) :=
  match r !! typeName with
  | None => mret (Err (Errorf ("unknown middleware type: " +:+ Quote typeName)))
  | Some f => f deps routeName mwName cfg
  end.

(** [%T] of a typed configuration. *)
Definition type_name (cfg : TypedConfig) : string :=
  match cfg with
  | CfgCORS _ => "*config.CORSConfig"
  | CfgRateLimit _ => "*config.RateLimitConfig"
  | CfgAuth _ => "*config.AuthMiddlewareConfig"
  | CfgTransform _ => "*config.TransformConfig"
  end.

Definition expected (who what : string) (cfg : TypedConfig) : error :=
  Errorf (who +:+ ": expected " +:+ what +:+ ", got " +:+ type_name cfg).

Definition corsFactory : Factory :=
  λ _ _ _ cfg,
    match cfg with
    | CfgCORS corsCfg =>
        (if CORS_warning corsCfg
         then emit (Log "WARN" "CORS: wildcard origin with allow_credentials is invalid per spec; will use requesting origin instead of *" [])
         else mret tt);;
        mret (Ok (CORSMiddleware corsCfg))
    | _ => mret (Err (expected "cors factory" "*config.CORSConfig" cfg))
    end.

(** A resolved configuration is never a nil pointer. *)
Definition rateLimitFactory : Factory :=
  λ deps routeName mwName cfg,
    match cfg with
    | CfgRateLimit rlCfg =>
        mret (Ok (NewRateLimitMiddleware (Some rlCfg) routeName mwName (fd_TrustedProxies deps)))
    | _ => mret (Err (expected "rate_limit factory" "*config.RateLimitConfig" cfg))
    end.

Definition authFactory : Factory :=
  λ deps _ _ cfg,
    match cfg with
    | CfgAuth authCfg => mret (Ok (NewAuthMiddleware (fd_Authenticators deps) (am_Providers authCfg)))
    | _ => mret (Err (expected "auth factory" "*config.AuthMiddlewareConfig" cfg))
    end.

Definition DefaultRegistry : Registry :=
  Register (Register (Register NewRegistry "cors" corsFactory)
    "rate_limit" rateLimitFactory) "auth" authFactory.

(** ** The routes (builder.go) *)

(** The constants of the breaker's states. *)
Definition State_value (s : State) : Z :=
  match s with StateClosed => 0 | StateOpen => 1 | StateHalfOpen => 2 end.

(** The callback given to [WithOnStateChange]. *)
Definition onStateChange (routeName : string) (t : transition) : prog unit :=
  emit (Log "INFO" "circuit breaker state change"
          [AStr "route" routeName; AInt "from" (State_value t.1); AInt "to" (State_value t.2)]);;
  emit (Emit (MSet "gateway_circuit_breaker_state" [routeName; State_String t.2] 1));;
  emit (Emit (MSet "gateway_circuit_breaker_state" [routeName; State_String t.1] 0)).

Definition wrapResilience (route : RouteConfig) (handler : Handler) : prog Handler :=
  match route_CircuitBreaker route with
  | Some cbCfg =>
      cb ← emit (NewBreaker (CircuitBreaker.New cbCfg (route_Name route)));
      let br := mkBreaker cb (onStateChange (route_Name route)) in
      match route_Retry route with
      | Some rc => mret (Retry rc (Some br) handler)
      | None => mret (WithCircuitBreaker br handler)
      end
  | None =>
      match route_Retry route with
      | Some rc => mret (Retry rc None handler)
      | None => mret handler
      end
  end.

Definition is_transform (mw : ResolvedMiddleware) : bool := bool_decide (rm_Type mw = "transform").

(** The two transforms of one configuration around a handler. *)
Definition transform_around (cfg : TransformConfig) : Middleware :=
  λ rh, RequestTransform (tc_Request cfg) (tc_MaxBodySize cfg)
          (ResponseTransform (tc_Response cfg) (tc_MaxBodySize cfg) rh).

(** The loop over the transforms, given in reverse. *)
Fixpoint apply_transforms (routeName : string) (ts : list ResolvedMiddleware) (rh : Handler)
    : result Handler :=
  match ts with
  | [] => Ok rh
  | t :: ts' =>
      match rm_Config t with
      | CfgTransform tCfg => apply_transforms routeName ts' (transform_around tCfg rh)
      | cfg =>
          Err (expected ("route " +:+ Quote routeName +:+ ": transform middleware " +:+
                         Quote (rm_Name t)) "*config.TransformConfig" cfg)
      end
  end.

(** The loop over the other middlewares, given in reverse. *)
Fixpoint apply_chain (deps : FactoryDeps) (registry : Registry) (routeName : string)
    (ms : list ResolvedMiddleware) (rh : Handler) : prog (result Handler) :=
  match ms with
  | [] => mret (Ok rh)
  | m :: ms' =>
      mw ← Build registry (rm_Type m) deps routeName (rm_Name m) (rm_Config m);
      match mw with
      | Err err =>
          mret (Err (Errorf ("route " +:+ Quote routeName +:+ ": building middleware " +:+
                       Quote (rm_Name m) +:+ " (type " +:+ Quote (rm_Type m) +:+ "): " +:+
                       error_text err)))
      | Ok mw => apply_chain deps registry routeName ms' (mw rh)
      end
  end.

(** The body of the loop over the routes. *)
Definition build_route (cfg : GatewayConfig) (deps : FactoryDeps) (registry : Registry)
    (globalResolved : list ResolvedMiddleware) (route : RouteConfig) : prog (result Handler) :=
  rh ← NewProxyHandler handleUpgradeResponse route;
  rh ← wrapResilience route rh;
  match ResolveMiddlewares (route_Middlewares route) (gw_MiddlewareDefinitions cfg) with
  | Err err =>
      mret (Err (Errorf ("route " +:+ Quote (route_Name route) +:+ ": resolving middlewares: " +:+
                         error_text err)))
  | Ok routeResolved =>
      let allMiddlewares := filterSkipped globalResolved (route_SkipMiddlewares route) ++ routeResolved in
      let transforms := filter is_transform allMiddlewares in
      let chainMiddlewares := filter (λ mw, ¬ is_transform mw) allMiddlewares in
      match apply_transforms (route_Name route) (reverse transforms) rh with
      | Err err => mret (Err err)
      | Ok rh => apply_chain deps registry (route_Name route) (reverse chainMiddlewares) rh
      end
  end.

Fixpoint build_routes (cfg : GatewayConfig) (deps : FactoryDeps) (registry : Registry)
    (globalResolved : list ResolvedMiddleware) (routes : list RouteConfig)
    (handlers : gmap string Handler) : prog (result (gmap string Handler)) :=
  match routes with
  | [] => mret (Ok handlers)
  | route :: routes' =>
      rh ← build_route cfg deps registry globalResolved route;
      match rh with
      | Err err => mret (Err err)
      | Ok rh =>
          build_routes cfg deps registry globalResolved routes' (<[route_Name route := rh]> handlers)
      end
  end.

(** ** The gateway's handler *)

Definition globalChain : Middleware := Chain [Recovery; RequestID; Logging; MetricsMiddleware].

Definition of_outcome {A} (o : outcome A) : prog A :=
  match o with Returned a => mret a | Panicked v => Panic v end.

Definition build (cfg : GatewayConfig) (deps : FactoryDeps) (registry : Registry)
    : prog (result Handler) :=
  match ResolveMiddlewares (gw_Middlewares cfg) (gw_MiddlewareDefinitions cfg) with
  | Err err => mret (Err (Errorf ("resolving global middlewares: " +:+ error_text err)))
  | Ok globalResolved =>
      handlers ← build_routes cfg deps registry globalResolved (gw_Routes cfg) ∅;
      match handlers with
      | Err err => mret (Err err)
      | Ok handlers =>
          r ← of_outcome (Router.New (gw_Routes cfg) handlers);
          mret (Ok (globalChain (ServeHTTP r)))
      end
  end.

(** The handler, or the error, and the transport that [cleanup] closes. *)
Definition BuildHandler (cfg : GatewayConfig) (deps : FactoryDeps) (registry : Registry)
    : prog (result Handler * nat) :=
  transport ← emit NewTransport;
  h ← catch (build cfg deps registry)
        (λ v, mret (Err (Errorf ("panic building handler: " +:+ v +:+ newline +:+ newline +:+ Stack))));
  mret (h, transport).

(** ** Specification *)

(** The middleware of a resolved configuration. *)
Definition middleware_for (deps : FactoryDeps) (routeName : string) (rm : ResolvedMiddleware)
    : Middleware :=
  match rm_Config rm with
  | CfgCORS c => CORSMiddleware c
  | CfgRateLimit c => NewRateLimitMiddleware (Some c) routeName (rm_Name rm) (fd_TrustedProxies deps)
  | CfgAuth c => NewAuthMiddleware (fd_Authenticators deps) (am_Providers c)
  | CfgTransform c => transform_around c
  end.

Definition proxy_for (route : RouteConfig) : Handler :=
  match url_Parse (up_URL (route_Upstream route)) with
  | Err _ => λ _, bad_gateway
  | Ok upstream =>
      proxy_serve handleUpgradeResponse upstream route (Z.max 0 (up_Timeout (route_Upstream route)))
  end.

(** Retries around the breaker [cb] around the proxy. *)
Definition resilient (route : RouteConfig) (cb : string) (proxy : Handler) : Handler :=
  let br := mkBreaker cb (onStateChange (route_Name route)) in
  match route_CircuitBreaker route, route_Retry route with
  | Some _, Some rc => Retry rc (Some br) proxy
  | Some _, None => WithCircuitBreaker br proxy
  | None, Some rc => Retry rc None proxy
  | None, None => proxy
  end.

(** The middlewares that apply to a route. *)
Definition effective (globals : list ResolvedMiddleware) (route : RouteConfig)
    (rms : list ResolvedMiddleware) : list ResolvedMiddleware :=
  filterSkipped globals (route_SkipMiddlewares route) ++ rms.

(** A route's handler: its middlewares in the order of the configuration, the
    transforms innermost, around the proxy. *)
Definition route_handler (deps : FactoryDeps) (globals : list ResolvedMiddleware)
    (route : RouteConfig) (rms : list ResolvedMiddleware) (cb : string) : Handler :=
  let all := effective globals route rms in
  Chain (middleware_for deps (route_Name route) <$>
           (filter (λ mw, ¬ is_transform mw) all ++ filter is_transform all))
    (resilient route cb (proxy_for route)).

Definition resolves (refs : list MiddlewareRef) (defs : gmap string MiddlewareDefinition) : Prop :=
  ∃ rms, ResolveMiddlewares refs defs = Ok rms.

(** What can be built: every reference resolves and every pattern compiles. *)
Definition buildable (cfg : GatewayConfig) : Prop :=
  resolves (gw_Middlewares cfg) (gw_MiddlewareDefinitions cfg) ∧
  ∀ route, route ∈ gw_Routes cfg →
    resolves (route_Middlewares route) (gw_MiddlewareDefinitions cfg) ∧
    is_Some (Compile (match_PathRegex (route_Match route))) ∧
    ∀ n p, match_Headers (route_Match route) !! n = Some p → p ≠ "*" →
      is_Some (Compile ("^(?:" +:+ p +:+ ")$")).

(** ** Lemmas *)

(** What [decodeTypedConfig] guarantees. *)
Definition config_matches (rm : ResolvedMiddleware) : Prop :=
  rm_Type rm = match rm_Config rm with
               | CfgCORS _ => "cors"
               | CfgRateLimit _ => "rate_limit"
               | CfgAuth _ => "auth"
               | CfgTransform _ => "transform"
               end.

Lemma decodeTypedConfig_matches ty node cfg :
  decodeTypedConfig ty node = Ok cfg → config_matches (mkResolvedMiddleware "" ty cfg).
Proof.
  unfold decodeTypedConfig, config_matches, mbind, result_mbind. cbn.
  repeat case_bool_decide; subst; try done;
    match goal with |- context [decode_or ?z ?d ?s ?n] => destruct (decode_or z d s n) end;
    cbn; by intros [= <-].
Qed.

Lemma ResolveMiddlewares_matches refs defs rms :
  ResolveMiddlewares refs defs = Ok rms → Forall config_matches rms.
Proof.
  revert rms. induction refs as [|ref refs IH]; intros rms; cbn; [intros [= <-]; constructor|].
  unfold mbind, result_mbind. destruct (resolve_ref defs ref) as [rm|e] eqn:E; cbn; [|done].
  destruct (ResolveMiddlewares refs defs) as [rms'|e]; cbn; [|done]. intros [= <-].
  constructor; [|by apply IH]. revert E. unfold resolve_ref, mbind, result_mbind.
  destruct (defs !! mr_Ref ref) as [def|]; [|done].
  destruct (if negb _ then _ else _) as [node|e]; cbn; [|done].
  destruct (decodeTypedConfig (md_Type def) node) as [cfg|e] eqn:Ed; cbn; [|done].
  intros [= <-]. exact (decodeTypedConfig_matches _ _ _ Ed).
Qed.

Lemma Forall_filter {A} (P Q : A → Prop) `{!∀ x, Decision (P x)} l :
  Forall Q l → Forall (λ x, P x ∧ Q x) (filter P l).
Proof.
  rewrite !Forall_forall. intros HQ x [? ?]%list_elem_of_filter. auto.
Qed.

Lemma foldl_reverse {A B} (f : A → B → A) (a : A) l :
  foldl f a (reverse l) = foldr (λ x y, f y x) a l.
Proof. induction l as [|x l IH]; [done|]. rewrite reverse_cons, foldl_app. cbn. by rewrite IH. Qed.

Lemma Chain_fmap {A} (f : A → Middleware) l h :
  Chain (f <$> l) h = foldl (λ h x, f x h) h (reverse l).
Proof. rewrite Chain_foldr, foldl_reverse. induction l as [|x l IH]; [done|]. cbn. by rewrite IH. Qed.

Lemma apply_transforms_matches deps name ts rh :
  Forall config_matches ts → Forall is_transform ts →
  apply_transforms name ts rh = Ok (foldl (λ h t, middleware_for deps name t h) rh ts).
Proof.
  intros Hm. revert rh. induction Hm as [|t ts Ht Hm IH]; intros rh Htr; [done|].
  apply Forall_cons in Htr as [Htt Htr]. cbn.
  unfold is_transform in Htt. apply bool_decide_unpack in Htt.
  unfold config_matches in Ht. unfold middleware_for at 2. rewrite Htt in Ht.
  destruct (rm_Config t); try discriminate Ht. by rewrite IH.
Qed.

Lemma Build_default deps routeName mwName cfg :
  Build DefaultRegistry "cors" deps routeName mwName cfg = corsFactory deps routeName mwName cfg ∧
  Build DefaultRegistry "rate_limit" deps routeName mwName cfg =
    rateLimitFactory deps routeName mwName cfg ∧
  Build DefaultRegistry "auth" deps routeName mwName cfg = authFactory deps routeName mwName cfg.
Proof. by repeat split. Qed.

Lemma Build_yields deps name m :
  config_matches m → ¬ is_transform m →
  ends (λ mw, mw = Ok (middleware_for deps name m)) no_value
    (Build DefaultRegistry (rm_Type m) deps name (rm_Name m) (rm_Config m)).
Proof.
  unfold is_transform, middleware_for, config_matches. intros -> Htm.
  destruct (Build_default deps name (rm_Name m) (rm_Config m)) as (Hcors & Hrl & Hauth).
  destruct (rm_Config m) as [c|c|c|c].
  - rewrite Hcors. cbn. by destruct (CORS_warning c).
  - by rewrite Hrl.
  - by rewrite Hauth.
  - by destruct Htm.
Qed.

Lemma apply_chain_yields deps name ms rh :
  Forall config_matches ms → Forall (λ mw, ¬ is_transform mw) ms →
  ends (λ res, res = Ok (foldl (λ h m, middleware_for deps name m h) rh ms)) no_value
    (apply_chain deps DefaultRegistry name ms rh).
Proof.
  intros Hm. revert rh. induction Hm as [|m ms Hmm Hm IH]; intros rh Htr; [done|].
  apply Forall_cons in Htr as [Htm Htr]. cbn [apply_chain foldl].
  eapply ends_bind; [by apply Build_yields|]. intros mw ->. by apply IH.
Qed.

Lemma NewProxyHandler_yields route :
  ends (λ rh, rh = proxy_for route) no_value (NewProxyHandler handleUpgradeResponse route).
Proof. unfold NewProxyHandler, proxy_for. by destruct (url_Parse _). Qed.

Lemma wrapResilience_yields route rh :
  ends (λ h, ∃ cb, h = resilient route cb rh) no_value (wrapResilience route rh).
Proof.
  unfold wrapResilience, resilient.
  destruct (route_CircuitBreaker route); [|by destruct (route_Retry route); exists ""].
  cbn. intros cb. by destruct (route_Retry route); exists cb.
Qed.

Lemma effective_matches cfg globals route rms :
  ResolveMiddlewares (gw_Middlewares cfg) (gw_MiddlewareDefinitions cfg) = Ok globals →
  ResolveMiddlewares (route_Middlewares route) (gw_MiddlewareDefinitions cfg) = Ok rms →
  Forall config_matches (effective globals route rms).
Proof.
  intros Hg Hr. apply Forall_app. split; [|by eapply ResolveMiddlewares_matches].
  eapply Forall_impl; [by apply Forall_filter, (ResolveMiddlewares_matches _ _ _ Hg) | by intros ? []].
Qed.

(** A route is known by its name. *)
Lemma NoDup_fmap_name cfg route route' :
  NoDup (route_Name <$> gw_Routes cfg) → route ∈ gw_Routes cfg → route' ∈ gw_Routes cfg →
  route_Name route' = route_Name route → route' = route.
Proof.
  intros Hnd [i Hi]%list_elem_of_lookup [j Hj]%list_elem_of_lookup Hname.
  assert (i = j) as ->; [|congruence].
  eapply NoDup_lookup; [exact Hnd|..]; rewrite list_lookup_fmap, ?Hi, ?Hj; cbn; by rewrite ?Hname.
Qed.

(** What [build_route] returns, given the route's resolved references. *)
Definition route_built (deps : FactoryDeps) (globals : list ResolvedMiddleware) (route : RouteConfig)
    (resolved : result (list ResolvedMiddleware)) (res : result Handler) : Prop :=
  match resolved with
  | Err _ => ∃ e, res = Err e
  | Ok rms => ∃ cb, res = Ok (route_handler deps globals route rms cb)
  end.

Lemma build_route_yields cfg deps globals route :
  Forall config_matches globals →
  ends (route_built deps globals route
          (ResolveMiddlewares (route_Middlewares route) (gw_MiddlewareDefinitions cfg))) no_value
    (build_route cfg deps DefaultRegistry globals route).
Proof.
  intros Hg. unfold build_route, route_built.
  apply (ends_bind _ _ _ _ _ (NewProxyHandler_yields route)). intros rh ->.
  apply (ends_bind _ _ _ _ _ (wrapResilience_yields route _)). intros rh [cb ->].
  destruct (ResolveMiddlewares _ _) as [rms|e] eqn:E; [|by eexists].
  cbv zeta. fold (effective globals route rms).
  assert (Forall config_matches (effective globals route rms)) as Hm.
  { apply Forall_app. split; [|by eapply ResolveMiddlewares_matches].
    eapply Forall_impl; [by apply Forall_filter | by intros ? []]. }
  pose proof (Forall_filter is_transform _ _ Hm) as [Ht Htm]%Forall_and.
  pose proof (Forall_filter (λ mw, ¬ is_transform mw) _ _ Hm) as [Hc Hcm]%Forall_and.
  rewrite (apply_transforms_matches deps) by by apply Forall_reverse.
  eapply ends_impl; [|done|apply apply_chain_yields; by apply Forall_reverse].
  intros a ->. exists cb. unfold route_handler. cbv zeta.
  by rewrite fmap_app, Chain_foldr, foldr_app, <-!Chain_foldr, !Chain_fmap.
Qed.

(** The handlers come from the routes [routes]. *)
Definition made_from (cfg : GatewayConfig) (deps : FactoryDeps) (globals : list ResolvedMiddleware)
    (routes : list RouteConfig) (handlers : gmap string Handler) : Prop :=
  (∀ route, route ∈ routes → is_Some (handlers !! route_Name route)) ∧
  ∀ name h, handlers !! name = Some h → ∃ route rms cb,
    route ∈ routes ∧ route_Name route = name ∧
    ResolveMiddlewares (route_Middlewares route) (gw_MiddlewareDefinitions cfg) = Ok rms ∧
    h = route_handler deps globals route rms cb.

Lemma build_routes_yields cfg deps globals routes : ∀ before handlers,
  Forall config_matches globals → made_from cfg deps globals before handlers →
  ends (λ res, match res with
               | Ok hs => made_from cfg deps globals (before ++ routes) hs ∧
                   ∀ route, route ∈ routes →
                     resolves (route_Middlewares route) (gw_MiddlewareDefinitions cfg)
               | Err _ => ∃ route, route ∈ routes ∧
                   ¬ resolves (route_Middlewares route) (gw_MiddlewareDefinitions cfg)
               end) no_value
    (build_routes cfg deps DefaultRegistry globals routes handlers).
Proof.
  induction routes as [|route routes IH]; intros before handlers Hg Hm; cbn [build_routes].
  { cbn. rewrite app_nil_r. split; [done|]. by intros ? ?%not_elem_of_nil. }
  apply (ends_bind _ _ _ _ _ (build_route_yields cfg deps globals route Hg)). intros res Hb.
  unfold route_built in Hb.
  destruct (ResolveMiddlewares (route_Middlewares route) _) as [rms|e] eqn:E.
  - destruct Hb as [cb ->]. eapply ends_impl; [|done|apply (IH (before ++ [route]) _ Hg)].
    + intros [hs|e].
      * rewrite <-app_assoc. intros [Hmf Hr]. split; [done|].
        intros r [->|Hin]%elem_of_cons; [by exists rms | auto].
      * intros (r & Hin & Hr). exists r. split; [by right | done].
    + destruct Hm as [Hall Hsome]. split.
      * intros r [Hin| ->%list_elem_of_singleton]%elem_of_app; [|by rewrite lookup_insert_eq].
        destruct (decide (route_Name route = route_Name r)) as [->|Hne];
          [by rewrite lookup_insert_eq|]. rewrite lookup_insert_ne by done. auto.
      * intros name h [[<- <-]|[_ Hl]]%lookup_insert_Some.
        { exists route, rms, cb. repeat split; [|done]. apply elem_of_app. right. by left. }
        destruct (Hsome name h Hl) as (r & rms' & cb' & Hin & Hn & Hr & Hh).
        exists r, rms', cb'. repeat split; [|done..]. apply elem_of_app. by left.
  - destruct Hb as [e' ->]. exists route. split; [by left|]. intros [rms Hr]. congruence.
Qed.

(** The gateway's handler for resolved globals. *)
Definition gateway_of (cfg : GatewayConfig) (deps : FactoryDeps) (gw : Handler) : Prop :=
  ∃ globals handlers rt,
    ResolveMiddlewares (gw_Middlewares cfg) (gw_MiddlewareDefinitions cfg) = Ok globals ∧
    made_from cfg deps globals (gw_Routes cfg) handlers ∧
    Router.New (gw_Routes cfg) handlers = Returned rt ∧
    gw = globalChain (ServeHTTP rt).

Definition handler_built (cfg : GatewayConfig) (deps : FactoryDeps) (res : result Handler) : Prop :=
  match res with
  | Ok gw => buildable cfg ∧ gateway_of cfg deps gw
  | Err _ => ¬ buildable cfg
  end.

Lemma build_ends cfg deps :
  ends (handler_built cfg deps) (λ _, ¬ buildable cfg) (build cfg deps DefaultRegistry).
Proof.
  unfold build, handler_built, buildable.
  destruct (ResolveMiddlewares (gw_Middlewares cfg) _) as [globals|e] eqn:Eg; cbn;
    [|intros [[rms Hr] _]; congruence].
  apply ResolveMiddlewares_matches in Eg as Hg.
  assert (made_from cfg deps globals [] ∅) as Hnil.
  { split; [by intros ? ?%not_elem_of_nil|]. intros name h Hn. by rewrite lookup_empty in Hn. }
  eapply ends_bind;
    [eapply ends_impl; [| |exact (build_routes_yields cfg deps globals (gw_Routes cfg) [] ∅ Hg Hnil)];
      [intros a Ha; exact Ha | done]|].
  intros [hs|e].
  - intros [Hm Hr]. cbn in Hm. pose proof (New_succeeds_iff (gw_Routes cfg) hs) as Hiff.
    destruct (Router.New (gw_Routes cfg) hs) as [rt|v] eqn:En; cbn.
    + split; [|by exists globals, hs, rt]. split; [by exists globals|]. intros route Hin.
      split; [auto|]. by apply (proj1 Hiff (ex_intro _ rt eq_refl)).
    + intros [_ Hb]. destruct (proj2 Hiff) as [rt Hrt]; [|discriminate Hrt].
      intros route Hin. by apply (Hb route Hin).
  - intros (route & Hin & Hr). cbn. intros [_ Hb]. by apply Hr, (Hb route Hin).
Qed.

Lemma BuildHandler_yields cfg deps :
  ends (λ res, handler_built cfg deps res.1) no_value (BuildHandler cfg deps DefaultRegistry).
Proof.
  cbn. intros transport. eapply (ends_bind (handler_built cfg deps)); [|done].
  eapply ends_catch; [apply build_ends|]. done.
Qed.

Lemma valid_buildable cfg : is_Some (Compile "") → valid_config cfg → buildable cfg.
Proof.
  intros Hempty (_ & _ & _ & globals & Hg & _ & Hr). split; [by exists globals|].
  rewrite Forall_forall in Hr. intros route Hin.
  destruct (Hr route Hin) as (Hp & _ & Hh & _ & rms & Hrms & _).
  split; [by exists rms|]. split; [by destruct Hp as [->|?]|].
  intros n p Hn Hne. by destruct (Hh n p Hn).
Qed.

(** ** Properties *)

(** C25: [BuildHandler] always returns, whatever the configuration, and it returns
    a handler exactly when every reference of the configuration resolves and
    every path and header pattern compiles. *)
Theorem BuildHandler_total {W} (env : environment W) cfg deps w :
  no_crash env →
  ∃ res transport w',
    run env (BuildHandler cfg deps DefaultRegistry) w = (Returned (res, transport), w') ∧
    ((∃ gw, res = Ok gw) ↔ buildable cfg).
Proof.
  intros Hc. destruct (ends_run env _ _ w Hc (BuildHandler_yields cfg deps))
    as ([res transport] & w' & Hr & Hb).
  exists res, transport, w'. split; [done|]. destruct res as [gw|e]; cbn in Hb.
  - split; [intros _; apply Hb | by exists gw].
  - split; [by intros [] | done].
Qed.

(** No type assertion on a resolved configuration fails: for every reference
    that resolves, the configuration has the dynamic type that the factory of its
    middleware type, or the transform loop, asserts, and its middleware is built. *)
Theorem resolved_types_match refs defs rms rm deps routeName :
  ResolveMiddlewares refs defs = Ok rms → rm ∈ rms →
  (rm_Type rm = "transform" →
     ∀ rh, apply_transforms routeName [rm] rh = Ok (middleware_for deps routeName rm rh)) ∧
  (rm_Type rm ≠ "transform" → ∀ W (env : environment W) w, no_crash env →
     ∃ w', run env (Build DefaultRegistry (rm_Type rm) deps routeName (rm_Name rm) (rm_Config rm)) w =
       (Returned (Ok (middleware_for deps routeName rm)), w')).
Proof.
  intros Hr Hin. apply ResolveMiddlewares_matches in Hr. rewrite Forall_forall in Hr.
  specialize (Hr rm Hin). split.
  - intros Ht rh.
    rewrite (apply_transforms_matches deps); [done|by apply Forall_cons_2; [|constructor]|].
    apply Forall_cons_2; [|constructor]. unfold is_transform. by rewrite Ht.
  - intros Ht W env w Hc.
    assert (¬ is_transform rm) as Hnt by (unfold is_transform; rewrite bool_decide_false by done; intros []).
    destruct (ends_run env _ _ w Hc (Build_yields deps routeName rm Hr Hnt)) as (mw & w' & Hrun & ->).
    by exists w'.
Qed.

(** What loads can be served: from a configuration that [LoadConfig] accepts
    the handler is built. *)
Theorem loaded_config_builds {W} (env : environment W) LookupEnv Validate Unmarshal data cfg deps w :
  no_crash env → is_Some (Compile "") →
  LoadConfig LookupEnv Validate Unmarshal data = inl cfg →
  ∃ gw transport w',
    run env (BuildHandler cfg deps DefaultRegistry) w = (Returned (Ok gw, transport), w').
Proof.
  intros Hc He [Hv _]%LoadConfig_inl.
  destruct (ends_run env _ _ w Hc (BuildHandler_yields cfg deps))
    as ([[gw|e] transport] & w' & Hr & Hb); [by exists gw, transport, w'|].
  exfalso. apply Hb. by apply valid_buildable.
Qed.

(** C3: the built handler is the global chain around the router of the
    configured routes; with distinct route names each route has its own handler,
    in which the global middlewares it does not skip come first, then its own,
    in the order of the configuration, the transforms innermost, around the
    retries, the breaker and the proxy. *)
Theorem BuildHandler_composes {W} (env : environment W) cfg deps w gw transport w' :
  no_crash env → NoDup (route_Name <$> gw_Routes cfg) →
  run env (BuildHandler cfg deps DefaultRegistry) w = (Returned (Ok gw, transport), w') →
  ∃ globals handlers rt,
    ResolveMiddlewares (gw_Middlewares cfg) (gw_MiddlewareDefinitions cfg) = Ok globals ∧
    Router.New (gw_Routes cfg) handlers = Returned rt ∧
    gw = Chain [Recovery; RequestID; Logging; MetricsMiddleware] (ServeHTTP rt) ∧
    ∀ route, route ∈ gw_Routes cfg → ∃ rms cb,
      ResolveMiddlewares (route_Middlewares route) (gw_MiddlewareDefinitions cfg) = Ok rms ∧
      let all := filterSkipped globals (route_SkipMiddlewares route) ++ rms in
      let layers := filter (λ mw, ¬ is_transform mw) all ++ filter is_transform all in
      handlers !! route_Name route =
        Some (Chain (middleware_for deps (route_Name route) <$> layers)
                (resilient route cb (proxy_for route))).
Proof.
  intros Hc Hnd Hrun. destruct (ends_run env _ _ w Hc (BuildHandler_yields cfg deps))
    as (res & w1 & Hr & Hb).
  rewrite Hrun in Hr. injection Hr as <- <-. destruct Hb as [_ (globals & hs & rt & Hg & Hm & Hn & ->)].
  exists globals, hs, rt. do 3 (split; [done|]). intros route Hin. destruct Hm as [Hall Hsome].
  destruct (Hall route Hin) as [h Hh].
  destruct (Hsome _ _ Hh) as (route' & rms & cb & Hin' & Hname & Hrms & ->).
  assert (route' = route) as -> by by apply (NoDup_fmap_name cfg). by exists rms, cb.
Qed.

(** ** What a built handler costs *)

(** The attempts at the upstream of a route that one request may lead to. *)
Definition route_attempts (route : RouteConfig) : nat :=
  match route_Retry route with Some rc => attempts rc | None => 1%nat end.

Section costs.
#[local] Set Default Proof Using "Type*".
Context (price : pricing) `{!Tame price}.

Lemma onStateChange_quiet cb name : quiet_breaker price (mkBreaker cb (onStateChange name)).
Proof. intros t. cbn [br_onStateChange]. unfold onStateChange. pay. Qed.

Lemma proxy_for_costs addr m route :
  (∀ r resp, costs price 0 (handleUpgradeResponse r resp)) →
  (∀ upstream timeout r h, url_Parse (up_URL (route_Upstream route)) = Ok upstream →
     charge price _ (RoundTrip (out_request upstream route timeout r h)) ≤ m)%nat →
  handler_costs price addr m (proxy_for route).
Proof.
  intros Hup Htrip r Hr. unfold proxy_for. destruct (url_Parse _) as [upstream|e].
  - apply (proxy_costs price); [done|]. intros h. by apply Htrip.
  - by apply (writeJSON_costs price).
Qed.

Lemma resilient_costs addr m route cb proxy :
  handler_costs price addr m proxy →
  handler_costs price addr (route_attempts route * m) (resilient route cb proxy).
Proof.
  intros Hp. unfold resilient, route_attempts.
  destruct (route_CircuitBreaker route), (route_Retry route); rewrite ?Nat.mul_1_l; [| | |done].
  - apply (Retry_costs price); [|done]. apply onStateChange_quiet.
  - apply (WithCircuitBreaker_costs price); [|done]. apply onStateChange_quiet.
  - by apply (Retry_costs price).
Qed.

(** Asking the limiter on behalf of a middleware is free. *)
Definition free_to_ask (name : string) (rm : ResolvedMiddleware) : Prop :=
  ∀ c x, rm_Config rm = CfgRateLimit c → charge price _ (asks c name (rm_Name rm) x) = 0%nat.

Definition costless_providers (deps : FactoryDeps) : Prop :=
  ∀ name a, fd_Authenticators deps !! name = Some a → costless price a.

Lemma middleware_for_costs deps name rm :
  costless_providers deps → free_to_ask name rm → costs_inside price (middleware_for deps name rm).
Proof.
  intros Ha Hf. unfold middleware_for. destruct (rm_Config rm) as [c|c|c|c] eqn:E.
  - by apply (CORS_costs price).
  - apply (limited_costs price). intros x. by apply Hf.
  - by apply (NewAuthMiddleware_costs price).
  - intros addr m next Hn. apply (RequestTransform_costs price). by apply (ResponseTransform_costs price).
Qed.

Lemma layers_cost deps name rms addr m h :
  costless_providers deps → Forall (free_to_ask name) rms → handler_costs price addr m h →
  handler_costs price addr m (Chain (middleware_for deps name <$> rms) h).
Proof.
  intros Ha Hf Hh. apply (Chain_costs price); [|done]. apply Forall_fmap.
  eapply Forall_impl; [exact Hf|]. intros rm Hrm. by apply middleware_for_costs.
Qed.

Lemma route_handler_costs deps globals route rms cb addr m :
  costless_providers deps →
  Forall (free_to_ask (route_Name route)) (effective globals route rms) →
  handler_costs price addr m (proxy_for route) →
  handler_costs price addr (route_attempts route * m) (route_handler deps globals route rms cb).
Proof.
  intros Ha Hf Hp. unfold route_handler. cbv zeta. apply layers_cost; [done| |by apply resilient_costs].
  apply Forall_app; split; (eapply Forall_impl; [by apply Forall_filter | by intros ? []]).
Qed.

Lemma globalChain_costs : costs_inside price globalChain.
Proof.
  intros addr m next Hn. apply (Chain_costs price); [|done].
  apply Forall_cons_2; [by apply (Recovery_costs price)|]. apply Forall_cons_2; [by apply (RequestID_costs price)|].
  apply Forall_cons_2; [by apply (Logging_costs price)|]. apply Forall_cons_2; [by apply (Metrics_costs price)|].
  apply Forall_nil_2.
Qed.

(** The gateway costs what its most expensive route costs. *)
Lemma gateway_costs cfg deps gw addr m :
  gateway_of cfg deps gw →
  (∀ globals route rms cb, route ∈ gw_Routes cfg →
     ResolveMiddlewares (gw_Middlewares cfg) (gw_MiddlewareDefinitions cfg) = Ok globals →
     ResolveMiddlewares (route_Middlewares route) (gw_MiddlewareDefinitions cfg) = Ok rms →
     handler_costs price addr m (route_handler deps globals route rms cb)) →
  handler_costs price addr m gw.
Proof.
  intros (globals & hs & rt & Hg & [_ Hm] & Hn & ->) Hroutes. apply globalChain_costs.
  intros r Hr. apply (serve_routes_costs price addr); [|done]. intros cr h Hin Hh.
  unfold Router.New in Hn. destruct (outcome_map _ _) as [routes|] eqn:Eo; [|done].
  injection Hn as <-. apply outcome_map_spec in Eo.
  destruct (Forall2_elem_r _ _ _ _ Eo Hin) as (route & Hroute & Hcr).
  apply compile_route_inv in Hcr as (_ & _ & _ & _ & Hcrh & _). rewrite Hcrh in Hh.
  destruct (Hm _ _ Hh) as (route' & rms & cb & Hin' & _ & Hrms & ->). by apply Hroutes.
Qed.
End costs.

(** ** No identity, no upstream *)

(** An authenticator that refuses every request, and asks no upstream. *)
Definition refuses (a : Authenticator) : Prop :=
  ∀ r, all_events no_upstream (a r) ∧ ends (λ res, ∃ e, res = Err e) any_value (a r).

(** The middleware asks for an identity. *)
Definition demands_identity (rm : ResolvedMiddleware) : Prop :=
  ∃ am, rm_Config rm = CfgAuth am ∧ am_Providers am ≠ ["none"].

Lemma refuses_costless a : refuses a → costless trip_price a.
Proof.
  intros Ha r. apply (all_events_costs _ no_upstream); [|by apply Ha]. by intros X [].
Qed.

Lemma try_providers_refused authenticators providers names errs next r :
  (∀ name a, authenticators !! name = Some a → refuses a) →
  costs trip_price 0 (try_providers authenticators providers names errs next r).
Proof.
  intros Hr. revert errs. induction names as [|name names IH]; intros errs; cbn [try_providers].
  { apply costs_bind_l; [|by intros; apply (writeError_costs trip_price)]. pay. }
  destruct (authenticators !! name) as [a|] eqn:E.
  - destruct (Hr name a E r) as [_ He].
    eapply costs_returns; [by eapply refuses_costless, Hr | exact He |]. intros res [e ->]. apply IH.
  - apply costs_bind_l; [pay|]. intros _. by apply (writeError_costs trip_price).
Qed.

Lemma auth_blocks deps name rm next addr :
  (∀ name a, fd_Authenticators deps !! name = Some a → refuses a) → demands_identity rm →
  handler_costs trip_price addr 0 (middleware_for deps name rm next).
Proof.
  intros Hr (am & E & Hne) r _. unfold middleware_for. rewrite E. unfold NewAuthMiddleware.
  destruct (am_Providers am) as [|p ps]; [pay|].
  rewrite bool_decide_false by done. by apply try_providers_refused.
Qed.

Lemma guarded_costs deps globals route rms cb addr :
  (∀ name a, fd_Authenticators deps !! name = Some a → refuses a) →
  Forall config_matches (effective globals route rms) →
  Exists demands_identity (effective globals route rms) →
  handler_costs trip_price addr 0 (route_handler deps globals route rms cb).
Proof.
  intros Hr Hm He. unfold route_handler. cbv zeta.
  set (all := effective globals route rms) in *.
  apply Exists_exists in He as (rm & Hin & Hrm).
  assert (rm ∈ filter (λ mw, ¬ is_transform mw) all ++ filter is_transform all)
    as (l1 & l2 & ->)%list_elem_of_split.
  { apply elem_of_app. left. apply list_elem_of_filter. split; [|done].
    rewrite Forall_forall in Hm. specialize (Hm rm Hin). unfold config_matches in Hm.
    destruct Hrm as (am & E & _). rewrite E in Hm. unfold is_transform.
    rewrite Hm. by intros []. }
  rewrite fmap_app, fmap_cons, Chain_foldr, foldr_app, <-Chain_foldr. cbn [foldr].
  apply layers_cost; [apply _|..|by apply auth_blocks].
  - intros n a Ha. by eapply refuses_costless, Hr.
  - by apply Forall_true.
Qed.

(** C2: without an identity nothing reaches an upstream.  When every route that
    applies to the configuration demands one (an [auth] middleware other than
    [none] among the middlewares that apply to it) and every authenticator
    refuses, then no request, on any branch of the whole pipeline, makes the
    gateway send anything to an upstream. *)
Theorem no_identity_no_upstream {W} (env : environment W) cfg deps w gw transport w' :
  no_crash env →
  run env (BuildHandler cfg deps DefaultRegistry) w = (Returned (Ok gw, transport), w') →
  (∀ name a, fd_Authenticators deps !! name = Some a → refuses a) →
  (∀ globals route rms, route ∈ gw_Routes cfg →
     ResolveMiddlewares (gw_Middlewares cfg) (gw_MiddlewareDefinitions cfg) = Ok globals →
     ResolveMiddlewares (route_Middlewares route) (gw_MiddlewareDefinitions cfg) = Ok rms →
     Exists demands_identity (filterSkipped globals (route_SkipMiddlewares route) ++ rms)) →
  ∀ r, all_events no_upstream (gw r).
Proof.
  intros Hc Hrun Href Hprot. destruct (ends_run env _ _ w Hc (BuildHandler_yields cfg deps))
    as (res & w1 & Hr & Hb).
  rewrite Hrun in Hr. injection Hr as <- <-. destruct Hb as [_ Hgw]. intros r.
  apply (costs_0_all_events (charge trip_price)); [by intros X []|].
  apply (gateway_costs trip_price cfg deps gw (r_RemoteAddr r)); [done| |done].
  intros globals route rms cb Hin Hg Hrms. 
  apply guarded_costs; [done|by apply (effective_matches cfg)|by apply (Hprot globals route rms)].
Qed.

End pipeline.

(** ** Witnesses *)

(** Every [auth] mapping decodes to the provider [key]. *)
Definition key_yaml : YamlLibrary := {|
  decode_cors _ := Ok zero_CORS;
  decode_rate_limit _ := Ok zero_RateLimit;
  decode_auth _ := Ok (mkAuthMiddlewareConfig ["key"]);
  decode_transform _ := Ok zero_Transform;
  yaml_Marshal _ := Ok "";
|}.

(** One route behind an [auth] middleware. *)
Definition guarded_config : GatewayConfig :=
  mkGatewayConfig (mkServerConfig "" 0 0 0 0 0 [] 0) (mkLoggingConfig "")
    (mkRateLimitGlobalConfig "" None)
    {["key" := mkAuthProvider "apikey" None (Some (mkAPIKeyConfig "" [])) None]}
    {["guard" := mkMiddlewareDefinition "auth" (mapping [])]}
    [mkMiddlewareRef "guard" zero_Node] [proxied_route].

Definition refusing_deps : FactoryDeps (NP := text_net) :=
  @mkFactoryDeps text_net {["key" := λ _, mret (Err (Errorf "missing API key"))]} [].

Section witnesses.
Local Existing Instances accept_engine ascii_tables sorted_range key_yaml text_net text_url
  text_encoders no_sniffer toy_json toy_time.

Abbreviation build_guarded :=
  (run quiet_env (BuildHandler no_upgrade "" guarded_config refusing_deps DefaultRegistry) tt).

Lemma guarded_buildable : buildable guarded_config.
Proof.
  split; [eexists; vm_compute; reflexivity|].
  intros route ->%list_elem_of_singleton. split; [eexists; vm_compute; reflexivity|].
  split; [by eexists|]. intros n p Hn.
  change ((∅ : gmap string string) !! n = Some p) in Hn. by rewrite lookup_empty in Hn.
Qed.

Lemma guarded_builds : ∃ gw transport w', build_guarded = (Returned (Ok gw, transport), w').
Proof.
  destruct (ends_run quiet_env _ _ tt quiet_env_no_crash
    (BuildHandler_yields no_upgrade "" guarded_config refusing_deps))
    as ([[gw|e] t] & w' & Hr & Hb); [by exists gw, t, w'|].
  by destruct Hb; apply guarded_buildable.
Qed.

Lemma BuildHandler_total_witness :
  ∃ gw transport w', build_guarded = (Returned (Ok gw, transport), w').
Proof.
  destruct (BuildHandler_total no_upgrade "" quiet_env guarded_config refusing_deps tt
    quiet_env_no_crash) as (res & t & w' & Hr & Hb).
  destruct (proj2 Hb guarded_buildable) as [gw ->]. by exists gw, t, w'.
Defined.

Lemma resolved_types_match_witness :
  ∃ w', run quiet_env (Build DefaultRegistry "auth" refusing_deps "users" "guard"
    (CfgAuth (mkAuthMiddlewareConfig ["key"]))) tt =
    (Returned (Ok (NewAuthMiddleware (fd_Authenticators refusing_deps) ["key"])), w').
Proof.
  apply (resolved_types_match [mkMiddlewareRef "guard" zero_Node]
    {["guard" := mkMiddlewareDefinition "auth" (mapping [])]}
    [mkResolvedMiddleware "guard" "auth" (CfgAuth (mkAuthMiddlewareConfig ["key"]))]
    (mkResolvedMiddleware "guard" "auth" (CfgAuth (mkAuthMiddlewareConfig ["key"])))
    refusing_deps "users"); [vm_compute; reflexivity | by left | done | exact quiet_env_no_crash].
Defined.

Lemma loaded_config_builds_witness :
  ∃ gw transport w',
    run quiet_env (BuildHandler no_upgrade "" (applyDefaults guarded_config) refusing_deps
      DefaultRegistry) tt = (Returned (Ok gw, transport), w').
Proof.
  apply (loaded_config_builds no_upgrade "" quiet_env witness_env (λ _, []) (λ _, Ok guarded_config)
    (Ok "{}")); [exact quiet_env_no_crash | by eexists | vm_compute; reflexivity].
Defined.

Lemma BuildHandler_composes_witness :
  ∃ globals handlers rt,
    Router.New (gw_Routes guarded_config) handlers = Returned rt ∧
    ∃ rms cb, handlers !! "users" =
      Some (Chain (middleware_for refusing_deps "users" <$>
                     (filter (λ mw, ¬ is_transform mw) (filterSkipped globals [] ++ rms) ++
                      filter is_transform (filterSkipped globals [] ++ rms)))
              (resilient proxied_route cb (proxy_for no_upgrade proxied_route))).
Proof.
  destruct guarded_builds as (gw & t & w' & Hr).
  destruct (BuildHandler_composes no_upgrade "" quiet_env guarded_config refusing_deps tt gw t w'
    quiet_env_no_crash ltac:(vm_compute; repeat constructor; set_solver) Hr)
    as (globals & hs & rt & _ & Hn & _ & H).
  exists globals, hs, rt. split; [exact Hn|].
  destruct (H proxied_route) as (rms & cb & _ & Hh); [by left|].
  exists rms, cb. exact Hh.
Defined.

Lemma no_identity_no_upstream_witness :
  ∃ gw transport w', build_guarded = (Returned (Ok gw, transport), w') ∧
    ∀ r, all_events no_upstream (gw r).
Proof.
  destruct guarded_builds as (gw & t & w' & Hr). exists gw, t, w'. split; [exact Hr|].
  apply (no_identity_no_upstream no_upgrade "" quiet_env guarded_config refusing_deps tt gw t w'
    quiet_env_no_crash Hr).
  - intros name a Ha r.
    change (({["key" := λ _, mret (Err (Errorf "missing API key"))]} : gmap string Authenticator) !! name
      = Some a) in Ha.
    apply lookup_singleton_Some in Ha as [<- <-]. split; [done|]. by eexists.
  - intros globals route rms ->%list_elem_of_singleton Hg Hrms.
    vm_compute in Hg. injection Hg as <-. vm_compute in Hrms. injection Hrms as <-.
    apply Exists_cons_hd. exists (mkAuthMiddlewareConfig ["key"]). split; [reflexivity|]. done.
Defined.

End witnesses.
