(* ===== verification/Serving.v ===== *)
(** * What the client receives (the global chain around the router)

    The built handler answers with what the handler of the first matching route
    writes, and with the 404 document when there is none: recovery, logging and
    metrics do not touch the response, and the request identifier is one header of
    it. *)

From S2P Require Import Prelude.
From S2P Require Import GoStrings.
From S2P Require Import ConfigTypes.
From S2P Require Import CircuitBreaker.
From S2P Require Import Http.
From S2P Require Import Middleware.
From S2P Require Import Known.
From S2P Require Import Router.
From S2P Require Import Cors.
From S2P Require Import Observability.
From S2P Require Import Resolve.
From S2P Require Import Retry.
From S2P Require Import Config.
From S2P Require Import RateLimit.
From S2P Require Import Auth.
From S2P Require Import Proxy.
From S2P Require Import Transform.
From S2P Require Import Pipeline.

Local Open Scope Z_scope.

(** ** The global chain *)

Lemma same_wrap h {A} (p q : prog A) : same h p q → same h (WrapResponseWriter p) (WrapResponseWriter q).
Proof.
  intros Hs. apply same_emit; [done|]. intros [o|]; [by apply same_bind|].
  apply same_handle; [apply wrapped_header_free | done].
Qed.

Lemma same_metrics h (next next' : Handler) r :
  (let r' := WithContext r (WithRouteHolder (r_ctx r)) in
   same h (with_route_holder (next r')) (with_route_holder (next' r'))) →
  same h (MetricsMiddleware next r) (MetricsMiddleware next' r).
Proof. intros Hs. apply same_emit; [done|]. intros start. by apply same_bind, same_wrap. Qed.

Lemma same_logging h (next next' : Handler) r :
  same h (next r) (next' r) → same h (Logging next r) (Logging next' r).
Proof.
  intros Hs. apply same_emit; [done|]. intros start. apply same_bind, same_wrap.
  apply same_emit; [done|]. intros _.
  apply same_trans with (emit (Log "DEBUG" "request headers" [AHeader "headers" h]);; next r);
    [apply same_read|]. apply same_trans with (emit (Log "DEBUG" "request headers" [AHeader "headers" h]);; next' r).
  { apply same_emit; [done|]. by intros _. }
  intros W env I w Hk Hi. symmetry. by apply (same_read h (λ h, emit (Log "DEBUG" "request headers"
    [AHeader "headers" h]);; next' r) W env I w).
Qed.


(** ** Running the chain *)

(** Events that change neither the response nor the headers, reading the response's
    headers included. *)
Definition observe : ∀ X, event X → Prop :=
  λ X e, match e with WHeader => True | _ => read_event X e end.

(** Observing programs that do not panic return, in a world related to the first. *)
Lemma observe_run {S A} (E : environment S) (R : S → S → Prop) `{!PreOrder R} (p : prog A) :
  (∀ X (e : event X) s, observe X e → ∃ x s', E X e s = (Returned x, s') ∧ R s s') →
  all_events observe p → no_panic p → ∀ s, ∃ a s', run E p s = (Returned a, s') ∧ R s s'.
Proof.
  intros HE. induction p as [a|v|X e k IH]; intros Hp Hn s; [by exists a, s|done|]. destruct Hp as [He Hk].
  cbn [run]. destruct (HE X e s He) as (x & s1 & -> & H1).
  destruct (IH x (Hk x) (Hn x) s1) as (a & s2 & -> & H2). exists a, s2. split; [done|]. by transitivity s1.
Qed.

Lemma header_set_plain k v : all_events plain_event (header_set k v).
Proof. by repeat (split; [done|intros]). Qed.

Lemma header_set_if_plain b k v : all_events plain_event (header_set_if b k v).
Proof. destruct b; [apply header_set_plain | done]. Qed.

Lemma write_header_plain code : final_status code → all_events plain_event (write_header code).
Proof. intros Hf. split; [done|]. by intros [[]|v]. Qed.

Lemma write_plain b : all_events plain_event (write b).
Proof. by repeat (split; [done|intros]). Qed.

Lemma writeJSON_plain code e msg : final_status code → all_events plain_event (writeJSON code e msg).
Proof.
  intros Hf. apply all_events_bind; [apply header_set_plain|]. intros _.
  apply all_events_bind; [by apply write_header_plain|]. intros _. apply write_plain.
Qed.

Section chain.
Context {W : Type} (env : environment W).
Hypothesis Hc : no_crash env.

Abbreviation bare := (conn_req_env env).
(** Below the wrapper that [Logging] makes. *)
Abbreviation wrapped := (env_with (writer_handler WrappedResponseWriter) bare).

(** The same response and headers, in any world; and the same wrapper. *)
Definition alike (s s' : Conn * (Header * W)) : Prop := s.1 = s'.1 ∧ s.2.1 = s'.2.1.
Definition alike_wrapped (s s' : WrappedResponseWriter * (Conn * (Header * W))) : Prop :=
  s.1 = s'.1 ∧ alike s.2 s'.2.

#[local] Instance alike_preorder : PreOrder alike.
Proof. split; [by intros|]. intros s1 s2 s3 [? ?] [? ?]. split; congruence. Qed.

#[local] Instance alike_wrapped_preorder : PreOrder alike_wrapped.
Proof.
  split; [by intros|]. intros s1 s2 s3 [? H1] [? H2]. split; [congruence|]. by transitivity s2.2.
Qed.

Lemma bare_observes X (e : event X) s : observe X e → ∃ x s', bare X e s = (Returned x, s') ∧ alike s s'.
Proof using Hc.
  destruct s as [c [h w]]. intros He. destruct e; try done; try (by eexists _, _);
    (rewrite conn_req_env_pass by done;
     match goal with |- context [env ?X ?e w] => destruct (Hc X e w) as (x & w' & ->) end;
     by eexists _, _).
Qed.

Lemma wrapped_observes X (e : event X) s :
  observe X e → ∃ x s', wrapped X e s = (Returned x, s') ∧ alike_wrapped s s'.
Proof using Hc.
  destruct s as [ww [c [h w]]]. intros He. destruct e; try done; try (by eexists _, _);
    (rewrite env_with_pass, conn_req_env_pass by done;
     match goal with |- context [env ?X ?e w] => destruct (Hc X e w) as (x & w' & ->) end;
     by eexists _, _).
Qed.

(** A plain program below the wrapper and without it. *)
Lemma wrapped_run {A} (p : prog A) ww c hw :
  all_events plain_event p → records ww c →
  ∃ ww', run wrapped p (ww, (c, hw)) =
    let '(o, st) := run bare p (c, hw) in (o, (ww', st)).
Proof.
  intros Hp Hr.
  pose proof (run_simulation wrapped bare plain_event (λ x y, x.2 = y ∧ records x.1 y.1) p (ww, (c, hw)) (c, hw))
    as H.
  destruct H as [Ho [Hw _]]; [|done..|].
  - intros X e [ww1 [c1 w1]] [c2 w2] He [? Hrec]. simplify_eq/=. by apply wrapped_event.
  - destruct (run wrapped p _) as [o1 [ww1 st1]], (run bare p _) as [o2 st2]. cbn in Ho, Hw. subst.
    by exists ww1.
Qed.

(** What is below the chain, as [MetricsMiddleware] runs it. *)
Abbreviation below next r := (with_route_holder (next (WithContext r (WithRouteHolder (r_ctx r))))).

Lemma metrics_run (next : Handler) r c h w :
  all_events plain_event (below next r) → conn_sent c = None → conn_body c = "" →
  ∃ w1,
    match run bare (below next r) (c, (h, w1)) with
    | (Returned _, st) => ∃ ww' st', alike st st' ∧
        run wrapped (MetricsMiddleware next r) (ww_new, (c, (h, w))) = (Returned tt, (ww', st'))
    | (Panicked v, st) => ∃ ww',
        run wrapped (MetricsMiddleware next r) (ww_new, (c, (h, w))) = (Panicked v, (ww', st))
    end.
Proof using Hc.
  intros Hp Hs Hb. unfold MetricsMiddleware. rewrite run_mbind, run_emit, env_with_pass, conn_req_env_pass by done.
  destruct (Hc _ Now w) as (t & w1 & ->). exists w1. cbv beta iota.
  assert (records ww_new c) as Hr by (unfold records, conn_wf; rewrite Hs, Hb; done).
  destruct (wrapped_run (below next r) ww_new c (h, w1) Hp Hr) as (ww' & Ew).
  unfold WrapResponseWriter. rewrite run_mbind, run_mbind.
  change (run wrapped (emit WWrapped) (ww_new, (c, (h, w1)))) with
    (Returned (rw_Wrapped ww_new), (ww_new, (c, (h, w1)))). cbv beta iota. cbn [rw_Wrapped Wrapped_writer].
  rewrite (run_mbind wrapped (below next r)), Ew. destruct (run bare (below next r) (c, (h, w1))) as [[[[] holder]|v] st].
  2: by exists ww'.
  rewrite run_mbind. change (run wrapped (emit WWrapped) (ww', st)) with (Returned (rw_Wrapped ww'), (ww', st)).
  cbv beta iota. cbn [run mret prog_ret].
  match goal with |- context [run wrapped ?q (ww', st)] =>
    destruct (observe_run wrapped alike_wrapped q wrapped_observes) with (s := (ww', st))
      as ([] & [ww2 st2] & -> & [_ H2]) end.
  - destruct (r_ContentLength r >=? 0); cbn; naive_solver.
  - destruct (r_ContentLength r >=? 0); cbn; naive_solver.
  - by exists ww2, st2.
Qed.

Lemma logging_metrics_run (next : Handler) r c h w :
  all_events plain_event (below next r) → conn_sent c = None → conn_body c = "" →
  ∃ w1,
    match run bare (below next r) (c, (h, w1)) with
    | (Returned _, st) => ∃ st', alike st st' ∧
        run bare (Logging (MetricsMiddleware next) r) (c, (h, w)) = (Returned tt, st')
    | (Panicked v, st) => run bare (Logging (MetricsMiddleware next) r) (c, (h, w)) = (Panicked v, st)
    end.
Proof using Hc.
  intros Hp Hs Hb. unfold Logging. rewrite run_mbind, run_emit, conn_req_env_pass by done.
  destruct (Hc _ Now w) as (t & w1 & ->). cbv beta iota.
  unfold WrapResponseWriter. rewrite run_mbind, run_mbind.
  change (run bare (emit WWrapped) (c, (h, w1))) with (Returned (@None (Z * Z * bool)), (c, (h, w1))).
  cbv beta iota. unfold with_writer. rewrite run_handle.
  rewrite run_mbind, run_emit, env_with_pass, conn_req_env_pass by done.
  match goal with |- context [env ?X ?e w1] => destruct (Hc X e w1) as ([] & w2 & ->) end. cbv beta iota.
  rewrite run_mbind. change (run wrapped (emit RHeader) (ww_new, (c, (h, w2)))) with
    (Returned h, (ww_new, (c, (h, w2)))). cbv beta iota.
  rewrite run_mbind, run_emit, env_with_pass, conn_req_env_pass by done.
  match goal with |- context [env ?X ?e w2] => destruct (Hc X e w2) as ([] & w3 & ->) end. cbv beta iota.
  destruct (metrics_run next r c h w3 Hp Hs Hb) as (w4 & Hm). exists w4.
  destruct (run bare (below next r) (c, (h, w4))) as [[x|v] st].
  - destruct Hm as (ww' & st' & Ha & ->). cbv beta iota.
    match goal with |- context [run bare ?q st'] =>
      destruct (observe_run bare alike q bare_observes) with (s := st') as ([] & st2 & -> & H2) end.
    + cbn; naive_solver.
    + cbn; naive_solver.
    + exists st2. split; [by transitivity st'|done].
  - by destruct Hm as (ww' & ->).
Qed.

(** The request below the chain, and the connection it finds. *)
Definition with_id (r : Request) (id : string) : Request := WithContext r (with_request_id (r_ctx r) id).
Definition served_request (r : Request) (id : string) : Request :=
  WithContext (with_id r id) (WithRouteHolder (r_ctx (with_id r id))).
Definition served_conn (id : string) : Conn := mkConn (hdr_set ∅ "X-Request-ID" id) None "" [].

(** The response of the gateway is the one of the handler below the chain, when that
    does, under the headers of the request, what a plain program [n] does.  The
    identifier is the client's, when it sent one. *)
Lemma chain_run (next : Handler) r h w :
  ∃ id, (hdr_get h "X-Request-ID" ≠ "" → id = hdr_get h "X-Request-ID") ∧
  ∀ n : prog unit,
    same (hdr_set h "X-Request-ID" id) (next (served_request r id)) n → all_events plain_event n →
    ∃ w1,
      match run bare (with_route_holder n) (served_conn id, (hdr_set h "X-Request-ID" id, w1)) with
      | (Returned _, (c, _)) =>
          ∃ w', serve (req_env env) (globalChain next r) (h, w) = (Returned (conn_commit c), w')
      | (Panicked _, (c, _)) =>
          ∃ w', serve (req_env env) (globalChain next r) (h, w) = (Returned (conn_commit (recovered c)), w')
      end.
Proof using Hc.
  assert (∃ id w0, (hdr_get h "X-Request-ID" ≠ "" → id = hdr_get h "X-Request-ID") ∧
    run bare (RequestID (Logging (MetricsMiddleware next)) r) (new_conn, (h, w)) =
    run bare (Logging (MetricsMiddleware next) (with_id r id))
      (served_conn id, (hdr_set h "X-Request-ID" id, w0))) as (id & w0 & Hget & Eid).
  { pose proof (RequestID_propagates env (Logging (MetricsMiddleware next)) r new_conn h w) as Hid. cbv zeta in Hid.
    case_bool_decide; [|by exists (hdr_get h "X-Request-ID"), w].
    destruct (Hc _ (RandBytes 16) w) as (b & w' & Eb). exists (uuid_format (uuid_bits b)), w'.
    split; [done|]. by apply Hid. }
  exists id. split; [done|]. intros n Hq Hp. set (h1 := hdr_set h "X-Request-ID" id) in *.
  assert (same h1 (Logging (MetricsMiddleware next) (with_id r id))
    (Logging (MetricsMiddleware (λ _, n)) (with_id r id))) as Hsame.
  { apply same_logging, same_metrics. apply same_handle; [apply holder_header_free | apply Hq]. }
  rewrite (Hsame _ _ _ (served_conn id, (h1, w0)) (conn_req_env_knows env h1) eq_refl) in Eid.
  destruct (logging_metrics_run (λ _, n) (with_id r id) (served_conn id) h1 w0) as (w1 & Hrun);
    [apply plain_holder, Hp|done|done|].
  exists w1. pose proof (Recovery_run (req_env env) (RequestID (Logging (MetricsMiddleware next))) r new_conn (h, w)
    (req_env_no_crash env Hc)) as Hrec.
  fold bare in Hrec. rewrite Eid in Hrec. rewrite serve_run. fold bare.
  change (globalChain next r) with (Recovery (RequestID (Logging (MetricsMiddleware next))) r).
  destruct (run bare (with_route_holder n) _) as [[x|v] [c st]].
  - destruct Hrun as ([c' st'] & [E _] & Hr). rewrite Hr in Hrec. cbn in E. subst c'. rewrite Hrec. by exists st'.
  - rewrite Hrun in Hrec. destruct Hrec as [w3 ->]. by exists w3.
Qed.
End chain.

(** ** The answers of a built gateway *)

Section answers.
Context `{RE : RegexpEngine} `{UT : UnicodeTables} `{RO : RangeOrder} `{YL : YamlLibrary}
  `{NP : NetPackage} `{UP : UrlPackage} `{EN : Encoders} `{CS : ContentSniffer}
  `{JP : JsonPackage} `{TF : TimeFormat}.
Variable handleUpgradeResponse : Request → HttpResponse → prog unit.
Variable Stack : string.

Abbreviation BuildHandler := (BuildHandler handleUpgradeResponse Stack).
Abbreviation gateway_of := (gateway_of handleUpgradeResponse).

Lemma built_gateway {W} (env : environment W) cfg deps w gw transport w' :
  no_crash env → run env (BuildHandler cfg deps DefaultRegistry) w = (Returned (Ok gw, transport), w') →
  gateway_of cfg deps gw.
Proof.
  intros Hc Hrun. destruct (ends_run env _ _ w Hc (BuildHandler_yields handleUpgradeResponse Stack cfg deps))
    as (res & w1 & Hr & Hb).
  rewrite Hrun in Hr. injection Hr as <- <-. by destruct Hb.
Qed.

(** The headers the gateway's own answers start from. *)
Definition id_header (id : string) : Header := hdr_set ∅ "X-Request-ID" id.

(** The request as the router sees it accepts what the original does. *)
Lemma accepts_served route r id h : accepts route (served_request r id) h ↔ accepts route r h.
Proof. done. Qed.

(** C13: an unrouted request is answered with the 404 document.  When no route of the
    configuration accepts the request, the response of the built gateway is exactly
    one 404 head, with the JSON content type and the request's identifier (the
    client's own, when it sent one), and the JSON body; nothing else of the
    configuration shows in it. *)
Theorem unrouted_is_404 {W0 W} (env0 : environment W0) (env : environment W) cfg deps w0 gw transport w0'
    r h w :
  no_crash env0 → no_crash env →
  run env0 (BuildHandler cfg deps DefaultRegistry) w0 = (Returned (Ok gw, transport), w0') →
  (∀ route id, route ∈ gw_Routes cfg → ¬ accepts route r (hdr_set h "X-Request-ID" id)) →
  ∃ id w', (hdr_get h "X-Request-ID" ≠ "" → id = hdr_get h "X-Request-ID") ∧
    let hd := hdr_set (id_header id) "Content-Type" "application/json" in
    serve (req_env env) (gw r) (h, w) =
      (Returned (mkConn hd (Some (404, hd)) (json_error "not_found" "No route matched") []), w').
Proof.
  intros Hc0 Hc Hrun Hno. destruct (built_gateway env0 cfg deps w0 gw transport w0' Hc0 Hrun)
    as (globals & hs & rt & _ & _ & Hn & ->).
  destruct (chain_run env Hc (ServeHTTP rt) r h w) as (id & Hid & Hrest). exists id.
  destruct (Hrest (writeJSON 404 "not_found" "No route matched")) as (w1 & Hw).
  - apply (ServeHTTP_same _ _ _ _ _ Hn). intros route Hin. rewrite accepts_served. by apply Hno.
  - apply writeJSON_plain. unfold final_status. lia.
  - match type of Hw with match ?x with _ => _ end => change x with
      (Returned (tt, @None MatchedRoute),
       (mkConn (hdr_set (id_header id) "Content-Type" "application/json")
          (Some (404, hdr_set (id_header id) "Content-Type" "application/json"))
          (json_error "not_found" "No route matched") [], (hdr_set h "X-Request-ID" id, w1))) in Hw end.
    destruct Hw as [w' Hw]. by exists w'.
Qed.
(** Setting a header below the holder. *)
Lemma below_header_set_if {W} (env : environment W) b k v m c w :
  run (env_with holder_cell (conn_req_env env)) (header_set_if b k v) (m, (c, w)) =
  (Returned tt, (m, (mkConn (if b then hdr_set (conn_header c) k v else conn_header c)
                       (conn_sent c) (conn_body c) (conn_info c), w))).
Proof. destruct w. destruct b, c; reflexivity. Qed.

Lemma below_no_content {W} (env : environment W) m hd body info w :
  run (env_with holder_cell (conn_req_env env)) (write_header 204) (m, (mkConn hd None body info, w)) =
  (Returned tt, (m, (mkConn hd (Some (204, hd)) body info, w))).
Proof. by destruct w. Qed.

(** A preflight answered below the chain, whatever route has been recorded. *)
Lemma preflight_run {W} (env : environment W) cfg origin mr id h w :
  origin ≠ "" →
  let hd := preflight_headers cfg origin ∪ id_header id in
  run (conn_req_env env) (with_route_holder (emit (HolderSet mr);; handlePreflight origin cfg))
    (served_conn id, (h, w)) =
  (Returned (tt, Some mr), (mkConn hd (Some (204, hd)) "" [], (h, w))).
Proof.
  intros Ho hd. unfold with_route_holder. rewrite run_handle, run_mbind.
  change (run _ (emit (HolderSet mr)) _) with (Returned tt, (Some mr, (served_conn id, (h, w)))).
  unfold served_conn. fold (id_header id). cbv beta iota.
  by rewrite (handlePreflight_run _ (λ c, (Some mr, (c, (h, w))))
    (λ b k v c, below_header_set_if env b k v (Some mr) c (h, w)) (λ hd body info, below_no_content env _ hd body info (h, w))).
Qed.

Lemma other_header h k v k' :
  CanonicalHeaderKey k ≠ CanonicalHeaderKey k' → hdr_get (hdr_set h k v) k' = hdr_get h k'.
Proof. intros Hk. unfold hdr_get, hdr_values, hdr_set. by rewrite lookup_insert_ne. Qed.

(** The CORS middleware where the request's headers are those of a preflight. *)
Lemma CORS_preflight_same policy next r h :
  isPreflight r h = true → same h (CORSMiddleware policy next r) (handlePreflight (hdr_get h "Origin") policy).
Proof.
  intros Hp. pose proof Hp as Hp'. unfold isPreflight in Hp'. bool_to_prop. unfold CORSMiddleware, req_header_get.
  intros W env I w Hk Hi. rewrite run_mbind, (same_read h (λ h, mret (hdr_get h "Origin")) W env I w Hk Hi).
  cbn [run mret prog_ret]. rewrite bool_decide_false by done.
  rewrite (same_read h _ W env I w Hk Hi). by rewrite Hp.
Qed.

Lemma handlePreflight_plain origin policy : all_events plain_event (handlePreflight origin policy).
Proof.
  unfold handlePreflight. apply all_events_bind; [apply header_set_plain|]. intros _.
  assert (all_events plain_event (write_header 204)) by (apply write_header_plain; unfold final_status; lia).
  case_bool_decide; [done|].
  repeat (apply all_events_bind; [apply header_set_plain || apply header_set_if_plain|]; intros _). done.
Qed.

(** The outermost middleware of a route's handler. *)
Lemma route_handler_outermost deps globals route rms cb rm rest :
  filter (λ mw, ¬ is_transform mw) (effective globals route rms) = rm :: rest →
  ∃ next, route_handler handleUpgradeResponse deps globals route rms cb = middleware_for deps (route_Name route) rm next.
Proof.
  intros E. unfold route_handler. cbv zeta. rewrite E. cbn [app]. rewrite fmap_cons, Chain_foldr. cbn [foldr].
  by eexists.
Qed.

(** C14: the CORS policy answers preflights before anything else of a route.  When the
    outermost middleware of the first accepting route is a CORS policy, a preflight
    request gets exactly one empty 204 head: the headers of the policy for its origin
    and the request's identifier.  No authentication, rate limit, transform, breaker
    or upstream that follows in the configuration can change that answer. *)
Theorem preflight_comes_first {W0 W} (env0 : environment W0) (env : environment W) cfg deps w0 gw
    transport w0' i route globals rms rm rest policy r h w :
  no_crash env0 → no_crash env → NoDup (route_Name <$> gw_Routes cfg) →
  run env0 (BuildHandler cfg deps DefaultRegistry) w0 = (Returned (Ok gw, transport), w0') →
  gw_Routes cfg !! i = Some route →
  ResolveMiddlewares (gw_Middlewares cfg) (gw_MiddlewareDefinitions cfg) = Ok globals →
  ResolveMiddlewares (route_Middlewares route) (gw_MiddlewareDefinitions cfg) = Ok rms →
  filter (λ mw, ¬ is_transform mw) (effective globals route rms) = rm :: rest →
  rm_Config rm = CfgCORS policy →
  isPreflight r h = true →
  (∀ id, accepts route r (hdr_set h "X-Request-ID" id)) →
  (∀ j route' id, (j < i)%nat → gw_Routes cfg !! j = Some route' →
     ¬ accepts route' r (hdr_set h "X-Request-ID" id)) →
  ∃ id w', (hdr_get h "X-Request-ID" ≠ "" → id = hdr_get h "X-Request-ID") ∧
    let hd := preflight_headers policy (hdr_get h "Origin") ∪ id_header id in
    serve (req_env env) (gw r) (h, w) = (Returned (mkConn hd (Some (204, hd)) "" []), w').
Proof.
  intros Hc0 Hc Hnd Hrun Hi Hg Hrms Hlayers Hrm Hpre Hacc Hfirst.
  destruct (built_gateway env0 cfg deps w0 gw transport w0' Hc0 Hrun)
    as (globals' & hs & rt & Hg' & [Hall Hsome] & Hn & ->).
  assert (globals' = globals) as -> by congruence. assert (route ∈ gw_Routes cfg) as Hin by by eapply list_elem_of_lookup_2.
  destruct (Hall route) as [hd Hh]; [done|].
  destruct (Hsome _ _ Hh) as (route' & rms' & cb & Hin' & Hname & Hrms' & ->).
  assert (route' = route) as -> by by apply (NoDup_fmap_name cfg).
  assert (rms' = rms) as -> by congruence.
  destruct (chain_run env Hc (ServeHTTP rt) r h w) as (id & Hid & Hrest). exists id.
  set (h1 := hdr_set h "X-Request-ID" id) in *.
  destruct (proj1 (ServeHTTP_same _ _ _ (served_request r id) h1 Hn) i route Hi) as (mr & _ & Hs).
  { apply Hacc. }
  { intros j cfg' Hj Hj'. by eapply Hfirst. }
  destruct (route_handler_outermost deps globals route rms cb rm rest Hlayers) as [next Ho].
  destruct (Hrest (emit (HolderSet mr);; handlePreflight (hdr_get h "Origin") policy)) as (w1 & Hw).
  - eapply same_trans; [exact Hs|]. unfold handled. apply same_emit; [done|]. intros [].
    destruct (hs !! route_Name route) as [hd|]; [|done]. injection Hh as ->.
    rewrite Ho. unfold middleware_for. rewrite Hrm. 
    unfold h1. rewrite <-(other_header h "X-Request-ID" id "Origin") by done. apply CORS_preflight_same.
    unfold isPreflight in *. by rewrite !other_header.
  - split; [done|]. intros []. apply handlePreflight_plain.
  - rewrite preflight_run in Hw; [|unfold isPreflight in Hpre; by bool_to_prop].
    destruct Hw as [w' Hw]. by exists w'.
Qed.
End answers.

(** ** Witnesses *)

(** Every [cors] mapping decodes to one policy. *)
Definition cors_yaml : YamlLibrary := {|
  decode_cors _ := Ok witness_cors;
  decode_rate_limit _ := Ok zero_RateLimit;
  decode_auth _ := Ok (mkAuthMiddlewareConfig ["key"]);
  decode_transform _ := Ok zero_Transform;
  yaml_Marshal _ := Ok "";
|}.

Definition posted_route : RouteConfig :=
  mkRouteConfig "users" (mkMatchConfig "/users" ["POST"] "" ∅) (mkUpstreamConfig "http:up" "" Second)
    None None [] [].

(** One route behind a CORS policy and an [auth] middleware. *)
Definition shared_config : GatewayConfig :=
  mkGatewayConfig (mkServerConfig "" 0 0 0 0 0 [] 0) (mkLoggingConfig "")
    (mkRateLimitGlobalConfig "" None) ∅
    {["cross" := mkMiddlewareDefinition "cors" (mapping []); "guard" := mkMiddlewareDefinition "auth" (mapping [])]}
    [mkMiddlewareRef "cross" zero_Node; mkMiddlewareRef "guard" zero_Node] [posted_route].

Definition users_request (method : string) : Request :=
  mkRequest method "/users" "" "example.com" "192.0.2.1:1" None 0 ctx_background.

Section witnesses.
Local Existing Instances literal_engine ascii_tables sorted_range cors_yaml text_net text_url
  text_encoders no_sniffer toy_json toy_time.

Lemma shared_builds :
  ∃ gw transport w',
    run quiet_env (BuildHandler no_upgrade "" shared_config refusing_deps DefaultRegistry) tt =
      (Returned (Ok gw, transport), w').
Proof.
  destruct (ends_run quiet_env _ _ tt quiet_env_no_crash
    (BuildHandler_yields no_upgrade "" shared_config refusing_deps))
    as ([[gw|e] t] & w' & Hr & Hb); [by exists gw, t, w'|].
  destruct Hb. split; [eexists; vm_compute; reflexivity|].
  intros route ->%list_elem_of_singleton. split; [eexists; vm_compute; reflexivity|].
  split; [by eexists|]. intros n p Hn.
  change ((∅ : gmap string string) !! n = Some p) in Hn. by rewrite lookup_empty in Hn.
Qed.

Lemma unrouted_is_404_witness :
  ∃ gw id w',
    let hd := hdr_set (id_header id) "Content-Type" "application/json" in
    serve (req_env quiet_env) (gw (users_request "GET")) (∅, tt) =
      (Returned (mkConn hd (Some (404, hd)) (json_error "not_found" "No route matched") []), w').
Proof.
  destruct shared_builds as (gw & t & w' & Hr). exists gw.
  destruct (unrouted_is_404 no_upgrade "" quiet_env quiet_env shared_config refusing_deps tt gw t w'
    (users_request "GET") ∅ tt quiet_env_no_crash quiet_env_no_crash Hr) as (id & w1 & _ & H).
  - intros route id ->%list_elem_of_singleton (_ & _ & [?|[?%list_elem_of_singleton|?]] & _); done.
  - by exists id, w1.
Defined.

Lemma preflight_comes_first_witness :
  let h := hdr_set (hdr_set witness_origin "Access-Control-Request-Method" "PUT") "X-Request-ID" "q-1" in
  ∃ gw w',
    let hd := preflight_headers witness_cors "https://a.example" ∪ id_header "q-1" in
    serve (req_env quiet_env) (gw (users_request "OPTIONS")) (h, tt) =
      (Returned (mkConn hd (Some (204, hd)) "" []), w').
Proof.
  intros h. destruct shared_builds as (gw & t & w' & Hr). exists gw.
  destruct (preflight_comes_first no_upgrade "" quiet_env quiet_env shared_config refusing_deps tt gw t w'
    0 posted_route
    [mkResolvedMiddleware "cross" "cors" (CfgCORS witness_cors);
     mkResolvedMiddleware "guard" "auth" (CfgAuth (mkAuthMiddlewareConfig ["key"]))] []
    (mkResolvedMiddleware "cross" "cors" (CfgCORS witness_cors))
    [mkResolvedMiddleware "guard" "auth" (CfgAuth (mkAuthMiddlewareConfig ["key"]))] witness_cors
    (users_request "OPTIONS") h tt quiet_env_no_crash quiet_env_no_crash) as (id & w1 & Hid & H).
  - apply NoDup_singleton.
  - exact Hr.
  - reflexivity.
  - vm_compute. reflexivity.
  - vm_compute. reflexivity.
  - reflexivity.
  - reflexivity.
  - reflexivity.
  - intros id. split; [by exists "/users"|]. split; [done|]. split; [by right; right|]. intros n p Hn.
    change ((∅ : gmap string string) !! n = Some p) in Hn. by rewrite lookup_empty in Hn.
  - lia.
  - rewrite Hid in H by done. by exists w1.
Defined.
End witnesses.
