(* ===== verification/Gateway.v ===== *)
(** * The gateway process (cmd/gateway/main.go)

    Start-up, the reload on SIGHUP, the signal loop and the shutdown.  The
    configuration and the handler in service are the state; the two atomic
    pointers are written only by the signal loop, so a request sees the state
    before or after a reload. *)

From S2P Require Import Prelude.
From S2P Require Import GoStrings.
From S2P Require Import Template.
From S2P Require Import ConfigTypes.
From S2P Require Import CircuitBreaker.
From S2P Require Import Http.
From S2P Require Import Middleware.
From S2P Require Import Router.
From S2P Require Import Cors.
From S2P Require Import Resolve.
From S2P Require Import Retry.
From S2P Require Import Config.
From S2P Require Import Reload.
From S2P Require Import RateLimit.
From S2P Require Import Auth.
From S2P Require Import Proxy.
From S2P Require Import Transform.
From S2P Require Import Pipeline.

Local Open Scope Z_scope.

(** ** Durations as text ([time.Duration.String]) *)

(** The fraction of [v] in [n] decimal places, without trailing zeros, in front
    of [acc]; [print] says that a digit was printed. *)
Fixpoint fmtFrac (n : nat) (v : Z) (print : bool) (acc : string) : string :=
  match n with
  | O => if print then "." +:+ acc else acc
  | S n' =>
      let digit := v `mod` 10 in
      let print := print || negb (digit =? 0) in
      fmtFrac n' (v / 10) print (if print then Itoa digit +:+ acc else acc)
  end.

Definition fmt_unit (u : Z) (prec : nat) (unit : string) : string :=
  Itoa (u / 10 ^ Z.of_nat prec) +:+ fmtFrac prec u false "" +:+ unit.

Definition Duration_String (d : Z) : string :=
  let u := Z.abs d in
  let sign := if d <? 0 then "-" else "" in
  if u =? 0 then "0s"
  else if u <? Second then
    sign +:+ (if u <? 1000 then fmt_unit u 0 "ns"
              else if u <? Millisecond then fmt_unit u 3 "µs"
              else fmt_unit u 6 "ms")
  else
    let minutes := u / Minute in
    let sec := fmt_unit (u `mod` Minute) 9 "s" in
    sign +:+
    (if 0 <? minutes / 60 then Itoa (minutes / 60) +:+ "h" else "") +:+
    (if 0 <? minutes then Itoa (minutes `mod` 60) +:+ "m" else "") +:+ sec.

(** ** The texts of the log *)

Definition changed (field old new : string) : string :=
  field +:+ " changed (" +:+ old +:+ " -> " +:+ new +:+ ") — requires restart".

Definition warning_text (w : restart_warning) : string :=
  match w with
  | StringChanged field old new => changed field (Quote old) (Quote new)
  | NumberChanged field old new => changed field (Itoa old) (Itoa new)
  | DurationChanged field old new => changed field (Duration_String old) (Duration_String new)
  | SettingsChanged field =>
      field +:+ (if bool_decide (field = "rate_limit.redis") then " settings"
                 else if bool_decide (field = "auth_providers") then " definitions" else "") +:+
      " changed — requires restart"
  end.

Definition change_text (c : change) : string :=
  match c with
  | RouteAdded name => "route " +:+ Quote name +:+ ": added"
  | RouteModified name => "route " +:+ Quote name +:+ ": modified"
  | RouteRemoved name => "route " +:+ Quote name +:+ ": removed"
  | RouteOrderChanged => "route evaluation order changed"
  | DefinitionAdded name => "middleware_definitions: " +:+ Quote name +:+ " added"
  | DefinitionModified name => "middleware_definitions: " +:+ Quote name +:+ " modified"
  | DefinitionRemoved name => "middleware_definitions: " +:+ Quote name +:+ " removed"
  | GlobalsChanged => "global middlewares list changed"
  end.

Definition log (level msg : string) (attrs : list attr) : prog unit := emit (Log level msg attrs).

(** [slog.Level]. *)
Inductive Level : Set := LevelDebug | LevelInfo | LevelWarn | LevelError.

Definition parseLogLevel (level : string) : Level :=
  let levels : gmap string Level :=
    list_to_map [("debug", LevelDebug); ("info", LevelInfo); ("warn", LevelWarn); ("error", LevelError)] in
  default LevelInfo (levels !! level).

Section gateway.
Context `{RE : RegexpEngine} `{UT : UnicodeTables} `{RO : RangeOrder} `{YL : YamlLibrary}
  `{NP : NetPackage} `{UP : UrlPackage} `{EN : Encoders} `{CS : ContentSniffer}
  `{JP : JsonPackage} `{TF : TimeFormat} `{JL : JwtLibrary} `{ID : IntrospectionDecoder}.

Variable handleUpgradeResponse : Request → HttpResponse → prog unit.
Variable Stack : string.

(** The arguments of [LoadConfig], and the text of its errors. *)
Variable LookupEnv : string → option string.
Variable ValidateRawConfig : string → list string.
Variable Unmarshal : string → result GatewayConfig.
Variable load_error_text : load_error → string.

(** ** State *)

(** [cleanup] closes the idle connections of a transport. *)
Record handlerRef : Type := mkHandlerRef {
  hr_h : Handler;
  hr_cleanup : nat;
}.

(** What the two atomic pointers hold. *)
Record state : Type := mkState {
  st_cfg : GatewayConfig;
  st_current : handlerRef;
}.

(** ** Loading *)

Fixpoint warn_unset (toks : list token) : prog unit :=
  match toks with
  | [] => mret tt
  | Text _ :: toks' => warn_unset toks'
  | Var name :: toks' =>
      (match LookupEnv name with
       | None => log "WARN" "environment variable not set, leaving placeholder" [AStr "var" name]
       | Some _ => mret tt
       end);;
      warn_unset toks'
  end.

(** [config.LoadConfig] with its effects. *)
Definition load_config (configPath : string) : prog (GatewayConfig + load_error) :=
  data ← emit (ReadFile configPath);
  (match data with Ok text => warn_unset (tokens text) | Err _ => mret tt end);;
  mret (LoadConfig LookupEnv ValidateRawConfig Unmarshal data).

Definition buildHandler (cfg : GatewayConfig) (deps : FactoryDeps) : prog (result Handler * nat) :=
  BuildHandler handleUpgradeResponse Stack cfg deps DefaultRegistry.

(** ** Reload *)

Fixpoint log_all (level msg key : string) (texts : list string) : prog unit :=
  match texts with
  | [] => mret tt
  | t :: texts' => log level msg [AStr key t];; log_all level msg key texts'
  end.

(** What follows the load. *)
Definition apply_reload (deps : FactoryDeps) (st : state) (loaded : GatewayConfig + load_error)
    : prog state :=
  let oldCfg := st_cfg st in
  match loaded with
  | inr err =>
      log "ERROR" "config reload failed: invalid configuration, keeping current config"
        [AStr "error" (load_error_text err)];;
      mret st
  | inl newCfg =>
      log_all "WARN" "non-reloadable change detected (ignored)" "detail"
        (warning_text <$> NonReloadableChanges oldCfg newCfg);;
      '(h, newCleanup) ← buildHandler newCfg deps;
      match h with
      | Err err =>
          emit (CloseIdleConnections newCleanup);;
          log "ERROR" "config reload failed: could not build handler, keeping current config"
            [AStr "error" (error_text err)];;
          mret st
      | Ok newHandler =>
          let changes := DiffSummary oldCfg newCfg in
          let old := st_current st in
          emit (CloseIdleConnections (hr_cleanup old));;
          (if bool_decide (changes = [])
           then log "INFO" "Configuration reloaded (no reloadable changes detected)" []
           else log "INFO" "Configuration reloaded successfully"
                  [AList "changes" (change_text <$> changes)]);;
          mret (mkState newCfg (mkHandlerRef newHandler newCleanup))
      end
  end.

Definition handleReload (configPath : string) (deps : FactoryDeps) (st : state) : prog state :=
  log "INFO" "Received SIGHUP, reloading configuration..." [AStr "path" configPath];;
  loaded ← load_config configPath;
  apply_reload deps st loaded.

(** ** The signal loop *)

(** What wakes the loop up: a signal, or the end of [ListenAndServe]. *)
Inductive wakeup : Type :=
  | SIGHUP
  | SIGTERM
  | SIGINT
  | ServerFailed (err : error).

(** The loop over the wake-ups, as long as there are any: the state, and the
    error of the server when that ended the loop; [None] while it goes on. *)
Fixpoint signal_loop (configPath : string) (deps : FactoryDeps) (ws : list wakeup) (st : state)
    : prog (state * option (option error)) :=
  match ws with
  | [] => mret (st, None)
  | SIGHUP :: ws' => st' ← handleReload configPath deps st; signal_loop configPath deps ws' st'
  | SIGTERM :: _ | SIGINT :: _ => mret (st, Some None)
  | ServerFailed err :: _ =>
      log "ERROR" "server failed" [AStr "error" (error_text err)];; mret (st, Some (Some err))
  end.

(** ** Start-up *)

(** [limiter], as far as the process looks at it. *)
Inductive Limiter : Set := MemoryBackend | RedisBackend.

(** [os.Exit(1)] is [None]. *)
Definition exit {A} (msg : string) (attrs : list attr) : prog (option A) :=
  log "ERROR" msg attrs;; mret None.

Definition select_limiter (cfg : GatewayConfig) : prog (option Limiter) :=
  if bool_decide (rlg_Backend (gw_RateLimit cfg) = "redis") then
    match rlg_Redis (gw_RateLimit cfg) with
    | None => exit "redis rate limit backend requires redis config" []
    | Some redis =>
        e ← emit HealthCheck;
        match e with
        | Err err =>
            exit "failed to connect to Redis for rate limiting"
              [AStr "addr" (redis_Addr redis); AStr "error" (error_text err)]
        | Ok _ =>
            log "INFO" "Rate limit backend: redis" [AStr "addr" (redis_Addr redis)];;
            mret (Some RedisBackend)
        end
    end
  else log "INFO" "Rate limit backend: memory" [];; mret (Some MemoryBackend).

Fixpoint build_authenticators (providers : list (string * AuthProvider))
    (authenticators : gmap string Authenticator) : prog (option (gmap string Authenticator)) :=
  match providers with
  | [] => mret (Some authenticators)
  | (name, provider) :: providers' =>
      a ← NewAuthenticator provider;
      match a with
      | Err err =>
          exit "failed to create auth provider" [AStr "name" name; AStr "error" (error_text err)]
      | Ok a =>
          log "INFO" "Registered auth provider" [AStr "name" name; AStr "type" (ap_Type provider)];;
          build_authenticators providers' (<[name := a]> authenticators)
      end
  end.

(** What [runServe] has built when the server starts. *)
Record process : Type := mkProcess {
  pr_deps : FactoryDeps;
  pr_limiter : Limiter;
  pr_providers : gmap string AuthProvider;
  pr_state : state;
}.

(** [runServe] up to the start of the server; the lines that build the logger,
    the Prometheus registry and the mux have no effect here. *)
Definition start (configPath : string) : prog (option process) :=
  loaded ← load_config configPath;
  match loaded with
  | inr err => exit "failed to load configuration" [AStr "error" (load_error_text err)]
  | inl cfg =>
      match ParseTrustedProxies (srv_TrustedProxies (gw_Server cfg)) with
      | Err err => exit "failed to parse trusted proxies" [AStr "error" (error_text err)]
      | Ok trustedProxies =>
          log "INFO" "Starting API Gateway" [AInt "port" (srv_Port (gw_Server cfg))];;
          limiter ← select_limiter cfg;
          match limiter with
          | None => mret None
          | Some limiter =>
              authenticators ← build_authenticators (range (gw_AuthProviders cfg)) ∅;
              match authenticators with
              | None => mret None
              | Some authenticators =>
                  let deps := mkFactoryDeps authenticators trustedProxies in
                  '(h, cleanup) ← buildHandler cfg deps;
                  match h with
                  | Err err => exit "failed to build handler" [AStr "error" (error_text err)]
                  | Ok h =>
                      mret (Some (mkProcess deps limiter (gw_AuthProviders cfg)
                                    (mkState cfg (mkHandlerRef h cleanup))))
                  end
              end
          end
      end
  end.

(** ** Shutdown *)

(** Only OIDC authenticators have a [Stop] method; it cancels their context. *)
Fixpoint stop_providers (providers : list (string * AuthProvider)) : prog unit :=
  match providers with
  | [] => mret tt
  | (name, provider) :: providers' =>
      (if bool_decide (ap_Type provider = "oidc")
       then log "INFO" "Stopped auth provider" [AStr "name" name] else mret tt);;
      stop_providers providers'
  end.

(** The exit code. *)
Definition shutdown (p : process) (st : state) (srvErr : option error) : prog Z :=
  log "INFO" "Shutting down server..." [];;
  e ← emit (Shutdown (srv_ShutdownTimeout (gw_Server (st_cfg st))));
  match e with
  | Err err => log "ERROR" "server forced to shutdown" [AStr "error" (error_text err)];; mret 1
  | Ok _ =>
      emit (CloseIdleConnections (hr_cleanup (st_current st)));;
      stop_providers (range (pr_providers p));;
      (match pr_limiter p with
       | RedisBackend =>
           e ← emit CloseRedis;
           match e with
           | Err err => log "ERROR" "failed to close redis client" [AStr "error" (error_text err)]
           | Ok _ => mret tt
           end
       | MemoryBackend => mret tt
       end);;
      log "INFO" "Server stopped" [];;
      mret (match srvErr with Some _ => 1 | None => 0 end)
  end.

(** [runServe] with the wake-ups that arrive; [None] while it is running. *)
Definition runServe (configPath : string) (ws : list wakeup) : prog (option Z) :=
  p ← start configPath;
  match p with
  | None => mret (Some 1)
  | Some p =>
      '(st, o) ← signal_loop configPath (pr_deps p) ws (pr_state p);
      match o with
      | None => mret None
      | Some srvErr => code ← shutdown p st srvErr; mret (Some code)
      end
  end.

(** ** Specification *)

(** The configuration in service is valid and the handler in service is the one
    built from it. *)
Definition serving (deps : FactoryDeps) (st : state) : Prop :=
  valid_config (st_cfg st) ∧
  gateway_of handleUpgradeResponse (st_cfg st) deps (hr_h (st_current st)).

(** The connection pools: the number allocated, and those not yet retired. *)
Definition pool_cell : handler (nat * gset nat) :=
  λ X e,
    match e in event X return option (nat * gset nat → prog (X * (nat * gset nat))) with
    | NewTransport => Some (λ s, mret (s.1, (S s.1, {[s.1]} ∪ s.2)))
    | CloseIdleConnections t => Some (λ s, mret (tt, (s.1, s.2 ∖ {[t]})))
    | _ => None
    end.

Definition pool_env {W} (env : environment W) : environment ((nat * gset nat) * W) :=
  env_with pool_cell env.

(** The only pool in use is that of the handler in service. *)
Definition one_pool (st : state) (s : nat * gset nat) : Prop :=
  s.2 = {[hr_cleanup (st_current st)]} ∧ (hr_cleanup (st_current st) < s.1)%nat.

(** ** Lemmas *)

Lemma ends_returned {W A} (env : environment W) (Q : A → Prop) P p w a w' :
  ends Q P p → run env p w = (Returned a, w') → Q a.
Proof.
  revert w. induction p as [b|v|X e k IH]; intros w Hp Hr; cbn in *; [by simplify_eq|done|].
  destruct (env X e w) as [[x|v] w1]; [by eapply IH|done].
Qed.

Lemma log_all_yields level msg key texts Q :
  Q tt → ends Q no_value (log_all level msg key texts).
Proof. intros HQ. induction texts; cbn; auto. Qed.

Lemma warn_unset_yields toks : ends (λ _, True) no_value (warn_unset toks).
Proof.
  induction toks as [|[s|name] toks IH]; cbn [warn_unset]; [done|done|].
  eapply (ends_bind (λ _, True)); [by destruct (LookupEnv name)|]. by intros.
Qed.

(** What a reload makes of the outcome of a load. *)
Definition reloaded (deps : FactoryDeps) (st : state) (loaded : GatewayConfig + load_error)
    (st' : state) : Prop :=
  match loaded with
  | inr _ => st' = st
  | inl newCfg =>
      ¬ buildable newCfg ∧ st' = st ∨
      st_cfg st' = newCfg ∧
      gateway_of handleUpgradeResponse newCfg deps (hr_h (st_current st'))
  end.

Lemma apply_reload_yields deps st loaded :
  ends (reloaded deps st loaded) no_value (apply_reload deps st loaded).
Proof.
  unfold apply_reload. destruct loaded as [cfg|e]; [|done].
  apply (ends_bind (λ _, True)); [by apply log_all_yields|]. intros _ _.
  eapply ends_bind; [apply BuildHandler_yields|]. intros [[h|e] cleanup] Hb; cbn in Hb.
  - apply (ends_bind (λ _, True)); [done|]. intros _ _.
    apply (ends_bind (λ _, True)); [by case_bool_decide|]. intros _ _. right. by split; [|apply Hb].
  - cbn. intros _ _. by left.
Qed.

(** A load reads the file and warns about variables that are not set. *)
Lemma load_config_run {W} (env : environment W) path w :
  no_crash env →
  ∃ data w1 w2, env _ (ReadFile path) w = (Returned data, w1) ∧
    run env (load_config path) w =
      (Returned (LoadConfig LookupEnv ValidateRawConfig Unmarshal data), w2).
Proof.
  intros Hc. unfold load_config. rewrite run_mbind, run_emit.
  destruct (Hc _ (ReadFile path) w) as (data & w1 & ->). exists data, w1.
  rewrite run_mbind.
  assert (ends (λ _, True) no_value
    (match data with Ok text => warn_unset (tokens text) | Err _ => mret tt end)) as Hd.
  { destruct data; [apply warn_unset_yields | done]. }
  destruct (ends_run env _ _ w1 Hc Hd) as ([] & w2 & -> & _). by exists w2.
Qed.

Lemma ends_weaken {A} (Q : A → Prop) p : ends Q no_value p → ends Q any_value p.
Proof. by apply ends_impl. Qed.

Definition valid_load (loaded : GatewayConfig + load_error) : Prop :=
  match loaded with inl cfg => valid_config cfg | inr _ => True end.

Lemma load_config_yields path : ends valid_load no_value (load_config path).
Proof.
  unfold load_config. apply (ends_bind (λ _, True)); [done|]. intros data _.
  apply (ends_bind (λ _, True)); [destruct data; [apply warn_unset_yields | done]|].
  intros _ _. cbn. unfold valid_load.
  destruct (LoadConfig _ _ _ data) eqn:E; [by apply LoadConfig_inl in E as []|done].
Qed.

Lemma handleReload_serving path deps st :
  serving deps st → ends (serving deps) no_value (handleReload path deps st).
Proof.
  intros Hs. unfold handleReload. apply (ends_bind (λ _, True)); [done|]. intros _ _.
  eapply ends_bind; [apply load_config_yields|]. intros loaded Hv.
  eapply ends_impl; [| |apply apply_reload_yields]; [|done]. intros st' Hst. unfold reloaded in Hst.
  destruct loaded as [cfg|e]; [|by subst]. destruct Hst as [[_ ->]|[<- Hg]]; [done|]. by split.
Qed.

Lemma signal_loop_serving path deps ws st :
  serving deps st → ends (λ res, serving deps res.1) no_value (signal_loop path deps ws st).
Proof.
  revert st. induction ws as [|w ws IH]; intros st Hs; cbn [signal_loop]; [done|].
  destruct w; [|done..|by intros ?].
  eapply ends_bind; [by apply handleReload_serving|]. apply IH.
Qed.

Lemma start_serving path :
  ends (λ o, ∀ p, o = Some p → serving (pr_deps p) (pr_state p)) any_value (start path).
Proof.
  unfold start. eapply ends_bind; [apply ends_weaken, load_config_yields|].
  intros [cfg|e] Hv; [|done]. destruct (ParseTrustedProxies _) as [nets|e]; [|done].
  eapply ends_bind; [apply ends_any|]. intros _ _.
  eapply ends_bind; [apply ends_any|]. intros [lim|] _; [|done].
  eapply ends_bind; [apply ends_any|]. intros [auths|] _; [|done]. cbv zeta.
  eapply ends_bind; [apply ends_weaken, BuildHandler_yields|].
  intros [[h|e] cleanup] Hb; [|done]. intros p [= <-]. split; [exact Hv | apply Hb].
Qed.

(** Programs that leave the pools alone. *)
Definition no_pool : ∀ X, event X → Prop :=
  λ X e, match e with NewTransport | CloseIdleConnections _ => False | _ => True end.

Lemma pool_run {W A} (env : environment W) (p : prog A) s w :
  all_events no_pool p →
  run (pool_env env) p (s, w) = let '(o, w') := run env p w in (o, (s, w')).
Proof.
  revert w. induction p as [a|v|X e k IH]; intros w Hp; [done..|]. destruct Hp as [He Hk]. cbn [run].
  assert (pool_cell X e = None) as E by by destruct e.
  assert (pool_env env X e (s, w) = let '(o, w') := env X e w in (o, (s, w'))) as ->
    by (unfold pool_env; by rewrite env_with_pass).
  destruct (env X e w) as [[x|v] w1]; [by apply IH | done].
Qed.

Lemma Build_no_pool ty deps name mw cfg :
  all_events no_pool (Pipeline.Build DefaultRegistry ty deps name mw cfg).
Proof.
  unfold Pipeline.Build. destruct (DefaultRegistry !! ty) as [f|] eqn:E; [|done].
  unfold DefaultRegistry, Register, NewRegistry in E.
  apply lookup_insert_Some in E as [[_ <-]|[_ E]]; [by destruct cfg|].
  apply lookup_insert_Some in E as [[_ <-]|[_ E]]; [by destruct cfg|].
  apply lookup_insert_Some in E as [[_ <-]|[_ E]]; [|by rewrite lookup_empty in E].
  destruct cfg; cbn; stay.
Qed.

Lemma apply_chain_no_pool deps name ms : ∀ rh,
  all_events no_pool (apply_chain deps DefaultRegistry name ms rh).
Proof.
  induction ms as [|m ms IH]; intros rh; [done|]. cbn [apply_chain].
  apply all_events_bind; [apply Build_no_pool|]. intros [mw|e]; [apply IH | done].
Qed.

Lemma build_route_no_pool cfg deps globals route :
  all_events no_pool (build_route handleUpgradeResponse cfg deps DefaultRegistry globals route).
Proof.
  unfold build_route, NewProxyHandler, wrapResilience. stay. apply apply_chain_no_pool.
Qed.

Lemma build_no_pool cfg deps :
  all_events no_pool (build handleUpgradeResponse cfg deps DefaultRegistry).
Proof.
  unfold build. destruct (ResolveMiddlewares _ _) as [globals|e]; [|done].
  apply all_events_bind; [|intros [hs|e]; [by destruct (Router.New _ _)|done]].
  generalize (∅ : gmap string Handler).
  induction (gw_Routes cfg) as [|route routes IH]; intros handlers; [done|]. cbn [build_routes].
  apply all_events_bind; [apply build_route_no_pool|]. intros [rh|e]; [apply IH | done].
Qed.

Lemma log_all_no_pool level msg key texts : all_events no_pool (log_all level msg key texts).
Proof. induction texts; cbn [log_all]; unfold log; stay. Qed.

Lemma load_config_no_pool path : all_events no_pool (load_config path).
Proof.
  unfold load_config. stay.
  induction (tokens a) as [|[s|name] toks IH]; cbn [warn_unset]; unfold log; stay.
Qed.

(** Building a handler allocates one pool. *)
Lemma buildHandler_pool {W} (env : environment W) cfg deps n o w :
  no_crash env →
  ∃ res w', run (pool_env env) (buildHandler cfg deps) ((n, o), w) =
    (Returned (res, n), ((S n, {[n]} ∪ o), w')).
Proof.
  intros Hc. unfold buildHandler, BuildHandler. rewrite run_mbind, run_emit.
  change (pool_env env nat NewTransport ((n, o), w))
    with (Returned n, ((S n, {[n]} ∪ o), w)). cbv beta iota.
  assert (ends (λ _, True) no_value (catch (build handleUpgradeResponse cfg deps DefaultRegistry)
    (λ v, mret (Err (Errorf ("panic building handler: " +:+ v +:+ newline +:+ newline +:+ Stack))))))
    as He.
  { eapply ends_catch; [apply ends_any | done]. }
  destruct (ends_run env _ _ w Hc He) as (res & w' & Hr & _). exists res, w'.
  rewrite run_mbind, pool_run, Hr; [done|].
  apply all_events_catch; [apply build_no_pool | done].
Qed.

Lemma pool_prog {W A} (env : environment W) (p : prog A) s w :
  no_crash env → all_events no_pool p → ends (λ _, True) no_value p →
  ∃ a w', run (pool_env env) p (s, w) = (Returned a, (s, w')).
Proof.
  intros Hc Hp He. rewrite pool_run by done.
  destruct (ends_run env _ _ w Hc He) as (a & w' & -> & _). by exists a, w'.
Qed.

Lemma close_run {W} (env : environment W) t n o w :
  run (pool_env env) (emit (CloseIdleConnections t)) ((n, o), w) =
  (Returned tt, ((n, o ∖ {[t]}), w)).
Proof. done. Qed.

Lemma apply_reload_pool {W} (env : environment W) deps st loaded s w :
  no_crash env → one_pool st s →
  ∃ st' s' w', run (pool_env env) (apply_reload deps st loaded) (s, w) = (Returned st', (s', w')) ∧
    one_pool st' s'.
Proof.
  intros Hc Hone. destruct s as [n o]. unfold apply_reload.
  destruct loaded as [cfg|e]; cycle 1.
  { destruct (pool_prog env (log "ERROR" "config reload failed: invalid configuration, keeping current config"
      [AStr "error" (load_error_text e)]) (n, o) w Hc ltac:(by unfold log; stay) ltac:(done))
      as ([] & w1 & Hl).
    exists st, (n, o), w1. rewrite run_mbind, Hl. done. }
  rewrite run_mbind.
  destruct (pool_prog env (log_all "WARN" "non-reloadable change detected (ignored)" "detail"
    (warning_text <$> NonReloadableChanges (st_cfg st) cfg)) (n, o) w Hc (log_all_no_pool _ _ _ _)
    ltac:(by apply log_all_yields)) as ([] & w1 & ->).
  rewrite run_mbind. destruct (buildHandler_pool env cfg deps n o w1 Hc) as (res & w2 & ->).
  destruct Hone as [Ho Hn]. cbn in Ho, Hn. subst o.
  destruct res as [h|e]; rewrite run_mbind, close_run; cbv beta iota.
  - destruct (pool_prog env (if bool_decide (DiffSummary (st_cfg st) cfg = [])
      then log "INFO" "Configuration reloaded (no reloadable changes detected)" []
      else log "INFO" "Configuration reloaded successfully"
             [AList "changes" (change_text <$> DiffSummary (st_cfg st) cfg)])
      (S n, ({[n]} ∪ {[hr_cleanup (st_current st)]}) ∖ {[hr_cleanup (st_current st)]}) w2 Hc
      ltac:(case_bool_decide; by unfold log; stay) ltac:(by case_bool_decide)) as ([] & w3 & Hl).
    eexists _, _, w3. rewrite run_mbind, Hl. split; [done|]. split; [|cbn; lia].
    cbn. clear -Hn. set_solver by lia.
  - destruct (pool_prog env (log "ERROR" "config reload failed: could not build handler, keeping current config"
      [AStr "error" (error_text e)]) (S n, ({[n]} ∪ {[hr_cleanup (st_current st)]}) ∖ {[n]}) w2 Hc
      ltac:(by unfold log; stay) ltac:(done)) as ([] & w3 & Hl).
    eexists st, _, w3. rewrite run_mbind, Hl. split; [done|]. split; [|cbn; lia].
    cbn. clear -Hn. set_solver by lia.
Qed.

Lemma signal_loop_pool {W} (env : environment W) path deps ws : ∀ st s w,
  no_crash env → one_pool st s →
  ∃ st' o s' w', run (pool_env env) (signal_loop path deps ws st) (s, w) =
    (Returned (st', o), (s', w')) ∧ one_pool st' s'.
Proof.
  induction ws as [|wk ws IH]; intros st s w Hc Hs; cbn [signal_loop].
  { by exists st, None, s, w. }
  destruct wk as [| | |err]; [|by exists st, (Some None), s, w..|].
  - rewrite run_mbind. unfold handleReload. rewrite run_mbind.
    destruct (pool_prog env (log "INFO" "Received SIGHUP, reloading configuration..." [AStr "path" path])
      s w Hc ltac:(by unfold log; stay) ltac:(done)) as ([] & w1 & ->).
    rewrite run_mbind.
    destruct (pool_prog env (load_config path) s w1 Hc (load_config_no_pool path))
      as (loaded & w2 & ->).
    { eapply ends_impl; [| |apply load_config_yields]; done. }
    destruct (apply_reload_pool env deps st loaded s w2 Hc Hs) as (st' & s' & w3 & -> & Hs').
    by apply IH.
  - rewrite run_mbind.
    destruct (pool_prog env (log "ERROR" "server failed" [AStr "error" (error_text err)])
      s w Hc ltac:(by unfold log; stay) ltac:(done)) as ([] & w1 & ->).
    by exists st, (Some (Some err)), s, w1.
Qed.

Lemma stop_providers_no_pool ps : all_events no_pool (stop_providers ps).
Proof. induction ps as [|[name p] ps IH]; cbn [stop_providers]; unfold log; stay. Qed.

Lemma stop_providers_yields ps : ends (λ _, True) no_value (stop_providers ps).
Proof.
  induction ps as [|[name p] ps IH]; cbn [stop_providers]; [done|].
  apply (ends_bind (λ _, True)); [by case_bool_decide|]. by intros.
Qed.

(** ** Properties *)

(** C7: a reload is all or nothing.  It reads the file once; when the text does
    not load, the configuration and the handler in service stay exactly as they
    were; when it loads, the new configuration comes into service together with
    the handler built from it.  It always returns. *)
Theorem handleReload_atomic {W} (env : environment W) path deps st w :
  no_crash env → is_Some (Compile "") →
  ∃ w1 data w2 st' w3,
    env _ (ReadFile path) w1 = (Returned data, w2) ∧
    run env (handleReload path deps st) w = (Returned st', w3) ∧
    match LoadConfig LookupEnv ValidateRawConfig Unmarshal data with
    | inr _ => st' = st
    | inl newCfg =>
        st_cfg st' = newCfg ∧ valid_config newCfg ∧
        gateway_of handleUpgradeResponse newCfg deps (hr_h (st_current st'))
    end.
Proof.
  intros Hc He. unfold handleReload, log. rewrite run_mbind, run_emit.
  match goal with |- context [env unit ?l w] => destruct (Hc unit l w) as ([] & w1 & ->) end.
  destruct (load_config_run env path w1 Hc) as (data & w2 & w2' & Hread & Hload).
  rewrite run_mbind, Hload.
  destruct (ends_run env _ _ w2' Hc (apply_reload_yields deps st
    (LoadConfig LookupEnv ValidateRawConfig Unmarshal data))) as (st' & w3 & Hr & Hst).
  exists w1, data, w2, st', w3. split; [done|]. split; [done|].
  unfold reloaded in Hst. destruct (LoadConfig _ _ _ data) as [cfg|e] eqn:El; [|done].
  apply LoadConfig_inl in El as [Hv _].
  destruct Hst as [[Hb _]|[? ?]]; [by destruct Hb; apply valid_buildable | done].
Qed.

(** From start-up on, whatever signals arrive and whatever the files contain,
    the configuration in service is valid and the handler in service is the one
    built from it. *)
Theorem serving_invariant {W} (env : environment W) path p w w1 ws st o w2 :
  run env (start path) w = (Returned (Some p), w1) →
  run env (signal_loop path (pr_deps p) ws (pr_state p)) w1 = (Returned (st, o), w2) →
  valid_config (st_cfg st) ∧
  gateway_of handleUpgradeResponse (st_cfg st) (pr_deps p) (hr_h (st_current st)).
Proof.
  intros Hs Hl. pose proof (ends_returned env _ _ _ _ _ _ (start_serving path) Hs p eq_refl) as Hp.
  exact (ends_returned env _ _ _ _ _ _ (signal_loop_serving path _ ws _ Hp) Hl).
Qed.

(** C8: connection pools do not leak.  Whatever signals arrive, exactly one pool
    is in use afterwards, that of the handler in service: a reload that fails
    retires the pool it allocated, a successful one retires the pool it replaces.
    A graceful shutdown retires the last one. *)
Theorem pools_do_not_leak {W} (env : environment W) path p ws s w :
  no_crash env → one_pool (pr_state p) s →
  ∃ st o s' w', run (pool_env env) (signal_loop path (pr_deps p) ws (pr_state p)) (s, w) =
    (Returned (st, o), (s', w')) ∧
    s'.2 = {[hr_cleanup (st_current st)]} ∧
    ∀ srvErr, (∀ t w, (env _ (Shutdown t) w).1 = Returned (Ok tt)) →
      ∃ code n w'', run (pool_env env) (shutdown p st srvErr) (s', w') =
        (Returned code, ((n, ∅), w'')).
Proof.
  intros Hc Hs.
  destruct (signal_loop_pool env path (pr_deps p) ws _ s w Hc Hs) as (st & o & [n ps] & w1 & Hr & Hone & _).
  exists st, o, (n, ps), w1. split; [done|]. split; [done|]. cbn in Hone. subst ps.
  intros srvErr Hok. unfold shutdown. rewrite run_mbind.
  destruct (pool_prog env (log "INFO" "Shutting down server..." []) (n, {[hr_cleanup (st_current st)]}) w1
    Hc ltac:(by unfold log; stay) ltac:(done)) as ([] & w2 & ->).
  rewrite run_mbind, pool_run by done. rewrite run_emit.
  specialize (Hok (srv_ShutdownTimeout (gw_Server (st_cfg st))) w2).
  destruct (env (result unit) (Shutdown _) w2) as [oc w3]. cbn in Hok. subst oc.
  rewrite run_mbind, close_run. cbv beta iota.
  rewrite difference_diag_L.
  match goal with |- context [run (pool_env env) ?q ((n, ∅), w3)] =>
    destruct (pool_prog env q (n, ∅) w3 Hc) as (code & w4 & ->) end.
  - apply all_events_bind; [apply stop_providers_no_pool|]. unfold log. stay.
  - apply (ends_bind (λ _, True)); [apply stop_providers_yields|]. intros _ _.
    apply (ends_bind (λ _, True)); [|by intros].
    destruct (pr_limiter p); [done|]. intros e. by destruct e.
  - by exists code, n, w4.
Qed.

End gateway.


(** Durations as Go prints them. *)
Example Duration_String_examples :
  Duration_String <$> [0; 1; 1500; 2500000; 100 * Millisecond; 30 * Second; 1500 * Millisecond; 2 * Minute;
    3661 * Second; - Second] =
  ["0s"; "1ns"; "1.5µs"; "2.5ms"; "100ms"; "30s"; "1.5s"; "2m0s"; "1h1m1s"; "-1s"].
Proof. vm_compute. reflexivity. Qed.

(** ** Witnesses *)

Section witnesses.
Local Existing Instances accept_engine ascii_tables sorted_range key_yaml text_net text_url
  text_encoders no_sniffer toy_json toy_time no_key_files toy_jwt toy_decoder.

Abbreviation start_guarded :=
  (run quiet_env (start no_upgrade "" witness_env (λ _, []) (λ _, Ok guarded_config) (λ _, "invalid")
     "gateway.yaml") tt).

Abbreviation load_guarded :=
  (load_config witness_env (λ _, []) (λ _, Ok guarded_config) "gateway.yaml").

Lemma guarded_loads :
  run quiet_env load_guarded tt = (Returned (inl (applyDefaults guarded_config)), tt).
Proof. vm_compute. reflexivity. Qed.

Lemma guarded_valid : valid_config (applyDefaults guarded_config).
Proof.
  apply (LoadConfig_inl witness_env (λ _, []) (λ _, Ok guarded_config) (Ok "{}")).
  vm_compute. reflexivity.
Qed.

Lemma guarded_builds_with deps :
  ∃ gw transport, run quiet_env (buildHandler no_upgrade "" (applyDefaults guarded_config) deps) tt =
    (Returned (Ok gw, transport), tt).
Proof.
  destruct (ends_run quiet_env _ _ tt quiet_env_no_crash
    (BuildHandler_yields no_upgrade "" (applyDefaults guarded_config) deps))
    as ([[gw|e] t] & [] & Hr & Hb); [by exists gw, t|].
  destruct Hb. apply valid_buildable; [by eexists | apply guarded_valid].
Qed.

Lemma guarded_starts : ∃ p, start_guarded = (Returned (Some p), tt).
Proof.
  unfold start. rewrite run_mbind, guarded_loads. cbv beta iota.
  change (ParseTrustedProxies _) with (@Ok (list IPNet) []). cbv beta iota.
  rewrite run_mbind. change (run quiet_env (log _ _ _) tt) with (Returned tt, tt). cbv beta iota.
  rewrite run_mbind.
  change (run quiet_env (select_limiter _) tt) with (Returned (Some MemoryBackend), tt).
  cbv beta iota. rewrite run_mbind.
  change (range (gw_AuthProviders (applyDefaults guarded_config)))
    with [("key", mkAuthProvider "apikey" None (Some (mkAPIKeyConfig "" [])) None)].
  match goal with |- context [run quiet_env ?q tt] =>
    assert (∃ auths, run quiet_env q tt = (Returned (Some auths), tt)) as [auths ->]
      by (eexists; reflexivity) end.
  cbv beta iota zeta. rewrite run_mbind.
  destruct (guarded_builds_with (mkFactoryDeps auths [])) as (gw & t & ->).
  by eexists.
Qed.

Lemma handleReload_atomic_witness :
  ∃ st' w', run quiet_env (handleReload no_upgrade "" witness_env (λ _, []) (λ _, Ok guarded_config)
      (λ _, "invalid") "gateway.yaml" refusing_deps
      (mkState empty_config (mkHandlerRef (λ _, write_header 204) 0))) tt = (Returned st', w') ∧
    st_cfg st' = applyDefaults guarded_config.
Proof.
  destruct (handleReload_atomic no_upgrade "" witness_env (λ _, []) (λ _, Ok guarded_config)
    (λ _, "invalid") quiet_env "gateway.yaml" refusing_deps
    (mkState empty_config (mkHandlerRef (λ _, write_header 204) 0)) tt quiet_env_no_crash
    ltac:(by eexists)) as (w1 & data & w2 & st' & w3 & Hread & Hr & Hst).
  exists st', w3. split; [exact Hr|]. change (Returned "", tt) with (quiet_env _ (ReadFile "") tt) in Hread.
  injection Hread as <- <-.
  assert (LoadConfig witness_env (λ _, []) (λ _, Ok guarded_config) (Ok "") =
          inl (applyDefaults guarded_config)) as E by (vm_compute; reflexivity).
  rewrite E in Hst. exact (proj1 Hst).
Defined.

Lemma serving_invariant_witness :
  ∃ p st o w', start_guarded = (Returned (Some p), tt) ∧
    run quiet_env (signal_loop no_upgrade "" witness_env (λ _, []) (λ _, Ok guarded_config)
      (λ _, "invalid") "gateway.yaml" (pr_deps p) [SIGHUP; SIGTERM] (pr_state p)) tt =
      (Returned (st, o), w') ∧
    valid_config (st_cfg st).
Proof.
  destruct guarded_starts as [p Hp]. exists p.
  destruct (ends_run quiet_env _ _ tt quiet_env_no_crash
    (signal_loop_serving no_upgrade "" witness_env (λ _, []) (λ _, Ok guarded_config) (λ _, "invalid")
       "gateway.yaml" (pr_deps p) [SIGHUP; SIGTERM] (pr_state p)
       (ends_returned _ _ _ _ _ _ _ (start_serving _ _ _ _ _ _ _) Hp p eq_refl)))
    as ([st o] & w' & Hr & _).
  exists st, o, w'. split; [exact Hp|]. split; [exact Hr|].
  apply (serving_invariant no_upgrade "" witness_env (λ _, []) (λ _, Ok guarded_config) (λ _, "invalid")
    quiet_env "gateway.yaml" p tt tt [SIGHUP; SIGTERM] st o w' Hp Hr).
Defined.

Definition witness_process : process :=
  mkProcess refusing_deps MemoryBackend ∅
    (mkState guarded_config (mkHandlerRef (λ _, write_header 204) 0)).

Lemma pools_do_not_leak_witness :
  ∃ st o s' w', run (pool_env quiet_env) (signal_loop no_upgrade "" witness_env (λ _, [])
      (λ _, Ok guarded_config) (λ _, "invalid") "gateway.yaml" (pr_deps witness_process)
      [SIGHUP; SIGHUP; SIGTERM] (pr_state witness_process)) ((1%nat, {[0%nat]}), tt) =
    (Returned (st, o), (s', w')) ∧ s'.2 = {[hr_cleanup (st_current st)]}.
Proof.
  destruct (pools_do_not_leak no_upgrade "" witness_env (λ _, []) (λ _, Ok guarded_config)
    (λ _, "invalid") quiet_env "gateway.yaml" witness_process [SIGHUP; SIGHUP; SIGTERM]
    (1%nat, {[0%nat]}) tt quiet_env_no_crash) as (st & o & s' & w' & Hr & Hs & _).
  - split; [reflexivity | cbn; lia].
  - exists st, o, s', w'. split; [exact Hr | exact Hs].
Defined.
End witnesses.
