(* ===== verification/Server.v ===== *)
(** * The server under reloads (cmd/gateway/main.go)

    The goroutines of the running gateway: requests that load the handler in
    service, and the signal loop that prepares a configuration and a handler and
    stores them, one pointer after the other, while requests go on.  The sequential
    reload of Gateway.v is one schedule of these steps. *)

From S2P Require Import Prelude.
From S2P Require Import GoStrings.
From S2P Require Import ConfigTypes.
From S2P Require Import CircuitBreaker.
From S2P Require Import Http.
From S2P Require Import Resolve.
From S2P Require Import Retry.
From S2P Require Import Config.
From S2P Require Import Reload.
From S2P Require Import RateLimit.
From S2P Require Import Auth.
From S2P Require Import Proxy.
From S2P Require Import Transform.
From S2P Require Import Pipeline.
From S2P Require Import Gateway.

Local Open Scope Z_scope.

(** ** The listener ([http.Server]) *)

Record Server : Type := mkServer {
  sv_Addr : string;
  sv_ReadTimeout : Z;
  sv_WriteTimeout : Z;
  sv_IdleTimeout : Z;
  sv_MaxHeaderBytes : Z;
}.

Definition new_server (cfg : GatewayConfig) : Server := {|
  sv_Addr := srv_Host (gw_Server cfg) +:+ ":" +:+ Itoa (srv_Port (gw_Server cfg));
  sv_ReadTimeout := srv_ReadTimeout (gw_Server cfg);
  sv_WriteTimeout := srv_WriteTimeout (gw_Server cfg);
  sv_IdleTimeout := srv_IdleTimeout (gw_Server cfg);
  sv_MaxHeaderBytes := srv_MaxHeaderBytes (gw_Server cfg);
|}.

Section server.
Context `{RE : RegexpEngine} `{UT : UnicodeTables} `{RO : RangeOrder} `{YL : YamlLibrary}
  `{NP : NetPackage} `{UP : UrlPackage} `{EN : Encoders} `{CS : ContentSniffer}
  `{JP : JsonPackage} `{TF : TimeFormat} `{JL : JwtLibrary} `{ID : IntrospectionDecoder}.
Variable handleUpgradeResponse : Request → HttpResponse → prog unit.
Variable Stack : string.
Variable LookupEnv : string → option string.
Variable ValidateRawConfig : string → list string.
Variable Unmarshal : string → result GatewayConfig.
Variable load_error_text : load_error → string.

(** ** State *)

(** Where the signal loop is: waiting, with a configuration loaded and its handler
    built, between the two stores, or before the old handler's cleanup. *)
Inductive phase : Type :=
  | Waiting
  | Loaded (newCfg : GatewayConfig) (h : result Handler) (newCleanup : nat)
  | CfgStored (new : handlerRef)
  | Swapped (old : handlerRef).

(** The two pointers, the signal loop, and the handlers that the requests in
    flight have loaded. *)
Record running : Type := mkRunning {
  rn_cfgPtr : GatewayConfig;
  rn_current : handlerRef;
  rn_phase : phase;
  rn_requests : gmap nat handlerRef;
}.

Definition with_phase (ph : phase) (s : running) : running :=
  mkRunning (rn_cfgPtr s) (rn_current s) ph (rn_requests s).

Definition with_requests (rs : gmap nat handlerRef) (s : running) : running :=
  mkRunning (rn_cfgPtr s) (rn_current s) (rn_phase s) rs.

(** What runs is observed with the connection pools and a world. *)
Context {W : Type} (env : environment W) (path : string) (deps : FactoryDeps).

Abbreviation world := ((nat * gset nat) * W)%type.

Abbreviation load :=
  (load_config LookupEnv ValidateRawConfig Unmarshal path).
Abbreviation build cfg := (buildHandler handleUpgradeResponse Stack cfg deps).

(** ** Steps

    Whatever logs, requests and clients do to the rest of the world is one step
    [others]. *)
Inductive step : running * world → running * world → Prop :=
  | others s pools w w' : step (s, (pools, w)) (s, (pools, w'))
  | arrive s w g :
      rn_requests s !! g = None →
      step (s, w) (with_requests (<[g := rn_current s]> (rn_requests s)) s, w)
  | leave s w g : step (s, w) (with_requests (base.delete g (rn_requests s)) s, w)
  | load_fails s w err w' :
      rn_phase s = Waiting →
      run (pool_env env) load w = (Returned (inr err), w') →
      step (s, w) (s, w')
  | load_builds s w newCfg pools w1 w2 h newCleanup w3 :
      rn_phase s = Waiting →
      run (pool_env env) load w = (Returned (inl newCfg), (pools, w1)) →
      run (pool_env env) (build newCfg) (pools, w2) = (Returned (h, newCleanup), w3) →
      step (s, w) (with_phase (Loaded newCfg h newCleanup) s, w3)
  | discard s w newCfg err newCleanup w' :
      rn_phase s = Loaded newCfg (Err err) newCleanup →
      run (pool_env env) (emit (CloseIdleConnections newCleanup)) w = (Returned tt, w') →
      step (s, w) (with_phase Waiting s, w')
  | store_cfg s w newCfg h newCleanup :
      rn_phase s = Loaded newCfg (Ok h) newCleanup →
      step (s, w)
        (mkRunning newCfg (rn_current s) (CfgStored (mkHandlerRef h newCleanup)) (rn_requests s), w)
  | store_handler s w new :
      rn_phase s = CfgStored new →
      step (s, w) (mkRunning (rn_cfgPtr s) new (Swapped (rn_current s)) (rn_requests s), w)
  | retire s w old w' :
      rn_phase s = Swapped old →
      run (pool_env env) (emit (CloseIdleConnections (hr_cleanup old))) w = (Returned tt, w') →
      step (s, w) (with_phase Waiting s, w').

(** The server as the sequential model sees it. *)
Definition at_rest (st : state) (requests : gmap nat handlerRef) : running :=
  mkRunning (st_cfg st) (st_current st) Waiting requests.

(** ** Specification *)

(** A handler that was built from a valid configuration. *)
Definition sound (ref : handlerRef) : Prop :=
  ∃ cfg, valid_config cfg ∧ gateway_of handleUpgradeResponse cfg deps (hr_h ref).

(** The handler and the configuration in service agree. *)
Definition agree (cfg : GatewayConfig) (ref : handlerRef) : Prop :=
  valid_config cfg ∧ gateway_of handleUpgradeResponse cfg deps (hr_h ref).

(** What holds in each phase, of the pointers and of the open pools. *)
Definition phase_ok (s : running) (pools : nat * gset nat) : Prop :=
  let open (t : nat) := pools.2 = {[t; hr_cleanup (rn_current s)]} ∧
    t ≠ hr_cleanup (rn_current s) ∧ (t < pools.1)%nat in
  match rn_phase s with
  | Waiting =>
      agree (rn_cfgPtr s) (rn_current s) ∧ pools.2 = {[hr_cleanup (rn_current s)]}
  | Loaded newCfg h newCleanup =>
      agree (rn_cfgPtr s) (rn_current s) ∧ open newCleanup ∧
      match h with Ok h => agree newCfg (mkHandlerRef h newCleanup) | Err _ => True end
  | CfgStored new => sound (rn_current s) ∧ agree (rn_cfgPtr s) new ∧ open (hr_cleanup new)
  | Swapped old => agree (rn_cfgPtr s) (rn_current s) ∧ open (hr_cleanup old)
  end.

Definition running_ok (sw : running * world) : Prop :=
  phase_ok sw.1 sw.2.1 ∧ (hr_cleanup (rn_current sw.1) < sw.2.1.1)%nat ∧
  map_Forall (λ _, sound) (rn_requests sw.1).

(** ** Lemmas *)

Lemma agree_sound cfg ref : agree cfg ref → sound ref.
Proof. intros Ha. by exists cfg. Qed.

Lemma phase_ok_current s pools : phase_ok s pools → sound (rn_current s).
Proof.
  unfold phase_ok. destruct (rn_phase s); intros Hp; eauto using agree_sound;
    destruct Hp as [Hp _]; eauto using agree_sound.
Qed.

Lemma phase_ok_pool s pools : phase_ok s pools → hr_cleanup (rn_current s) ∈ pools.2.
Proof. unfold phase_ok. destruct (rn_phase s); intros Hp; clear -Hp; set_solver. Qed.

Lemma phase_ok_valid s pools : phase_ok s pools → valid_config (rn_cfgPtr s).
Proof. unfold phase_ok, agree. destruct (rn_phase s); naive_solver. Qed.

Lemma phase_ok_size s pools : phase_ok s pools → (size pools.2 ≤ 2)%nat.
Proof.
  assert (∀ a b : nat, size ({[a; b]} : gset nat) ≤ 2)%nat as H2.
  { intros a b. rewrite size_union_alt, size_singleton.
    pose proof (subseteq_size ({[b]} ∖ {[a]} : gset nat) {[b]} ltac:(set_solver)) as Hs.
    rewrite size_singleton in Hs. lia. }
  unfold phase_ok. destruct (rn_phase s).
  - intros [_ ->]. rewrite size_singleton. lia.
  - intros (_ & (-> & _) & _). apply H2.
  - intros (_ & _ & -> & _). apply H2.
  - intros (_ & -> & _). apply H2.
Qed.

(** A load leaves the pools alone. *)
Lemma load_run (w : world) o w' :
  run (pool_env env) load w = (o, w') →
  w'.1 = w.1 ∧ ∀ cfg, o = Returned (inl cfg) → valid_config cfg.
Proof.
  destruct w as [pools w]. rewrite pool_run by apply load_config_no_pool.
  destruct (run env load w) as [o1 w1] eqn:E. intros [= <- <-]. split; [done|].
  intros cfg ->.
  exact (ends_returned _ _ _ _ _ _ _ (load_config_yields LookupEnv ValidateRawConfig Unmarshal path) E).
Qed.

(** A build opens one pool, with the number returned. *)
Lemma build_run deps' cfg (w : world) h t w' :
  run (pool_env env) (buildHandler handleUpgradeResponse Stack cfg deps') w = (Returned (h, t), w') →
  t = w.1.1 ∧ w'.1 = (S t, {[t]} ∪ w.1.2) ∧
  match h with Ok h => gateway_of handleUpgradeResponse cfg deps' h | Err _ => True end.
Proof.
  intros Hr. destruct w as [[n o] w].
  pose proof (ends_returned _ _ _ _ _ _ _ (BuildHandler_yields handleUpgradeResponse Stack cfg deps') Hr) as Hb.
  unfold buildHandler, BuildHandler in Hr. rewrite run_mbind, run_emit in Hr.
  change (pool_env env nat NewTransport ((n, o), w)) with (Returned n, ((S n, {[n]} ∪ o), w)) in Hr.
  cbv beta iota in Hr. rewrite run_mbind, pool_run in Hr
    by (apply all_events_catch; [apply build_no_pool|done]).
  destruct (run env _ w) as [[res|v] w1]; [|done]. injection Hr as <- <- <-.
  split; [done|]. split; [done|]. cbn in Hb. destruct res; [apply Hb|done].
Qed.

(** Closing a pool. *)
Lemma close_world t (w w' : world) :
  run (pool_env env) (emit (CloseIdleConnections t)) w = (Returned tt, w') →
  w'.1 = (w.1.1, w.1.2 ∖ {[t]}).
Proof. destruct w as [[n o] w]. rewrite close_run. by intros [= <-]. Qed.

(** The invariant is preserved by every step. *)
Lemma step_safe sw sw' : step sw sw' → running_ok sw → running_ok sw'.
Proof.
  intros Hstep (Hp & Hn & Hr). destruct Hstep as
    [s pools w w'|s w g Hg|s w g|s w err w' Hph Hl|s w newCfg pools w1 w2 h t w3 Hph Hl Hb
    |s w newCfg err t w' Hph Hc|s w newCfg h t Hph|s w new Hph|s w old w' Hph Hc];
    unfold running_ok; cbn in Hp, Hn, Hr |- *.
  - done.
  - split; [exact Hp|]. split; [done|]. apply map_Forall_insert_2; [by eapply phase_ok_current|done].
  - split; [exact Hp|]. split; [done|]. by apply map_Forall_delete.
  - destruct (load_run _ _ _ Hl) as [-> _]. done.
  - destruct (load_run _ _ _ Hl) as [E Hv]. destruct (build_run _ _ _ _ _ _ Hb) as (-> & E' & Hg).
    cbn in E. subst pools. rewrite E'. cbn. split; [|split; [lia|done]]. unfold phase_ok in *. rewrite Hph in Hp. cbn.
    destruct Hp as [Ha ->]. split; [done|]. split; [repeat split; lia|].
    destruct h; [|done]. split; [by apply Hv | exact Hg].
  - rewrite (close_world _ _ _ Hc). cbn. split; [|done]. unfold phase_ok in *. rewrite Hph in Hp. cbn.
    destruct Hp as (Ha & (-> & Hne & _) & _). split; [done|]. clear -Hne. set_solver.
  - split; [|done]. unfold phase_ok in *. rewrite Hph in Hp. cbn. destruct Hp as (Ha & Ho & Hh).
    split; [by eapply agree_sound|]. by split.
  - unfold phase_ok in *. rewrite Hph in Hp. cbn. destruct Hp as (_ & Ha & E & Hne & Hlt).
    split; [|done]. split; [done|]. split; [by rewrite E, (comm_L (∪))|]. by split.
  - rewrite (close_world _ _ _ Hc). cbn. split; [|done]. unfold phase_ok in *. rewrite Hph in Hp. cbn.
    destruct Hp as (Ha & -> & Hne & _). split; [done|]. clear -Hne. set_solver.
Qed.

Lemma steps_ok sw sw' : rtc step sw sw' → running_ok sw → running_ok sw'.
Proof. induction 1; eauto using step_safe. Qed.

Lemma rest_ok st w :
  serving handleUpgradeResponse deps st → one_pool st w.1 → running_ok (at_rest st ∅, w).
Proof. intros Hs [Ho Hn]. split; [by split|]. split; [done|]. apply map_Forall_empty. Qed.

(** *** Start-up *)

Lemma pool_bind {A B} (p : prog A) (f : A → prog B) pools w b sw' :
  all_events no_pool p →
  run (pool_env env) (p ≫= f) (pools, w) = (Returned b, sw') →
  ∃ a w1, run (pool_env env) (f a) (pools, w1) = (Returned b, sw').
Proof.
  intros Hp. rewrite run_mbind, pool_run by done. destruct (run env p w) as [[a|v] w1]; [|done].
  intros Hr. by exists a, w1.
Qed.

Lemma NewAuthenticator_no_pool ap : all_events no_pool (NewAuthenticator ap).
Proof.
  unfold NewAuthenticator, as_authenticator, NewJWTAuthenticator, load_signing_key, loadRSAPublicKey,
    loadECDSAPublicKey, NewOIDCAuthenticator. stay.
Qed.

Lemma build_authenticators_no_pool providers : ∀ auths,
  all_events no_pool (build_authenticators providers auths).
Proof.
  induction providers as [|[name ap] providers IH]; intros auths; cbn [build_authenticators]; [done|].
  apply all_events_bind; [apply NewAuthenticator_no_pool|]. intros [a|e]; unfold exit, log; [|by stay].
  apply all_events_bind; [by stay|]. intros _. apply IH.
Qed.

Lemma exit_None {V A} (env' : environment V) msg attrs w (a : A) w' :
  run env' (exit msg attrs) w ≠ (Returned (Some a), w').
Proof.
  intros Hr. apply (ends_returned env' (λ o, o = None) any_value) in Hr; [done|].
  by cbn.
Qed.

Lemma select_limiter_no_pool cfg : all_events no_pool (select_limiter cfg).
Proof. unfold select_limiter, exit, log. stay. Qed.

(** A process that has started uses one pool. *)
Lemma start_pool n w p pools w' :
  run (pool_env env) (start handleUpgradeResponse Stack LookupEnv ValidateRawConfig Unmarshal
    load_error_text path) ((n, ∅), w) = (Returned (Some p), (pools, w')) →
  one_pool (pr_state p) pools.
Proof.
  intros Hr. unfold start in Hr.
  apply pool_bind in Hr as ([cfg|e] & w1 & Hr); [|by apply exit_None in Hr|apply load_config_no_pool].
  destruct (ParseTrustedProxies _) as [nets|e]; [|by apply exit_None in Hr].
  apply pool_bind in Hr as ([] & w2 & Hr); [|unfold log; by stay].
  apply pool_bind in Hr as ([lim|] & w3 & Hr); [|done|apply select_limiter_no_pool].
  apply pool_bind in Hr as ([auths|] & w4 & Hr); [|done|apply build_authenticators_no_pool].
  cbv zeta in Hr. rewrite run_mbind in Hr.
  destruct (run (pool_env env) (buildHandler _ _ _ _) _) as [[[h t]|v] w5] eqn:Eb; [|done].
  destruct w5 as [pools5 w5]. pose proof (build_run (mkFactoryDeps auths nets) _ _ _ _ _ Eb) as (-> & E & _).
  cbn in E. destruct h as [h|e]; [|by apply exit_None in Hr]. injection Hr as <- <- <-. subst pools5.
  split; cbn; [set_solver | lia].
Qed.

(** *** A sequential reload as steps *)

Lemma others_first s pools w w' sw :
  rtc step (s, (pools, w')) sw → rtc step (s, (pools, w)) sw.
Proof. intros Hs. eapply rtc_l; [apply others | exact Hs]. Qed.

Lemma last_log {A} (q : prog unit) (a : A) pools w a' sw' :
  all_events no_pool q →
  run (pool_env env) (q;; mret a) (pools, w) = (Returned a', sw') →
  a' = a ∧ ∃ w', sw' = (pools, w').
Proof. intros Hq Hr. apply pool_bind in Hr as ([] & w1 & [= <- <-]); [|done]. eauto. Qed.

Lemma apply_reload_steps st loaded requests pools w0 w st' sw' :
  run (pool_env env) load w0 = (Returned loaded, (pools, w)) →
  run (pool_env env) (apply_reload handleUpgradeResponse Stack load_error_text deps st loaded) (pools, w) =
    (Returned st', sw') →
  rtc step (at_rest st requests, w0) (at_rest st' requests, sw').
Proof.
  intros Hl Hr. unfold apply_reload in Hr. destruct loaded as [cfg|err].
  2: { apply last_log in Hr as [-> [w1 ->]]; [|unfold log; by stay].
       eapply rtc_l; [by eapply load_fails|]. by eapply rtc_once, others. }
  apply pool_bind in Hr as ([] & w1 & Hr); [|apply log_all_no_pool]. rewrite run_mbind in Hr.
  destruct (run (pool_env env) (build cfg) (pools, w1)) as [[[h t]|v] w2] eqn:Eb; [|done].
  eapply rtc_l; [by eapply (load_builds (at_rest st requests))|]. destruct h as [h|err]; cbn zeta in Hr.
  - rewrite run_mbind in Hr.
    destruct (run (pool_env env) (emit _) w2) as [[[]|v] [pools3 w3]] eqn:Ec; [|done].
    apply last_log in Hr as [-> [w4 ->]]; [|unfold log; by stay].
    eapply rtc_l; [by eapply store_cfg|]. eapply rtc_l; [by eapply store_handler|].
    eapply rtc_l; [by eapply retire|]. by eapply rtc_once, others.
  - rewrite run_mbind in Hr.
    destruct (run (pool_env env) (emit _) w2) as [[[]|v] [pools3 w3]] eqn:Ec; [|done].
    apply last_log in Hr as [-> [w4 ->]]; [|unfold log; by stay].
    eapply rtc_l; [by eapply discard|]. by eapply rtc_once, others.
Qed.

Lemma handleReload_steps st requests pools w st' w' :
  run (pool_env env) (handleReload handleUpgradeResponse Stack LookupEnv ValidateRawConfig Unmarshal
    load_error_text path deps st) (pools, w) = (Returned st', w') →
  rtc step (at_rest st requests, (pools, w)) (at_rest st' requests, w').
Proof.
  intros Hr. unfold handleReload in Hr. apply pool_bind in Hr as ([] & w1 & Hr); [|unfold log; by stay].
  apply others_first with w1. rewrite run_mbind in Hr.
  destruct (run (pool_env env) load (pools, w1)) as [[loaded|v] [pools2 w2]] eqn:El; [|done].
  by eapply apply_reload_steps.
Qed.

(** ** Properties *)

(** C5: Requests and reloads.  From start-up on, in whatever order requests arrive and
    leave while the signal loop loads, builds, stores and retires: the configuration
    that [/health] reads is valid, the handler in service and those of all requests
    in flight were built from valid configurations, the pool of the handler in
    service is open and at most one other is, and whenever the loop waits for a
    signal the handler is the one built from the configuration in service. *)
Theorem reloads_are_safe n w p w1 s w2 :
  run (pool_env env) (start handleUpgradeResponse Stack LookupEnv ValidateRawConfig Unmarshal
    load_error_text path) ((n, ∅), w) = (Returned (Some p), w1) →
  pr_deps p = deps →
  rtc step (at_rest (pr_state p) ∅, w1) (s, w2) →
  valid_config (rn_cfgPtr s) ∧
  (sound (rn_current s) ∧ map_Forall (λ _, sound) (rn_requests s)) ∧
  (hr_cleanup (rn_current s) ∈ w2.1.2 ∧ (size w2.1.2 ≤ 2)%nat) ∧
  (rn_phase s = Waiting →
     gateway_of handleUpgradeResponse (rn_cfgPtr s) deps (hr_h (rn_current s)) ∧
     w2.1.2 = {[hr_cleanup (rn_current s)]}).
Proof.
  intros Hs Hd Hr. destruct w1 as [pools w1]. pose proof (start_pool _ _ _ _ _ Hs) as Ho.
  pose proof (ends_returned _ _ _ _ _ _ _ (start_serving _ _ _ _ _ _ path) Hs p eq_refl) as Hp.
  rewrite Hd in Hp. destruct (steps_ok _ _ Hr (rest_ok (pr_state p) (pools, w1) Hp Ho)) as (Hph & _ & Hrq).
  cbn [fst snd] in *.
  split; [by eapply phase_ok_valid|]. split; [by split; [eapply phase_ok_current|]|].
  split; [split; [by eapply phase_ok_pool | by eapply phase_ok_size]|].
  intros Hw. unfold phase_ok in Hph. rewrite Hw in Hph. by destruct Hph as [[_ ?] ?].
Qed.


(** The swap is two stores.  In between, a request is still served by the old
    handler although [/health] already reads the new configuration. *)
Theorem swap_in_two_steps s w newCfg h newCleanup g :
  rn_phase s = Loaded newCfg (Ok h) newCleanup → rn_requests s !! g = None →
  ∃ s', rtc step (s, w) (s', w) ∧ rn_cfgPtr s' = newCfg ∧ rn_requests s' !! g = Some (rn_current s).
Proof.
  intros Hph Hg. eexists. split; [|split].
  - eapply rtc_l; [by eapply store_cfg|]. eapply rtc_once, (arrive _ _ g). exact Hg.
  - done.
  - apply lookup_insert_eq.
Qed.
End server.

(** ** Witnesses *)

Lemma pool_env_no_crash {W} (env : environment W) : no_crash env → no_crash (pool_env env).
Proof.
  intros Hc X e [s w]. destruct e; unfold pool_env, env_with; cbn; try (by eexists _, _);
    match goal with |- context [env ?X ?e w] => destruct (Hc X e w) as (x & w' & ->) end; by eexists _, _.
Qed.

Section witnesses.
Local Existing Instances accept_engine ascii_tables sorted_range key_yaml text_net text_url
  text_encoders no_sniffer toy_json toy_time no_key_files toy_jwt toy_decoder.

Abbreviation started :=
  (run (pool_env quiet_env) (start no_upgrade "" witness_env (λ _, []) (λ _, Ok guarded_config)
     (λ _, "invalid") "gateway.yaml") ((0%nat, ∅), tt)).

Abbreviation reload deps st :=
  (handleReload no_upgrade "" witness_env (λ _, []) (λ _, Ok guarded_config) (λ _, "invalid")
     "gateway.yaml" deps st).

Lemma started_process : ∃ p w, started = (Returned (Some p), w).
Proof.
  assert (match started with (Returned (Some _), _) => true | _ => false end = true) as H
    by (vm_compute; reflexivity).
  destruct started as [[[p|]|v] w]; [by exists p, w|done|done].
Qed.

Lemma quiet_reload deps st pools : ∃ st' w', run (pool_env quiet_env) (reload deps st) (pools, tt) = (Returned st', w').
Proof.
  destruct (handleReload_atomic no_upgrade "" witness_env (λ _, []) (λ _, Ok guarded_config)
    (λ _, "invalid") (pool_env quiet_env) "gateway.yaml" deps st (pools, tt)
    (pool_env_no_crash _ quiet_env_no_crash) ltac:(by eexists)) as (_ & _ & _ & st' & w' & _ & Hr & _).
  by exists st', w'.
Qed.

(** A request arrives, a reload goes through, another request arrives. *)
Lemma reloads_are_safe_witness :
  ∃ p w1 s (w2 : (nat * gset nat) * ()), started = (Returned (Some p), w1) ∧
    size (rn_requests s) = 2%nat ∧
    gateway_of no_upgrade (rn_cfgPtr s) (pr_deps p) (hr_h (rn_current s)) ∧
    w2.1.2 = {[hr_cleanup (rn_current s)]}.
Proof.
  destruct started_process as (p & [pools []] & Hp).
  destruct (quiet_reload (pr_deps p) (pr_state p) pools) as (st' & w2 & Hr).
  set (s := with_requests (<[2%nat := st_current st']> {[1%nat := st_current (pr_state p)]})
    (at_rest st' {[1%nat := st_current (pr_state p)]})).
  exists p, (pools, tt), s, w2. split; [exact Hp|]. split; [reflexivity|].
  refine (proj2 (proj2 (proj2 (reloads_are_safe no_upgrade "" witness_env (λ _, []) (λ _, Ok guarded_config)
    (λ _, "invalid") quiet_env "gateway.yaml" (pr_deps p) 0 tt p (pools, tt) s w2 Hp eq_refl _))) eq_refl).
  eapply rtc_l; [by apply arrive with (g := 1%nat)|].
  eapply (rtc_r _ (at_rest st' {[1%nat := st_current (pr_state p)]}, w2));
    [|by apply arrive with (g := 2%nat)].
  exact (handleReload_steps _ _ _ _ _ _ quiet_env "gateway.yaml" (pr_deps p) (pr_state p)
    {[1%nat := st_current (pr_state p)]} pools tt st' w2 Hr).
Defined.

End witnesses.
