(* ===== verification/Commands.v ===== *)
(** * The commands of the binary (cmd/gateway/main.go, lines 33-78)

    The dispatch of [main], package [flag] as the two commands with a [-config]
    option use it, [validate] and [schema]; and what a successful [validate] says
    about the start of the gateway. *)

From S2P Require Import Prelude.
From S2P Require Import GoStrings.
From S2P Require Import ConfigTypes.
From S2P Require Import CircuitBreaker.
From S2P Require Import Http.
From S2P Require Import Resolve.
From S2P Require Import Retry.
From S2P Require Import Config.
From S2P Require Import RateLimit.
From S2P Require Import Auth.
From S2P Require Import Proxy.
From S2P Require Import Transform.
From S2P Require Import Pipeline.
From S2P Require Import Gateway.

Local Open Scope Z_scope.

(** ** Flags (package [flag]) *)

(** A flag set with the one string flag [config] on an argument list: its value and
    the arguments left, a request for help, or an error. *)
Inductive flags : Type :=
  | Parsed (config : string) (rest : list string)
  | ErrHelp
  | FlagError.

Fixpoint Parse (config : string) (args : list string) : flags :=
  match args with
  | String "-" (String _ _ as t) :: args' =>
      let minus := HasPrefix t "-" in
      let name := if minus then slice_from t 1 else t in
      if minus && bool_decide (name = "") then Parsed config args'
      else if bool_decide (name = "") || HasPrefix name "-" || HasPrefix name "=" then FlagError
      else
        match Cut name "=" with
        | Some (n, v) =>
            if bool_decide (n = "config") then Parse v args'
            else if bool_decide (n = "help" ∨ n = "h") then ErrHelp else FlagError
        | None =>
            if bool_decide (name = "config") then
              match args' with v :: args'' => Parse v args'' | [] => FlagError end
            else if bool_decide (name = "help" ∨ name = "h") then ErrHelp else FlagError
        end
  | _ => Parsed config args
  end.

Definition default_config : string := "config/gateway.yaml".

(** How a command ends: the exit code and what it wrote. *)
Record exit_status : Type := mkExit {
  ex_code : Z;
  ex_stdout : string;
  ex_stderr : string;
}.

Section commands.
Context `{RE : RegexpEngine} `{UT : UnicodeTables} `{RO : RangeOrder} `{YL : YamlLibrary}
  `{NP : NetPackage} `{UP : UrlPackage} `{EN : Encoders} `{CS : ContentSniffer}
  `{JP : JsonPackage} `{TF : TimeFormat} `{JL : JwtLibrary} `{ID : IntrospectionDecoder}.
Variable handleUpgradeResponse : Request → HttpResponse → prog unit.
Variable Stack : string.
Variable LookupEnv : string → option string.
Variable ValidateRawConfig : string → list string.
Variable Unmarshal : string → result GatewayConfig.
Variable load_error_text : load_error → string.

(** What package [flag] prints on an error or a request for help, and the generated
    schema. *)
Variable usage : string → flags → string.
Variable GenerateSchemaJSON : result string.

(** [flag.ExitOnError]. *)
Definition exit_on_error (name : string) (f : flags) : exit_status :=
  mkExit (match f with ErrHelp => 0 | _ => 2 end) "" (usage name f).

Definition runValidate (args : list string) : prog exit_status :=
  match Parse default_config args with
  | Parsed configPath _ =>
      loaded ← load_config LookupEnv ValidateRawConfig Unmarshal configPath;
      mret (match loaded with
            | inr err => mkExit 1 "" (load_error_text err +:+ newline)
            | inl _ => mkExit 0 ("OK: configuration is valid" +:+ newline) ""
            end)
  | f => mret (exit_on_error "validate" f)
  end.

Definition runSchema : exit_status :=
  match GenerateSchemaJSON with
  | Err err => mkExit 1 "" (error_text err +:+ newline)
  | Ok data => mkExit 0 (data +:+ newline) ""
  end.

(** [runServe] with its flags; [None] while the gateway is running. *)
Definition serve_command (name : string) (args : list string) (ws : list wakeup) : prog (option exit_status) :=
  match Parse default_config args with
  | Parsed configPath _ =>
      code ← runServe handleUpgradeResponse Stack LookupEnv ValidateRawConfig Unmarshal load_error_text
        configPath ws;
      mret (match code with Some c => Some (mkExit c "" "") | None => None end)
  | f => mret (Some (exit_on_error name f))
  end.

(** [main] on [os.Args], with the wake-ups of the signal loop. *)
Definition main (Args : list string) (ws : list wakeup) : prog (option exit_status) :=
  match Args with
  | _ :: "validate" :: args => s ← runValidate args; mret (Some s)
  | _ :: "schema" :: _ => mret (Some runSchema)
  | name :: args => serve_command name args ws
  | [] => serve_command "" [] ws
  end.

(** ** Lemmas *)

Lemma Parse_separate config path rest : Parse config ("-config" :: path :: rest) = Parse path rest.
Proof. done. Qed.

Lemma Parse_assigned config path rest : Parse config (("--config=" +:+ path) :: rest) = Parse path rest.
Proof. done. Qed.

(** A configuration that loads can be served, as far as the configuration goes. *)
Definition startable (cfg : GatewayConfig) : Prop :=
  is_ok (ParseTrustedProxies (srv_TrustedProxies (gw_Server cfg))) = true ∧
  (rlg_Backend (gw_RateLimit cfg) = "redis" → rlg_Redis (gw_RateLimit cfg) ≠ None).

(** Redis answers, and the authenticators of the configuration can be made: key
    files are there and issuers can be discovered. *)
Definition reachable {W} (env : environment W) (cfg : GatewayConfig) : Prop :=
  (rlg_Backend (gw_RateLimit cfg) = "redis" →
     ∀ w, ∃ w', env _ HealthCheck w = (Returned (Ok tt), w')) ∧
  ∀ name ap, gw_AuthProviders cfg !! name = Some ap →
    ∀ w, ∃ a w', run env (NewAuthenticator ap) w = (Returned (Ok a), w').

Lemma log_run {W} (env : environment W) level msg attrs w :
  no_crash env → ∃ w', run env (log level msg attrs) w = (Returned tt, w').
Proof. intros Hc. unfold log. rewrite run_emit. destruct (Hc _ (Log level msg attrs) w) as ([] & w' & ->). eauto. Qed.

Lemma build_authenticators_run {W} (env : environment W) providers : ∀ auths w,
  no_crash env →
  (∀ name ap, (name, ap) ∈ providers → ∀ w, ∃ a w', run env (NewAuthenticator ap) w = (Returned (Ok a), w')) →
  ∃ auths' w', run env (build_authenticators providers auths) w = (Returned (Some auths'), w').
Proof.
  induction providers as [|[name ap] providers IH]; intros auths w Hc Hp; cbn [build_authenticators].
  { by exists auths, w. }
  rewrite run_mbind. destruct (Hp name ap (list_elem_of_here _ _) w) as (a & w1 & ->). rewrite run_mbind.
  destruct (log_run env "INFO" "Registered auth provider" [AStr "name" name; AStr "type" (ap_Type ap)] w1 Hc)
    as [w2 ->].
  apply IH; [done|]. intros name' ap' Hin. by apply (Hp name'), list_elem_of_further.
Qed.

Lemma select_limiter_run {W} (env : environment W) cfg w :
  no_crash env → startable cfg → reachable env cfg →
  ∃ lim w', run env (select_limiter cfg) w = (Returned (Some lim), w').
Proof.
  intros Hc [_ Hr] [Hh _]. unfold select_limiter. case_bool_decide as Hb.
  - destruct (rlg_Redis _) as [redis|]; [|by destruct (Hr Hb)]. rewrite run_mbind, run_emit.
    destruct (Hh Hb w) as [w1 ->]. rewrite run_mbind.
    destruct (log_run env "INFO" "Rate limit backend: redis" [AStr "addr" (redis_Addr redis)] w1 Hc) as [w2 ->].
    by eexists _, _.
  - rewrite run_mbind. destruct (log_run env "INFO" "Rate limit backend: memory" [] w Hc) as [w1 ->].
    by eexists _, _.
Qed.

Lemma start_run {W} (env : environment W) path w w1 cfg :
  no_crash env → is_Some (Compile "") →
  run env (load_config LookupEnv ValidateRawConfig Unmarshal path) w = (Returned (inl cfg), w1) →
  startable cfg → reachable env cfg →
  ∃ p w', run env (start handleUpgradeResponse Stack LookupEnv ValidateRawConfig Unmarshal load_error_text
    path) w = (Returned (Some p), w') ∧ st_cfg (pr_state p) = cfg.
Proof.
  intros Hc He Hl Hs Hr.
  pose proof (ends_returned _ _ _ _ _ _ _ (load_config_yields LookupEnv ValidateRawConfig Unmarshal path) Hl)
    as Hv.
  unfold start. rewrite run_mbind, Hl. destruct (ParseTrustedProxies _) as [nets|e] eqn:Et;
    [|by destruct Hs as [Hs _]; rewrite Et in Hs].
  rewrite run_mbind.
  destruct (log_run env "INFO" "Starting API Gateway" [AInt "port" (srv_Port (gw_Server cfg))] w1 Hc) as [w2 ->].
  rewrite run_mbind. destruct (select_limiter_run env cfg w2 Hc Hs Hr) as (lim & w3 & ->). rewrite run_mbind.
  destruct (build_authenticators_run env (range (gw_AuthProviders cfg)) ∅ w3 Hc) as (auths & w4 & ->).
  { intros name ap Hin%elem_of_range. by apply (proj2 Hr name). }
  cbv zeta. rewrite run_mbind. unfold buildHandler.
  destruct (ends_run env _ _ w4 Hc (BuildHandler_yields handleUpgradeResponse Stack cfg (mkFactoryDeps auths nets)))
    as ([[h|e] t] & w5 & -> & Hb); [by eexists _, _|].
  destruct Hb. by apply valid_buildable.
Qed.

(** ** Properties *)

End commands.

(** ** Examples and witnesses *)

Example Parse_examples :
  Parse "d" <$> [[]; ["-config"; "a"; "-config=b"; "x"; "-config=c"]; ["--"; "-config"]; ["-"; "y"];
    ["-config"]; ["-verbose"]; ["--help"]; ["---config"]] =
  [Parsed "d" []; Parsed "b" ["x"; "-config=c"]; Parsed "d" ["-config"]; Parsed "d" ["-"; "y"];
   FlagError; FlagError; ErrHelp; FlagError].
Proof. vm_compute. reflexivity. Qed.

Section witnesses.
Local Existing Instances accept_engine ascii_tables sorted_range key_yaml text_net text_url
  text_encoders no_sniffer toy_json toy_time no_key_files toy_jwt toy_decoder.

Definition redis_unnamed : GatewayConfig :=
  mkGatewayConfig (mkServerConfig "" 0 0 0 0 0 [] 0) (mkLoggingConfig "")
    (mkRateLimitGlobalConfig "redis" None) ∅ ∅ [] [].

(** What [validate] does not see.  The schema describes the Redis settings as
    required when the backend is Redis, but nothing checks it: [validate] prints OK
    and the gateway exits with 1, whatever the environment. *)
Theorem validate_misses_redis {W} (env : environment W) usage schema text w :
  no_crash env →
  (∀ w, ∃ w', env _ (ReadFile "g.yaml") w = (Returned (Ok text), w')) →
  (∃ w', run env (runValidate witness_env (λ _, []) (λ _, Ok redis_unnamed) (λ _, "invalid") usage
     ["-config"; "g.yaml"]) w = (Returned (mkExit 0 ("OK: configuration is valid" +:+ newline) ""), w')) ∧
  (∃ w', run env (main no_upgrade "" witness_env (λ _, []) (λ _, Ok redis_unnamed) (λ _, "invalid") usage
     schema ["gateway"; "-config"; "g.yaml"] []) w = (Returned (Some (mkExit 1 "" "")), w')).
Proof.
  intros Hc Hf.
  assert (∀ w, ∃ w', run env (load_config witness_env (λ _, []) (λ _, Ok redis_unnamed) "g.yaml") w =
    (Returned (inl (applyDefaults redis_unnamed)), w')) as Hload.
  { intros w0. destruct (load_config_run witness_env (λ _, []) (λ _, Ok redis_unnamed) env "g.yaml" w0 Hc)
      as (data & w2 & w3 & Hd & Hl).
    destruct (Hf w0) as [w4 Hd']. rewrite Hd' in Hd. injection Hd as <- _. exists w3. rewrite Hl.
    f_equal. }
  split.
  - unfold runValidate. destruct (Hload w) as [w1 Hl].
    exists w1. change (Parse default_config ["-config"; "g.yaml"]) with (Parsed "g.yaml" []).
    cbv iota. by rewrite run_mbind, Hl.
  - destruct (Hload w) as [w1 Hl]. unfold main, serve_command.
    change (Parse default_config ["-config"; "g.yaml"]) with (Parsed "g.yaml" []). cbv iota.
    unfold runServe, start. rewrite !run_mbind, Hl.
    change (ParseTrustedProxies _) with (@Ok (list IPNet) []). cbv beta iota. rewrite !run_mbind.
    destruct (log_run env "INFO" "Starting API Gateway" [AInt "port" 8080] w1 Hc) as [w2 Hl2].
    change (srv_Port (gw_Server (applyDefaults redis_unnamed))) with 8080. rewrite Hl2, run_mbind.
    change (select_limiter (applyDefaults redis_unnamed))
      with (@exit Gateway.Limiter "redis rate limit backend requires redis config" []).
    unfold exit. rewrite run_mbind.
    destruct (log_run env "ERROR" "redis rate limit backend requires redis config" [] w2 Hc) as [w3 ->].
    by exists w3.
Qed.

End witnesses.
