(* ===== verification/EndToEnd.v ===== *)
(** * From the configuration to the upstreams

    What the parts guarantee together, for the handler in service: the metric
    samples it produces, the number of upstream requests a request leads to, and
    the number of requests that a rate-limited client gets through to an
    upstream. *)

From Stdlib Require Import QArith.
From S2P Require Import Prelude.
From S2P Require Import GoStrings.
From S2P Require Import Template.
From S2P Require Import ConfigTypes.
From S2P Require Import CircuitBreaker.
From S2P Require Import Http.
From S2P Require Import Metrics.
From S2P Require Import Middleware.
From S2P Require Import Router.
From S2P Require Import Resolve.
From S2P Require Import Retry.
From S2P Require Import Config.
From S2P Require Import F64.
From S2P Require Import Memory.
From S2P Require Import RateLimit.
From S2P Require Import Auth.
From S2P Require Import Proxy.
From S2P Require Import Transform.
From S2P Require Import Effects.
From S2P Require Import Limits.
From S2P Require Import Pipeline.
From S2P Require Import Gateway.

Local Open Scope Z_scope.

(** A sample that the collector takes; none counts upstream errors. *)
Definition fits : ∀ X, event X → Prop :=
  λ X e,
    match e with
    | Emit m => Metrics.accepts m = true ∧ sample_name m ≠ "gateway_upstream_errors_total"
    | _ => True
    end.

(** The most upstream requests that one request can lead to. *)
Definition most_attempts (cfg : GatewayConfig) : nat := max_list (route_attempts <$> gw_Routes cfg).

Section service.
Context `{RE : RegexpEngine} `{UT : UnicodeTables} `{RO : RangeOrder} `{YL : YamlLibrary}
  `{NP : NetPackage} `{UP : UrlPackage} `{EN : Encoders} `{CS : ContentSniffer}
  `{JP : JsonPackage} `{TF : TimeFormat} `{JL : JwtLibrary} `{ID : IntrospectionDecoder}.
Variable handleUpgradeResponse : Request → HttpResponse → prog unit.
Variable Stack : string.
Variable LookupEnv : string → option string.
Variable ValidateRawConfig : string → list string.
Variable Unmarshal : string → result GatewayConfig.
Variable load_error_text : load_error → string.

(** ** Lemmas *)

Lemma build_authenticators_costless price `{!Tame price} providers : ∀ auths,
  (∀ name a, auths !! name = Some a → costless price a) →
  ends (λ o, ∀ auths' name a, o = Some auths' → auths' !! name = Some a → costless price a) any_value
    (build_authenticators providers auths).
Proof.
  induction providers as [|[name p] providers IH]; intros auths Ha; cbn [build_authenticators].
  { intros ? name a [= <-]. apply Ha. }
  eapply ends_bind; [by apply NewAuthenticator_costless|]. intros [a|e] Hc; [|done].
  eapply ends_bind; [apply ends_any|]. intros _ _. apply IH. intros name' a' Hl.
  apply lookup_insert_Some in Hl as [[_ <-]|[_ Hl]]; [by apply Hc | by eapply Ha].
Qed.

Lemma start_costless price `{!Tame price} path :
  ends (λ o, ∀ p, o = Some p → costless_providers price (pr_deps p)) any_value
    (start handleUpgradeResponse Stack LookupEnv ValidateRawConfig Unmarshal load_error_text path).
Proof.
  unfold start. eapply ends_bind; [apply ends_any|]. intros [cfg|e] _; [|done].
  destruct (ParseTrustedProxies _) as [nets|e]; [|done].
  eapply ends_bind; [apply ends_any|]. intros _ _.
  eapply ends_bind; [apply ends_any|]. intros [lim|] _; [|done].
  eapply ends_bind.
  { apply (build_authenticators_costless price). intros name a Hl. by rewrite lookup_empty in Hl. }
  intros [auths|] Ha; [|done]. cbv zeta.
  eapply ends_bind; [apply ends_any|]. intros [[h|e] cleanup] _; [|done].
  intros p [= <-] name a Hl. by eapply Ha.
Qed.

(** The handler in service costs what its routes cost. *)
Lemma served_costs price `{!Tame price} {W} (env : environment W) path p w w1 ws st o w2 addr m :
  run env (start handleUpgradeResponse Stack LookupEnv ValidateRawConfig Unmarshal load_error_text path) w
    = (Returned (Some p), w1) →
  run env (signal_loop handleUpgradeResponse Stack LookupEnv ValidateRawConfig Unmarshal load_error_text
    path (pr_deps p) ws (pr_state p)) w1 = (Returned (st, o), w2) →
  (∀ globals route rms cb, route ∈ gw_Routes (st_cfg st) → costless_providers price (pr_deps p) →
     handler_costs price addr m (route_handler handleUpgradeResponse (pr_deps p) globals route rms cb)) →
  handler_costs price addr m (hr_h (st_current st)).
Proof.
  intros Hs Hl Hr.
  pose proof (ends_returned env _ _ _ _ _ _ (start_serving _ _ _ _ _ _ path) Hs p eq_refl) as Hp.
  pose proof (ends_returned env _ _ _ _ _ _ (start_costless price path) Hs p eq_refl) as Hc.
  destruct (ends_returned env _ _ _ _ _ _ (signal_loop_serving _ _ _ _ _ _ path _ ws _ Hp) Hl) as [_ Hg].
  eapply gateway_costs; [done | exact Hg|]. intros globals route rms cb Hin _ _. by apply Hr.
Qed.

Lemma most_attempts_ge cfg route :
  route ∈ gw_Routes cfg → (route_attempts route ≤ most_attempts cfg)%nat.
Proof. intros Hin. apply max_list_elem_of_le, list_elem_of_fmap. by exists route. Qed.

(** ** Properties *)

(** C21: From start-up on, whatever signals arrive and whatever the configuration
    files contain, every metric sample of the handler in service fits a vector of
    the collector, with one value per label and the operation of its kind, so that
    recording it never panics; and no request, on any branch, ever counts an
    upstream error. *)
Theorem served_samples_fit {W} (env : environment W) path p w w1 ws st o w2 :
  (∀ r resp, all_events fits (handleUpgradeResponse r resp)) →
  run env (start handleUpgradeResponse Stack LookupEnv ValidateRawConfig Unmarshal load_error_text path) w
    = (Returned (Some p), w1) →
  run env (signal_loop handleUpgradeResponse Stack LookupEnv ValidateRawConfig Unmarshal load_error_text
    path (pr_deps p) ws (pr_state p)) w1 = (Returned (st, o), w2) →
  ∀ r, all_events fits (hr_h (st_current st) r).
Proof.
  intros Hup Hs Hl r.
  assert (∀ X (e : event X), fits X e ↔ charge sample_price X e = 0%nat) as Hfits.
  { intros X e. destruct e; try done. cbn. unfold produced.
    destruct (Metrics.accepts m); case_bool_decide; cbn; naive_solver. }
  apply (costs_0_all_events (charge sample_price)); [intros X e; apply Hfits|].
  apply (served_costs sample_price env path p w w1 ws st o w2 (r_RemoteAddr r) 0 Hs Hl); [|done].
  intros globals route rms cb Hin Hc. rewrite <-(Nat.mul_0_r (route_attempts route)).
  apply (route_handler_costs handleUpgradeResponse sample_price); [done|by apply Forall_true|].
  apply (proxy_for_costs handleUpgradeResponse sample_price); [|done]. intros r' resp.
  eapply all_events_costs; [|apply Hup]. intros X e. apply Hfits.
Qed.

(** C20: From start-up on, a request leads to at most as many upstream requests as the
    retries of the configuration in service allow, on every branch. *)
Theorem served_attempts_bounded {W} (env : environment W) path p w w1 ws st o w2 :
  (∀ r resp, all_events no_upstream (handleUpgradeResponse r resp)) →
  run env (start handleUpgradeResponse Stack LookupEnv ValidateRawConfig Unmarshal load_error_text path) w
    = (Returned (Some p), w1) →
  run env (signal_loop handleUpgradeResponse Stack LookupEnv ValidateRawConfig Unmarshal load_error_text
    path (pr_deps p) ws (pr_state p)) w1 = (Returned (st, o), w2) →
  ∀ r, costs trip_price (most_attempts (st_cfg st)) (hr_h (st_current st) r).
Proof.
  intros Hup Hs Hl r.
  apply (served_costs trip_price env path p w w1 ws st o w2 (r_RemoteAddr r) _ Hs Hl); [|done].
  intros globals route rms cb Hin Hc r' Hr'.
  eapply costs_mono; [by apply most_attempts_ge, Hin|]. rewrite <-(Nat.mul_1_r (route_attempts route)).
  revert r' Hr'. apply (route_handler_costs handleUpgradeResponse trip_price); [done|by apply Forall_true|].
  apply (proxy_for_costs handleUpgradeResponse trip_price); [|done]. intros r' resp.
  eapply all_events_costs; [|apply Hup]. by intros X [].
Qed.

(** ** A rate limit protects its upstream *)

(** No business with upstreams, the collector or the limiter. *)
Definition aside : ∀ X, event X → Prop :=
  λ X e, match e with RoundTrip _ | Emit _ | LimiterAllow _ _ _ _ => False | _ => True end.

Lemma aside_costs {A} price `{!Tame price} m (p : prog A) : all_events aside p → costs price m p.
Proof.
  induction p as [| |X e k IH]; [done..|]. intros [He Hk]. apply costs_vis; [|auto].
  pose proof (tame_rest (price := price) X e). by destruct e.
Qed.

Ltac set_aside := match goal with |- costs ?price ?m ?p => refine (aside_costs price m p _) end.

(** The middlewares of a route once the references are resolved. *)
Definition applies (cfg : GatewayConfig) (route : RouteConfig) (rm : ResolvedMiddleware) : Prop :=
  ∃ globals rms,
    ResolveMiddlewares (gw_Middlewares cfg) (gw_MiddlewareDefinitions cfg) = Ok globals ∧
    ResolveMiddlewares (route_Middlewares route) (gw_MiddlewareDefinitions cfg) = Ok rms ∧
    rm ∈ effective globals route rms.

(** All middlewares that ask the limiter under [key] agree on the limit. *)
Definition agrees (cfg : GatewayConfig) (key : string) (limit window : Z) (algorithm : string) : Prop :=
  ∀ route rm c x, route ∈ gw_Routes cfg → applies cfg route rm → rm_Config rm = CfgRateLimit c →
    composite_key (rl_Algorithm c) (route_Name route) (rm_Name rm) x = key →
    rl_Requests c = limit ∧ rl_Window c = window ∧ rl_Algorithm c = algorithm.

(** The host is the upstream of this route only. *)
Definition sole_upstream (cfg : GatewayConfig) (route : RouteConfig) (host : string) : Prop :=
  ∀ route' upstream, route' ∈ gw_Routes cfg → route_Name route' ≠ route_Name route →
    url_Parse (up_URL (route_Upstream route')) = Ok upstream → upstream.2 ≠ host.

Definition sent_to (host : string) (q : OutRequest) : bool := bool_decide (oq_URLHost q = host).

Section guarded.
Variables (cfg : GatewayConfig) (deps : FactoryDeps) (route : RouteConfig) (name host : string).
Variables (limit window : Z) (algorithm addr : string).
Let ip : string := default addr (SplitHostPort addr).
Let key : string := composite_key algorithm (route_Name route) name ip.
Let m : nat := route_attempts route.
Hypothesis Hup : ∀ r resp, all_events aside (handleUpgradeResponse r resp).
Hypothesis Hauth : ∀ name a, fd_Authenticators deps !! name = Some a → ∀ r, all_events aside (a r).

(** The route behind its limit: the requests to its upstream are paid for. *)
Lemma guarded_route_credit globals rms rm cb :
  fd_TrustedProxies deps = [] → Forall config_matches (effective globals route rms) →
  rm ∈ effective globals route rms → rm_Name rm = name →
  rm_Config rm = CfgRateLimit (mkRateLimitConfig limit window "ip" algorithm) →
  handler_costs (credit_price (sent_to host) key m) addr 0
    (route_handler handleUpgradeResponse deps globals route rms cb).
Proof using Hup Hauth.
  intros Hnets Hmatch Hin Hname Hcfg. unfold route_handler. cbv zeta.
  set (all := effective globals route rms) in *.
  assert (rm ∈ filter (λ mw, ¬ is_transform mw) all ++ filter is_transform all)
    as (l1 & l2 & ->)%list_elem_of_split.
  { apply elem_of_app. left. apply list_elem_of_filter. split; [|done].
    rewrite Forall_forall in Hmatch. specialize (Hmatch rm Hin). unfold config_matches in Hmatch.
    rewrite Hcfg in Hmatch. unfold is_transform. rewrite Hmatch. by intros []. }
  rewrite fmap_app, fmap_cons, Chain_foldr, foldr_app, <-Chain_foldr. cbn [foldr].
  assert (costless_providers (credit_price (sent_to host) key m) deps) as Hc.
  { intros n a Ha r. set_aside. by eapply Hauth. }
  assert (∀ rms, Forall (free_to_ask (credit_price (sent_to host) key m) (route_Name route)) rms) as Hf
    by (intros; by apply Forall_true).
  apply (layers_cost (credit_price (sent_to host) key m)); [done..|].
  assert (middleware_for deps (route_Name route) rm =
    limited (mkRateLimitConfig limit window "ip" algorithm) (route_Name route) name []) as ->
    by (unfold middleware_for; by rewrite Hcfg, Hname, Hnets).
  intros r Hr. assert (key = composite_key algorithm (route_Name route) name (remoteAddrIP r)) as Hkey
    by (unfold key, ip, remoteAddrIP; by rewrite Hr).
  rewrite Hkey. apply limited_credit. rewrite <-Hkey. revert r Hr Hkey.
  assert (handler_costs (credit_price (sent_to host) key m) addr m
    (Chain (middleware_for deps (route_Name route) <$> l2)
       (resilient route cb (proxy_for handleUpgradeResponse route)))) as Hnext.
  { apply (layers_cost (credit_price (sent_to host) key m)); [done..|].
    pose proof (resilient_costs (credit_price (sent_to host) key m) addr 1 route cb
      (proxy_for handleUpgradeResponse route)) as Hres.
    rewrite Nat.mul_1_r in Hres. apply Hres. apply proxy_for_costs; [apply _| |].
    - intros r' resp. set_aside. apply Hup.
    - intros upstream timeout r' h _. cbn. destruct (sent_to host _); lia. }
  intros r Hr _. rewrite Chain_foldr in Hnext. by apply Hnext.
Qed.

(** The other routes do not reach it. *)
Lemma other_route_credit globals route' rms cb :
  (∀ upstream, url_Parse (up_URL (route_Upstream route')) = Ok upstream → upstream.2 ≠ host) →
  handler_costs (credit_price (sent_to host) key m) addr 0
    (route_handler handleUpgradeResponse deps globals route' rms cb).
Proof using Hup Hauth.
  intros Hhost. rewrite <-(Nat.mul_0_r (route_attempts route')).
  apply route_handler_costs; [apply _| |by apply Forall_true|].
  { intros n a Ha r. set_aside. by eapply Hauth. }
  apply proxy_for_costs; [apply _| |].
  - intros r' resp. set_aside. apply Hup.
  - intros upstream timeout r' h Hu. cbn. unfold sent_to. cbn.
    by rewrite bool_decide_false by (by apply Hhost).
Qed.

Lemma route_no_conflict globals route' rms cb :
  agrees cfg key limit window algorithm → route' ∈ gw_Routes cfg →
  ResolveMiddlewares (gw_Middlewares cfg) (gw_MiddlewareDefinitions cfg) = Ok globals →
  ResolveMiddlewares (route_Middlewares route') (gw_MiddlewareDefinitions cfg) = Ok rms →
  handler_costs (conflict_price key limit window algorithm) addr 0
    (route_handler handleUpgradeResponse deps globals route' rms cb).
Proof using Hup Hauth.
  intros Hag Hin Hg Hr. rewrite <-(Nat.mul_0_r (route_attempts route')).
  apply route_handler_costs; [apply _| | |].
  - intros n a Ha r. set_aside. by eapply Hauth.
  - rewrite Forall_forall. intros rm Hrm c x Hc. cbn. rewrite bool_decide_false; [done|].
    intros [Hk Hne]. apply Hne. eapply (Hag route' rm c x); [done| |done..]. by exists globals, rms.
  - apply proxy_for_costs; [apply _| |done]. intros r' resp.
    set_aside. apply Hup.
Qed.

End guarded.

End service.

(** ** Witnesses *)

(** Every [rate_limit] mapping decodes to two requests per minute and address. *)
Definition limit_yaml : YamlLibrary := {|
  decode_cors _ := Ok zero_CORS;
  decode_rate_limit _ := Ok (mkRateLimitConfig 2 Minute "ip" "sliding_window");
  decode_auth _ := Ok (mkAuthMiddlewareConfig ["key"]);
  decode_transform _ := Ok zero_Transform;
  yaml_Marshal _ := Ok "";
|}.

(** One route behind a global rate limit. *)
Definition limited_config : GatewayConfig :=
  mkGatewayConfig (mkServerConfig "" 0 0 0 0 0 [] 0) (mkLoggingConfig "")
    (mkRateLimitGlobalConfig "" None) ∅
    {["limit" := mkMiddlewareDefinition "rate_limit" (mapping [])]}
    [mkMiddlewareRef "limit" zero_Node] [witness_route "users" "/" "" []].

Section witnesses.
Local Existing Instances accept_engine ascii_tables sorted_range key_yaml text_net text_url
  text_encoders no_sniffer toy_json toy_time no_key_files toy_jwt toy_decoder.

Abbreviation guarded_start :=
  (start no_upgrade "" witness_env (λ _, []) (λ _, Ok guarded_config) (λ _, "invalid") "gateway.yaml").
Abbreviation guarded_loop p ws :=
  (signal_loop no_upgrade "" witness_env (λ _, []) (λ _, Ok guarded_config) (λ _, "invalid")
     "gateway.yaml" (pr_deps p) ws (pr_state p)).

(** A gateway that starts and is reloaded once. *)
Lemma guarded_serves :
  ∃ p st o w', run quiet_env guarded_start tt = (Returned (Some p), tt) ∧
    run quiet_env (guarded_loop p [SIGHUP]) tt = (Returned (st, o), w').
Proof.
  destruct guarded_starts as [p Hp]. exists p.
  destruct (ends_run quiet_env _ _ tt quiet_env_no_crash
    (signal_loop_serving no_upgrade "" witness_env (λ _, []) (λ _, Ok guarded_config) (λ _, "invalid")
       "gateway.yaml" (pr_deps p) [SIGHUP] (pr_state p)
       (ends_returned _ _ _ _ _ _ _ (start_serving _ _ _ _ _ _ _) Hp p eq_refl)))
    as ([st o] & w' & Hr & _).
  exists st, o, w'. split; [exact Hp | exact Hr].
Qed.

Lemma served_samples_fit_witness :
  ∃ p st o w', run quiet_env (guarded_loop p [SIGHUP]) tt = (Returned (st, o), w') ∧
    ∀ r, all_events fits (hr_h (st_current st) r).
Proof.
  destruct guarded_serves as (p & st & o & w' & Hs & Hl). exists p, st, o, w'. split; [exact Hl|].
  apply (served_samples_fit no_upgrade "" witness_env (λ _, []) (λ _, Ok guarded_config) (λ _, "invalid")
    quiet_env "gateway.yaml" p tt tt [SIGHUP] st o w'); [done | exact Hs | exact Hl].
Defined.

Lemma served_attempts_bounded_witness :
  ∃ p st o w', run quiet_env (guarded_loop p [SIGHUP]) tt = (Returned (st, o), w') ∧
    ∀ r, costs trip_price (most_attempts (st_cfg st)) (hr_h (st_current st) r).
Proof.
  destruct guarded_serves as (p & st & o & w' & Hs & Hl). exists p, st, o, w'. split; [exact Hl|].
  apply (served_attempts_bounded no_upgrade "" witness_env (λ _, []) (λ _, Ok guarded_config)
    (λ _, "invalid") quiet_env "gateway.yaml" p tt tt [SIGHUP] st o w'); [done | exact Hs | exact Hl].
Defined.
End witnesses.

Section limited_witness.
Local Existing Instances literal_engine ascii_tables sorted_range limit_yaml text_net text_url
  text_encoders no_sniffer toy_json toy_time.

Definition open_deps : FactoryDeps := mkFactoryDeps ∅ [].
Definition silent_upgrade : Request → HttpResponse → prog unit := λ _ _, mret tt.

Abbreviation build_limited :=
  (run quiet_env (BuildHandler silent_upgrade "" limited_config open_deps DefaultRegistry) tt).

(** Three requests of one address; two reach the upstream. *)
Definition limited_trips (gw : Handler) : nat :=
  (serve_all (Lim := memory_limiter (H := ideal_arith)) (upstream_env (mkBody "hello" None))
     (sent_to "//up") gw (replicate 3 (proxied_request, ∅))
     (NewMemoryLimiter (Ar := ideal_arith), (0%nat, tt))).2.1.

Lemma limited_builds : ∃ gw transport w', build_limited = (Returned (Ok gw, transport), w').
Proof.
  destruct (ends_run quiet_env _ _ tt quiet_env_no_crash
    (BuildHandler_yields silent_upgrade "" limited_config open_deps))
    as ([[gw|e] t] & w' & Hr & Hb); [exists gw, t, w'; exact Hr|].
  exfalso. apply Hb. split; [eexists; vm_compute; reflexivity|].
  intros route ->%list_elem_of_singleton. split; [eexists; vm_compute; reflexivity|].
  split; [by eexists|]. intros n p Hn.
  change ((∅ : gmap string string) !! n = Some p) in Hn. by rewrite lookup_empty in Hn.
Qed.

End limited_witness.
